(* ===== verification/_CoqProject ===== *)
-Q . S2P
Prelude.v
RustStd.v
Externals.v
Envelope.v
Stream.v
Instances.v
Framing.v
Duplex.v
HandshakeIo.v
Verifier.v
Socks5.v
TextSpec.v
HttpConnect.v
ProxyDial.v
ProxyPeers.v
UdpWire.v
DataPlane.v
UdpHandshake.v
UdpConnect.v
UdpServer.v
UdpServerRuns.v
UdpEndToEnd.v
UdpSlowLink.v
CookieWindow.v
Server.v
TcpServer.v
UdpService.v
PendingMap.v
EventStream.v
TopicStream.v
Client.v
UdpClient.v
UdpSession.v
TcpEndToEnd.v
Segmentation.v
EventDelivery.v
UdpEvents.v
UnitTests.v
IntegrationTests.v
