(* ===== verification/Prelude.v ===== *)
(** * A verification of vaiexia-obfs

    vaiexia-obfs carries a request/response and event protocol (the types and
    the service of the crate vaiexia-core) over connections that look like
    something else (the mimicry profiles of the crate vaiexia-wire), encrypted
    with Noise-XK.  It has two transports:

    - TCP: length-framed Noise records over a byte stream, reached directly or
      through a chain of SOCKS5 and HTTP CONNECT proxies;
    - UDP: datagrams sealed by a record layer, after a handshake with
      retransmission and a stateless cookie challenge against floods.

    Each transport has a client (a handle whose calls talk to a background pump
    task) and a server (which authenticates the client's static key through a
    transport gate, dispatches requests to the service and forwards events of
    granted subscriptions).

    ** Files

    Foundations:
    - [Prelude]: bytes and machine integers, [Result], the monad [IO] of
      asynchronous fallible code ([Pending] is a future still waiting), tactics
      and the hint database [obfs];
    - [RustStd]: what the code uses of Rust's standard library: I/O errors,
      string searching and splitting, integer parsing and printing, UTF-8,
      socket addresses;
    - [Externals]: the other crates as classes of operations ([WireApi],
      [CoreApi]), the trait objects as records ([MimicryProfile],
      [DatagramMimicry]), and the laws the theorems rely on ([ProfileLaws],
      [FrontLaws], [SessionLaws], [DuplexLaws], [DatagramLaws]; next to their use
      [RecordLaws] in [DataPlane], [CookieLaws] in [UdpHandshake],
      [CookieWindowLaws] in [CookieWindow], [OpenAuth] in [UdpService],
      [BroadcastLaws] in [EventStream], [DedupLaws] in [TopicStream]);
    - [Stream]: tokio's [AsyncRead]/[AsyncWrite] as the class [AsyncIo] with
      laws that leave the chunking of reads open;
    - [Instances]: a concrete instance of every interface that meets all the
      laws, on which the concrete runs are evaluated;
    - [TextSpec]: UTF-8, decimal numerals, lines and fields, defined without the
      functions of [RustStd], which are shown to decide them.

    TCP:
    - [Envelope]: src/envelope.rs and the error type of src/lib.rs;
    - [Framing]: src/framing.rs, [Duplex]: both directions of a framed session;
    - [HandshakeIo]: src/handshake_io.rs;
    - [Verifier]: src/verifier.rs;
    - [Socks5], [HttpConnect], [ProxyDial]: src/proxy/socks5.rs,
      src/proxy/http_connect.rs, src/proxy/mod.rs; [ProxyPeers]: the proxies
      in the test modules of the first two, and the tunnels against them;
    - [Server]: one connection of src/server.rs; the loop of
      [handle_connection] is [conn_turn]; [TcpServer]: [serve_obfs], the accept
      loop, the connection tasks and the service they share;
    - [PendingMap], [Client]: src/client.rs; the pump is [pump_step], one
      statement at a time after the loop, and a [request] is the steps
      [call_new], [call_send], [call_poll];
    - [EventStream], [TopicStream]: the stream [subscribe] returns, of both
      clients: the receiver's loop, and the same behind [dedup_by_seq];
    - [TcpEndToEnd]: the two against each other, from [connect] and
      [handle_connection] to the responses of a list of requests;
    - [Segmentation]: the receive loops against a reference that sees all the
      bytes at once, and client and server on streams cut in different ways;
    - [EventDelivery]: the events of a server's sources, through the
      connection of a client to the streams of its subscribers.

    UDP:
    - [UdpWire]: src/udp/wire_dgram.rs, src/udp/keys.rs, src/udp/cookie_gate.rs;
    - [DataPlane]: src/udp/dataplane.rs;
    - [UdpHandshake]: the encodings and the server's two steps of
      src/udp/handshake.rs; [UdpConnect]: the client's handshake of the same
      file, over a scripted network;
    - [UdpServer], [UdpServerRuns]: src/udp/server.rs; [handle_dgram] with its
      branches, the sealer tasks, forwarders, send loop and rotation as steps;
    - [UdpEndToEnd]: the client's handshake against [handle_dgram];
      [UdpSlowLink]: the same on a link slower than the retransmission timer;
    - [CookieWindow]: the cookie challenge across rotations of the secret;
    - [UdpService]: the envelopes the server executes over a whole run;
    - [UdpClient]: src/udp/client.rs;
    - [UdpSession]: the requests of a connected client against [handle_dgram],
      over a network that loses datagrams and carries forged ones;
    - [UdpEvents]: the events of a subscription, from the forwarder to the
      client's broadcast channel.

    Tests:
    - [UnitTests]: the test modules of the source files as programs over the
      definitions, run on the reference instance;
    - [IntegrationTests]: the tests under tests/ in the same way, on a client
      and a server connected to each other, with the proxies they contain.

    ** Correspondence

    A function of the source is a definition of the same name; a long one is
    split at its branches, and the pieces are composed the way the source
    composes them.  [&mut] parameters are threaded; what several tasks share
    (channels behind [Arc], queues, the pending map) is a store of the state
    with references into it.  Tasks interleave: a run is an arbitrary sequence
    of steps, and a step is what a task does between two points where shared
    state can change.  Time is an argument (the readings of the clock in
    [Ambient]) or an outcome ([Elapsed] in [UdpConnect]; a call that is still
    waiting at its turn in [UdpClient]).  Randomness is an argument.

    Loops that end by themselves are structural (over tries, attempts, hops,
    the events of a script).  Those that read until a frame is complete take a
    fuel; the theorems ask for more fuel than bytes the stream still delivers,
    and since a read returns at least one byte, that is always enough; with no
    fuel left the model reports [Pending], never a result.

    ** Theorems

    - Delivery: envelopes over TCP arrive once and in order for every chunking
      ([Framing]); over UDP each datagram counts once, and within the replay
      window does count ([DataPlane]); dropping a
      waiting receive loses nothing; a subscriber's stream gives the events of
      its topic in order, each number once, and all of them up to lag and
      numbers that do not increase ([TopicStream], [UdpClient]); events pushed
      for a TCP client follow a grant, are broadcast by it in order, and with
      enough turns those of a topic all reach its subscribers, if there are at
      most 256 and their numbers increase ([EventDelivery]); a UDP client broadcasts only
      events of the server's records, each once ([UdpEvents]).
    - Handshakes: both ends agree ([HandshakeIo], [UdpEndToEnd]); the UDP
      client terminates, ignores other sources and succeeds only against a
      server that knows the seed, which is drawn afresh in every attempt
      ([UdpConnect]).
    - Authorisation: no peer without the gate, no event without a granted
      subscription, no half-open state under load without a cookie ([Server],
      [UdpServer], [Verifier]); nothing reaches the service of the TCP server
      but through an admitted task ([TcpServer]); a cookie is good for its epoch
      and the next ([CookieWindow]).
    - Service: one contract ([respond] in [Server]) for both transports.  The
      TCP server, with all its connections interleaved, acts on the service
      like an atomic object, answers each client along one history, and lets
      every connection make progress ([TcpServer]); the UDP server runs on it
      only records of authenticated handshakes, each at most once
      ([UdpService]), and a fresh request once ([UdpServer]);
      responses reach the request with their id, a disconnection fails what was
      pending, and UDP requests always return ([Client], [UdpClient]); a TCP
      client and server connected to each other serve every request
      ([TcpEndToEnd]); UDP calls over a network that loses datagrams, and in which
      others forge and replay them, implement an at-least-once call
      ([call_spec] in [UdpSession]).
    - Segmentation: how TCP cuts the bytes into reads makes no difference, for
      single receives, handshakes, dialling, the server's loop and the client's
      pump ([Segmentation]; [conn_sim] and [client_sim] are the simulation
      relations).
    - Bounds: the UDP server's maps, the HTTP response head, SOCKS5 field
      lengths.
    - Proxies: the tunnels are measured against specifications of their
      protocols that do not use the code's own functions: the SOCKS5 sessions
      of RFC 1928 and 1929, with the demands the code does not check named one
      by one ([Demand] in [Socks5]), and the CONNECT request and status of a
      response head as texts ([connect_text], [head_status] in [HttpConnect]).
      [dial] succeeds exactly on chains of them over the one connection to the
      first hop; with the proxies of the tests the tunnels agree on every
      outcome, the proxies' own dials included ([ProxyPeers]).
    - Tests: the unit tests and the integration tests of the repository are
      evaluated on the definitions ([tests_pass] in [IntegrationTests]), as a
      check of the definitions and not as a theorem about them.
    - Behaviour that departs from the comments or the intent of the code:
      [slow_link_never_connects], [full_server_ignores_clients], [hs3_ignores_peer_limit],
      [events_sent_after_eviction], [request_can_hang], [pump_outlives_handle],
      [event_stream_outlives_connection], [refused_subscriber_waits],
      [read_frame_drops_coalesced], [socks5_accepts_unoffered_method].

    ** Not modelled

    The ciphers, the Noise patterns, the profiles and the service (other
    crates); JSON (a pair of functions with a round-trip law); what the combinator
    [dedup_by_seq] of vaiexia-core does with a sequence number that is new but
    not the highest (its laws leave it open); on the servers'
    side, how far a forwarder lags, beyond the fact that it goes on after it; sleeps
    (jitter only draws from the generator); the abortion of a task in the middle
    of a step; the interleaving of handlers inside the service ([handle] is one
    step).  Of the tests, the set-up of sockets and tasks, and the verifiers and
    handlers they give to the service.  src/lib.rs and src/udp/mod.rs declare modules
    and re-exports besides the error type. *)

From Stdlib Require Export Init.Byte Strings.Byte.
From Stdlib Require String.
From stdpp Require Export prelude list gmap.
Export String.StringSyntax.

(** Preservation lemmas of the components, for [eauto]. *)
Create HintDb obfs.

(** Linear arithmetic with division and remainder by constants. *)
Ltac divlia := Z.div_mod_to_equations; lia.

(** ** Bytes and machine integers *)

(** Rust's [u8] is the 256-element type of bytes; [Vec<u8>], [&[u8]] and the
    UTF-8 contents of [String]/[&str] are lists of them. *)
Abbreviation bytes := (list byte).

#[global] Instance byte_eq_dec' : EqDecision byte := Byte.byte_eq_dec.

#[global] Program Instance byte_countable : Countable byte :=
  inj_countable Byte.to_N Byte.of_N _.
Next Obligation. intros b. apply Byte.of_to_N. Qed.

(** The numeric value of a byte, and the truncating conversion [as u8]. *)
Definition byte_Z (b : byte) : Z := Z.of_N (Byte.to_N b).
Definition as_u8 (z : Z) : byte := default x00 (Byte.of_N (Z.to_N (z mod 256))).

(** String literals of the source, as bytes. *)
Definition str (s : String.string) : bytes := String.list_byte_of_string s.
Arguments str _%_string_scope.

Lemma byte_Z_range (b : byte) : (0 <= byte_Z b < 256)%Z.
Proof. unfold byte_Z. pose proof (Byte.to_N_bounded b). lia. Qed.

Lemma byte_Z_as_u8 (z : Z) : byte_Z (as_u8 z) = (z mod 256)%Z.
Proof.
  unfold byte_Z, as_u8.
  pose proof (Z.mod_pos_bound z 256 ltac:(lia)) as Hm.
  destruct (Byte.of_N _) as [b|] eqn:E; simpl.
  - apply Byte.to_of_N in E. rewrite E. lia.
  - apply Byte.of_N_None_iff in E. lia.
Qed.

Lemma as_u8_byte_Z (b : byte) : as_u8 (byte_Z b) = b.
Proof.
  unfold as_u8, byte_Z.
  pose proof (Byte.to_N_bounded b).
  rewrite Z.mod_small by lia. rewrite N2Z.id. by rewrite Byte.of_to_N.
Qed.

Lemma byte_Z_inj (a b : byte) : byte_Z a = byte_Z b -> a = b.
Proof. intros H. by rewrite <-(as_u8_byte_Z a), <-(as_u8_byte_Z b), H. Qed.

(** [u16::to_be_bytes] and [u16::from_be_bytes]. *)
Definition to_be_u16 (n : Z) : bytes := [as_u8 (n / 256); as_u8 n].
Definition from_be_u16 (hi lo : byte) : Z := (byte_Z hi * 256 + byte_Z lo)%Z.

Lemma from_to_be_u16 (n : Z) :
  from_be_u16 (as_u8 (n / 256)) (as_u8 n) = (n mod 65536)%Z.
Proof.
  unfold from_be_u16. rewrite !byte_Z_as_u8.
  change 65536%Z with (256 * 256)%Z.
  rewrite (Z.rem_mul_r n 256 256) by lia. lia.
Qed.

(** ** Lists *)

(** An element of two lists in a row is in the one or in the other. *)
Lemma app_split_at {A} (l1 l2 h1 h2 : list A) x :
  l1 ++ l2 = h1 ++ x :: h2 ->
  (exists k, l1 = h1 ++ x :: k) \/ (exists k, h1 = l1 ++ k /\ l2 = k ++ x :: h2).
Proof.
  intros [(k & E1 & E2)|(k & E1 & E2)]%app_eq_inv; [|by right; exists k].
  destruct k as [|y k]; simpl in E2; [right; exists []|left; exists k].
  - by rewrite E1, !app_nil_r, E2.
  - by injection E2 as -> _.
Qed.

(** ** Results, polls and the I/O monad *)

(** [Result<A, E>]. *)
Inductive Res (E A : Type) : Type :=
| Ok (a : A)
| Err (e : E).
Arguments Ok {E A} _.
Arguments Err {E A} _.

Definition is_ok {E A} (r : Res E A) : bool :=
  match r with Ok _ => true | Err _ => false end.

(** The outcome of awaiting a future in a given run: it completed with a
    value, or it is still waiting when the run is observed. *)
Inductive Poll (A : Type) : Type :=
| Ready (a : A)
| Pending.
Arguments Ready {A} _.
Arguments Pending {A}.

(** An asynchronous computation over the state [S] that may fail with [E]. *)
Definition IO (S E A : Type) : Type := S -> Poll (Res E A) * S.

Definition io_ret {S E A} (a : A) : IO S E A := fun s => (Ready (Ok a), s).
Definition io_fail {S E A} (e : E) : IO S E A := fun s => (Ready (Err e), s).

(** [m.await?] followed by the rest of the function. *)
Definition io_bind {S E A B} (m : IO S E A) (k : A -> IO S E B) : IO S E B :=
  fun s =>
    match m s with
    | (Ready (Ok a), s') => k a s'
    | (Ready (Err e), s') => (Ready (Err e), s')
    | (Pending, s') => (Pending, s')
    end.

(** The [From] conversion that [?] applies to the error. *)
Definition io_map_err {S E F A} (f : E -> F) (m : IO S E A) : IO S F A :=
  fun s =>
    match m s with
    | (Ready (Ok a), s') => (Ready (Ok a), s')
    | (Ready (Err e), s') => (Ready (Err (f e)), s')
    | (Pending, s') => (Pending, s')
    end.

(** A synchronous fallible call inside an asynchronous function. *)
Definition io_of_res {S E A} (r : Res E A) : IO S E A := fun s => (Ready r, s).

Definition res_map_err {E F A} (f : E -> F) (r : Res E A) : Res F A :=
  match r with Ok a => Ok a | Err e => Err (f e) end.

(** A callee that also updates a local variable of the caller: on success the
    new value is returned next to the result; an early return drops it. *)
Definition io_local {S L E A} (m : IO (S * L) E A) (l : L) : IO S E (A * L) :=
  fun s =>
    match m (s, l) with
    | (Ready (Ok a), (s', l')) => (Ready (Ok (a, l')), s')
    | (Ready (Err e), (s', _)) => (Ready (Err e), s')
    | (Pending, (s', _)) => (Pending, s')
    end.

(** A synchronous call that returns the updated receiver. *)
Definition io_call {S E F L A} (f : F -> E) (r : Res F A * L) : IO S E (A * L) :=
  fun s =>
    match r with
    | (Ok a, l) => (Ready (Ok (a, l)), s)
    | (Err e, _) => (Ready (Err (f e)), s)
    end.

Declare Scope io_scope.
Delimit Scope io_scope with io.
Notation "'let*' x ':=' m 'in' k" := (io_bind m (fun x => k))
  (at level 10, x pattern, m at level 100, k at level 200) : io_scope.
Notation "m ';;;' k" := (io_bind m (fun _ => k))
  (at level 199, right associativity) : io_scope.
Open Scope io_scope.

(** Running a bind, by the outcome of its first half. *)
Lemma io_bind_ok {S E A B} (m : IO S E A) (k : A -> IO S E B) s a s' :
  m s = (Ready (Ok a), s') -> io_bind m k s = k a s'.
Proof. unfold io_bind. by intros ->. Qed.

Lemma io_bind_err {S E A B} (m : IO S E A) (k : A -> IO S E B) s e s' :
  m s = (Ready (Err e), s') -> io_bind m k s = (Ready (Err e), s').
Proof. unfold io_bind. by intros ->. Qed.

Lemma io_bind_inv {S E A B} (m : IO S E A) (k : A -> IO S E B) s b s'' :
  io_bind m k s = (Ready (Ok b), s'') ->
  exists a s', m s = (Ready (Ok a), s') /\ k a s' = (Ready (Ok b), s'').
Proof. unfold io_bind. destruct (m s) as [[[a|e]|] s']; [by eauto|done|done]. Qed.

Lemma io_map_err_ok {S E F A} (f : E -> F) (m : IO S E A) s a s' :
  m s = (Ready (Ok a), s') -> io_map_err f m s = (Ready (Ok a), s').
Proof. unfold io_map_err. by intros ->. Qed.

Lemma io_map_err_err {S E F A} (f : E -> F) (m : IO S E A) s e s' :
  m s = (Ready (Err e), s') -> io_map_err f m s = (Ready (Err (f e)), s').
Proof. unfold io_map_err. by intros ->. Qed.

Lemma io_map_err_inv {S E F A} (f : E -> F) (m : IO S E A) s a s' :
  io_map_err f m s = (Ready (Ok a), s') -> m s = (Ready (Ok a), s').
Proof. unfold io_map_err. destruct (m s) as [[[?|?]|] ?]; congruence. Qed.

Lemma io_local_ok {S L E A} (m : IO (S * L) E A) l s a s' l' :
  m (s, l) = (Ready (Ok a), (s', l')) -> io_local m l s = (Ready (Ok (a, l')), s').
Proof. unfold io_local. by intros ->. Qed.

Lemma io_call_ok {S E F L A} (f : F -> E) (r : Res F A * L) a l (s : S) :
  r = (Ok a, l) -> io_call f r s = (Ready (Ok (a, l)), s).
Proof. by intros ->. Qed.

Lemma io_call_err {S E F L A} (f : F -> E) (r : Res F A * L) e l (s : S) :
  r = (Err e, l) -> io_call f r s = (Ready (Err (f e)), s).
Proof. by intros ->. Qed.

(** Symbolic execution: run the next step of an [io_bind] whose outcome is
    known from the hypothesis [H]. *)
Ltac io_step H :=
  first
    [ erewrite io_bind_ok by (first [exact H | apply io_map_err_ok; exact H | apply io_local_ok; exact H | apply io_call_ok; exact H])
    | erewrite io_bind_err by (first [exact H | apply io_map_err_err; exact H | apply io_call_err; exact H]) ];
  cbv beta iota zeta.

(** [u32::to_be_bytes] and [from_be_bytes], from the two halves. *)
Definition to_be_u32 (n : Z) : bytes := to_be_u16 (n / 65536) ++ to_be_u16 n.
Definition from_be_u32 (a b c d : byte) : Z :=
  (from_be_u16 a b * 65536 + from_be_u16 c d)%Z.

Lemma from_to_be_u32 (n : Z) :
  match to_be_u32 n with
  | [a; b; c; d] => from_be_u32 a b c d = (n mod 4294967296)%Z
  | _ => False
  end.
Proof.
  cbn [to_be_u32 to_be_u16 app]. unfold from_be_u32. rewrite !from_to_be_u16.
  change 4294967296%Z with (65536 * 65536)%Z.
  rewrite (Z.rem_mul_r n 65536 65536) by lia. lia.
Qed.

(** Or-ing a value below a left shift adds it. *)
Lemma lor_shiftl_add (a b k : Z) :
  (0 <= k)%Z -> (0 <= b < 2 ^ k)%Z -> Z.lor (Z.shiftl a k) b = (a * 2 ^ k + b)%Z.
Proof.
  intros Hk Hb.
  assert (Z.land (Z.shiftl a k) b = 0%Z) as Hland.
  { apply Z.bits_inj_0. intros i. rewrite Z.land_spec.
    destruct (Z.lt_ge_cases i 0) as [Hi|Hi]; [by rewrite Z.testbit_neg_r|].
    destruct (Z.lt_ge_cases i k) as [Hik|Hik].
    - rewrite Z.shiftl_spec_low by lia. done.
    - apply andb_false_intro2. rewrite Z.testbit_false by lia.
      rewrite Z.div_small; [done|]. split; [lia|].
      apply Z.lt_le_trans with (2 ^ k)%Z; [lia|]. by apply Z.pow_le_mono_r; lia. }
  pose proof (Z.add_lor_land (Z.shiftl a k) b) as H.
  rewrite Hland, Z.add_0_r in H. by rewrite H, Z.shiftl_mul_pow2.
Qed.
