(* ===== verification/RustStd.v ===== *)
(** * The parts of Rust's standard library the crate relies on

    [std::io::Error], and the string and slice methods used by the proxy
    dialers: UTF-8 validation, [lines], [splitn], [rfind], [ends_with],
    [chunks], the decimal [Display] and [FromStr] of [u16], and the [02x]
    hexadecimal format.  Strings are the lists of their UTF-8 bytes; every
    separator searched for is ASCII, so searching bytes and searching
    characters agree. *)

From S2P Require Import Prelude.

(** ** std::io::Error *)

Inductive ErrorKind : Type :=
| NotFound
| UnexpectedEof
| InvalidData
| Other
| OsKind (code : Z).   (** every other kind, as reported by the system *)

Record IoError : Type := mkIoError { kind : ErrorKind; message : bytes }.

#[global] Instance ErrorKind_eq_dec : EqDecision ErrorKind.
Proof. solve_decision. Defined.

(** [std::io::Error::other]. *)
Definition io_other (msg : bytes) : IoError := mkIoError Other msg.

(** ** Searching and splitting *)

(** [str::split_once] on an ASCII separator. *)
Fixpoint split_once (c : byte) (s : bytes) : option (bytes * bytes) :=
  match s with
  | [] => None
  | x :: s' =>
      if decide (x = c) then Some ([], s')
      else match split_once c s' with
           | Some (a, b) => Some (x :: a, b)
           | None => None
           end
  end.

(** [str::splitn]: at most [n] pieces, the last one unsplit. *)
Fixpoint splitn (n : nat) (c : byte) (s : bytes) : list bytes :=
  match n with
  | 0 => []
  | 1 => [s]
  | S n' => match split_once c s with
            | Some (a, b) => a :: splitn n' c b
            | None => [s]
            end
  end.

(** [str::rfind]: the index of the last occurrence. *)
Fixpoint rfind (c : byte) (s : bytes) : option nat :=
  match s with
  | [] => None
  | x :: s' =>
      match rfind c s' with
      | Some i => Some (S i)
      | None => if decide (x = c) then Some 0 else None
      end
  end.

(** [<[u8]>::ends_with]. *)
Definition ends_with (suf s : bytes) : bool :=
  bool_decide (length suf <= length s /\ drop (length s - length suf) s = suf).

(** Dropping one trailing byte [c], as [str::strip_suffix] does. *)
Definition strip_last (c : byte) (s : bytes) : bytes :=
  match last s with
  | Some x => if decide (x = c) then take (length s - 1) s else s
  | None => s
  end.

(** [s.lines().next()]: the text before the first line feed, without the
    carriage return that precedes it; the whole text when there is none. *)
Definition lines_next (s : bytes) : option bytes :=
  match s with
  | [] => None
  | _ => match split_once x0a s with
         | Some (line, _) => Some (strip_last x0d line)
         | None => Some s
         end
  end.

(** [slice.chunks(3)]. *)
Fixpoint chunks3 (s : bytes) : list bytes :=
  match s with
  | a :: b :: c :: s' => [a; b; c] :: chunks3 s'
  | [] => []
  | s => [s]
  end.

(** ** UTF-8 validation, [std::str::from_utf8] *)

Definition in_range (lo hi : Z) (b : byte) : bool :=
  ((lo <=? byte_Z b) && (byte_Z b <=? hi))%Z.

Definition cont : byte -> bool := in_range 128 191.

(** The admissible second byte after a given lead of a 3- or 4-byte form. *)
Definition second3 (lead b : byte) : bool :=
  if decide (lead = xe0) then in_range 160 191 b
  else if decide (lead = xed) then in_range 128 159 b
  else cont b.

Definition second4 (lead b : byte) : bool :=
  if decide (lead = xf0) then in_range 144 191 b
  else if decide (lead = xf4) then in_range 128 143 b
  else cont b.

Fixpoint from_utf8 (s : bytes) : bool :=
  match s with
  | [] => true
  | a :: s1 =>
      if in_range 0 127 a then from_utf8 s1
      else if in_range 194 223 a then
        match s1 with
        | b :: s2 => cont b && from_utf8 s2
        | _ => false
        end
      else if in_range 224 239 a then
        match s1 with
        | b :: c :: s3 => second3 a b && cont c && from_utf8 s3
        | _ => false
        end
      else if in_range 240 244 a then
        match s1 with
        | b :: c :: d :: s4 => second4 a b && cont c && cont d && from_utf8 s4
        | _ => false
        end
      else false
  end.

(** ** Decimal integers *)

Definition digit_val (c : byte) : option Z :=
  if in_range 48 57 c then Some (byte_Z c - 48)%Z else None.

(** The digit loop of [u16::from_str]: every step checks for overflow. *)
Fixpoint parse_digits (acc : Z) (s : bytes) : option Z :=
  match s with
  | [] => Some acc
  | c :: s' =>
      match digit_val c with
      | Some d => let acc' := (acc * 10 + d)%Z in
                  if (acc' <=? 65535)%Z then parse_digits acc' s' else None
      | None => None
      end
  end.

(** [str::parse::<u16>()]: one leading plus sign is accepted, an empty digit
    string is not. *)
Definition parse_u16 (s : bytes) : option Z :=
  match s with
  | [] => None
  | c :: s' =>
      if decide (c = x2b) then
        match s' with [] => None | _ => parse_digits 0 s' end
      else parse_digits 0 s
  end.

(** The decimal [Display] of an unsigned integer below 10^20. *)
Fixpoint show_digits (fuel : nat) (n : Z) (acc : bytes) : bytes :=
  match fuel with
  | 0 => acc
  | S f =>
      let acc' := as_u8 (48 + n mod 10) :: acc in
      if (n / 10 =? 0)%Z then acc' else show_digits f (n / 10) acc'
  end.

Definition display_uint (n : Z) : bytes := show_digits 20 n [].

(** The [02x] format of one byte. *)
Definition hex_digit (n : Z) : byte :=
  if (n <? 10)%Z then as_u8 (48 + n) else as_u8 (87 + n).

Definition hex_byte (b : byte) : bytes :=
  [hex_digit (byte_Z b / 16); hex_digit (byte_Z b mod 16)].

(** ** Lemmas *)

Lemma split_once_Some c s a b :
  split_once c s = Some (a, b) -> s = a ++ c :: b /\ c ∉ a.
Proof.
  revert a b. induction s as [|x s IH]; intros a b; simpl; [done|].
  case_decide; [intros; simplify_eq; split; [done|set_solver]|].
  destruct (split_once c s) as [[a' b']|] eqn:E; [|done].
  intros [= <- <-]. destruct (IH a' b') as [-> ?]; [done|].
  split; [done|]. set_solver.
Qed.

Lemma split_once_None c s : split_once c s = None -> c ∉ s.
Proof.
  induction s as [|x s IH]; simpl; [set_solver|].
  case_decide; [done|].
  destruct (split_once c s) as [[? ?]|]; [done|]. set_solver.
Qed.

Lemma split_once_app c a b : c ∉ a -> split_once c (a ++ c :: b) = Some (a, b).
Proof.
  induction a as [|x a IH]; simpl; intros Hn.
  - by rewrite decide_True.
  - rewrite decide_False by set_solver. rewrite IH by set_solver. done.
Qed.

Lemma rfind_Some c s i :
  rfind c s = Some i ->
  s = take i s ++ c :: drop (S i) s /\ c ∉ drop (S i) s /\ i < length s.
Proof.
  revert i. induction s as [|x s IH]; intros i; simpl; [done|].
  destruct (rfind c s) as [j|] eqn:E.
  - intros [= <-]. destruct (IH j) as (Hs & Hn & Hl); [done|].
    simpl. split_and!; [by f_equal|done|lia].
  - case_decide; [|done]. intros ?; simplify_eq. simpl.
    rewrite drop_0. split_and!; [done| |lia].
    clear IH. induction s as [|y s IH]; [set_solver|]. simpl in E.
    destruct (rfind c s) eqn:E2; [done|]. case_decide; [done|]. set_solver.
Qed.

Lemma rfind_app c a b : c ∉ b -> rfind c (a ++ c :: b) = Some (length a).
Proof.
  intros Hb.
  assert (Hn : rfind c b = None).
  { clear a. induction b as [|x b IH]; simpl; [done|].
    rewrite IH by set_solver. rewrite decide_False by set_solver. done. }
  induction a as [|x a IH]; simpl.
  - by rewrite Hn, decide_True.
  - by rewrite IH.
Qed.

Lemma rfind_None c s : rfind c s = None -> c ∉ s.
Proof.
  induction s as [|x s IH]; simpl; [set_solver|].
  destruct (rfind c s); [done|]. case_decide; [done|]. set_solver.
Qed.

(** Only ASCII digits appear in a printed number. *)
Definition is_digit (c : byte) : Prop := in_range 48 57 c = true.

Lemma digit_byte_Z n : (0 <= n < 10)%Z -> byte_Z (as_u8 (48 + n)) = (48 + n)%Z.
Proof. intros. rewrite byte_Z_as_u8, Z.mod_small; lia. Qed.

Lemma digit_val_digit n :
  (0 <= n < 10)%Z -> digit_val (as_u8 (48 + n)) = Some n.
Proof.
  intros Hn. unfold digit_val, in_range. rewrite digit_byte_Z by done.
  replace ((48 <=? 48 + n) && (48 + n <=? 57))%Z with true by lia. f_equal; lia.
Qed.

Lemma digit_val_nonneg c d : digit_val c = Some d -> (0 <= d < 10)%Z.
Proof.
  unfold digit_val. destruct (in_range 48 57 c) eqn:E; [|done].
  unfold in_range in E. intros ?; simplify_eq. lia.
Qed.

(** Printing in front of an accumulator and parsing it back: [n] is read off
    the front, whatever digits [k] follow. *)
Lemma parse_show_digits fuel n k :
  (0 <= n < 10 ^ Z.of_nat fuel)%Z -> (n <= 65535)%Z ->
  parse_digits 0 (show_digits fuel n k) =
    if decide (fuel = 0) then parse_digits 0 k else parse_digits n k.
Proof.
  revert n k. induction fuel as [|f IH]; intros n k Hn Hb; [done|].
  cbn [show_digits]. rewrite decide_False by done.
  pose proof (Z.mod_pos_bound n 10 ltac:(lia)) as Hm.
  pose proof (Z.div_mod n 10 ltac:(lia)) as Hdm.
  rewrite Nat2Z.inj_succ, Z.pow_succ_r in Hn by lia.
  destruct (n / 10 =? 0)%Z eqn:E.
  - apply Z.eqb_eq in E. cbn [parse_digits]. rewrite digit_val_digit by done.
    cbn zeta. replace (0 * 10 + n mod 10)%Z with n by lia.
    by rewrite (proj2 (Z.leb_le n 65535)) by lia.
  - apply Z.eqb_neq in E.
    assert (0 <= n / 10 < 10 ^ Z.of_nat f)%Z.
    { split; [apply Z.div_pos; lia|]. apply Z.div_lt_upper_bound; lia. }
    rewrite IH by lia.
    rewrite decide_False by (intros ->; simpl in *; lia).
    cbn [parse_digits]. rewrite digit_val_digit by done.
    cbn zeta. replace (n / 10 * 10 + n mod 10)%Z with n by lia.
    by rewrite (proj2 (Z.leb_le n 65535)) by lia.
Qed.

Lemma show_digits_digits fuel n k :
  (0 <= n)%Z -> Forall is_digit k -> Forall is_digit (show_digits fuel n k).
Proof.
  revert n k. induction fuel as [|f IH]; intros n k Hn Hk; simpl; [done|].
  assert (is_digit (as_u8 (48 + n mod 10))).
  { unfold is_digit, in_range.
    pose proof (Z.mod_pos_bound n 10 ltac:(lia)).
    rewrite digit_byte_Z by lia. lia. }
  destruct (n / 10 =? 0)%Z; [by constructor|].
  apply IH; [apply Z.div_pos; lia|by constructor].
Qed.

Lemma show_digits_ne fuel n k : fuel <> 0 -> show_digits fuel n k <> [].
Proof.
  revert n k. induction fuel as [|f IH]; intros n k Hf; [done|]. simpl.
  destruct (n / 10 =? 0)%Z; [done|].
  destruct f; [done|]. by apply IH.
Qed.

Lemma display_uint_digits n : (0 <= n)%Z -> Forall is_digit (display_uint n).
Proof. intros. apply show_digits_digits; [done|constructor]. Qed.

(** A digit is not any given non-digit byte. *)
Lemma digits_not_in c s :
  in_range 48 57 c = false -> Forall is_digit s -> c ∉ s.
Proof.
  intros Hc Hs Hin. rewrite Forall_forall in Hs.
  apply Hs in Hin. unfold is_digit in Hin. congruence.
Qed.

(** [u16] survives printing and parsing. *)
Lemma parse_display_u16 n :
  (0 <= n <= 65535)%Z -> parse_u16 (display_uint n) = Some n.
Proof.
  intros Hn. pose proof (parse_show_digits 20 n []) as H.
  specialize (H ltac:(split; [lia|change (10 ^ Z.of_nat 20)%Z with 100000000000000000000%Z; lia]) ltac:(lia)).
  rewrite decide_False in H by done. cbn [parse_digits] in H.
  pose proof (display_uint_digits n ltac:(lia)) as Hd.
  unfold parse_u16. fold (display_uint n) in H.
  destruct (display_uint n) as [|c s] eqn:E.
  - exfalso. by eapply (show_digits_ne 20 n []).
  - rewrite decide_False; [done|]. intros ->.
    apply Forall_cons in Hd as [Hd _]. done.
Qed.

Lemma parse_digits_bound s acc n :
  (0 <= acc <= 65535)%Z -> parse_digits acc s = Some n -> (0 <= n <= 65535)%Z.
Proof.
  revert acc. induction s as [|c s IH]; intros acc Ha; simpl.
  - intros; simplify_eq; lia.
  - destruct (digit_val c) as [d|] eqn:E; [|done].
    apply digit_val_nonneg in E.
    destruct (acc * 10 + d <=? 65535)%Z eqn:E2; [|done].
    apply IH. lia.
Qed.

(** A parsed port is a [u16]. *)
Lemma parse_u16_bound s n : parse_u16 s = Some n -> (0 <= n <= 65535)%Z.
Proof.
  unfold parse_u16. destruct s as [|c s]; [done|].
  case_decide; [destruct s; [done|]|]; apply parse_digits_bound; lia.
Qed.

(** ** std::net::SocketAddr *)

(** [V4]: four octets and the port; [V6]: eight 16-bit segments, port, flow
    information and scope id. *)
Inductive SocketAddr : Type :=
| V4 (a b c d : byte) (port : Z)
| V6 (segments : list Z) (port flowinfo scope_id : Z).

#[global] Instance SocketAddr_eq_dec : EqDecision SocketAddr.
Proof. solve_decision. Defined.

#[global] Program Instance SocketAddr_countable : Countable SocketAddr :=
  inj_countable
    (fun x => match x with
              | V4 a b c d p => inl (a, b, c, d, p)
              | V6 s p f i => inr (s, p, f, i)
              end)
    (fun x => match x with
              | inl (a, b, c, d, p) => Some (V4 a b c d p)
              | inr (s, p, f, i) => Some (V6 s p f i)
              end) _.
Next Obligation. by intros []. Qed.

Definition display_v4 (a b c d : byte) : bytes :=
  display_uint (byte_Z a) ++ x2e :: display_uint (byte_Z b) ++ x2e ::
  display_uint (byte_Z c) ++ x2e :: display_uint (byte_Z d).

(** Lower-case hexadecimal without leading zeros, for values below 2^64. *)
Fixpoint show_hex (fuel : nat) (n : Z) (acc : bytes) : bytes :=
  match fuel with
  | 0 => acc
  | S f =>
      let acc' := hex_digit (n mod 16) :: acc in
      if (n / 16 =? 0)%Z then acc' else show_hex f (n / 16) acc'
  end.

Fixpoint join_hex (segs : list Z) : bytes :=
  match segs with
  | [] => []
  | [s] => show_hex 16 s []
  | s :: segs' => show_hex 16 s [] ++ x3a :: join_hex segs'
  end.

(** The first longest run of zero segments: its start and length.  [cur] is the
    run that ends at the current position [i]. *)
Fixpoint longest_zeros (segs : list Z) (i : nat) (cur best : nat * nat) : nat * nat :=
  match segs with
  | [] => best
  | s :: segs' =>
      if (s =? 0)%Z then
        let cur' := if decide (cur.2 = 0) then (i, 1) else (cur.1, S cur.2) in
        longest_zeros segs' (S i) cur' (if decide (best.2 < cur'.2) then cur' else best)
      else longest_zeros segs' (S i) (0, 0) best
  end.

Definition display_v6 (segs : list Z) : bytes :=
  match segs with
  | [0%Z; 0%Z; 0%Z; 0%Z; 0%Z; 65535%Z; ab; cd] =>
      str "::ffff:" ++ display_v4 (as_u8 (ab / 256)) (as_u8 ab) (as_u8 (cd / 256)) (as_u8 cd)
  | _ =>
      let '(start, len) := longest_zeros segs 0 (0, 0) (0, 0) in
      if decide (1 < len) then
        join_hex (take start segs) ++ str "::" ++ join_hex (drop (start + len) segs)
      else join_hex segs
  end.

(** [SocketAddr::to_string]. *)
Definition display_addr (addr : SocketAddr) : bytes :=
  match addr with
  | V4 a b c d port => display_v4 a b c d ++ x3a :: display_uint port
  | V6 segs port _ scope_id =>
      x5b :: display_v6 segs ++
      (if (scope_id =? 0)%Z then [] else x25 :: display_uint scope_id) ++
      x5d :: x3a :: display_uint port
  end.

Example display_addr_v4 :
  display_addr (V4 xcb x00 x71 x07 51820) = str "203.0.113.7:51820".
Proof. reflexivity. Qed.

Example display_addr_v6 :
  display_addr (V6 [0x2001; 0xdb8; 0; 0; 0; 0; 0; 1]%Z 443 0 0) = str "[2001:db8::1]:443".
Proof. reflexivity. Qed.

Example display_addr_mapped :
  display_addr (V6 [0; 0; 0; 0; 0; 65535; 0x7f00; 1]%Z 80 0 0) = str "[::ffff:127.0.0.1]:80".
Proof. reflexivity. Qed.

Lemma display_uint_inj n m :
  (0 <= n <= 65535)%Z -> (0 <= m <= 65535)%Z -> display_uint n = display_uint m -> n = m.
Proof.
  intros Hn Hm E. apply parse_display_u16 in Hn, Hm. congruence.
Qed.

(** Splitting a text at a separator its first part does not contain. *)
Lemma app_sep_inj (c : byte) (a a' b b' : bytes) :
  c ∉ a -> c ∉ a' -> a ++ c :: b = a' ++ c :: b' -> a = a' /\ b = b'.
Proof.
  intros Ha Ha' E. pose proof (split_once_app c a b Ha) as H.
  rewrite E, split_once_app in H by done. by injection H as -> ->.
Qed.

Lemma display_octet_inj (x y : byte) (s t : bytes) :
  display_uint (byte_Z x) ++ x2e :: s = display_uint (byte_Z y) ++ x2e :: t -> x = y /\ s = t.
Proof.
  pose proof (byte_Z_range x). pose proof (byte_Z_range y).
  intros E. apply app_sep_inj in E as [E1 E2];
    [|eapply digits_not_in; [done|apply display_uint_digits; lia]..].
  split; [|done]. apply byte_Z_inj. apply display_uint_inj; [lia|lia|done].
Qed.

(** The text of an IPv4 socket address determines it. *)
Lemma display_addr_v4_inj a b c d p a' b' c' d' p' :
  (0 <= p <= 65535)%Z -> (0 <= p' <= 65535)%Z ->
  display_addr (V4 a b c d p) = display_addr (V4 a' b' c' d' p') ->
  V4 a b c d p = V4 a' b' c' d' p'.
Proof.
  intros Hp Hp' E. unfold display_addr, display_v4 in E. rewrite <-!app_assoc in E.
  cbn [app] in E. rewrite <-!app_assoc in E. cbn [app] in E. rewrite <-!app_assoc in E.
  cbn [app] in E.
  apply display_octet_inj in E as [-> E]. apply display_octet_inj in E as [-> E].
  apply display_octet_inj in E as [-> E].
  pose proof (byte_Z_range d). pose proof (byte_Z_range d').
  apply app_sep_inj in E as [E1 E2];
    [|eapply digits_not_in; [done|apply display_uint_digits; lia]..].
  apply display_uint_inj in E1; [|lia|lia]. apply byte_Z_inj in E1 as ->.
  apply display_uint_inj in E2 as ->; done.
Qed.
