(* ===== verification/Externals.v ===== *)
(** * Interfaces of the code outside this crate

    [vaiexia-wire] (Noise-XK handshake, sessions, the record layer, cookies,
    mimicry profiles) and [vaiexia-core] (protocol types, the RPC service) are
    separate crates.  Their types and operations are the fields of the classes
    below; what the development relies on about them is stated as laws next
    to the theorems that need it.  A [dyn] trait object is the record of its
    methods. *)

From S2P Require Import Prelude RustStd.

(** What [MimicryProfile::frame_in] reports about the accumulation buffer. *)
Inductive FrameInResult : Type :=
| FrameRecord (record : bytes)
| NeedMore
| Invalid (msg : bytes).

(** vaiexia-wire and the random generators of the rand crate.  Operations
    that draw randomness of their own take it as an [Entropy] argument;
    [&mut self] methods return the new receiver. *)
Class WireApi : Type := {
  WireError : Type;
  wire_display : WireError -> bytes;

  (** [rand]: generator states *)
  Rng : Type;
  Entropy : Type;
  fill_bytes : Rng -> nat -> bytes * Rng;

  (** [session::Session] *)
  Session : Type;
  encrypt : Session -> bytes -> Res WireError bytes * Session;
  decrypt : Session -> bytes -> Res WireError bytes * Session;

  (** [handshake::Handshake] *)
  Handshake : Type;
  initiator : Entropy -> bytes -> bytes -> Res WireError Handshake;
  responder : Entropy -> bytes -> Res WireError Handshake;
  write_message : Handshake -> bytes -> Res WireError bytes * Handshake;
  read_message : Handshake -> bytes -> Res WireError bytes * Handshake;
  remote_static : Handshake -> option bytes;
  into_session : Handshake -> Res WireError Session;

  (** [record::{RecordKey, RecordSealer, RecordOpener}] *)
  RecordKey : Type;
  record_key_from_bytes : bytes -> RecordKey;
  RecordSealer : Type;
  sealer_new : RecordKey -> RecordSealer;
  seal : RecordSealer -> bytes -> bytes -> Res WireError bytes * RecordSealer;
  RecordOpener : Type;
  opener_new : RecordKey -> RecordOpener;
  open : RecordOpener -> bytes -> bytes -> Res WireError bytes * RecordOpener;

  (** [cookie::CookieSecret] *)
  CookieSecret : Type;
  cookie_secret_new : bytes -> CookieSecret;
  cookie_make : CookieSecret -> bytes -> bytes;
  cookie_verify : CookieSecret -> bytes -> bytes -> bool;
  cookie_rotate : CookieSecret -> bytes -> CookieSecret;

  (** [blake2::Blake2sMac256]: key, data *)
  blake2s_mac : bytes -> bytes -> bytes;
}.

(** [dyn MimicryProfile].  [frame_out] is given the empty output vector at
    every call site, so it is modelled by the bytes it appends; [frame_in]
    returns the buffer as it leaves it. *)
Record MimicryProfile `{WireApi} : Type := {
  frame_out : bytes -> Rng -> Res WireError bytes * Rng;
  frame_in : bytes -> FrameInResult * bytes;
  preamble : Rng -> bytes * Rng;
  preamble_skip : nat;
  jitter : Rng -> Z * Rng;   (** delay in milliseconds *)
}.

(** [dyn DatagramMimicry]. *)
Record DatagramMimicry `{WireApi} : Type := {
  shape_out : bytes -> Rng -> bytes * Rng;
  shape_in : bytes -> option bytes;
}.

(** vaiexia-core. *)
Class CoreApi : Type := {
  JsonValue : Type;
  Request : Type;
  request_id : Request -> bytes;
  Response : Type;
  response_id : Response -> bytes;
  Topic : Type;
  topic_eq_dec :: EqDecision Topic;
  Event : Type;
  event_topic : Event -> Topic;
  Capability : Type;
  Method : Type;
  Subject : Type;
  mk_subject : bytes -> list bytes -> Subject;

  Diagnostic : Type;
  diagnostic_error : bytes -> bytes -> Diagnostic;
  FORBIDDEN : bytes;
  METHOD_NOT_FOUND : bytes;

  CoreError : Type;
  core_disconnected : CoreError;
  core_timeout : CoreError;
  core_auth : CoreError -> option Diagnostic;   (** [CoreError::Auth(d)] *)

  (** [server::Service]; [handle] runs registered handlers, which may keep
      state, hence the returned service. *)
  Service : Type;
  handle : Service -> Request -> Response * Service;
  verify_topic : Service -> option Capability -> Topic -> Res CoreError Subject;
  EventSource : Type;
  event_source : Service -> Topic -> option EventSource;
}.

(** ** Laws *)

(** What a framing profile guarantees about one frame: followed by anything it
    is recognised and removed exactly; a proper prefix of it asks for more; and
    asking for more leaves the buffer alone. *)
Class ProfileLaws `{WireApi} (p : MimicryProfile) : Prop := {
  frame_complete : forall r rng w rng' rest,
    frame_out p r rng = (Ok w, rng') ->
    frame_in p (w ++ rest) = (FrameRecord r, rest);
  frame_partial : forall r rng w rng' pre post,
    frame_out p r rng = (Ok w, rng') -> w = pre ++ post -> post <> [] ->
    frame_in p pre = (NeedMore, pre);
  frame_need_more : forall buf buf',
    frame_in p buf = (NeedMore, buf') -> buf' = buf;
}.

(** A profile decides by the front of the buffer: bytes that arrive later do not
    change what it makes of a record that is complete, or of framing that is
    invalid. *)
Class FrontLaws `{WireApi} (p : MimicryProfile) : Prop := {
  front_record : forall buf r rest more,
    frame_in p buf = (FrameRecord r, rest) ->
    frame_in p (buf ++ more) = (FrameRecord r, rest ++ more);
  front_invalid : forall buf msg rest more,
    frame_in p buf = (Invalid msg, rest) ->
    exists msg' rest', frame_in p (buf ++ more) = (Invalid msg', rest');
}.

(** The client writes as many preamble bytes as the server skips. *)
Class PreambleLaw `{WireApi} (p : MimicryProfile) : Prop :=
  preamble_length : forall rng, length (preamble p rng).1 = preamble_skip p.

(** Two sessions are paired when what the first encrypts, in order, the
    second decrypts, in order. *)
Class SessionLaws `{WireApi} (paired : Session -> Session -> Prop) : Prop :=
  session_roundtrip : forall a b pt ct a',
    paired a b -> encrypt a pt = (Ok ct, a') ->
    exists b', decrypt b ct = (Ok pt, b') /\ paired a' b'.

(** A session has a sending and a receiving half: encrypting leaves the
    receiving half alone and decrypting the sending half. *)
Class DuplexLaws `{WireApi} (half : Session -> Session -> Prop) : Prop := {
  duplex_session :: SessionLaws half;
  encrypt_keeps_rx : forall a pt r a' x, encrypt a pt = (r, a') -> half x a -> half x a';
  decrypt_keeps_tx : forall b ct r b' x, decrypt b ct = (r, b') -> half b x -> half b' x;
}.

(** Datagram shaping is invertible. *)
Class DatagramLaws `{WireApi} (m : DatagramMimicry) : Prop :=
  shape_roundtrip : forall inner rng,
    shape_in m (shape_out m inner rng).1 = Some inner.

(** A completed Noise-XK exchange between an initiator and a responder: three
    messages, each accepted by the peer in turn, the third carrying the
    payload [pl]. *)
Definition xk_exchange `{WireApi} (hi0 hr0 : Handshake) (pl m1 m2 m3 : bytes)
    (hi3 hr3 : Handshake) : Prop :=
  exists hi1 hi2 hr1 hr2 p1 p2,
    write_message hi0 [] = (Ok m1, hi1) /\
    read_message hr0 m1 = (Ok p1, hr1) /\
    write_message hr1 [] = (Ok m2, hr2) /\
    read_message hi1 m2 = (Ok p2, hi2) /\
    write_message hi2 pl = (Ok m3, hi3) /\
    read_message hr2 m3 = (Ok pl, hr3).

(** ** Proxy configuration, [vaiexia_core::transport::proxy] *)

Record ProxyAuth : Type := mkProxyAuth { user : bytes; pass : bytes }.

Inductive ProxyKind : Type := Socks5 | HttpConnect.

Record ProxyHop : Type := mkProxyHop {
  hop_kind : ProxyKind; hop_addr : bytes; hop_auth : option ProxyAuth }.

Record ProxyConfig : Type := mkProxyConfig {
  px_kind : ProxyKind; px_addr : bytes; px_auth : option ProxyAuth;
  px_chain : list ProxyHop }.
