(* ===== verification/Envelope.v ===== *)
(** * The multiplexing envelope and the crate's error type

    [src/envelope.rs] and the [ObfsError] enum of [src/lib.rs].  The JSON
    encoding of an envelope is derived by serde: its two directions are the
    operations of [SerdeApi], with the round trip as a law. *)

From S2P Require Import Prelude RustStd Externals.

(** [Envelope]. *)
Inductive Envelope `{CoreApi} : Type :=
| ERequest (req : Request)
| EResponse (resp : Response)
| EEvent (ev : Event)
| ESubscribe (topic : Topic) (filter : option JsonValue) (capability : option Capability)
| EUnsubscribe (topic : Topic)
| ESubscribeError (topic : Topic) (error : Diagnostic)
| EPing
| EPong.

(** [serde_json::to_vec] and [from_slice] at the type [Envelope]. *)
Class SerdeApi `{CoreApi} : Type := {
  SerdeError : Type;
  to_vec : Envelope -> Res SerdeError bytes;
  from_slice : bytes -> Res SerdeError Envelope;
}.

Class SerdeLaws `{SerdeApi} : Prop :=
  serde_roundtrip : forall env v, to_vec env = Ok v -> from_slice v = Ok env.

(** [ObfsError]. *)
Inductive ObfsError `{WireApi, SerdeApi} : Type :=
| Closed
| FrameTooLarge (n max : Z)
| Wire (e : WireError)
| Io (e : IoError)
| Serde (e : SerdeError)
| Core (e : CoreError)
| HandshakeFailed (msg : bytes)
| Timeout.
