(* ===== verification/Stream.v ===== *)
(** * Asynchronous byte streams

    The [AsyncRead + AsyncWrite] bound of the TCP code: tokio's [read],
    [read_exact], [write_all] and [flush] as the operations of a class.  A
    [View] describes what a run of the connection looks like from one end: the
    bytes the peer delivers, in order, what follows them, and the bytes written
    so far.  How the delivered bytes are cut into reads is left open by the
    laws.  [Script] is a concrete stream that meets them. *)

From S2P Require Import Prelude RustStd.

(** What a reader meets once the delivered bytes are used up. *)
Inductive Fin : Type :=
| FinEof
| FinErr (e : IoError)
| FinWait.

Record View : Type := mkView {
  v_in : bytes;
  v_fin : Fin;
  v_out : bytes;
  v_wr : bool;   (** the peer keeps accepting bytes for the whole run *)
}.

Definition consume (n : nat) (v : View) : View :=
  mkView (drop n (v_in v)) (v_fin v) (v_out v) (v_wr v).

Definition emit (bs : bytes) (v : View) : View :=
  mkView (v_in v) (v_fin v) (v_out v ++ bs) (v_wr v).

(** [read] with an empty remainder: [Ok(0)] at end of file. *)
Definition read_end (f : Fin) : Poll (Res IoError bytes) :=
  match f with
  | FinEof => Ready (Ok [])
  | FinErr e => Ready (Err e)
  | FinWait => Pending
  end.

Definition eof_error : IoError := mkIoError UnexpectedEof (str "early eof").

(** [read_exact] with too short a remainder. *)
Definition exact_end (f : Fin) : Poll (Res IoError bytes) :=
  match f with
  | FinEof => Ready (Err eof_error)
  | FinErr e => Ready (Err e)
  | FinWait => Pending
  end.

Class AsyncIo (S : Type) : Type := {
  read : nat -> IO S IoError bytes;
  read_exact : nat -> IO S IoError bytes;
  write_all : bytes -> IO S IoError unit;
  flush : IO S IoError unit;
}.

Class AsyncView (S : Type) : Type := view : S -> View.

Class AsyncIoLaws (S : Type) `{AsyncIo S, AsyncView S} : Prop := {
  read_some : forall cap s,
    0 < cap -> v_in (view s) <> [] ->
    exists n s', 0 < n <= cap /\ n <= length (v_in (view s)) /\
      read cap s = (Ready (Ok (take n (v_in (view s)))), s') /\
      view s' = consume n (view s);
  read_none : forall cap s,
    0 < cap -> v_in (view s) = [] ->
    exists s', read cap s = (read_end (v_fin (view s)), s') /\ view s' = view s;
  read_exact_enough : forall n s,
    n <= length (v_in (view s)) ->
    exists s', read_exact n s = (Ready (Ok (take n (v_in (view s)))), s') /\
      view s' = consume n (view s);
  read_exact_short : forall n s,
    length (v_in (view s)) < n ->
    exists s', read_exact n s = (exact_end (v_fin (view s)), s') /\
      view s' = consume n (view s);
  write_all_ok : forall bs s,
    v_wr (view s) = true ->
    exists s', write_all bs s = (Ready (Ok tt), s') /\ view s' = emit bs (view s);
  write_all_sent : forall bs s s',
    write_all bs s = (Ready (Ok tt), s') -> view s' = emit bs (view s);
  flush_ok : forall s,
    v_wr (view s) = true -> exists s', flush s = (Ready (Ok tt), s') /\ view s' = view s;
}.

(** ** A concrete stream *)

(** The delivered bytes as the chunks successive reads return; writes are
    appended to [sc_out], or refused with [sc_werr]. *)
Record Script : Type := mkScript {
  sc_chunks : list bytes;
  sc_fin : Fin;
  sc_out : bytes;
  sc_werr : option IoError;
}.

Definition with_chunks (c : list bytes) (s : Script) : Script :=
  mkScript c (sc_fin s) (sc_out s) (sc_werr s).

Fixpoint script_next (cap : nat) (c : list bytes) : option (bytes * list bytes) :=
  match c with
  | [] => None
  | [] :: c' => script_next cap c'
  | b :: c' => Some (take cap b, drop cap b :: c')
  end.

Definition script_read (cap : nat) : IO Script IoError bytes := fun s =>
  match script_next cap (sc_chunks s) with
  | Some (b, c') => (Ready (Ok b), with_chunks c' s)
  | None => (read_end (sc_fin s), s)
  end.

Definition script_read_exact (n : nat) : IO Script IoError bytes := fun s =>
  let all := concat (sc_chunks s) in
  if decide (n <= length all)
  then (Ready (Ok (take n all)), with_chunks [drop n all] s)
  else (exact_end (sc_fin s), with_chunks [] s).

Definition script_write_all (bs : bytes) : IO Script IoError unit := fun s =>
  match sc_werr s with
  | Some e => (Ready (Err e), s)
  | None => (Ready (Ok tt),
             mkScript (sc_chunks s) (sc_fin s) (sc_out s ++ bs) (sc_werr s))
  end.

Definition script_flush : IO Script IoError unit := fun s =>
  match sc_werr s with
  | Some e => (Ready (Err e), s)
  | None => (Ready (Ok tt), s)
  end.

#[global] Instance script_io : AsyncIo Script := {|
  read := script_read;
  read_exact := script_read_exact;
  write_all := script_write_all;
  flush := script_flush;
|}.

#[global] Instance script_view : AsyncView Script := fun s =>
  mkView (concat (sc_chunks s)) (sc_fin s) (sc_out s)
         (match sc_werr s with None => true | Some _ => false end).

Lemma script_next_Some cap c b c' :
  0 < cap -> script_next cap c = Some (b, c') ->
  exists n, 0 < n <= cap /\ n <= length (concat c) /\
    b = take n (concat c) /\ concat c' = drop n (concat c).
Proof.
  intros Hcap. induction c as [|[|x h] c IH]; simpl; [done| |].
  - intros H. destruct (IH H) as (n & ?). exists n. done.
  - intros [= <- <-]. exists (cap `min` length (x :: h)). simpl length.
    rewrite length_app. split_and!; [lia|lia|simpl; lia| |].
    + rewrite app_comm_cons, take_app_le by (simpl; lia).
      destruct (decide (cap <= length (x :: h))).
      * by rewrite Nat.min_l.
      * simpl length in *. rewrite Nat.min_r by lia.
        rewrite !(take_ge (x :: h)) by (simpl; lia). done.
    + rewrite app_comm_cons, drop_app_le by (simpl; lia). f_equal.
      destruct (decide (cap <= length (x :: h))).
      * by rewrite Nat.min_l.
      * simpl length in *. rewrite Nat.min_r by lia.
        rewrite !(drop_ge (x :: h)) by (simpl; lia). done.
Qed.

Lemma script_next_None cap c : script_next cap c = None -> concat c = [].
Proof. induction c as [|[|x h] c IH]; simpl; [done|done|done]. Qed.

#[global] Instance script_laws : AsyncIoLaws Script.
Proof.
  split.
  - intros cap s Hcap Hne. cbn -[take]. unfold script_read.
    destruct (script_next cap (sc_chunks s)) as [[b c']|] eqn:E.
    + destruct (script_next_Some _ _ _ _ Hcap E) as (n & ? & ? & -> & Hc).
      exists n, (with_chunks c' s). split_and!; [lia|lia|lia|done|].
      unfold view, script_view, consume. simpl. by rewrite Hc.
    + exfalso. apply Hne. by eapply script_next_None.
  - intros cap s Hcap He. cbn. unfold script_read.
    destruct (script_next cap (sc_chunks s)) as [[b c']|] eqn:E; [|by eauto].
    destruct (script_next_Some _ _ _ _ Hcap E) as (n & ? & Hn & ?).
    cbn in He. rewrite He in Hn. simpl in Hn. lia.
  - intros n s Hn. cbn -[take]. unfold script_read_exact. cbn in Hn.
    rewrite decide_True by done. eexists; split; [done|].
    unfold view, script_view, consume. simpl. by rewrite app_nil_r.
  - intros n s Hn. cbn -[take]. unfold script_read_exact. cbn in Hn.
    rewrite decide_False by lia. eexists; split; [done|].
    unfold view, script_view, consume. simpl. by rewrite drop_ge by lia.
  - intros bs s Hw. cbn in *. unfold script_write_all.
    destruct (sc_werr s) eqn:E; [done|]. eexists; split; [done|].
    unfold view, script_view, emit. simpl. by rewrite E.
  - intros bs s s'. cbn. unfold script_write_all.
    destruct (sc_werr s) eqn:E; [done|]. intros [= <-].
    unfold view, script_view, emit. simpl. by rewrite E.
  - intros s Hw. cbn in *. unfold script_flush.
    destruct (sc_werr s) eqn:E; [done|]. by eauto.
Qed.

(** ** Stepping through a run

    The laws again, for a view given by its fields. *)

Section Steps.
Context {S : Type} {IA : AsyncIo S} {AV : AsyncView S} {AL : AsyncIoLaws S}.

Lemma read_exact_step n a rest f o w (s : S) :
  view s = mkView (a ++ rest) f o w -> length a = n ->
  exists s', read_exact n s = (Ready (Ok a), s') /\ view s' = mkView rest f o w.
Proof.
  intros Hv Hn. destruct (read_exact_enough n s) as (s' & Hr & Hv').
  { rewrite Hv. simpl. rewrite length_app. lia. }
  exists s'. rewrite Hr, Hv', Hv. unfold consume. simpl. subst n.
  by rewrite take_app_length, drop_app_length.
Qed.

Lemma read_exact_end_step n a f o w (s : S) :
  view s = mkView a f o w -> length a < n ->
  exists s', read_exact n s = (exact_end f, s') /\ view s' = mkView [] f o w.
Proof.
  intros Hv Hn. destruct (read_exact_short n s) as (s' & Hr & Hv').
  { by rewrite Hv. }
  exists s'. rewrite Hr, Hv', Hv. unfold consume. simpl. by rewrite drop_ge by lia.
Qed.

Lemma write_all_step bs i f o (s : S) :
  view s = mkView i f o true ->
  exists s', write_all bs s = (Ready (Ok tt), s') /\ view s' = mkView i f (o ++ bs) true.
Proof.
  intros Hv. destruct (write_all_ok bs s) as (s' & Hw & Hv'); [by rewrite Hv|].
  exists s'. by rewrite Hw, Hv', Hv.
Qed.

(** A successful exact read, backwards. *)
Lemma read_exact_inv n bs i f o w (s s' : S) :
  view s = mkView i f o w -> read_exact n s = (Ready (Ok bs), s') ->
  i = bs ++ drop n i /\ length bs = n /\ view s' = mkView (drop n i) f o w.
Proof.
  intros Hv Hr. destruct (decide (n <= length i)) as [Hl|Hl].
  - destruct (read_exact_enough n s) as (s1 & Hr1 & Hv1); [by rewrite Hv|].
    rewrite Hr in Hr1. simplify_eq. rewrite Hv1, Hv. unfold consume. simpl.
    rewrite take_drop, length_take. split_and!; [done|lia|done].
  - destruct (read_exact_short n s) as (s1 & Hr1 & Hv1); [rewrite Hv; simpl; lia|].
    rewrite Hr in Hr1. rewrite Hv in Hr1. simpl in Hr1. by destruct f.
Qed.

Lemma write_all_inv bs i f o w (s s' : S) :
  view s = mkView i f o w -> write_all bs s = (Ready (Ok tt), s') ->
  view s' = mkView i f (o ++ bs) w.
Proof. intros Hv Hw. apply write_all_sent in Hw. by rewrite Hw, Hv. Qed.

End Steps.

(** Run the next exact read or write of a goal whose view is known from [H]. *)
Ltac step_read H io' :=
  let Hr := fresh "Hr" in let Hv := fresh "Hv" in
  edestruct (read_exact_step _ _ _ _ _ _ _ H) as (io' & Hr & Hv);
  [ reflexivity | io_step Hr; clear Hr H; rename Hv into H ].

Ltac step_write H io' :=
  let Hw := fresh "Hw" in let Hv := fresh "Hv" in
  edestruct (write_all_step _ _ _ _ _ H) as (io' & Hw & Hv);
  io_step Hw; clear Hw H; rename Hv into H.
