(* ===== verification/Instances.v ===== *)
(** * A reference instantiation of the external crates

    Concrete, executable stand-ins for the interfaces of [Externals]: framing
    profiles with the wire formats the README documents, a session and a Noise
    exchange with counters in place of ciphers, a record layer with a replay
    check, rotating cookies, and a small service.  They show that the laws the
    theorems assume can be met together, and the concrete runs of the
    development are evaluated on them.  Nothing here models code of the crate;
    a file that evaluates a run imports the module [Ref]. *)

From S2P Require Import Prelude RustStd Externals Envelope.

Module Ref.

(** ** vaiexia-wire *)

Inductive RSide : Type := RInit | RResp.

Record RHandshake : Type := mkRHandshake {
  rh_side : RSide;
  rh_priv : bytes;
  rh_peer : option bytes;   (** the peer's static public key, once known *)
  rh_step : nat;
}.

(** Public keys of this instance. *)
Definition pub_of (priv : bytes) : bytes := xff :: priv.

Definition rh_next (peer : option bytes) (h : RHandshake) : RHandshake :=
  mkRHandshake (rh_side h) (rh_priv h) peer (S (rh_step h)).

Definition rh_write (h : RHandshake) (payload : bytes) : Res bytes bytes * RHandshake :=
  match rh_side h, rh_step h with
  | RInit, 0 => (Ok (x01 :: default [] (rh_peer h)), rh_next (rh_peer h) h)
  | RResp, 1 => (Ok (x02 :: payload), rh_next (rh_peer h) h)
  | RInit, 2 => (Ok (x03 :: as_u8 (Z.of_nat (length (pub_of (rh_priv h))))
                       :: pub_of (rh_priv h) ++ payload), rh_next (rh_peer h) h)
  | _, _ => (Err (str "out of turn"), h)
  end.

Definition rh_read (h : RHandshake) (msg : bytes) : Res bytes bytes * RHandshake :=
  match rh_side h, rh_step h, msg with
  | RResp, 0, x01 :: k =>
      if decide (k = pub_of (rh_priv h)) then (Ok [], rh_next (rh_peer h) h)
      else (Err (str "decrypt"), h)
  | RInit, 1, x02 :: payload => (Ok payload, rh_next (rh_peer h) h)
  | RResp, 2, x03 :: n :: rest =>
      let n := Z.to_nat (byte_Z n) in
      if decide (n <= length rest) then (Ok (drop n rest), rh_next (Some (take n rest)) h)
      else (Err (str "decrypt"), h)
  | _, _, _ => (Err (str "decrypt"), h)
  end.

(** Sessions: one counter per direction, checked on receipt. *)
Record RSession : Type := mkRSession { rs_tx : nat; rs_rx : nat }.

Definition rs_encrypt (s : RSession) (pt : bytes) : Res bytes bytes * RSession :=
  if (Z.of_nat (length pt) <=? 65519)%Z
  then (Ok (as_u8 (Z.of_nat (rs_tx s)) :: pt), mkRSession (S (rs_tx s)) (rs_rx s))
  else (Err (str "too long"), s).

Definition rs_decrypt (s : RSession) (ct : bytes) : Res bytes bytes * RSession :=
  match ct with
  | n :: pt =>
      if decide (n = as_u8 (Z.of_nat (rs_rx s)))
      then (Ok pt, mkRSession (rs_tx s) (S (rs_rx s)))
      else (Err (str "decrypt"), s)
  | [] => (Err (str "decrypt"), s)
  end.

(** Records: the key, an explicit counter, the payload; an opener refuses a
    counter it has accepted before. *)
Record RSealer : Type := mkRSealer { rk_key : bytes; rk_ctr : nat }.
Record ROpener : Type := mkROpener { ro_key : bytes; ro_seen : list byte }.

Definition r_seal (s : RSealer) (pt aad : bytes) : Res bytes bytes * RSealer :=
  if decide (rk_ctr s < 256)
  then (Ok (rk_key s ++ as_u8 (Z.of_nat (rk_ctr s)) :: pt),
        mkRSealer (rk_key s) (S (rk_ctr s)))
  else (Err (str "counter exhausted"), s).

Definition r_open (o : ROpener) (ct aad : bytes) : Res bytes bytes * ROpener :=
  if decide (take (length (ro_key o)) ct = ro_key o) then
    match drop (length (ro_key o)) ct with
    | c :: pt =>
        if decide (c ∈ ro_seen o) then (Err (str "replay"), o)
        else (Ok pt, mkROpener (ro_key o) (c :: ro_seen o))
    | [] => (Err (str "short"), o)
    end
  else (Err (str "auth"), o).

(** Cookies: current and previous secret. *)
Definition r_cookie (secret src : bytes) : bytes :=
  take 16 (take 8 secret ++ rev src ++ repeat x00 16).

#[export] Instance wire : WireApi := {|
  WireError := bytes;
  wire_display := id;
  Rng := nat;
  Entropy := nat;
  fill_bytes := fun r n => (repeat (as_u8 (Z.of_nat r)) n, S r);
  Session := RSession;
  encrypt := rs_encrypt;
  decrypt := rs_decrypt;
  Handshake := RHandshake;
  initiator := fun _ priv peer => Ok (mkRHandshake RInit priv (Some peer) 0);
  responder := fun _ priv => Ok (mkRHandshake RResp priv None 0);
  write_message := rh_write;
  read_message := rh_read;
  remote_static := fun h => if decide (rh_step h = 3) then rh_peer h else None;
  into_session := fun h =>
    if decide (rh_step h = 3) then Ok (mkRSession 0 0) else Err (str "incomplete");
  RecordKey := bytes;
  record_key_from_bytes := id;
  RecordSealer := RSealer;
  sealer_new := fun k => mkRSealer k 0;
  seal := r_seal;
  RecordOpener := ROpener;
  opener_new := fun k => mkROpener k [];
  open := r_open;
  CookieSecret := bytes * option bytes;
  cookie_secret_new := fun k => (k, None);
  cookie_make := fun s src => r_cookie s.1 src;
  cookie_verify := fun s src c =>
    bool_decide (c = r_cookie s.1 src) ||
    match s.2 with Some k => bool_decide (c = r_cookie k src) | None => false end;
  cookie_rotate := fun s k => (k, Some s.1);
  blake2s_mac := fun key data => take 32 (data ++ key ++ repeat x00 32);
|}.

Definition MAX_RECORD : Z := 16777216.

(** [Vanilla]: [len: u32 BE][record]. *)
Definition vanilla_in (buf : bytes) : FrameInResult * bytes :=
  match buf with
  | a :: b :: c :: d :: rest =>
      let n := from_be_u32 a b c d in
      if (MAX_RECORD <? n)%Z then (Invalid (str "record too large"), buf)
      else if (Z.of_nat (length rest) <? n)%Z then (NeedMore, buf)
      else (FrameRecord (take (Z.to_nat n) rest), drop (Z.to_nat n) rest)
  | _ => (NeedMore, buf)
  end.

Definition vanilla_out (r : bytes) (rng : nat) : Res bytes bytes * nat :=
  if (MAX_RECORD <? Z.of_nat (length r))%Z then (Err (str "record too large"), rng)
  else (Ok (to_be_u32 (Z.of_nat (length r)) ++ r), rng).

Definition vanilla : MimicryProfile := {|
  frame_out := (vanilla_out : bytes -> Rng -> Res WireError bytes * Rng);
  frame_in := vanilla_in;
  preamble := fun rng => ([], rng);
  preamble_skip := 0;
  jitter := fun rng => (0%Z, rng);
|}.

(** Vanilla framing behind [skip] preamble bytes. *)
Definition junk_preamble (skip : nat) : MimicryProfile := {|
  frame_out := frame_out vanilla;
  frame_in := frame_in vanilla;
  preamble := fun rng => fill_bytes rng skip;
  preamble_skip := skip;
  jitter := fun rng => (0%Z, rng);
|}.

(** Datagrams carry a one-byte mark in front. *)
Definition marked : DatagramMimicry := {|
  shape_out := fun inner rng => (xc0 :: inner, rng);
  shape_in := fun d => match d with xc0 :: inner => Some inner | _ => None end;
|}.

Definition paired (a b : RSession) : Prop := rs_tx a = rs_rx b /\ rs_rx a = rs_tx b.

Lemma be_u32_len (r : bytes) :
  (Z.of_nat (length r) <= MAX_RECORD)%Z ->
  exists a b c d, to_be_u32 (Z.of_nat (length r)) = [a; b; c; d] /\
    from_be_u32 a b c d = Z.of_nat (length r).
Proof.
  intros Hl. pose proof (from_to_be_u32 (Z.of_nat (length r))) as H.
  destruct (to_be_u32 (Z.of_nat (length r))) as [|a [|b [|c [|d [|]]]]]; try done.
  exists a, b, c, d. split; [done|]. rewrite H, Z.mod_small; [done|].
  unfold MAX_RECORD in Hl. lia.
Qed.

Lemma vanilla_out_Ok (r : bytes) rng w rng' :
  vanilla_out r rng = (Ok w, rng') ->
  exists a b c d, w = a :: b :: c :: d :: r /\
    from_be_u32 a b c d = Z.of_nat (length r) /\
    (MAX_RECORD <? Z.of_nat (length r))%Z = false.
Proof.
  unfold vanilla_out. destruct (MAX_RECORD <? _)%Z eqn:E; [done|].
  destruct (be_u32_len r) as (a & b & c & d & -> & Hn); [by apply Z.ltb_ge|].
  intros [= <- _]. by exists a, b, c, d.
Qed.

#[export] Instance vanilla_laws : ProfileLaws vanilla.
Proof.
  split; cbn [frame_out frame_in vanilla].
  - intros r rng w rng' rest (a & b & c & d & -> & Hn & E)%vanilla_out_Ok.
    simpl. rewrite Hn, E, length_app.
    rewrite (proj2 (Z.ltb_ge _ _)) by lia. rewrite Nat2Z.id.
    by rewrite take_app_length, drop_app_length.
  - intros r rng w rng' pre post (a & b & c & d & -> & Hn & E)%vanilla_out_Ok Hw Hpost.
    destruct pre as [|a' [|b' [|c' [|d' pre]]]]; try done.
    simpl in Hw. simplify_eq. simpl. rewrite Hn, E.
    rewrite length_app. destruct post; [done|]. simpl length.
    by rewrite (proj2 (Z.ltb_lt _ _)) by lia.
  - intros buf buf'. unfold vanilla_in.
    destruct buf as [|a [|b [|c [|d rest]]]]; try by intros [= <-].
    repeat case_match; intros; simplify_eq; done.
Qed.

#[export] Instance junk_preamble_laws n : ProfileLaws (junk_preamble n).
Proof. split; apply vanilla_laws. Qed.

#[export] Instance vanilla_front : FrontLaws vanilla.
Proof.
  split; cbn [frame_in vanilla]; unfold vanilla_in; intros buf r rest more;
    destruct buf as [|a [|b [|c [|d buf]]]]; try done; cbn [app].
  - destruct (MAX_RECORD <? _)%Z; [done|]. destruct (_ <? _)%Z eqn:E; [done|].
    intros [= <- <-]. apply Z.ltb_ge in E. rewrite length_app.
    rewrite (proj2 (Z.ltb_ge _ _)) by lia. by rewrite take_app_le, drop_app_le by lia.
  - destruct (MAX_RECORD <? _)%Z; [by eauto|]. by destruct (_ <? _)%Z.
Qed.

#[export] Instance junk_preamble_front n : FrontLaws (junk_preamble n).
Proof. split; apply vanilla_front. Qed.

#[export] Instance junk_preamble_law n : PreambleLaw (junk_preamble n).
Proof. intros rng. simpl. apply repeat_length. Qed.

#[export] Instance vanilla_preamble_law : PreambleLaw vanilla.
Proof. intros rng. done. Qed.

#[export] Instance session_laws : SessionLaws (paired : Session -> Session -> Prop).
Proof.
  intros a b pt ct a' [H1 H2]. simpl. unfold rs_encrypt.
  case_match; [|done]. intros [= <- <-]. simpl.
  rewrite decide_True by (by rewrite H1).
  eexists; split; [done|]. split; simpl; congruence.
Qed.

(** The sending half of one session against the receiving half of the other. *)
Definition half (a b : RSession) : Prop := rs_tx a = rs_rx b.

#[export] Instance duplex_laws : DuplexLaws (half : Session -> Session -> Prop).
Proof.
  split.
  - intros a b pt ct a' H1. simpl. unfold rs_encrypt. case_match; [|done]. intros [= <- <-]. simpl.
    rewrite decide_True by (by rewrite H1). eexists; split; [done|]. unfold half in *. simpl. congruence.
  - intros a pt r a' x. simpl. unfold rs_encrypt. case_match; by intros [= <- <-].
  - intros b ct r b' x. simpl. unfold rs_decrypt. repeat case_match; by intros [= <- <-].
Qed.

#[export] Instance marked_laws : DatagramLaws marked.
Proof. by intros inner rng. Qed.

(** ** vaiexia-core *)

(** A service grants subscriptions against its token; with the token zero it
    grants all. *)
Record RService : Type := mkRService {
  rv_calls : nat;
  rv_topics : list bytes;
  rv_token : byte;
}.

Inductive RCoreError : Type := RDisconnected | RTimeout | RAuth (d : bytes) | ROtherError.

#[export] Instance core : CoreApi := {|
  JsonValue := byte;
  Request := bytes;
  request_id := id;
  Response := bytes * byte;
  response_id := fst;
  Topic := bytes;
  topic_eq_dec := _;
  Event := bytes * byte;
  event_topic := fst;
  Capability := byte;
  Method := bytes;
  Subject := bytes * list bytes;
  mk_subject := pair;
  Diagnostic := bytes;
  diagnostic_error := fun code msg => code ++ x3a :: msg;
  FORBIDDEN := str "forbidden";
  METHOD_NOT_FOUND := str "method_not_found";
  CoreError := RCoreError;
  core_disconnected := RDisconnected;
  core_timeout := RTimeout;
  core_auth := fun e => match e with RAuth d => Some d | _ => None end;
  Service := RService;
  handle := fun s req =>
    ((req, as_u8 (Z.of_nat (rv_calls s))),
     mkRService (S (rv_calls s)) (rv_topics s) (rv_token s));
  verify_topic := fun s cap t =>
    if decide (cap = Some (rv_token s) \/ rv_token s = x00) then Ok (str "subject", [str "*"])
    else Err (RAuth (str "denied"));
  EventSource := bytes;
  event_source := fun s t => if decide (t ∈ rv_topics s) then Some t else None;
|}.

(** A tag byte and the fields; options of one byte are marked. *)
Definition opt_out (o : option byte) : bytes :=
  match o with Some b => [x01; b] | None => [x00] end.

Definition opt_in (s : bytes) : option (option byte * bytes) :=
  match s with
  | x01 :: b :: r => Some (Some b, r)
  | x00 :: r => Some (None, r)
  | _ => None
  end.

Definition env_out (e : Envelope) : bytes :=
  match e with
  | ERequest r => x01 :: r
  | EResponse (i, b) => x02 :: b :: i
  | EEvent (t, b) => x03 :: b :: t
  | ESubscribe t f c => x04 :: opt_out f ++ opt_out c ++ t
  | EUnsubscribe t => x05 :: t
  | ESubscribeError t d =>
      x06 :: as_u8 (Z.of_nat (length t)) :: t ++ d
  | EPing => [x07]
  | EPong => [x08]
  end.

Definition env_in (s : bytes) : option Envelope :=
  match s with
  | x01 :: r => Some (ERequest r)
  | x02 :: b :: i => Some (EResponse (i, b))
  | x03 :: b :: t => Some (EEvent (t, b))
  | x04 :: r =>
      match opt_in r with
      | Some (f, r1) =>
          match opt_in r1 with
          | Some (c, t) => Some (ESubscribe t f c)
          | None => None
          end
      | None => None
      end
  | x05 :: t => Some (EUnsubscribe t)
  | x06 :: n :: r =>
      Some (ESubscribeError (take (Z.to_nat (byte_Z n)) r) (drop (Z.to_nat (byte_Z n)) r))
  | [x07] => Some EPing
  | [x08] => Some EPong
  | _ => None
  end.

(** Topics of an error reply have at most 255 bytes. *)
Definition env_ok (e : Envelope) : bool :=
  match e with
  | ESubscribeError t _ => bool_decide (length (t : bytes) <= 255)
  | _ => true
  end.

#[export] Instance serde : SerdeApi := {|
  SerdeError := unit;
  to_vec := fun e => if env_ok e then Ok (env_out e) else Err tt;
  from_slice := fun s => match env_in s with Some e => Ok e | None => Err tt end;
|}.

#[export] Instance serde_laws : SerdeLaws.
Proof.
  intros e v. simpl. destruct (env_ok e) eqn:Eok; [|done]. intros [= <-].
  destruct e as [r|[i b]|[t b]|t f c|t|t d| |]; try done.
  - by destruct f as [f|], c as [c|].
  - simpl in *. apply bool_decide_eq_true in Eok.
    rewrite byte_Z_as_u8, Z.mod_small by lia. rewrite Nat2Z.id.
    by rewrite take_app_length, drop_app_length.
Qed.

End Ref.
