(* ===== verification/Framing.v ===== *)
(** * Profile-driven encrypted framing

    [src/framing.rs].  The [&mut] arguments of each function are the state it
    threads: the stream and the accumulation buffer for [recv_raw], with the
    session for [recv_frame], the stream, the session and the generator for
    [send_frame].  The receive loops take one unit of fuel per iteration; with
    the fuel used up the future is still pending, and the theorems give the
    fuel that is enough. *)

From S2P Require Import Prelude RustStd Externals Envelope Stream Instances.

Section Framing.
Context {WA : WireApi} {CA : CoreApi} {SA : SerdeApi} {S : Type} {IA : AsyncIo S}.

Definition eof_mid_frame : IoError := mkIoError UnexpectedEof (str "EOF mid-frame").
Definition invalid_framing : IoError := mkIoError InvalidData (str "invalid framing").

(** [send_frame]. *)
Definition send_frame (env : Envelope) (profile : MimicryProfile)
    : IO (S * Session * Rng) ObfsError unit := fun '(io, session, rng) =>
  match to_vec env with
  | Err e => (Ready (Err (Serde e)), (io, session, rng))
  | Ok plaintext =>
      match encrypt session plaintext with
      | (Err e, session') => (Ready (Err (Wire e)), (io, session', rng))
      | (Ok ciphertext, session') =>
          match frame_out profile ciphertext rng with
          | (Err e, rng') => (Ready (Err (Wire e)), (io, session', rng'))
          | (Ok wire, rng') =>
              match write_all wire io with
              | (Ready (Ok _), io') => (Ready (Ok tt), (io', session', rng'))
              | (Ready (Err e), io') => (Ready (Err (Io e)), (io', session', rng'))
              | (Pending, io') => (Pending, (io', session', rng'))
              end
          end
      end
  end.

#[local] Arguments send_frame : simpl never.

(** [recv_frame]. *)
Fixpoint recv_frame (fuel : nat) (profile : MimicryProfile)
    (st : S * Session * bytes) : Poll (Res ObfsError Envelope) * (S * Session * bytes) :=
  let '(io, session, buf) := st in
  match fuel with
  | 0 => (Pending, st)
  | Datatypes.S fuel' =>
      match frame_in profile buf with
      | (FrameRecord ciphertext, buf) =>
          match decrypt session ciphertext with
          | (Err e, session') => (Ready (Err (Wire e)), (io, session', buf))
          | (Ok plaintext, session') =>
              match from_slice plaintext with
              | Err e => (Ready (Err (Serde e)), (io, session', buf))
              | Ok env => (Ready (Ok env), (io, session', buf))
              end
          end
      | (NeedMore, buf) =>
          match read 4096 io with
          | (Ready (Ok []), io') =>
              match buf with
              | [] => (Ready (Err Closed), (io', session, buf))
              | _ => (Ready (Err (Io eof_mid_frame)), (io', session, buf))
              end
          | (Ready (Ok tmp), io') => recv_frame fuel' profile (io', session, buf ++ tmp)
          | (Ready (Err e), io') => (Ready (Err (Io e)), (io', session, buf))
          | (Pending, io') => (Pending, (io', session, buf))
          end
      | (Invalid _, buf) => (Ready (Err (Io invalid_framing)), (io, session, buf))
      end
  end.

(** [send_raw]. *)
Definition send_raw (profile : MimicryProfile) (bs : bytes)
    : IO (S * Rng) ObfsError unit := fun '(w, rng) =>
  match frame_out profile bs rng with
  | (Err e, rng') => (Ready (Err (Wire e)), (w, rng'))
  | (Ok wire, rng') =>
      match write_all wire w with
      | (Ready (Ok _), w') => (Ready (Ok tt), (w', rng'))
      | (Ready (Err e), w') => (Ready (Err (Io e)), (w', rng'))
      | (Pending, w') => (Pending, (w', rng'))
      end
  end.

(** [recv_raw]. *)
Fixpoint recv_raw (fuel : nat) (profile : MimicryProfile) (st : S * bytes)
    : Poll (Res ObfsError bytes) * (S * bytes) :=
  let '(r, buf) := st in
  match fuel with
  | 0 => (Pending, st)
  | Datatypes.S fuel' =>
      match frame_in profile buf with
      | (FrameRecord bs, buf) => (Ready (Ok bs), (r, buf))
      | (NeedMore, buf) =>
          match read 4096 r with
          | (Ready (Ok []), r') =>
              match buf with
              | [] => (Ready (Err Closed), (r', buf))
              | _ => (Ready (Err (Io eof_mid_frame)), (r', buf))
              end
          | (Ready (Ok tmp), r') => recv_raw fuel' profile (r', buf ++ tmp)
          | (Ready (Err e), r') => (Ready (Err (Io e)), (r', buf))
          | (Pending, r') => (Pending, (r', buf))
          end
      | (Invalid _, buf) => (Ready (Err (Io invalid_framing)), (r, buf))
      end
  end.

(** [FramedWriter] and [FramedReader]: a stream with its profile and, for the
    writer, its generator; for the reader, its accumulation buffer. *)
Record FramedWriter : Type := mkFramedWriter {
  fw_w : S; fw_profile : MimicryProfile; fw_rng : Rng }.

(** [FramedWriter::new]; [entropy] is the generator [SmallRng::from_entropy]
    returns. *)
Definition framed_writer_new (w : S) (profile : MimicryProfile) (entropy : Rng)
    : FramedWriter := mkFramedWriter w profile entropy.

(** [FramedWriter::send]. *)
Definition framed_writer_send (env : Envelope)
    : IO (FramedWriter * Session) ObfsError unit := fun '(fw, session) =>
  match send_frame env (fw_profile fw) (fw_w fw, session, fw_rng fw) with
  | (r, (w', session', rng')) =>
      (r, (mkFramedWriter w' (fw_profile fw) rng', session'))
  end.

Record FramedReader : Type := mkFramedReader {
  fr_r : S; fr_profile : MimicryProfile; fr_buf : bytes }.

(** [FramedReader::new]. *)
Definition framed_reader_new (r : S) (profile : MimicryProfile) : FramedReader :=
  mkFramedReader r profile [].

(** [FramedReader::recv]. *)
Definition framed_reader_recv (fuel : nat)
    : IO (FramedReader * Session) ObfsError Envelope := fun '(fr, session) =>
  match recv_frame fuel (fr_profile fr) (fr_r fr, session, fr_buf fr) with
  | (res, (r', session', buf')) =>
      (res, (mkFramedReader r' (fr_profile fr) buf', session'))
  end.

(** [write_frame]; [vanilla] is [Vanilla::new(Default::default())]. *)
Definition write_frame (vanilla : MimicryProfile) (entropy : Rng) (envelope : Envelope)
    : IO (S * Session) ObfsError unit := fun '(io, session) =>
  match send_frame envelope vanilla (io, session, entropy) with
  | (r, (io', session', _)) => (r, (io', session'))
  end.

(** [read_frame]: the accumulation buffer is local to the call. *)
Definition read_frame (fuel : nat) (vanilla : MimicryProfile)
    : IO (S * Session) ObfsError Envelope := fun '(io, session) =>
  match recv_frame fuel vanilla (io, session, []) with
  | (r, (io', session', _)) => (r, (io', session'))
  end.

(** [MAX_FRAME]. *)
Definition MAX_FRAME : Z := 16 * 1024 * 1024.

(** ** The two receive loops agree *)

(** What [recv_frame] does with the outcome of [recv_raw]. *)
Definition decode_record (session : Session)
    (o : Poll (Res ObfsError bytes) * (S * bytes))
    : Poll (Res ObfsError Envelope) * (S * Session * bytes) :=
  match o with
  | (Ready (Ok ciphertext), (io, buf)) =>
      match decrypt session ciphertext with
      | (Err e, session') => (Ready (Err (Wire e)), (io, session', buf))
      | (Ok plaintext, session') =>
          (Ready (res_map_err Serde (from_slice plaintext)), (io, session', buf))
      end
  | (Ready (Err e), (io, buf)) => (Ready (Err e), (io, session, buf))
  | (Pending, (io, buf)) => (Pending, (io, session, buf))
  end.

Lemma recv_frame_raw fuel p io session buf :
  recv_frame fuel p (io, session, buf) =
  decode_record session (recv_raw fuel p (io, buf)).
Proof.
  revert io buf. induction fuel as [|fuel IH]; intros io buf; [done|]. simpl.
  destruct (frame_in p buf) as [[ct| |msg] buf']; simpl; [| |done].
  - destruct (decrypt session ct) as [[pt|e] session']; [|done].
    by destruct (from_slice pt).
  - destruct (read 4096 io) as [[[[|x tmp]|e]|] io'];
      [by destruct buf'|apply IH|done|done].
Qed.

(** ** Receiving over an arbitrarily chunked stream *)

Context {AV : AsyncView S} {AL : AsyncIoLaws S}.
Context (p : MimicryProfile) {PL : ProfileLaws p}.

Lemma consume_consume m n v : consume n (consume m v) = consume (m + n) v.
Proof. unfold consume. simpl. by rewrite drop_drop. Qed.

Lemma consume_0 v : consume 0 v = v.
Proof. by destruct v. Qed.

(** One read of a stream that still delivers bytes. *)
Lemma read_chunk io :
  v_in (view io) <> [] ->
  exists n x tmp io',
    read 4096 io = (Ready (Ok (x :: tmp)), io') /\
    x :: tmp = take n (v_in (view io)) /\
    0 < n <= length (v_in (view io)) /\
    view io' = consume n (view io).
Proof.
  intros Hne.
  destruct (read_some 4096 io ltac:(lia) Hne) as (n & io' & Hn & Hn' & Hr & Hv).
  destruct (take n (v_in (view io))) as [|x tmp] eqn:Et.
  { apply (f_equal length) in Et. rewrite length_take in Et. simpl in Et. lia. }
  exists n, x, tmp, io'. split_and!; [done|done|lia|lia|done].
Qed.

(** A frame at the head of the buffered and delivered bytes is received,
    whatever the chunking, and everything after it is kept in order. *)
Lemma recv_raw_frame r rng rng' w rest fuel io buf :
  frame_out p r rng = (Ok w, rng') ->
  buf ++ v_in (view io) = w ++ rest ->
  length (v_in (view io)) < fuel ->
  exists k io' buf',
    recv_raw fuel p (io, buf) = (Ready (Ok r), (io', buf')) /\
    view io' = consume k (view io) /\
    buf' ++ v_in (view io') = rest.
Proof.
  intros Hw. revert io buf. induction fuel as [|fuel IH]; intros io buf Heq Hf; [lia|].
  simpl. destruct (decide (length w <= length buf)) as [Hl|Hl].
  - assert (buf = w ++ drop (length w) buf) as Hb.
    { rewrite <-(take_drop (length w) buf) at 1. f_equal.
      rewrite <-(take_app_le buf (v_in (view io))) by lia.
      rewrite Heq. by rewrite take_app_length. }
    rewrite Hb, (frame_complete _ _ _ _ _ Hw).
    exists 0, io, (drop (length w) buf). rewrite consume_0.
    split_and!; [done|done|].
    rewrite Hb, <-app_assoc in Heq. by apply app_inv_head in Heq.
  - assert (w = buf ++ take (length w - length buf) (v_in (view io))) as Hpre.
    { rewrite <-take_app_ge by lia. rewrite Heq. by rewrite take_app_length. }
    assert (length (v_in (view io)) >= length w - length buf) as Hlen.
    { apply (f_equal length) in Heq. rewrite !length_app in Heq. lia. }
    assert (v_in (view io) <> []) as Hne.
    { intros E. rewrite E in Hlen. simpl in Hlen. lia. }
    rewrite (frame_partial _ _ _ _ _ _ Hw Hpre); cycle 1.
    { intros E. apply (f_equal length) in E. rewrite length_take in E. simpl in E. lia. }
    destruct (read_chunk io Hne) as (n & x & tmp & io1 & -> & Et & Hn & Hv).
    rewrite Et.
    destruct (IH io1 (buf ++ take n (v_in (view io)))) as (k & io2 & buf2 & -> & Hv2 & Hr).
    { rewrite Hv. simpl. by rewrite <-app_assoc, take_drop. }
    { rewrite Hv. simpl. rewrite length_drop. lia. }
    exists (n + k), io2, buf2. split_and!; [done| |done].
    by rewrite Hv2, Hv, consume_consume.
Qed.

(** Until a frame completes nothing is lost: when the future is still
    pending, the buffer and the undelivered bytes make up the same text. *)
Lemma recv_raw_pending fuel io buf io' buf' :
  recv_raw fuel p (io, buf) = (Pending, (io', buf')) ->
  exists k, view io' = consume k (view io) /\
            buf' ++ v_in (view io') = buf ++ v_in (view io).
Proof.
  revert io buf. induction fuel as [|fuel IH]; intros io buf.
  { intros [= <- <-]. exists 0. by rewrite consume_0. }
  simpl. destruct (frame_in p buf) as [[r| |msg] buf1] eqn:E; [done| |done].
  apply frame_need_more in E as ->.
  destruct (decide (v_in (view io) = [])) as [Hnil|Hne].
  - destruct (read_none 4096 io ltac:(lia) Hnil) as (io1 & -> & Hv).
    destruct (v_fin (view io)); simpl; [by destruct buf|done|].
    intros [= <- <-]. exists 0. by rewrite consume_0, Hv.
  - destruct (read_chunk io Hne) as (n & x & tmp & io1 & -> & Et & Hn & Hv).
    rewrite Et. intros (k & Hv2 & Hr)%IH. exists (n + k).
    rewrite Hr, Hv2, Hv, consume_consume. split; [done|].
    simpl. by rewrite <-app_assoc, take_drop.
Qed.

(** Whatever the outcome, only input was consumed. *)
Lemma recv_raw_consumes fuel io buf r io' buf' :
  recv_raw fuel p (io, buf) = (r, (io', buf')) -> exists k, view io' = consume k (view io).
Proof.
  revert io buf. induction fuel as [|fuel IH]; intros io buf; simpl.
  { intros [= <- <- <-]. exists 0. by rewrite consume_0. }
  destruct (frame_in p buf) as [[ct| |msg] buf1].
  - intros [= <- <- <-]. exists 0. by rewrite consume_0.
  - destruct (decide (v_in (view io) = [])) as [Hnil|Hne].
    + destruct (read_none 4096 io ltac:(lia) Hnil) as (io1 & -> & Hv). intros H. exists 0.
      rewrite consume_0, <-Hv. destruct (v_fin (view io)); simpl in H; [destruct buf1|..]; congruence.
    + destruct (read_chunk io Hne) as (n & x & tmp & io1 & -> & Et & Hn & Hv).
      intros (k & Hk)%IH. exists (n + k). by rewrite Hk, Hv, consume_consume.
  - intros [= <- <- <-]. exists 0. by rewrite consume_0.
Qed.

(** More fuel does not change a result. *)
Lemma recv_raw_mono fuel fuel' io buf r st :
  recv_raw fuel p (io, buf) = (Ready r, st) -> fuel <= fuel' ->
  recv_raw fuel' p (io, buf) = (Ready r, st).
Proof.
  revert fuel' io buf. induction fuel as [|fuel IH]; intros fuel' io buf H Hle; [done|].
  destruct fuel' as [|fuel']; [lia|]. simpl in *.
  destruct (frame_in p buf) as [[ct| |msg] buf1]; [done| |done].
  destruct (read 4096 io) as [[[[|x tmp]|e]|] io1]; try done. apply IH; [done|lia].
Qed.

(** At end of file without a complete frame. *)
Lemma recv_raw_eof fuel io buf :
  v_fin (view io) = FinEof ->
  (forall pre, pre `prefix_of` buf ++ v_in (view io) -> frame_in p pre = (NeedMore, pre)) ->
  length (v_in (view io)) < fuel ->
  exists io',
    recv_raw fuel p (io, buf) =
      (Ready (Err (match buf ++ v_in (view io) with
                   | [] => Closed | _ => Io eof_mid_frame end)),
       (io', buf ++ v_in (view io))).
Proof.
  intros Hfin. revert io buf Hfin. induction fuel as [|fuel IH]; intros io buf Hfin Hnm Hf; [lia|].
  simpl. rewrite Hnm by apply prefix_app_r, reflexivity.
  destruct (decide (v_in (view io) = [])) as [Hnil|Hne].
  - destruct (read_none 4096 io ltac:(lia) Hnil) as (io1 & -> & Hv).
    rewrite Hfin, Hnil, app_nil_r. simpl. exists io1. by destruct buf.
  - destruct (read_chunk io Hne) as (n & x & tmp & io1 & -> & Et & Hn & Hv).
    rewrite Et.
    assert (Htd : (buf ++ take n (v_in (view io))) ++ v_in (view io1) = buf ++ v_in (view io)).
    { rewrite Hv. simpl. by rewrite <-app_assoc, take_drop. }
    destruct (IH io1 (buf ++ take n (v_in (view io)))) as (io2 & ->).
    { by rewrite Hv. }
    { by rewrite Htd. }
    { rewrite Hv. simpl. rewrite length_drop. lia. }
    rewrite Htd. by exists io2.
Qed.

(** ** Sending *)

(** A successful [send_frame] puts one frame on the wire. *)
Lemma send_frame_sent env io session rng io' session' rng' :
  send_frame env p (io, session, rng) = (Ready (Ok tt), (io', session', rng')) ->
  exists pt ct w,
    to_vec env = Ok pt /\ encrypt session pt = (Ok ct, session') /\
    frame_out p ct rng = (Ok w, rng') /\ view io' = emit w (view io).
Proof.
  unfold send_frame.
  destruct (to_vec env) as [pt|] eqn:E1; [|done].
  destruct (encrypt session pt) as [[ct|] session1] eqn:E2; [|done].
  destruct (frame_out p ct rng) as [[w|] rng1] eqn:E3; [|done].
  destruct (write_all w io) as [[[[]|]|] io1] eqn:E4; [|done|done].
  intros [= <- <- <-]. apply write_all_sent in E4. by eauto 10.
Qed.

(** A sender that writes a list of envelopes and stops at the first failure. *)
Fixpoint send_all (envs : list Envelope) (st : S * Session * Rng)
    : option (S * Session * Rng) :=
  match envs with
  | [] => Some st
  | env :: envs' =>
      match send_frame env p st with
      | (Ready (Ok _), st') => send_all envs' st'
      | _ => None
      end
  end.

Lemma send_all_sent envs io session rng io' session' rng' :
  send_all envs (io, session, rng) = Some (io', session', rng') ->
  exists sent, v_out (view io') = v_out (view io) ++ sent.
Proof.
  revert io session rng. induction envs as [|e envs IH]; intros io session rng Hs; simpl in Hs.
  - simplify_eq. exists []. by rewrite app_nil_r.
  - destruct (send_frame e p (io, session, rng)) as [[[[]|]|] [[io1 s1] r1]] eqn:E; [|done|done].
    destruct (send_frame_sent _ _ _ _ _ _ _ E) as (_ & _ & w & _ & _ & _ & Hv).
    destruct (IH _ _ _ Hs) as [sent ->]. exists (w ++ sent). rewrite Hv. simpl. by rewrite <-app_assoc.
Qed.

(** A receiver that calls [recv_frame] [n] times with one buffer. *)
Fixpoint recv_all (fuel n : nat) (st : S * Session * bytes)
    : option (list Envelope * (S * Session * bytes)) :=
  match n with
  | 0 => Some ([], st)
  | Datatypes.S n' =>
      match recv_frame fuel p st with
      | (Ready (Ok env), st') =>
          match recv_all fuel n' st' with
          | Some (envs, st'') => Some (env :: envs, st'')
          | None => None
          end
      | _ => None
      end
  end.

Context (paired : Session -> Session -> Prop) {SL : SessionLaws paired} {JL : SerdeLaws}.

(** One envelope: the receiver gets it back and the sessions stay paired. *)
Lemma send_recv_frame env io session rng io' session' rng' w rest fuel rio rsession buf :
  send_frame env p (io, session, rng) = (Ready (Ok tt), (io', session', rng')) ->
  view io' = emit w (view io) ->
  paired session rsession ->
  buf ++ v_in (view rio) = w ++ rest ->
  length (v_in (view rio)) < fuel ->
  exists k rio' rsession' buf',
    recv_frame fuel p (rio, rsession, buf) = (Ready (Ok env), (rio', rsession', buf')) /\
    paired session' rsession' /\
    view rio' = consume k (view rio) /\ buf' ++ v_in (view rio') = rest.
Proof.
  intros (pt & ct & w' & Hpt & Hct & Hw & Hv)%send_frame_sent Hv' Hp Hbuf Hf.
  assert (w' = w) as ->.
  { rewrite Hv in Hv'. apply (f_equal v_out) in Hv'. simpl in Hv'.
    by apply app_inv_head in Hv'. }
  destruct (recv_raw_frame _ _ _ _ _ _ _ _ Hw Hbuf Hf) as (k & rio' & buf' & Hr & Hk & Hrest).
  destruct (session_roundtrip _ _ _ _ _ Hp Hct) as (rsession' & Hd & Hp').
  exists k, rio', rsession', buf'. split_and!; [|done|done|done].
  rewrite recv_frame_raw, Hr. simpl. by rewrite Hd, (serde_roundtrip _ _ Hpt).
Qed.

(** C1: every envelope written by a sequence of successful [send_frame] calls
    is received, once and in order, by the same number of [recv_frame] calls on
    the peer's session, however the stream cuts the bytes into reads; what
    follows the last frame stays available, in order, in the buffer and the
    stream, and the two sessions are again in step. *)
Theorem envelopes_delivered_in_order envs io session rng io' session' rng' sent rest
    fuel rio rsession buf :
  send_all envs (io, session, rng) = Some (io', session', rng') ->
  v_out (view io') = v_out (view io) ++ sent ->
  paired session rsession ->
  buf ++ v_in (view rio) = sent ++ rest ->
  length (v_in (view rio)) < fuel ->
  exists rio' rsession' buf',
    recv_all fuel (length envs) (rio, rsession, buf) = Some (envs, (rio', rsession', buf')) /\
    paired session' rsession' /\
    buf' ++ v_in (view rio') = rest.
Proof.
  revert io session rng sent rio rsession buf.
  induction envs as [|env envs IH]; intros io session rng sent rio rsession buf Hsend Hout Hp Hbuf Hf.
  - simpl in Hsend. simplify_eq. exists rio, rsession, buf. split_and!; [done|done|].
    destruct sent; [done|]. apply (f_equal length) in Hout.
    rewrite length_app in Hout. simpl in Hout. lia.
  - simpl in Hsend.
    destruct (send_frame env p (io, session, rng)) as [[[[]|]|] [[io1 session1] rng1]] eqn:E;
      [|done|done].
    destruct (send_frame_sent _ _ _ _ _ _ _ E) as (pt & ct & w & _ & _ & _ & Hv).
    destruct (send_all_sent _ _ _ _ _ _ _ Hsend) as [sent' Hsent].
    rewrite Hsent, Hv in Hout. simpl in Hout.
    rewrite <-app_assoc in Hout. apply app_inv_head in Hout as <-.
    rewrite <-app_assoc in Hbuf.
    destruct (send_recv_frame _ _ _ _ _ _ _ _ _ _ _ _ _ E Hv Hp Hbuf Hf)
      as (k & rio1 & rsession1 & buf1 & Hr & Hp1 & Hk & Hrest).
    destruct (IH _ _ _ sent' rio1 rsession1 buf1 Hsend Hsent Hp1 Hrest) as (rio2 & rs2 & buf2 & Hra & ?).
    { rewrite Hk. simpl. rewrite length_drop. lia. }
    exists rio2, rs2, buf2. simpl. by rewrite Hr, Hra.
Qed.

(** [recv_frame] may be dropped while it waits, as [tokio::select!] does:
    if a call is pending with the buffer [buf'], and the stream goes on to
    deliver the rest of a frame, a fresh call on that buffer returns the
    frame's record, exactly as an uninterrupted call on the whole input. *)
Lemma recv_raw_cancel_safe r rng rng' w rest more fuel fuel' io buf io' buf' io2 :
  frame_out p r rng = (Ok w, rng') ->
  recv_raw fuel p (io, buf) = (Pending, (io', buf')) ->
  v_in (view io2) = v_in (view io') ++ more ->
  buf ++ v_in (view io) ++ more = w ++ rest ->
  length (v_in (view io2)) < fuel' ->
  exists io3 buf3,
    recv_raw fuel' p (io2, buf') = (Ready (Ok r), (io3, buf3)) /\
    buf3 ++ v_in (view io3) = rest.
Proof.
  intros Hw (k & Hk & Hkeep)%recv_raw_pending Hmore Heq Hf.
  destruct (recv_raw_frame r rng rng' w rest fuel' io2 buf' Hw) as (? & io3 & buf3 & ? & _ & ?);
    [|done|by eauto].
  by rewrite Hmore, app_assoc, Hkeep, <-app_assoc.
Qed.

(** At end of file, [recv_frame] reports [Closed] exactly when not a single
    byte of a next frame had arrived, and [UnexpectedEof] when the bytes that
    arrived are not yet a frame; the session is untouched. *)
Lemma recv_frame_eof fuel io session buf :
  v_fin (view io) = FinEof ->
  (forall pre, pre `prefix_of` buf ++ v_in (view io) -> frame_in p pre = (NeedMore, pre)) ->
  length (v_in (view io)) < fuel ->
  exists io',
    recv_frame fuel p (io, session, buf) =
      (Ready (Err (match buf ++ v_in (view io) with
                   | [] => Closed
                   | _ => Io eof_mid_frame
                   end)),
       (io', session, buf ++ v_in (view io))).
Proof.
  intros Hfin Hnm Hf. destruct (recv_raw_eof fuel io buf Hfin Hnm Hf) as (io' & Hr).
  exists io'. by rewrite recv_frame_raw, Hr.
Qed.

(** C39: when one read of the stream returns a whole
    frame and the beginning of what follows it, [recv_frame] keeps the surplus
    in the caller's buffer, but [read_frame], whose buffer is local to the call,
    returns the envelope and loses the surplus: the next call starts after it. *)
Theorem read_frame_drops_coalesced fuel io io1 session session' ct pt env rng rng' w surplus :
  frame_out p ct rng = (Ok w, rng') -> w <> [] ->
  decrypt session ct = (Ok pt, session') -> from_slice pt = Ok env ->
  read 4096 io = (Ready (Ok (w ++ surplus)), io1) ->
  recv_frame (2 + fuel) p (io, session, []) = (Ready (Ok env), (io1, session', surplus)) /\
  read_frame (2 + fuel) p (io, session) = (Ready (Ok env), (io1, session')).
Proof.
  intros Hw Hne Hd Hs Hr.
  assert (recv_frame (2 + fuel) p (io, session, []) = (Ready (Ok env), (io1, session', surplus))) as H.
  { simpl. rewrite (frame_partial _ _ _ _ [] w Hw eq_refl Hne), Hr.
    destruct w as [|x w]; [done|]. simpl. rewrite app_comm_cons, (frame_complete _ _ _ _ _ Hw).
    by rewrite Hd, Hs. }
  split; [done|]. unfold read_frame. by rewrite H.
Qed.

End Framing.

Arguments FramedWriter {_} S.
#[global] Arguments send_frame : simpl never.
#[global] Arguments send_raw : simpl never.
Arguments FramedReader {_} S.

(** ** Concrete runs *)

Module FramingRuns.
Import Ref.

Definition idle : Script := mkScript [] FinWait [] None.

(** A stream that delivers the given chunks. *)
Definition delivering (chunks : list bytes) (f : Fin) : Script :=
  mkScript chunks f [] None.

Definition ping_frame : bytes := [x00; x00; x00; x02; x00; x07].
Definition pong_frame : bytes := [x00; x00; x00; x02; x01; x08].

(** Two envelopes, received from three unevenly cut chunks. *)
Lemma envelopes_delivered_in_order_witness :
  exists rio' rsession' buf',
    recv_all vanilla 20 2
      (delivering [[x00; x00]; [x00; x02; x00; x07; x00]; [x00; x00; x02; x01; x08; xaa]] FinEof,
       mkRSession 0 0, [])
    = Some ([EPing; EPong], (rio', rsession', buf')) /\
    paired (mkRSession 2 0) rsession' /\
    buf' ++ v_in (view rio') = [xaa].
Proof.
  apply (envelopes_delivered_in_order vanilla paired [EPing; EPong] idle (mkRSession 0 0) 0
           (mkScript [] FinWait (ping_frame ++ pong_frame) None) (mkRSession 2 0) 0
           (ping_frame ++ pong_frame) [xaa] 20
           (delivering [[x00; x00]; [x00; x02; x00; x07; x00];
                        [x00; x00; x02; x01; x08; xaa]] FinEof)
           (mkRSession 0 0) []).
  - reflexivity.
  - reflexivity.
  - split; reflexivity.
  - reflexivity.
  - vm_compute. lia.
Defined.

(** The receive is dropped after five bytes of a six-byte frame. *)
Lemma recv_raw_cancel_safe_example :
  exists io3 buf3,
    recv_raw 20 vanilla (delivering [[x07; xbb]] FinWait, [x00; x00; x00; x02; x00])
    = (Ready (Ok [x00; x07]), (io3, buf3)) /\
    buf3 ++ v_in (view io3) = [xbb].
Proof.
  apply (recv_raw_cancel_safe vanilla [x00; x07] 0 0 ping_frame [xbb] [x07; xbb] 20 20
           (delivering [[x00; x00]; [x00; x02; x00]] FinWait) []
           (delivering [[]] FinWait)).
  - reflexivity.
  - reflexivity.
  - reflexivity.
  - reflexivity.
  - vm_compute. lia.
Defined.

(** Five bytes of a six-byte frame, then end of file. *)
Lemma recv_frame_eof_example :
  exists io',
    recv_frame 20 vanilla
      (delivering [[x00; x00]; [x00; x02; x00]] FinEof, mkRSession 0 0, [])
    = (Ready (Err (Io eof_mid_frame)),
       (io', mkRSession 0 0, [x00; x00; x00; x02; x00])).
Proof.
  refine (recv_frame_eof vanilla 20 (delivering [[x00; x00]; [x00; x02; x00]] FinEof)
           (mkRSession 0 0) [] _ _ _).
  - reflexivity.
  - intros pre [post Hp].
    destruct pre as [|a [|b [|c [|d [|e [|f pre]]]]]]; simplify_eq/=; try reflexivity.
  - vm_compute. lia.
Defined.

(** A ping and a pong that arrive in one read. *)
Lemma read_frame_drops_coalesced_witness :
  recv_frame 3 vanilla (delivering [ping_frame ++ pong_frame] FinWait, mkRSession 0 0, [])
    = (Ready (Ok EPing), (delivering [[]] FinWait, mkRSession 0 1, pong_frame)) /\
  read_frame 3 vanilla (delivering [ping_frame ++ pong_frame] FinWait, mkRSession 0 0)
    = (Ready (Ok EPing), (delivering [[]] FinWait, mkRSession 0 1)).
Proof.
  refine (read_frame_drops_coalesced vanilla 1 (delivering [ping_frame ++ pong_frame] FinWait)
            (delivering [[]] FinWait) (mkRSession 0 0) (mkRSession 0 1) [x00; x07] [x07] EPing 0 0
            ping_frame pong_frame _ _ _ _ _); try reflexivity. discriminate.
Defined.

End FramingRuns.
