(* ===== verification/Duplex.v ===== *)
(** * Both directions of a framed session

    A client and a server each write frames over the sending half of their
    session and read the other's: what it takes for an envelope to be sent, and
    what a receiver gets back from a sequence of frames. *)

From S2P Require Import Prelude RustStd Externals Envelope Stream Framing.

Section Duplex.
Context {WA : WireApi} {CA : CoreApi} {SA : SerdeApi} {S : Type} {IA : AsyncIo S}.
Context {AV : AsyncView S} {AL : AsyncIoLaws S}.
Context (p : MimicryProfile) {PL : ProfileLaws p}.
Context (half : Session -> Session -> Prop) {DX : DuplexLaws half} {JL : SerdeLaws}.

(** [env] can be put on the wire from any session and generator state. *)
Definition sendable (env : Envelope) : Prop :=
  exists pt, to_vec env = Ok pt /\
    forall session rng, exists ct session' w rng',
      encrypt session pt = (Ok ct, session') /\ frame_out p ct rng = (Ok w, rng').

Lemma send_frame_sendable env io session rng :
  sendable env -> v_wr (view io) = true ->
  exists w io' session' rng',
    send_frame env p (io, session, rng) = (Ready (Ok tt), (io', session', rng')) /\
    view io' = emit w (view io).
Proof.
  intros (pt & Hpt & Hs) Hw. destruct (Hs session rng) as (ct & s' & w & rng' & He & Hf).
  destruct (write_all_ok w io Hw) as (io' & Hwr & Hv).
  exists w, io', s', rng'. split; [|done]. unfold send_frame. by rewrite Hpt, He, Hf, Hwr.
Qed.

Lemma emit_nil v : emit [] v = v.
Proof. destruct v. unfold emit. simpl. by rewrite app_nil_r. Qed.

Lemma send_frame_keeps_rx env io session rng io' session' rng' x :
  send_frame env p (io, session, rng) = (Ready (Ok tt), (io', session', rng')) ->
  half x session -> half x session'.
Proof.
  intros (pt & ct & w & _ & He & _)%send_frame_sent. by eapply encrypt_keeps_rx.
Qed.

Lemma recv_frame_keeps_tx fuel io session buf r io' session' buf' x :
  recv_frame fuel p (io, session, buf) = (r, (io', session', buf')) ->
  half session x -> half session' x.
Proof.
  rewrite recv_frame_raw. destruct (recv_raw fuel p (io, buf)) as [[[ct|e]|] [io1 buf1]]; simpl.
  - destruct (decrypt session ct) as [[pt|e] s'] eqn:E; intros [= <- <- <- <-];
      by eapply decrypt_keeps_tx.
  - by intros [= <- <- <- <-].
  - by intros [= <- <- <- <-].
Qed.

(** [said w replies session]: the bytes [w] are frames that a receiver paired
    with the sending half of [session] reads back as [replies]; [session'] is
    the sender's session after them. *)
Definition said (replies : list Envelope) (session session' : Session) (w : bytes) : Prop :=
  forall rsession rest fuel rio buf,
    half session rsession -> buf ++ v_in (view rio) = w ++ rest ->
    length (v_in (view rio)) < fuel ->
    exists rio' rsession' buf',
      recv_all p fuel (length replies) (rio, rsession, buf) = Some (replies, (rio', rsession', buf')) /\
      half session' rsession' /\ buf' ++ v_in (view rio') = rest /\
      length (v_in (view rio')) <= length (v_in (view rio)).

Lemma said_nil session : said [] session session [].
Proof. intros rsession rest fuel rio buf Hp Hb Hf. exists rio, rsession, buf. by split_and!. Qed.

Lemma said_one env io session rng io' session' rng' w :
  send_frame env p (io, session, rng) = (Ready (Ok tt), (io', session', rng')) ->
  view io' = emit w (view io) -> said [env] session session' w.
Proof.
  intros Hs Hv rsession rest fuel rio buf Hp Hb Hf.
  destruct (send_recv_frame p half env _ _ _ _ _ _ w rest fuel rio rsession buf Hs Hv Hp Hb Hf)
    as (k & rio' & rs' & buf' & Hr & Hp' & Hk & Hrest).
  exists rio', rs', buf'. simpl. rewrite Hr. split_and!; [done|done|done|].
  rewrite Hk. simpl. rewrite length_drop. lia.
Qed.

Lemma recv_all_app fuel n1 n2 st envs1 st1 envs2 st2 :
  recv_all p fuel n1 st = Some (envs1, st1) -> recv_all p fuel n2 st1 = Some (envs2, st2) ->
  recv_all p fuel (n1 + n2) st = Some (envs1 ++ envs2, st2).
Proof.
  revert st envs1. induction n1 as [|n1 IH]; intros st envs1; simpl.
  - by intros [= <- <-].
  - destruct (recv_frame fuel p st) as [[[env|]|] st']; try done.
    destruct (recv_all p fuel n1 st') as [[envs st'']|] eqn:E; [|done].
    intros [= <- ->] H2. by rewrite (IH _ _ E H2).
Qed.

Lemma said_app r1 r2 s s1 s2 w1 w2 :
  said r1 s s1 w1 -> said r2 s1 s2 w2 -> said (r1 ++ r2) s s2 (w1 ++ w2).
Proof.
  intros H1 H2 rsession rest fuel rio buf Hp Hb Hf. rewrite <-app_assoc in Hb.
  destruct (H1 _ _ _ _ _ Hp Hb Hf) as (rio1 & rs1 & buf1 & Hr1 & Hp1 & Hb1 & Hl1).
  destruct (H2 _ _ fuel _ _ Hp1 Hb1) as (rio2 & rs2 & buf2 & Hr2 & Hp2 & Hb2 & Hl2); [lia|].
  exists rio2, rs2, buf2. rewrite length_app. split_and!; [by eapply recv_all_app|done|done|lia].
Qed.

Lemma said_after r s s' s2 w :
  (forall x, half s x -> half s' x) -> said r s' s2 w -> said r s s2 w.
Proof. intros Hh H rsession rest fuel rio buf Hp. apply H. auto. Qed.

(** ** Frame by frame *)

(** The same, cut into its frames: between two of them the receiver may use the
    sending half of its own session. *)
Inductive spoken : list Envelope -> Session -> Session -> bytes -> Prop :=
| spoken_end s s' : (forall x, half s x -> half s' x) -> spoken [] s s' []
| spoken_cons env out s s1 s2 w1 w2 :
    said [env] s s1 w1 -> spoken out s1 s2 w2 -> spoken (env :: out) s s2 (w1 ++ w2).

Lemma spoken_one env s s' w : said [env] s s' w -> spoken [env] s s' w.
Proof. intros H. rewrite <-(app_nil_r w). eapply spoken_cons; [done|]. by apply spoken_end. Qed.

Lemma spoken_after r s s' s2 w :
  (forall x, half s x -> half s' x) -> spoken r s' s2 w -> spoken r s s2 w.
Proof.
  intros Hh H. revert Hh. destruct H as [? ? Hn|env out s1 s2 s3 w1 w2 H1 H2]; intros Hh.
  - apply spoken_end. auto.
  - eapply spoken_cons; [|exact H2]. by eapply said_after.
Qed.

Lemma spoken_app r1 r2 s s1 s2 w1 w2 :
  spoken r1 s s1 w1 -> spoken r2 s1 s2 w2 -> spoken (r1 ++ r2) s s2 (w1 ++ w2).
Proof.
  induction 1 as [s s' Hh|env out s s1 s' w w' H1 H2 IH]; intros H; [by eapply spoken_after|].
  rewrite <-app_assoc. eapply spoken_cons; [done|by apply IH].
Qed.

Lemma spoken_said r s s' w : spoken r s s' w -> said r s s' w.
Proof.
  induction 1 as [s s' Hh|env out s s1 s2 w1 w2 H1 _ IH].
  - intros rsession rest fuel rio buf Hp Hb Hf. exists rio, rsession, buf. split_and!; auto.
  - by apply (said_app [env] out s s1).
Qed.

Lemma recv_frame_waits fuel io session buf io' session' buf' :
  recv_frame fuel p (io, session, buf) = (Pending, (io', session', buf')) ->
  session' = session /\ buf' ++ v_in (view io') = buf ++ v_in (view io) /\
  exists k, view io' = consume k (view io).
Proof.
  rewrite recv_frame_raw. destruct (recv_raw fuel p (io, buf)) as [[[ct|e]|] [io1 buf1]] eqn:E; simpl;
    [by destruct (decrypt session ct) as [[]]|done|].
  intros [= <- <- <-]. split; [done|]. destruct (recv_raw_pending _ _ _ _ _ _ E) as (k & ? & ?).
  split; [done|by exists k].
Qed.

Lemma recv_frame_consumes fuel io session buf r io' session' buf' :
  recv_frame fuel p (io, session, buf) = (r, (io', session', buf')) ->
  exists k, view io' = consume k (view io).
Proof.
  rewrite recv_frame_raw. destruct (recv_raw fuel p _) as [[[ct|e]|] [io1 buf1]] eqn:E; simpl;
    [destruct (decrypt session ct) as [[pt|e] s']|..]; intros [= <- <- <- <-];
    by eapply recv_raw_consumes.
Qed.

(** A receive that waits keeps the text; one that returns has read the next
    envelope; with fuel for the input that is left, it returns. *)
Lemma said_recv env s s1 w rest fuel io session buf r io' session' buf' :
  said [env] s s1 w -> half s session -> buf ++ v_in (view io) = w ++ rest ->
  recv_frame fuel p (io, session, buf) = (r, (io', session', buf')) ->
  (r = Ready (Ok env) /\ half s1 session' /\ buf' ++ v_in (view io') = rest) \/
  (r = Pending /\ ~ length (v_in (view io)) < fuel).
Proof.
  intros Hsaid Hh Hin Hr.
  assert (forall fuel', length (v_in (view io)) < fuel' -> exists rio rs rbuf,
    recv_frame fuel' p (io, session, buf) = (Ready (Ok env), (rio, rs, rbuf)) /\
    half s1 rs /\ rbuf ++ v_in (view rio) = rest) as Hread.
  { intros fuel' Hf. destruct (Hsaid _ _ _ _ _ Hh Hin Hf) as (rio & rs & rbuf & Ha & Hp & Hb & _).
    simpl in Ha. destruct (recv_frame fuel' p _) as [[[e|]|] st]; simplify_eq. by exists rio, rs, rbuf. }
  destruct r as [r|].
  - left. destruct (Hread (Nat.max fuel (Datatypes.S (length (v_in (view io)))))) as (rio & rs & rbuf & Hbig & ?);
      [lia|].
    rewrite recv_frame_raw in *. destruct (recv_raw fuel p (io, buf)) as [[r0|] st0] eqn:E; [|by destruct st0].
    rewrite (recv_raw_mono _ _ _ _ _ _ _ E (Nat.le_max_l _ _)), Hr in Hbig. by simplify_eq.
  - right. split; [done|]. intros (rio & rs & rbuf & ? & _)%Hread. congruence.
Qed.

End Duplex.
