(* ===== verification/HandshakeIo.v ===== *)
(** * The Noise-XK handshake over a byte stream

    [src/handshake_io.rs].  The Noise state machine is [vaiexia-wire]'s; this
    component sends the preamble, frames the three messages through the profile
    and hands the bytes read beyond the handshake to the caller.  [rng0] is the
    generator [SmallRng::from_entropy] returns and [ent] the randomness of the
    handshake itself. *)

From S2P Require Import Prelude RustStd Externals Envelope Stream Instances Framing.

Section HandshakeIo.
Context {WA : WireApi} {CA : CoreApi} {SA : SerdeApi} {S : Type} {IA : AsyncIo S}.

(** [client_handshake_in_place]. *)
Definition client_handshake_in_place (fuel : nat) (rng0 : Rng) (ent : Entropy)
    (local_private remote_public : bytes) (profile : MimicryProfile)
    : IO S ObfsError (Session * bytes) :=
  let* hs := io_of_res (res_map_err Wire (initiator ent local_private remote_public)) in
  let buf := [] in
  let '(pre, rng) := preamble profile rng0 in
  let* _ := match pre with
            | [] => io_ret tt
            | _ => let* _ := io_map_err Io (write_all pre) in
                   io_map_err Io flush
            end in
  (* msg1: initiator to responder (e, es) *)
  let* (m1, hs) := io_call Wire (write_message hs []) in
  let* (_, rng) := io_local (send_raw profile m1) rng in
  (* msg2: responder to initiator (e, ee) *)
  let* (m2, buf) := io_local (recv_raw fuel profile) buf in
  let* (_, hs) := io_call Wire (read_message hs m2) in
  (* msg3: initiator to responder (s, se) *)
  let* (m3, hs) := io_call Wire (write_message hs []) in
  let* (_, rng) := io_local (send_raw profile m3) rng in
  let* session := io_of_res (res_map_err Wire (into_session hs)) in
  io_ret (session, buf).

(** The [match] on the preamble read: end of file is a closed connection. *)
Definition skip_preamble (skip : nat) : IO S ObfsError unit := fun io =>
  match read_exact skip io with
  | (Ready (Ok _), io') => (Ready (Ok tt), io')
  | (Ready (Err e), io') =>
      if decide (kind e = UnexpectedEof) then (Ready (Err Closed), io')
      else (Ready (Err (Io e)), io')
  | (Pending, io') => (Pending, io')
  end.

(** [server_handshake_in_place]. *)
Definition server_handshake_in_place (fuel : nat) (rng0 : Rng) (ent : Entropy)
    (local_private : bytes) (profile : MimicryProfile)
    : IO S ObfsError (Session * option bytes * bytes) :=
  let* hs := io_of_res (res_map_err Wire (responder ent local_private)) in
  let buf := [] in
  let skip := preamble_skip profile in
  let* _ := if decide (0 < skip) then skip_preamble skip else io_ret tt in
  (* msg1: initiator to responder (e, es) *)
  let* (m1, buf) := io_local (recv_raw fuel profile) buf in
  let* (_, hs) := io_call Wire (read_message hs m1) in
  (* msg2: responder to initiator (e, ee) *)
  let* (m2, hs) := io_call Wire (write_message hs []) in
  let* (_, rng) := io_local (send_raw profile m2) rng0 in
  (* msg3: initiator to responder (s, se) *)
  let* (m3, buf) := io_local (recv_raw fuel profile) buf in
  let* (_, hs) := io_call Wire (read_message hs m3) in
  let remote := remote_static hs in
  let* session := io_of_res (res_map_err Wire (into_session hs)) in
  io_ret (session, remote, buf).

(** [client_handshake] and [server_handshake]: the owning variants. *)
Definition client_handshake (vanilla : MimicryProfile) (fuel : nat) (rng0 : Rng)
    (ent : Entropy) (local_private remote_public : bytes) : IO S ObfsError Session :=
  let* (session, _) :=
    client_handshake_in_place fuel rng0 ent local_private remote_public vanilla in
  io_ret session.

Definition server_handshake (vanilla : MimicryProfile) (fuel : nat) (rng0 : Rng)
    (ent : Entropy) (local_private : bytes) : IO S ObfsError Session :=
  let* (session, _, _) :=
    server_handshake_in_place fuel rng0 ent local_private vanilla in
  io_ret session.

Context {AV : AsyncView S} {AL : AsyncIoLaws S}.

(** ** Steps *)

Lemma send_raw_ok p bs io rng w rng' :
  v_wr (view io) = true -> frame_out p bs rng = (Ok w, rng') ->
  exists io', send_raw p bs (io, rng) = (Ready (Ok tt), (io', rng')) /\
    view io' = emit w (view io).
Proof.
  intros Hw Hf. destruct (write_all_ok w io Hw) as (io' & Hwr & Hv).
  exists io'. unfold send_raw. by rewrite Hf, Hwr.
Qed.

(** The preamble, written and flushed when it is not empty. *)
Lemma send_preamble_ok (pre : bytes) io :
  v_wr (view io) = true ->
  exists io',
    (match pre with
     | [] => io_ret tt
     | _ => let* _ := io_map_err Io (write_all pre) in io_map_err Io flush
     end) io = (Ready (Ok tt), io') /\ view io' = emit pre (view io).
Proof.
  intros Hw. destruct pre as [|x pre].
  - exists io. split; [done|]. unfold emit. rewrite app_nil_r. by destruct (view io).
  - destruct (write_all_ok (x :: pre) io Hw) as (io1 & H1 & Hv1).
    destruct (flush_ok io1) as (io2 & H2 & Hv2); [by rewrite Hv1|].
    exists io2. io_step H1. split; [by apply io_map_err_ok|congruence].
Qed.

Lemma skip_preamble_ok (n : nat) (junk rest : bytes) io :
  v_in (view io) = junk ++ rest -> length junk = n ->
  exists io',
    (if decide (0 < n) then skip_preamble n else io_ret tt) io = (Ready (Ok tt), io') /\
    view io' = consume n (view io) /\ v_in (view io') = rest.
Proof.
  intros Hin Hn. case_decide.
  - destruct (read_exact_enough n io) as (io' & Hr & Hv).
    { rewrite Hin, length_app. lia. }
    exists io'. unfold skip_preamble. rewrite Hr. split_and!; [done|done|].
    rewrite Hv. simpl. rewrite Hin. subst n. by rewrite drop_app_length.
  - exists io. destruct junk; [|simpl in Hn; lia]. subst n. simpl in *.
    by rewrite consume_0.
Qed.

Context (p : MimicryProfile) {PL : ProfileLaws p}.

(** ** Both ends together *)

(** The client's run, given what the peer delivers. *)
Lemma client_run fuel rng0 ent cpriv spub hi0 hr0 m1 m2 m3 hi3 hr3 cs
    pre rng1 w1 rng2 w3 rng3 srng w2 srng' tail c :
  initiator ent cpriv spub = Ok hi0 ->
  xk_exchange hi0 hr0 [] m1 m2 m3 hi3 hr3 ->
  into_session hi3 = Ok cs ->
  preamble p rng0 = (pre, rng1) ->
  frame_out p m1 rng1 = (Ok w1, rng2) ->
  frame_out p m2 srng = (Ok w2, srng') ->
  frame_out p m3 rng2 = (Ok w3, rng3) ->
  v_wr (view c) = true ->
  v_in (view c) = w2 ++ tail ->
  length (v_in (view c)) < fuel ->
  exists c' buf,
    client_handshake_in_place fuel rng0 ent cpriv spub p c
      = (Ready (Ok (cs, buf)), c') /\
    v_out (view c') = v_out (view c) ++ pre ++ w1 ++ w3 /\
    buf ++ v_in (view c') = tail /\ v_wr (view c') = true.
Proof.
  intros Hi (hi1 & hi2 & hr1 & hr2 & p1 & p2 & Hm1 & _ & _ & Hm2 & Hm3 & _)
    Hs Hpre Hf1 Hf2 Hf3 Hw Hin Hfuel.
  unfold client_handshake_in_place. rewrite Hi. unfold io_bind at 1. cbn [io_of_res res_map_err].
  rewrite Hpre.
  destruct (send_preamble_ok pre c Hw) as (c1 & H1 & V1). io_step H1.
  io_step Hm1.
  destruct (send_raw_ok p m1 c1 rng1 w1 rng2) as (c2 & H2 & V2); [by rewrite V1|done|].
  io_step H2.
  destruct (recv_raw_frame p m2 srng srng' w2 tail fuel c2 [] Hf2) as (k & c3 & buf & H3 & V3 & Hr).
  { by rewrite V2, V1. }
  { by rewrite V2, V1. }
  io_step H3.
  io_step Hm2.
  io_step Hm3.
  destruct (send_raw_ok p m3 c3 rng2 w3 rng3) as (c4 & H4 & V4);
    [by rewrite V3, V2, V1|done|].
  io_step H4. rewrite Hs. exists c4, buf. split_and!; [done| | |].
  - rewrite V4, V3, V2, V1. simpl. by rewrite <-!app_assoc.
  - by rewrite V4.
  - by rewrite V4, V3, V2, V1.
Qed.

(** The server's run, given what the peer delivers. *)
Lemma server_run fuel rng0 ent spriv hi0 hr0 m1 m2 m3 hi3 hr3 ss
    junk crng1 w1 crng1' crng3 w3 crng3' w2 rng1 tail s :
  responder ent spriv = Ok hr0 ->
  xk_exchange hi0 hr0 [] m1 m2 m3 hi3 hr3 ->
  into_session hr3 = Ok ss ->
  length junk = preamble_skip p ->
  frame_out p m1 crng1 = (Ok w1, crng1') ->
  frame_out p m2 rng0 = (Ok w2, rng1) ->
  frame_out p m3 crng3 = (Ok w3, crng3') ->
  v_wr (view s) = true ->
  v_in (view s) = junk ++ w1 ++ w3 ++ tail ->
  length (v_in (view s)) < fuel ->
  exists s' buf,
    server_handshake_in_place fuel rng0 ent spriv p s
      = (Ready (Ok (ss, remote_static hr3, buf)), s') /\
    v_out (view s') = v_out (view s) ++ w2 /\
    buf ++ v_in (view s') = tail /\ v_wr (view s') = true.
Proof.
  intros Hi (hi1 & hi2 & hr1 & hr2 & p1 & p2 & _ & Hm1 & Hm2 & _ & _ & Hm3)
    Hs Hj Hf1 Hf2 Hf3 Hw Hin Hfuel.
  unfold server_handshake_in_place. rewrite Hi. unfold io_bind at 1. cbn [io_of_res res_map_err].
  destruct (skip_preamble_ok (preamble_skip p) junk _ s Hin Hj) as (s1 & H1 & V1 & I1).
  io_step H1.
  destruct (recv_raw_frame p m1 crng1 crng1' w1 (w3 ++ tail) fuel s1 [] Hf1)
    as (k1 & s2 & buf1 & H2 & V2 & R2); [done| |].
  { rewrite V1. simpl. rewrite length_drop. lia. }
  io_step H2.
  io_step Hm1.
  io_step Hm2.
  destruct (send_raw_ok p m2 s2 rng0 w2 rng1) as (s3 & H3 & V3); [by rewrite V2, V1|done|].
  io_step H3.
  destruct (recv_raw_frame p m3 crng3 crng3' w3 tail fuel s3 buf1 Hf3)
    as (k2 & s4 & buf2 & H4 & V4 & R4).
  { by rewrite V3. }
  { rewrite V3, V2, V1. simpl. rewrite !length_drop. lia. }
  io_step H4.
  io_step Hm3.
  rewrite Hs. exists s4, buf2. split_and!; [done| |done|]; by rewrite V4, V3, V2, V1.
Qed.

(** When the Noise messages of one XK exchange
    fit in frames, there are byte strings [c2s] and [s2c] such that a client
    whose peer delivers [s2c] writes exactly [c2s], a server whose peer delivers
    [c2s] writes exactly [s2c], and both handshakes succeed, whatever the reads
    look like: the client gets its session, the server its session and the key
    [remote_static] reports, and the bytes each peer sent after its last
    handshake message are kept, in order, in the returned leftover buffer and
    the stream; both streams still accept writes. *)
Lemma handshake_in_place_agrees crng srng cent sent cpriv spub spriv
    hi0 hr0 m1 m2 m3 hi3 hr3 cs ss :
  PreambleLaw p ->
  initiator cent cpriv spub = Ok hi0 ->
  responder sent spriv = Ok hr0 ->
  xk_exchange hi0 hr0 [] m1 m2 m3 hi3 hr3 ->
  into_session hi3 = Ok cs ->
  into_session hr3 = Ok ss ->
  (forall m rng, m ∈ [m1; m2; m3] -> is_ok (frame_out p m rng).1 = true) ->
  exists c2s s2c, forall ctail stail fuel (c s : S),
    v_wr (view c) = true -> v_in (view c) = s2c ++ ctail ->
    v_wr (view s) = true -> v_in (view s) = c2s ++ stail ->
    length (v_in (view c)) < fuel -> length (v_in (view s)) < fuel ->
    (exists c' buf,
      client_handshake_in_place fuel crng cent cpriv spub p c = (Ready (Ok (cs, buf)), c') /\
      v_out (view c') = v_out (view c) ++ c2s /\ buf ++ v_in (view c') = ctail /\
      v_wr (view c') = true) /\
    (exists s' buf,
      server_handshake_in_place fuel srng sent spriv p s
        = (Ready (Ok (ss, remote_static hr3, buf)), s') /\
      v_out (view s') = v_out (view s) ++ s2c /\ buf ++ v_in (view s') = stail /\
      v_wr (view s') = true).
Proof.
  intros Hpl Hi Hr Hx Hcs Hss Hfit.
  destruct (preamble p crng) as [pre rng1] eqn:Hpre.
  pose proof (Hpl crng) as Hlen. rewrite Hpre in Hlen. simpl in Hlen.
  destruct (frame_out p m1 rng1) as [[w1|] rng2] eqn:Hf1;
    [|by specialize (Hfit m1 rng1 ltac:(set_solver)); rewrite Hf1 in Hfit].
  destruct (frame_out p m2 srng) as [[w2|] srng2] eqn:Hf2;
    [|by specialize (Hfit m2 srng ltac:(set_solver)); rewrite Hf2 in Hfit].
  destruct (frame_out p m3 rng2) as [[w3|] rng3] eqn:Hf3;
    [|by specialize (Hfit m3 rng2 ltac:(set_solver)); rewrite Hf3 in Hfit].
  exists (pre ++ w1 ++ w3), w2. intros ctail stail fuel c s Hwc Hic Hws His Hfc Hfs.
  split.
  - eapply client_run; eauto.
  - eapply server_run; eauto. by rewrite His, <-!app_assoc.
Qed.

(** A server whose peer hangs up before the
    whole preamble has arrived returns [Closed] and has written nothing. *)
Lemma server_short_preamble_closes fuel rng0 ent spriv hr0 (s : S) :
  responder ent spriv = Ok hr0 ->
  v_fin (view s) = FinEof ->
  length (v_in (view s)) < preamble_skip p ->
  exists s',
    server_handshake_in_place fuel rng0 ent spriv p s = (Ready (Err Closed), s') /\
    v_out (view s') = v_out (view s).
Proof.
  intros Hr Hfin Hlen. destruct (read_exact_short _ s Hlen) as (s' & Hre & Hv).
  exists s'. split; [|by rewrite Hv].
  unfold server_handshake_in_place. rewrite Hr. unfold io_bind at 1.
  cbn [io_of_res res_map_err]. rewrite decide_True by lia.
  apply io_bind_err. unfold skip_preamble. by rewrite Hre, Hfin.
Qed.

(** A client whose Noise state rejects
    message 2 (the server does not hold the pinned key) fails with that error
    and has written the preamble and message 1 only: message 3, which carries
    its static key, is not sent. *)
Lemma client_sends_msg3_only_after_msg2 fuel rng0 ent cpriv spub hi0 hi1 hi2 m1 m2 e
    pre rng1 w1 rng2 srng w2 srng' tail (c : S) :
  initiator ent cpriv spub = Ok hi0 ->
  write_message hi0 [] = (Ok m1, hi1) ->
  read_message hi1 m2 = (Err e, hi2) ->
  preamble p rng0 = (pre, rng1) ->
  frame_out p m1 rng1 = (Ok w1, rng2) ->
  frame_out p m2 srng = (Ok w2, srng') ->
  v_wr (view c) = true ->
  v_in (view c) = w2 ++ tail ->
  length (v_in (view c)) < fuel ->
  exists c',
    client_handshake_in_place fuel rng0 ent cpriv spub p c = (Ready (Err (Wire e)), c') /\
    v_out (view c') = v_out (view c) ++ pre ++ w1.
Proof.
  intros Hi Hm1 Hm2 Hpre Hf1 Hf2 Hw Hin Hfuel.
  unfold client_handshake_in_place. rewrite Hi. unfold io_bind at 1.
  cbn [io_of_res res_map_err]. rewrite Hpre.
  destruct (send_preamble_ok pre c Hw) as (c1 & H1 & V1). io_step H1. io_step Hm1.
  destruct (send_raw_ok p m1 c1 rng1 w1 rng2) as (c2 & H2 & V2); [by rewrite V1|done|].
  io_step H2.
  destruct (recv_raw_frame p m2 srng srng' w2 tail fuel c2 [] Hf2) as (k & c3 & buf & H3 & V3 & _).
  { by rewrite V2, V1. }
  { by rewrite V2, V1. }
  io_step H3. exists c3. split; [by apply io_bind_err, (io_call_err _ _ _ hi2)|].
  rewrite V3, V2, V1. simpl. by rewrite <-app_assoc.
Qed.

End HandshakeIo.

(** ** Concrete runs *)

Module HandshakeRuns.
Import Ref.

Definition cpriv : bytes := str "client".
Definition spriv : bytes := str "server".

Definition hi (n : nat) : Handshake := mkRHandshake RInit cpriv (Some (pub_of spriv)) n.
Definition hr0 : Handshake := mkRHandshake RResp spriv None 0.
Definition hr3 : Handshake := mkRHandshake RResp spriv (Some (pub_of cpriv)) 3.

Definition m1 : bytes := x01 :: pub_of spriv.
Definition m2 : bytes := [x02].
Definition m3 : bytes := x03 :: x07 :: pub_of cpriv.

(** A handshake with seventeen preamble bytes. *)
Lemma handshake_in_place_agrees_example :
  exists c2s s2c, forall ctail stail fuel (c s : Script),
    v_wr (view c) = true -> v_in (view c) = s2c ++ ctail ->
    v_wr (view s) = true -> v_in (view s) = c2s ++ stail ->
    length (v_in (view c)) < fuel -> length (v_in (view s)) < fuel ->
    (exists c' buf,
      client_handshake_in_place fuel 5 0 cpriv (pub_of spriv) (junk_preamble 17) c
        = (Ready (Ok (mkRSession 0 0, buf)), c') /\
      v_out (view c') = v_out (view c) ++ c2s /\ buf ++ v_in (view c') = ctail /\
      v_wr (view c') = true) /\
    (exists s' buf,
      server_handshake_in_place fuel 6 0 spriv (junk_preamble 17) s
        = (Ready (Ok (mkRSession 0 0, Some (pub_of cpriv), buf)), s') /\
      v_out (view s') = v_out (view s) ++ s2c /\ buf ++ v_in (view s') = stail /\
      v_wr (view s') = true).
Proof.
  refine (handshake_in_place_agrees (junk_preamble 17) 5 6 0 0 cpriv (pub_of spriv) spriv
            (hi 0) hr0 m1 m2 m3 (hi 3) hr3 (mkRSession 0 0) (mkRSession 0 0) _ _ _ _ _ _ _).
  - reflexivity.
  - reflexivity.
  - exists (hi 1), (hi 2), (mkRHandshake RResp spriv None 1), (mkRHandshake RResp spriv None 2), [], [].
    repeat split.
  - reflexivity.
  - reflexivity.
  - intros m rng Hm. apply list_elem_of_In in Hm.
    destruct Hm as [<-|[<-|[<-|[]]]]; reflexivity.
Defined.

Lemma server_short_preamble_closes_example :
  exists s',
    server_handshake_in_place 9 0 0 spriv (junk_preamble 17)
      (FramingRuns.delivering [repeat x2a 10] FinEof) = (Ready (Err Closed), s') /\
    v_out (view s') = [].
Proof.
  refine (server_short_preamble_closes (junk_preamble 17) 9 0 0 spriv hr0
            (FramingRuns.delivering [repeat x2a 10] FinEof) _ _ _).
  - reflexivity.
  - reflexivity.
  - vm_compute. lia.
Defined.

(** Message 2 is garbage. *)
Lemma client_sends_msg3_only_after_msg2_example :
  exists c',
    client_handshake_in_place 9 5 0 cpriv (pub_of spriv) vanilla
      (FramingRuns.delivering [[x00; x00; x00]; [x01; x63]] FinEof)
    = (Ready (Err (Wire (str "decrypt"))), c') /\
    v_out (view c') = x00 :: x00 :: x00 :: x08 :: m1.
Proof.
  refine (client_sends_msg3_only_after_msg2 vanilla 9 5 0 cpriv (pub_of spriv)
            (hi 0) (hi 1) (hi 1) m1 [x63] (str "decrypt")
            [] 5 (x00 :: x00 :: x00 :: x08 :: m1) 5 0 [x00; x00; x00; x01; x63] 0 []
            (FramingRuns.delivering [[x00; x00; x00]; [x01; x63]] FinEof) _ _ _ _ _ _ _ _ _);
    try reflexivity.
  vm_compute. lia.
Defined.

End HandshakeRuns.
