(* ===== verification/Verifier.v ===== *)
(** * The transport gate

    [src/verifier.rs]: the [TransportGate] trait and its two implementations,
    and the permissive [Verifier]. *)

From S2P Require Import Prelude RustStd Externals.

(** [TransportGate]. *)
Class TransportGate (G : Type) : Type :=
  authenticate : G -> bytes -> Res bytes unit.

(** [AllowAll]. *)
Inductive AllowAll : Type := allow_all.

#[global] Instance allow_all_gate : TransportGate AllowAll := fun _ _ => Ok tt.

(** [impl Verifier for AllowAll]. *)
Definition allow_all_verify `{CoreApi} (_ : AllowAll) (capability : option Capability)
    (method : Method) : Res CoreError Subject :=
  Ok (mk_subject (str "obfs-client") [str "*"]).

(** [KeyAllowList]. *)
Record KeyAllowList : Type := mkKeyAllowList { allowed : list bytes }.

Definition key_allow_list_new (keys : list bytes) : KeyAllowList := mkKeyAllowList keys.

(** [hex_key]. *)
Definition hex_key (k : bytes) : bytes := concat (map hex_byte k).

#[global] Instance key_allow_list_gate : TransportGate KeyAllowList := fun self remote_static =>
  if decide (remote_static ∈ allowed self) then Ok tt
  else Err (str "public key not in allow-list: " ++ hex_key remote_static).

(** ** Properties *)

Lemma hex_digit_inj a b :
  (0 <= a < 16)%Z -> (0 <= b < 16)%Z -> hex_digit a = hex_digit b -> a = b.
Proof.
  unfold hex_digit. intros Ha Hb H. apply (f_equal byte_Z) in H.
  destruct (Z.ltb_spec a 10), (Z.ltb_spec b 10); rewrite !byte_Z_as_u8, !Z.mod_small in H; lia.
Qed.

Lemma hex_byte_inj a b : hex_byte a = hex_byte b -> a = b.
Proof.
  unfold hex_byte. intros [= H1 H2]. apply byte_Z_inj.
  pose proof (byte_Z_range a). pose proof (byte_Z_range b).
  apply hex_digit_inj in H1; [|split; [apply Z.div_pos|apply Z.div_lt_upper_bound]; lia..].
  apply hex_digit_inj in H2; [|apply Z.mod_pos_bound; lia..].
  rewrite (Z.div_mod (byte_Z a) 16), (Z.div_mod (byte_Z b) 16) by lia. congruence.
Qed.

Lemma hex_key_inj k k' : hex_key k = hex_key k' -> k = k'.
Proof.
  revert k'. induction k as [|a k IH]; intros [|b k']; try done.
  cbn [hex_key map concat]. intros H. apply app_inj_1 in H as [H1 H2]; [|done].
  apply hex_byte_inj in H1 as ->. by rewrite (IH k').
Qed.

(** A [KeyAllowList] admits exactly the listed keys;
    for any other key it returns an error, and the error text names the key:
    two rejected keys with the same message are equal. *)
Lemma key_allow_list_exact (keys : list bytes) (k k' : bytes) :
  (authenticate (key_allow_list_new keys) k = Ok tt <-> k ∈ keys) /\
  (k ∉ keys -> k' ∉ keys ->
   authenticate (key_allow_list_new keys) k = authenticate (key_allow_list_new keys) k' ->
   k = k').
Proof.
  unfold authenticate, key_allow_list_gate. simpl. split.
  - split; [by case_decide|]. intros. by rewrite decide_True.
  - intros Hk Hk'. rewrite !decide_False by done. intros [= H].
    by apply hex_key_inj in H.
Qed.
