(* ===== verification/Socks5.v ===== *)
(** * SOCKS5 CONNECT

    [src/proxy/socks5.rs]: the RFC 1928 negotiation with RFC 1929
    username/password authentication, over any byte stream. *)

From S2P Require Import Prelude RustStd Externals Envelope Stream Instances.

Section Socks5.
Context {WA : WireApi} {CA : CoreApi} {SA : SerdeApi} {S : Type} {IA : AsyncIo S}.

(** [io_err]. *)
Definition io_err (msg : bytes) : ObfsError := Io (io_other msg).

(** Byte [i] of a fixed-size buffer. *)
Definition at_ (buf : bytes) (i : nat) : byte := nth i buf x00.

(** [consume_bnd_addr]. *)
Definition consume_bnd_addr (atyp : byte) : IO S ObfsError unit :=
  if decide (atyp = x01) then
    let* _ := io_map_err Io (read_exact 6) in io_ret tt
  else if decide (atyp = x03) then
    let* len_buf := io_map_err Io (read_exact 1) in
    let n := Z.to_nat (byte_Z (at_ len_buf 0)) in
    let* _ := io_map_err Io (read_exact (n + 2)) in io_ret tt
  else if decide (atyp = x04) then
    let* _ := io_map_err Io (read_exact 18) in io_ret tt
  else io_fail (io_err (str "SOCKS5: unknown address type in reply")).

(** The text of a CONNECT failure code. *)
Definition reply_msg (code : byte) : bytes :=
  if decide (code = x01) then str "general SOCKS server failure"
  else if decide (code = x02) then str "connection not allowed by ruleset"
  else if decide (code = x03) then str "network unreachable"
  else if decide (code = x04) then str "host unreachable"
  else if decide (code = x05) then str "connection refused"
  else if decide (code = x06) then str "TTL expired"
  else if decide (code = x07) then str "command not supported"
  else if decide (code = x08) then str "address type not supported"
  else str "unknown error".

(** The greeting: version, number of methods, the methods offered. *)
Definition methods (auth : option ProxyAuth) : bytes :=
  match auth with Some _ => [x00; x02] | None => [x00] end.

Definition greeting (auth : option ProxyAuth) : bytes :=
  [x05; as_u8 (Z.of_nat (length (methods auth)))] ++ methods auth.

(** The RFC 1929 sub-negotiation message. *)
Definition auth_request (creds : ProxyAuth) : bytes :=
  x01 :: as_u8 (Z.of_nat (length (user creds))) :: user creds ++
  as_u8 (Z.of_nat (length (pass creds))) :: pass creds.

(** The CONNECT request. *)
Definition connect_request (host : bytes) (port : Z) : bytes :=
  [x05; x01; x00; x03] ++ as_u8 (Z.of_nat (length host)) :: host ++
  [as_u8 (Z.shiftr port 8); as_u8 (Z.land port 255)].

(** The authentication step of [tunnel_socks5]. *)
Definition authenticate_socks5 (selected : byte) (auth : option ProxyAuth)
    : IO S ObfsError unit :=
  if decide (selected = x02) then
    match auth with
    | None => io_fail (io_err (str "SOCKS5: server requires auth but none provided"))
    | Some creds =>
        if decide (255 < length (user creds) \/ 255 < length (pass creds)) then
          io_fail (io_err (str "SOCKS5: username or password too long"))
        else
          let* _ := io_map_err Io (write_all (auth_request creds)) in
          let* auth_reply := io_map_err Io (read_exact 2) in
          if decide (at_ auth_reply 1 = x00) then io_ret tt
          else io_fail (io_err (str "SOCKS5: authentication failed"))
    end
  else io_ret tt.

(** The CONNECT step of [tunnel_socks5]. *)
Definition connect_socks5 (target_host : bytes) (target_port : Z)
    : IO S ObfsError unit :=
  if decide (255 < length target_host) then
    io_fail (io_err (str "SOCKS5: target hostname too long"))
  else
    let* _ := io_map_err Io (write_all (connect_request target_host target_port)) in
    let* reply_hdr := io_map_err Io (read_exact 4) in
    if decide (at_ reply_hdr 0 <> x05) then
      io_fail (io_err (str "SOCKS5: invalid reply version"))
    else if decide (at_ reply_hdr 1 <> x00) then
      io_fail (io_err (str "SOCKS5: CONNECT failed: " ++ reply_msg (at_ reply_hdr 1)))
    else consume_bnd_addr (at_ reply_hdr 3).

(** [tunnel_socks5]. *)
Definition tunnel_socks5 (target_host : bytes) (target_port : Z) (auth : option ProxyAuth)
    : IO S ObfsError unit :=
  let* _ := io_map_err Io (write_all (greeting auth)) in
  let* method_reply := io_map_err Io (read_exact 2) in
  if decide (at_ method_reply 0 <> x05) then
    io_fail (io_err (str "SOCKS5: invalid greeting reply version"))
  else
    let selected := at_ method_reply 1 in
    if decide (selected = xff) then
      io_fail (io_err (str "SOCKS5: no acceptable authentication method"))
    else
      let* _ := authenticate_socks5 selected auth in
      connect_socks5 target_host target_port.

(** [dial_socks5]; [connect] is [TcpStream::connect]. *)
Definition dial_socks5 (connect : bytes -> Poll (Res IoError S)) (proxy_addr : bytes)
    (target_host : bytes) (target_port : Z) (auth : option ProxyAuth)
    : Poll (Res ObfsError S) :=
  match connect proxy_addr with
  | Ready (Ok stream) =>
      match tunnel_socks5 target_host target_port auth stream with
      | (Ready (Ok _), stream') => Ready (Ok stream')
      | (Ready (Err e), _) => Ready (Err e)
      | (Pending, _) => Pending
      end
  | Ready (Err e) => Ready (Err (Io e))
  | Pending => Pending
  end.

(** ** The other end, as RFC 1928 describes it *)

(** A bound address and port with the address type that announces it. *)
Inductive bnd_addr : byte -> bytes -> Prop :=
| bnd_ipv4 (b : bytes) : length b = 6 -> bnd_addr x01 b
| bnd_domain (n : byte) (b : bytes) :
    length b = Z.to_nat (byte_Z n) + 2 -> bnd_addr x03 (n :: b)
| bnd_ipv6 (b : bytes) : length b = 18 -> bnd_addr x04 b.

(** A success reply. *)
Definition success_reply (rsv atyp : byte) (bnd : bytes) : bytes :=
  [x05; x00; rsv; atyp] ++ bnd.

(** What [authenticate_socks5] writes and reads for the selected method, when
    it succeeds.  This is the client's own reading, and laxer than the RFCs;
    the [SocksSession]s below are the reference. *)
Inductive auth_exchange : byte -> option ProxyAuth -> bytes -> bytes -> Prop :=
| auth_none (selected : byte) (auth : option ProxyAuth) :
    selected <> x02 -> auth_exchange selected auth [] []
| auth_password (creds : ProxyAuth) (ver : byte) :
    length (user creds) <= 255 -> length (pass creds) <= 255 ->
    auth_exchange x02 (Some creds) (auth_request creds) [ver; x00].

(** A proxy's decoder for the CONNECT request. *)
Definition parse_connect (s : bytes) : option (bytes * Z * bytes) :=
  match s with
  | x05 :: x01 :: x00 :: x03 :: n :: rest =>
      let n := Z.to_nat (byte_Z n) in
      match drop n rest with
      | hi :: lo :: tail =>
          Some (take n rest, from_be_u16 hi lo, tail)
      | _ => None
      end
  | _ => None
  end.

(** A proxy's decoder for the username/password message. *)
Definition parse_auth (s : bytes) : option (bytes * bytes * bytes) :=
  match s with
  | x01 :: n :: rest =>
      let n := Z.to_nat (byte_Z n) in
      match drop n rest with
      | m :: rest' =>
          let m := Z.to_nat (byte_Z m) in
          if decide (m <= length rest') then Some (take n rest, take m rest', drop m rest')
          else None
      | [] => None
      end
  | _ => None
  end.

Lemma len_byte (n : nat) : n <= 255 -> Z.to_nat (byte_Z (as_u8 (Z.of_nat n))) = n.
Proof. intros Hn. rewrite byte_Z_as_u8, Z.mod_small by lia. apply Nat2Z.id. Qed.

Lemma parse_connect_request host port tail :
  length host <= 255 -> (0 <= port < 65536)%Z ->
  parse_connect (connect_request host port ++ tail) = Some (host, port, tail).
Proof.
  intros Hh Hp. cbn -[as_u8]. rewrite len_byte by done.
  rewrite <-app_assoc, drop_app_length, take_app_length. cbn -[as_u8].
  do 2 f_equal. f_equal. rewrite Z.shiftr_div_pow2 by lia.
  change (Z.land port 255) with (Z.land port (Z.ones 8)).
  rewrite Z.land_ones by lia. unfold from_be_u16. rewrite !byte_Z_as_u8.
  change (2 ^ 8)%Z with 256%Z. rewrite Z.mod_mod by lia.
  pose proof (Z.div_mod port 256 ltac:(lia)).
  rewrite (Z.mod_small (port / 256)); [lia|].
  split; [apply Z.div_pos; lia|apply Z.div_lt_upper_bound; lia].
Qed.

Lemma parse_auth_request creds tail :
  length (user creds) <= 255 -> length (pass creds) <= 255 ->
  parse_auth (auth_request creds ++ tail) = Some (user creds, pass creds, tail).
Proof.
  intros Hu Hp. cbn -[as_u8]. rewrite len_byte by done.
  rewrite <-app_assoc, drop_app_length, take_app_length. cbn -[as_u8].
  rewrite len_byte by done. rewrite decide_True by (rewrite length_app; lia).
  by rewrite take_app_length, drop_app_length.
Qed.

Lemma len_byte_bound (n : byte) : Z.to_nat (byte_Z n) <= 255.
Proof. pose proof (byte_Z_range n). lia. Qed.

Lemma parse_connect_bound s host port tail :
  parse_connect s = Some (host, port, tail) -> length host <= 255.
Proof.
  unfold parse_connect. intros H. repeat case_match; simplify_eq.
  rewrite length_take. pose proof (len_byte_bound b3). lia.
Qed.

Lemma parse_auth_bound s u p tail :
  parse_auth s = Some (u, p, tail) -> length u <= 255 /\ length p <= 255.
Proof.
  unfold parse_auth. intros H. repeat case_match; simplify_eq.
  rewrite !length_take. pose proof (len_byte_bound b0). pose proof (len_byte_bound b1). lia.
Qed.

(** A proxy's decoder for the greeting: the methods offered. *)
Definition parse_greeting (s : bytes) : option (bytes * bytes) :=
  match s with
  | x05 :: n :: rest =>
      let n := Z.to_nat (byte_Z n) in
      if decide (n <= length rest) then Some (take n rest, drop n rest) else None
  | _ => None
  end.

(** A session that opens a tunnel, field by field as RFC 1928 and RFC 1929 lay
    it out: the client's greeting, the method the proxy selects, the
    username/password message and its answer (version and status) where that
    method was selected, the CONNECT request, and the reply with its reserved
    byte, address type and bound address. *)
Record SocksSession : Type := mkSocksSession {
  se_hello : bytes;
  se_offered : bytes;
  se_method : byte;
  se_login : option (bytes * byte);
  se_request : bytes;
  se_rsv : byte;
  se_atyp : byte;
  se_bnd : bytes;
}.

Definition se_said (s : SocksSession) : bytes :=
  se_hello s ++ match se_login s with Some (msg, _) => msg | None => [] end ++ se_request s.

Definition se_heard (s : SocksSession) : bytes :=
  [x05; se_method s] ++ match se_login s with Some (_, ver) => [ver; x00] | None => [] end ++
  [x05; x00; se_rsv s; se_atyp s] ++ se_bnd s.

(** The messages of a session for this target and these credentials: every
    message of the client decodes, to the last byte, to what it is to say. *)
Definition socks_session (auth : option ProxyAuth) (host : bytes) (port : Z) (s : SocksSession) : Prop :=
  parse_greeting (se_hello s) = Some (se_offered s, []) /\
  se_offered s = match auth with Some _ => [x00; x02] | None => [x00] end /\
  se_method s <> xff /\
  match se_login s with
  | Some (msg, _) => se_method s = x02 /\
      exists creds, auth = Some creds /\ parse_auth msg = Some (user creds, pass creds, [])
  | None => se_method s <> x02
  end /\
  parse_connect (se_request s) = Some (host, port, []) /\
  bnd_addr (se_atyp s) (se_bnd s).

(** What the RFCs demand beyond that. *)
Inductive Demand : Type :=
| MethodOffered       (** RFC 1928, 3: the method is one of those offered *)
| LoginVersion        (** RFC 1929, 2: the answer's version is 1 *)
| CredentialsNonEmpty (** RFC 1929, 2: both fields have 1 to 255 bytes *)
| ReservedZero.       (** RFC 1928, 6: the reserved byte is zero *)

Definition meets (auth : option ProxyAuth) (s : SocksSession) (d : Demand) : Prop :=
  match d with
  | MethodOffered => se_method s ∈ se_offered s
  | LoginVersion => match se_login s with Some (_, ver) => ver = x01 | None => True end
  | CredentialsNonEmpty =>
      match se_login s, auth with
      | Some _, Some creds => user creds <> [] /\ pass creds <> []
      | _, _ => True
      end
  | ReservedZero => se_rsv s = x00
  end.

Definition rfc_session (auth : option ProxyAuth) (host : bytes) (port : Z) (s : SocksSession) : Prop :=
  socks_session auth host port s /\ forall d, meets auth s d.

(** ** Forward runs *)

Context {AV : AsyncView S} {AL : AsyncIoLaws S}.

Lemma consume_bnd_addr_run atyp bnd rest f o w (io : S) :
  bnd_addr atyp bnd -> view io = mkView (bnd ++ rest) f o w ->
  exists io', consume_bnd_addr atyp io = (Ready (Ok tt), io') /\
    view io' = mkView rest f o w.
Proof.
  intros Hb Hv. destruct Hb as [b Hb|n b Hb|b Hb]; unfold consume_bnd_addr; simpl.
  - destruct (read_exact_step 6 b rest f o w io Hv Hb) as (io1 & H1 & V1).
    io_step H1. by exists io1.
  - destruct (read_exact_step 1 [n] (b ++ rest) f o w io Hv eq_refl) as (io1 & H1 & V1).
    io_step H1.
    destruct (read_exact_step _ b rest f o w io1 V1 Hb) as (io2 & H2 & V2).
    io_step H2. by exists io2.
  - destruct (read_exact_step 18 b rest f o w io Hv Hb) as (io1 & H1 & V1).
    io_step H1. by exists io1.
Qed.

Lemma authenticate_run selected auth written reply rest f o (io : S) :
  auth_exchange selected auth written reply ->
  view io = mkView (reply ++ rest) f o true ->
  exists io', authenticate_socks5 selected auth io = (Ready (Ok tt), io') /\
    view io' = mkView rest f (o ++ written) true.
Proof.
  intros Ha Hv. unfold authenticate_socks5. destruct Ha as [sel auth Hs|creds ver Hu Hp].
  - rewrite decide_False by done. exists io. by rewrite app_nil_r.
  - rewrite decide_True by done. rewrite decide_False by lia.
    destruct (write_all_step (auth_request creds) _ _ _ io Hv) as (io1 & H1 & V1).
    io_step H1.
    destruct (read_exact_step 2 [ver; x00] rest _ _ _ io1 V1 eq_refl) as (io2 & H2 & V2).
    io_step H2. by exists io2.
Qed.

Lemma connect_run host port rsv atyp bnd rest f o (io : S) :
  length host <= 255 -> bnd_addr atyp bnd ->
  view io = mkView (success_reply rsv atyp bnd ++ rest) f o true ->
  exists io', connect_socks5 host port io = (Ready (Ok tt), io') /\
    view io' = mkView rest f (o ++ connect_request host port) true.
Proof.
  intros Hh Hb Hv. unfold connect_socks5. rewrite decide_False by lia.
  destruct (write_all_step (connect_request host port) _ _ _ io Hv) as (io1 & H1 & V1).
  io_step H1.
  destruct (read_exact_step 4 [x05; x00; rsv; atyp] (bnd ++ rest) _ _ _ io1 V1 eq_refl)
    as (io2 & H2 & V2).
  io_step H2. by eapply consume_bnd_addr_run.
Qed.

(** The negotiation up to the CONNECT request. *)
Lemma tunnel_to_connect host port auth selected written reply rest f o (io : S) :
  selected <> xff -> auth_exchange selected auth written reply ->
  view io = mkView ([x05; selected] ++ reply ++ rest) f o true ->
  exists io', tunnel_socks5 host port auth io = connect_socks5 host port io' /\
    view io' = mkView rest f (o ++ greeting auth ++ written) true.
Proof.
  intros Hs Ha Hv. unfold tunnel_socks5.
  destruct (write_all_step (greeting auth) _ _ _ io Hv) as (io1 & H1 & V1). io_step H1.
  destruct (read_exact_step 2 [x05; selected] _ _ _ _ io1 V1 eq_refl) as (io2 & H2 & V2).
  io_step H2. cbn [at_ nth]. rewrite (decide_False (P := x05 <> x05)) by auto.
  rewrite decide_False by done.
  destruct (authenticate_run _ _ _ _ _ _ _ io2 Ha V2) as (io3 & H3 & V3). io_step H3.
  exists io3. by rewrite V3, <-!app_assoc.
Qed.

Lemma tunnel_run host port auth selected written reply rsv atyp bnd rest f o (io : S) :
  selected <> xff ->
  length host <= 255 -> auth_exchange selected auth written reply -> bnd_addr atyp bnd ->
  view io = mkView ([x05; selected] ++ reply ++ success_reply rsv atyp bnd ++ rest) f o true ->
  exists io', tunnel_socks5 host port auth io = (Ready (Ok tt), io') /\
    view io' = mkView rest f (o ++ greeting auth ++ written ++ connect_request host port) true.
Proof.
  intros Hs Hh Ha Hb Hv.
  destruct (tunnel_to_connect host port _ _ _ _ _ _ _ io Hs Ha Hv) as (io3 & -> & V3).
  destruct (connect_run host port rsv atyp bnd rest _ _ io3 Hh Hb V3) as (io4 & H4 & V4).
  exists io4. rewrite H4, V4. by rewrite <-!app_assoc.
Qed.

(** A CONNECT request that is never answered ends as the stream does. *)
Definition unanswered (f : Fin) : Poll (Res ObfsError unit) :=
  match f with
  | FinEof => Ready (Err (Io eof_error))
  | FinErr e => Ready (Err (Io e))
  | FinWait => Pending
  end.

Lemma connect_unanswered host port f o (io : S) :
  length host <= 255 -> view io = mkView [] f o true ->
  exists io', connect_socks5 host port io = (unanswered f, io') /\
    view io' = mkView [] f (o ++ connect_request host port) true.
Proof.
  intros Hh Hv. unfold connect_socks5. rewrite decide_False by lia.
  destruct (write_all_step (connect_request host port) _ _ _ io Hv) as (io1 & H1 & V1). io_step H1.
  destruct (read_exact_end_step 4 [] _ _ _ io1 V1) as (io2 & H2 & V2); [simpl; lia|].
  exists io2. split; [|done]. unfold io_bind, io_map_err. rewrite H2. by destruct f.
Qed.

(** ** Backward runs *)

(** Invert the next step of a successful run: [H] is the run, [V] the view
    before it. *)
Ltac inv_read H V bs io' Hi Hl :=
  let Hr := fresh "Hr" in
  apply io_bind_inv in H as (bs & io' & Hr%io_map_err_inv & H);
  destruct (read_exact_inv _ _ _ _ _ _ _ _ V Hr) as (Hi & Hl & ?V1);
  clear Hr V; rename V1 into V; cbv beta in H.

Ltac inv_write H V io' :=
  let Hw := fresh "Hw" in
  apply io_bind_inv in H as ([] & io' & Hw%io_map_err_inv & H);
  apply (write_all_inv _ _ _ _ _ _ _ V) in Hw; clear V; rename Hw into V;
  cbv beta in H.

Lemma length_1 (b : bytes) : length b = 1 -> exists x, b = [x].
Proof. destruct b as [|x [|]]; simpl; try lia. by eauto. Qed.

Lemma length_2 (b : bytes) : length b = 2 -> exists x y, b = [x; y].
Proof. destruct b as [|x [|y [|]]]; simpl; try lia. by eauto. Qed.

Lemma length_4 (b : bytes) : length b = 4 -> exists x y z t, b = [x; y; z; t].
Proof. destruct b as [|x [|y [|z [|t [|]]]]]; simpl; try lia. by eauto 10. Qed.

Lemma consume_bnd_addr_inv atyp i f o w (io io' : S) :
  view io = mkView i f o w -> consume_bnd_addr atyp io = (Ready (Ok tt), io') ->
  exists bnd rest, i = bnd ++ rest /\ bnd_addr atyp bnd /\ view io' = mkView rest f o w.
Proof.
  intros V H. unfold consume_bnd_addr in H. repeat case_decide; subst.
  - inv_read H V b io1 Hi Hl. injection H as <-.
    exists b, (drop 6 i). by split_and!; [|constructor|].
  - inv_read H V b io1 Hi Hl. apply length_1 in Hl as [n ->]. cbn [at_ nth] in H.
    inv_read H V b io2 Hi2 Hl2. injection H as <-.
    eexists (n :: b), _. split_and!; [|by constructor|exact V].
    rewrite Hi at 1. rewrite Hi2 at 1. done.
  - inv_read H V b io1 Hi Hl. injection H as <-.
    exists b, (drop 18 i). by split_and!; [|constructor|].
  - done.
Qed.

Lemma authenticate_inv selected auth i f o w (io io' : S) :
  view io = mkView i f o w ->
  authenticate_socks5 selected auth io = (Ready (Ok tt), io') ->
  exists written reply rest, i = reply ++ rest /\
    auth_exchange selected auth written reply /\
    view io' = mkView rest f (o ++ written) w.
Proof.
  intros V H. unfold authenticate_socks5 in H. case_decide; subst.
  - destruct auth as [creds|]; [|done]. case_decide; [done|].
    inv_write H V io1. inv_read H V b io2 Hi Hl.
    apply length_2 in Hl as (ver & st & ->). cbn [at_ nth] in H.
    case_decide; [|done]. subst st. injection H as <-.
    eexists (auth_request creds), _, _. split_and!; [exact Hi| |exact V].
    constructor; lia.
  - injection H as <-. exists [], [], i. rewrite app_nil_r.
    split_and!; [done|by constructor|done].
Qed.

Lemma connect_inv host port i f o w (io io' : S) :
  view io = mkView i f o w -> connect_socks5 host port io = (Ready (Ok tt), io') ->
  exists rsv atyp bnd rest, i = success_reply rsv atyp bnd ++ rest /\
    bnd_addr atyp bnd /\ length host <= 255 /\
    view io' = mkView rest f (o ++ connect_request host port) w.
Proof.
  intros V H. unfold connect_socks5 in H. case_decide; [done|].
  inv_write H V io1. inv_read H V b io2 Hi Hl.
  apply length_4 in Hl as (a & c & rsv & atyp & ->). cbn [at_ nth] in H.
  case_decide as Ha; [done|]. subst a.
  case_decide as Hc; [done|]. subst c.
  destruct (consume_bnd_addr_inv _ _ _ _ _ _ _ V H) as (bnd & rest & Hd & Hb & V').
  exists rsv, atyp, bnd, rest. split_and!; [|done|lia|done].
  rewrite Hi, Hd. by rewrite app_assoc.
Qed.

Lemma tunnel_inv host port auth i f o w (io io' : S) :
  view io = mkView i f o w ->
  tunnel_socks5 host port auth io = (Ready (Ok tt), io') ->
  exists selected written reply rsv atyp bnd rest,
    i = [x05; selected] ++ reply ++ success_reply rsv atyp bnd ++ rest /\
    selected <> xff /\
    auth_exchange selected auth written reply /\
    bnd_addr atyp bnd /\
    length host <= 255 /\
    view io' = mkView rest f (o ++ greeting auth ++ written ++ connect_request host port) w.
Proof.
  intros V H. unfold tunnel_socks5 in H.
  inv_write H V io1. inv_read H V b io2 Hi Hl.
  apply length_2 in Hl as (ver & selected & ->). cbn [at_ nth] in H.
  case_decide as Hv; [done|]. subst ver.
  case_decide as Hs; [done|].
  apply io_bind_inv in H as ([] & io3 & H3 & H).
  destruct (authenticate_inv _ _ _ _ _ _ _ _ V H3) as (written & reply & rest1 & Hi1 & Ha & V3).
  destruct (connect_inv _ _ _ _ _ _ _ _ V3 H) as (rsv & atyp & bnd & rest & Hi2 & Hb & Hh & V4).
  exists selected, written, reply, rsv, atyp, bnd, rest.
  split_and!; [by rewrite Hi, Hi1, Hi2|done|done|done|done|].
  rewrite V4. by rewrite <-!app_assoc.
Qed.

(** Every session succeeds, in reads of any size, and is read to its end. *)
Lemma session_run host port auth s rest f o (io : S) :
  socks_session auth host port s -> view io = mkView (se_heard s ++ rest) f o true ->
  exists io' said, tunnel_socks5 host port auth io = (Ready (Ok tt), io') /\
    view io' = mkView rest f (o ++ said) true.
Proof.
  intros (_ & _ & Hff & Hlogin & Hreq & Hb) V. apply parse_connect_bound in Hreq.
  destruct s as [hello offered sel login req rsv atyp bnd]. simpl in *.
  unfold se_heard in V. simpl in V. destruct login as [[msg ver]|].
  - destruct Hlogin as (-> & creds & -> & [Hu Hpw]%parse_auth_bound).
    edestruct (tunnel_run host port (Some creds) x02) as (io' & H & V');
      [done|done|by apply (auth_password creds ver)|exact Hb|by rewrite V|by eexists io', _].
  - edestruct (tunnel_run host port auth sel) as (io' & H & V');
      [done|done|by apply auth_none|exact Hb|by rewrite V|by eexists io', _].
Qed.

Lemma parse_greeting_greeting auth :
  parse_greeting (greeting auth) = Some (match auth with Some _ => [x00; x02] | None => [x00] end, []).
Proof. by destruct auth. Qed.

(** A success is a session, and the bytes written are the client's part. *)
Lemma session_inv host port auth i f o w (io io' : S) :
  (0 <= port < 65536)%Z -> view io = mkView i f o w ->
  tunnel_socks5 host port auth io = (Ready (Ok tt), io') ->
  exists s rest, socks_session auth host port s /\ i = se_heard s ++ rest /\
    view io' = mkView rest f (o ++ se_said s) w.
Proof.
  intros Hp V H. destruct (tunnel_inv _ _ _ _ _ _ _ _ _ V H)
    as (sel & written & reply & rsv & atyp & bnd & rest & -> & Hs & Ha & Hb & Hh & V').
  assert (parse_connect (connect_request host port) = Some (host, port, [])) as Hreq
    by (rewrite <-(app_nil_r (connect_request host port)); by apply parse_connect_request).
  pose proof (parse_greeting_greeting auth) as Hg.
  destruct Ha as [sel auth Hsel|creds ver Hu Hpw].
  - eexists (mkSocksSession (greeting auth) _ sel None (connect_request host port) rsv atyp bnd), rest.
    split; [by split_and!|done].
  - eexists (mkSocksSession (greeting (Some creds)) _ x02 (Some (auth_request creds, ver))
              (connect_request host port) rsv atyp bnd), rest.
    split; [|done]. split_and!; try done.
    simpl. split; [done|]. exists creds. split; [done|].
    pose proof (parse_auth_request creds [] Hu Hpw) as Hpa. by rewrite app_nil_r in Hpa.
Qed.

(** C27: [tunnel_socks5] against RFC 1928 and RFC 1929.  On every session the
    RFCs allow it succeeds, in reads of any size.  It succeeds exactly on the
    sessions as laid out there, of which it leaves four demands unchecked: that
    the method is one of those offered, that the answer to the username and
    password has version 1, that these are not empty, and that the reserved
    byte is zero.  When it succeeds the bytes written are the client's messages
    of that session (a greeting that decodes to the methods for its
    credentials, the username and password where they were asked for, a CONNECT
    request that decodes to the target host and port), and the stream is left
    at the first byte after the reply. *)
Theorem tunnel_socks5_exact host port auth i f o (io : S) :
  (0 <= port < 65536)%Z -> view io = mkView i f o true ->
  (forall s rest, rfc_session auth host port s -> i = se_heard s ++ rest ->
     exists io', tunnel_socks5 host port auth io = (Ready (Ok tt), io')) /\
  ((exists io', tunnel_socks5 host port auth io = (Ready (Ok tt), io')) <->
   (exists s rest, socks_session auth host port s /\ i = se_heard s ++ rest)) /\
  (forall io', tunnel_socks5 host port auth io = (Ready (Ok tt), io') ->
     exists s rest, socks_session auth host port s /\ i = se_heard s ++ rest /\
       view io' = mkView rest f (o ++ se_said s) true).
Proof.
  intros Hp V. split_and!.
  - intros s rest [Hs _] ->. destruct (session_run _ _ _ _ _ _ _ _ Hs V) as (io' & _ & H & _).
    by exists io'.
  - split.
    + intros [io' H]. destruct (session_inv _ _ _ _ _ _ _ _ _ Hp V H) as (s & rest & Hs & Hi & _).
      by exists s, rest.
    + intros (s & rest & Hs & ->).
      destruct (session_run _ _ _ _ _ _ _ _ Hs V) as (io' & _ & H & _). by exists io'.
  - intros io' H. by eapply session_inv.
Qed.

(** When the proxy selects username/password and
    either part is longer than its one-byte length field can hold, the call
    fails and nothing but the greeting has been written: no truncated
    credentials reach the proxy. *)
Lemma long_credentials_not_sent host port creds i f o (io : S) :
  255 < length (user creds) \/ 255 < length (pass creds) ->
  view io = mkView (x05 :: x02 :: i) f o true ->
  exists io',
    tunnel_socks5 host port (Some creds) io =
      (Ready (Err (io_err (str "SOCKS5: username or password too long"))), io') /\
    view io' = mkView i f (o ++ greeting (Some creds)) true.
Proof.
  intros Hlong V. unfold tunnel_socks5.
  destruct (write_all_step (greeting (Some creds)) _ _ _ io V) as (io1 & H1 & V1). io_step H1.
  destruct (read_exact_step 2 [x05; x02] i _ _ _ io1 V1 eq_refl) as (io2 & H2 & V2).
  io_step H2. exists io2. split; [|done]. cbn [at_ nth].
  rewrite (decide_False (P := x05 <> x05)) by auto.
  rewrite (decide_False (P := x02 = xff)) by done.
  apply io_bind_err. unfold authenticate_socks5.
  by rewrite (decide_True (P := x02 = x02)), decide_True by done.
Qed.

(** C40: a method the client never offered, such
    as GSSAPI (1), is treated as if no authentication had been selected: the
    call goes on to CONNECT and succeeds. *)
Theorem socks5_accepts_unoffered_method host port auth selected rsv atyp bnd rest f o (io : S) :
  selected ∉ [x00; x02; xff] ->
  length host <= 255 ->
  bnd_addr atyp bnd ->
  view io = mkView ([x05; selected] ++ success_reply rsv atyp bnd ++ rest) f o true ->
  selected ∉ methods auth /\
  exists io',
    tunnel_socks5 host port auth io = (Ready (Ok tt), io') /\
    view io' = mkView rest f (o ++ greeting auth ++ connect_request host port) true.
Proof.
  intros Hs Hh Hb V. split.
  { destruct auth; set_solver. }
  apply (tunnel_run host port auth selected [] [] rsv atyp bnd rest f o io); [set_solver|done| |done|done].
  constructor. set_solver.
Qed.

End Socks5.

(** ** Concrete runs *)

Module Socks5Runs.
Import Ref.

Definition alice : ProxyAuth := mkProxyAuth (str "alice") (str "s3cr3t").

(** An authenticated conversation: method 2, status 0, an IPv4 reply, and two
    bytes of the tunnelled stream. *)
Definition conversation : Script :=
  mkScript [[x05]; [x02; x01]; [x00; x05; x00; x00; x01; x0a; x00]; [x00; x01; x04; x38; xaa]; [xbb]]
    FinWait [] None.

(** The same conversation as a session of the RFCs. *)
Definition alice_session : SocksSession :=
  mkSocksSession (greeting (Some alice)) [x00; x02] x02 (Some (auth_request alice, x01))
    (connect_request (str "example.org") 4433) x00 x01 [x0a; x00; x00; x01; x04; x38].

Example alice_session_rfc : rfc_session (Some alice) (str "example.org") 4433 alice_session.
Proof.
  split; [split_and!; try reflexivity; try done|intros []; try done].
  - split; [done|]. exists alice. by split.
  - by constructor.
  - simpl. set_solver.
Qed.

Lemma tunnel_socks5_exact_witness :
  (forall s rest, rfc_session (Some alice) (str "example.org") 4433 s ->
     concat (sc_chunks conversation) = se_heard s ++ rest ->
     exists io', tunnel_socks5 (str "example.org") 4433 (Some alice) conversation = (Ready (Ok tt), io')) /\
  ((exists io', tunnel_socks5 (str "example.org") 4433 (Some alice) conversation = (Ready (Ok tt), io')) <->
   (exists s rest, socks_session (Some alice) (str "example.org") 4433 s /\
      concat (sc_chunks conversation) = se_heard s ++ rest)) /\
  (forall io', tunnel_socks5 (str "example.org") 4433 (Some alice) conversation = (Ready (Ok tt), io') ->
     exists s rest, socks_session (Some alice) (str "example.org") 4433 s /\
       concat (sc_chunks conversation) = se_heard s ++ rest /\
       view io' = mkView rest FinWait ([] ++ se_said s) true).
Proof.
  refine (tunnel_socks5_exact (str "example.org") 4433 (Some alice) _ FinWait [] conversation _ _).
  - lia.
  - reflexivity.
Defined.

Lemma long_credentials_not_sent_example :
  exists io',
    tunnel_socks5 (str "h") 80 (Some (mkProxyAuth (repeat x61 300) [])) 
      (mkScript [[x05; x02]] FinWait [] None) =
      (Ready (Err (io_err (str "SOCKS5: username or password too long"))), io') /\
    view io' = mkView [] FinWait [x05; x02; x00; x02] true.
Proof.
  refine (long_credentials_not_sent (str "h") 80 (mkProxyAuth (repeat x61 300) []) []
            FinWait [] (mkScript [[x05; x02]] FinWait [] None) _ _).
  - left. vm_compute. lia.
  - reflexivity.
Defined.

Lemma socks5_accepts_unoffered_method_witness :
  x01 ∉ methods None /\
  exists io',
    tunnel_socks5 (str "h") 80 None
      (mkScript [[x05; x01; x05; x00; x00; x01; x00; x00; x00; x00; x00; x00]] FinEof [] None)
      = (Ready (Ok tt), io') /\
    view io' = mkView [] FinEof ([] ++ greeting None ++ connect_request (str "h") 80) true.
Proof.
  refine (socks5_accepts_unoffered_method (str "h") 80 None x01 x00 x01
            [x00; x00; x00; x00; x00; x00] [] FinEof [] _ _ _ _ _).
  - rewrite list_elem_of_In. vm_compute. intuition discriminate.
  - vm_compute. lia.
  - constructor. reflexivity.
  - reflexivity.
Defined.

End Socks5Runs.
