(* ===== verification/TextSpec.v ===== *)
(** * Reference notions of text

    What the text functions of the Rust standard library are measured against,
    defined without them: UTF-8 as the concatenated encodings of Unicode scalar
    values, decimal numerals by their value, and the fields of a status line as
    a decomposition of the line.  [RustStd] has the functions; the lemmas here
    show that they decide these notions. *)

From S2P Require Import Prelude RustStd.

(** ** UTF-8 *)

(** A Unicode scalar value: a code point that is not a surrogate. *)
Definition scalar (c : Z) : Prop := (0 <= c < 55296 \/ 57344 <= c < 1114112)%Z.

(** RFC 3629, 3. *)
Definition encode_utf8 (c : Z) : bytes :=
  if (c <? 128)%Z then [as_u8 c]
  else if (c <? 2048)%Z then [as_u8 (192 + c / 64); as_u8 (128 + c mod 64)]
  else if (c <? 65536)%Z then
    [as_u8 (224 + c / 4096); as_u8 (128 + (c / 64) mod 64); as_u8 (128 + c mod 64)]
  else
    [as_u8 (240 + c / 262144); as_u8 (128 + (c / 4096) mod 64);
     as_u8 (128 + (c / 64) mod 64); as_u8 (128 + c mod 64)].

Definition utf8_text (s : bytes) : Prop :=
  exists cs, Forall scalar cs /\ s = concat (map encode_utf8 cs).

Lemma in_range_true lo hi b : in_range lo hi b = true <-> (lo <= byte_Z b <= hi)%Z.
Proof. unfold in_range. lia. Qed.

Lemma in_range_false lo hi b : in_range lo hi b = false <-> ~ (lo <= byte_Z b <= hi)%Z.
Proof. rewrite <-in_range_true. by destruct (in_range lo hi b). Qed.

Lemma byte_eq_Z (a b : byte) : a = b <-> byte_Z a = byte_Z b.
Proof. split; [by intros ->|apply byte_Z_inj]. Qed.

Lemma second3_true a b :
  second3 a b = true <->
  (128 <= byte_Z b <= 191 /\ (byte_Z a = 224 -> 160 <= byte_Z b) /\
   (byte_Z a = 237 -> byte_Z b <= 159))%Z.
Proof.
  unfold second3, cont.
  destruct (decide (a = xe0)) as [->|E1]; [|destruct (decide (a = xed)) as [->|E2]];
    rewrite in_range_true; rewrite ?byte_eq_Z in *; cbn -[Z.le] in *; lia.
Qed.

Lemma second4_true a b :
  second4 a b = true <->
  (128 <= byte_Z b <= 191 /\ (byte_Z a = 240 -> 144 <= byte_Z b) /\
   (byte_Z a = 244 -> byte_Z b <= 143))%Z.
Proof.
  unfold second4, cont.
  destruct (decide (a = xf0)) as [->|E1]; [|destruct (decide (a = xf4)) as [->|E2]];
    rewrite in_range_true; rewrite ?byte_eq_Z in *; cbn -[Z.le] in *; lia.
Qed.

Lemma as_u8_byte (b : byte) z : z = byte_Z b -> as_u8 z = b.
Proof.
  intros ->. apply byte_Z_inj. rewrite byte_Z_as_u8, Z.mod_small; [done|]. pose proof (byte_Z_range b). lia.
Qed.

Lemma byte_Z_small z : (0 <= z < 256)%Z -> byte_Z (as_u8 z) = z.
Proof. intros. rewrite byte_Z_as_u8, Z.mod_small; lia. Qed.

(** The code point of each form. *)
Lemma encode_1 a : (byte_Z a <= 127)%Z -> encode_utf8 (byte_Z a) = [a] /\ scalar (byte_Z a).
Proof.
  intros Ha. pose proof (byte_Z_range a). unfold encode_utf8, scalar. rewrite (proj2 (Z.ltb_lt _ _)) by lia.
  split; [|lia]. f_equal. by apply as_u8_byte.
Qed.

Lemma encode_2 a b :
  (194 <= byte_Z a <= 223)%Z -> (128 <= byte_Z b <= 191)%Z ->
  exists c, encode_utf8 c = [a; b] /\ scalar c.
Proof.
  intros Ha Hb. exists ((byte_Z a - 192) * 64 + (byte_Z b - 128))%Z.
  unfold encode_utf8, scalar. split; [|lia].
  rewrite (proj2 (Z.ltb_ge _ _)), (proj2 (Z.ltb_lt _ _)) by lia.
  repeat f_equal; apply as_u8_byte; divlia.
Qed.

Lemma encode_3 a b c :
  (224 <= byte_Z a <= 239)%Z -> second3 a b = true -> (128 <= byte_Z c <= 191)%Z ->
  exists p, encode_utf8 p = [a; b; c] /\ scalar p.
Proof.
  intros Ha (Hb & H1 & H2)%second3_true Hc.
  exists ((byte_Z a - 224) * 4096 + (byte_Z b - 128) * 64 + (byte_Z c - 128))%Z.
  unfold encode_utf8, scalar. split; [|lia].
  rewrite !(proj2 (Z.ltb_ge _ _)), (proj2 (Z.ltb_lt _ _)) by lia.
  repeat f_equal; apply as_u8_byte; divlia.
Qed.

Lemma encode_4 a b c d :
  (240 <= byte_Z a <= 244)%Z -> second4 a b = true ->
  (128 <= byte_Z c <= 191)%Z -> (128 <= byte_Z d <= 191)%Z ->
  exists p, encode_utf8 p = [a; b; c; d] /\ scalar p.
Proof.
  intros Ha (Hb & H1 & H2)%second4_true Hc Hd.
  exists ((byte_Z a - 240) * 262144 + (byte_Z b - 128) * 4096 + (byte_Z c - 128) * 64
          + (byte_Z d - 128))%Z.
  unfold encode_utf8, scalar. split; [|lia].
  rewrite !(proj2 (Z.ltb_ge _ _)) by lia.
  repeat f_equal; apply as_u8_byte; divlia.
Qed.

Lemma from_utf8_text s : from_utf8 s = true -> utf8_text s.
Proof.
  remember (length s) as n eqn:Hn. revert s Hn.
  induction n as [n IH] using lt_wf_ind. intros s ->.
  assert (forall pre s', s = pre ++ s' -> pre <> [] -> from_utf8 s' = true ->
            (exists c, encode_utf8 c = pre /\ scalar c) -> utf8_text s) as step.
  { intros pre s' -> Hne Hs' (c & <- & Hc). destruct (IH (length s')) with (s := s') as (cs & Hcs & ->);
      [rewrite length_app; destruct (encode_utf8 c); [done|simpl; lia]|done|done|].
    exists (c :: cs). by split; [constructor|]. }
  destruct s as [|a s1]; [by exists []|]. cbn [from_utf8]. pose proof (byte_Z_range a).
  destruct (in_range 0 127 a) eqn:E1.
  { apply in_range_true in E1. intros Hs. apply (step [a] s1); [done|done|done|].
    exists (byte_Z a). apply encode_1. lia. }
  destruct (in_range 194 223 a) eqn:E2.
  { apply in_range_true in E2. destruct s1 as [|b s2]; [done|]. intros [Hb%in_range_true Hs]%andb_prop.
    apply (step [a; b] s2); [done|done|done|]. by apply encode_2. }
  destruct (in_range 224 239 a) eqn:E3.
  { apply in_range_true in E3. destruct s1 as [|b [|c s3]]; [done|done|].
    intros [[Hb Hc%in_range_true]%andb_prop Hs]%andb_prop.
    apply (step [a; b; c] s3); [done|done|done|]. by apply encode_3. }
  destruct (in_range 240 244 a) eqn:E4; [|done].
  apply in_range_true in E4. destruct s1 as [|b [|c [|d s4]]]; [done|done|done|].
  intros [[[Hb Hc%in_range_true]%andb_prop Hd%in_range_true]%andb_prop Hs]%andb_prop.
  apply (step [a; b; c; d] s4); [done|done|done|]. by apply encode_4.
Qed.

Lemma text_from_utf8 s : utf8_text s -> from_utf8 s = true.
Proof.
  intros (cs & Hcs & ->). induction Hcs as [|c cs Hc _ IH]; [done|].
  cbn [map concat]. unfold encode_utf8, scalar in *.
  destruct (c <? 128)%Z eqn:E1; [|destruct (c <? 2048)%Z eqn:E2; [|destruct (c <? 65536)%Z eqn:E3]];
    cbn [app from_utf8]; rewrite IH.
  - by rewrite (proj2 (in_range_true 0 127 _)) by (rewrite byte_Z_small; lia).
  - assert (byte_Z (as_u8 (192 + c / 64)) = 192 + c / 64)%Z by (apply byte_Z_small; divlia).
    rewrite (proj2 (in_range_false 0 127 _)), (proj2 (in_range_true 194 223 _)) by divlia.
    unfold cont. by rewrite (proj2 (in_range_true 128 191 _)) by (rewrite byte_Z_small; divlia).
  - assert (byte_Z (as_u8 (224 + c / 4096)) = 224 + c / 4096)%Z by (apply byte_Z_small; divlia).
    rewrite (proj2 (in_range_false 0 127 _)), (proj2 (in_range_false 194 223 _)),
      (proj2 (in_range_true 224 239 _)) by divlia.
    unfold cont. rewrite (proj2 (in_range_true 128 191 _)) by (rewrite byte_Z_small; divlia).
    rewrite (proj2 (second3_true _ _)); [done|]. rewrite (byte_Z_small (128 + _)) by divlia. divlia.
  - assert (byte_Z (as_u8 (240 + c / 262144)) = 240 + c / 262144)%Z by (apply byte_Z_small; divlia).
    rewrite (proj2 (in_range_false 0 127 _)), (proj2 (in_range_false 194 223 _)),
      (proj2 (in_range_false 224 239 _)), (proj2 (in_range_true 240 244 _)) by divlia.
    unfold cont. rewrite !(proj2 (in_range_true 128 191 _)) by (rewrite byte_Z_small; divlia).
    rewrite (proj2 (second4_true _ _)); [done|]. rewrite (byte_Z_small (128 + _)) by divlia. divlia.
Qed.

(** [std::str::from_utf8] accepts exactly UTF-8. *)
Lemma from_utf8_spec s : from_utf8 s = true <-> utf8_text s.
Proof. split; [apply from_utf8_text|apply text_from_utf8]. Qed.

(** ** Decimal numerals *)

(** The value of a string of digits, most significant first. *)
Definition decimal_from (acc : Z) (ds : bytes) : Z :=
  fold_left (fun acc d => acc * 10 + (byte_Z d - 48))%Z ds acc.
Definition decimal (ds : bytes) : Z := decimal_from 0 ds.

(** A numeral as [u16::from_str] reads it: digits, at least one, after an
    optional plus sign; leading zeros are allowed. *)
Definition numeral (s : bytes) (n : Z) : Prop :=
  exists sign ds, s = sign ++ ds /\ (sign = [] \/ sign = str "+") /\
    ds <> [] /\ Forall is_digit ds /\ decimal ds = n.

(** The numeral that is printed: digits only, and no leading zero. *)
Definition canonical (ds : bytes) (n : Z) : Prop :=
  ds <> [] /\ Forall is_digit ds /\ decimal ds = n /\
  (head ds = Some x30 -> ds = [x30]).

Lemma decimal_from_cons acc d ds :
  decimal_from acc (d :: ds) = decimal_from (acc * 10 + (byte_Z d - 48)) ds.
Proof. done. Qed.

Lemma decimal_from_mono acc ds :
  (0 <= acc)%Z -> Forall is_digit ds -> (acc <= decimal_from acc ds)%Z.
Proof.
  intros Ha Hds. revert acc Ha. induction Hds as [|d ds Hd _ IH]; intros acc Ha; [cbn; lia|].
  apply in_range_true in Hd. rewrite decimal_from_cons.
  specialize (IH (acc * 10 + (byte_Z d - 48))%Z). lia.
Qed.

Lemma parse_digits_decimal acc ds n :
  (0 <= acc <= 65535)%Z ->
  parse_digits acc ds = Some n <-> Forall is_digit ds /\ decimal_from acc ds = n /\ (n <= 65535)%Z.
Proof.
  revert acc. induction ds as [|d ds IH]; intros acc Ha.
  { cbn. split; [intros [= <-]; split_and!; [done|done|lia]|]. by intros (_ & <- & _). }
  cbn [parse_digits]. unfold digit_val. destruct (in_range 48 57 d) eqn:E; cycle 1.
  { split; [done|]. intros ([Hd _]%Forall_cons & _). unfold is_digit in Hd. congruence. }
  pose proof (proj1 (in_range_true _ _ _) E) as Hd. cbn zeta.
  rewrite decimal_from_cons.
  destruct (acc * 10 + (byte_Z d - 48) <=? 65535)%Z eqn:El.
  - rewrite IH by lia. rewrite Forall_cons. unfold is_digit at 2. naive_solver.
  - split; [done|]. intros ([_ Hds]%Forall_cons & <- & Hle).
    pose proof (decimal_from_mono (acc * 10 + (byte_Z d - 48)) ds ltac:(lia) Hds). lia.
Qed.

(** [u16::from_str] reads exactly the numerals below 65536. *)
Lemma parse_u16_numeral s n : parse_u16 s = Some n <-> numeral s n /\ (n <= 65535)%Z.
Proof.
  unfold parse_u16. destruct s as [|c s].
  { split; [done|]. intros ((sign & ds & E & _ & Hne & _) & _). by destruct sign, ds. }
  case_decide as Ec.
  - subst c. split.
    + intros H. destruct s as [|d s]; [done|].
      apply parse_digits_decimal in H as (Hd & Hn & Hle); [|lia].
      split; [|done]. exists (str "+"), (d :: s). by split_and!; [|right|..].
    + intros ((sign & ds & E & [-> | ->] & Hne & Hd & Hn) & Hle); cbn in E.
      * subst ds. by apply Forall_cons in Hd as [Hd _].
      * injection E as ->. destruct ds as [|d ds]; [done|]. apply parse_digits_decimal; [lia|done].
  - split.
    + intros H. apply parse_digits_decimal in H as (Hd & Hn & Hle); [|lia].
      split; [|done]. exists [], (c :: s). by split_and!; [|left|..].
    + intros ((sign & ds & E & [-> | ->] & Hne & Hd & Hn) & Hle); cbn in E; [|by injection E].
      subst ds. apply parse_digits_decimal; [lia|done].
Qed.

Lemma show_digits_decimal fuel n k :
  (0 <= n < 10 ^ Z.of_nat fuel)%Z -> fuel <> 0 -> Forall is_digit k ->
  decimal (show_digits fuel n k) = decimal_from n k.
Proof.
  revert n k. induction fuel as [|f IH]; intros n k Hn Hf Hk; [done|].
  cbn [show_digits]. rewrite Nat2Z.inj_succ, Z.pow_succ_r in Hn by lia.
  pose proof (Z.mod_pos_bound n 10 ltac:(lia)) as Hm. pose proof (Z.div_mod n 10 ltac:(lia)) as Hdm.
  destruct (n / 10 =? 0)%Z eqn:E.
  - apply Z.eqb_eq in E. unfold decimal. rewrite decimal_from_cons, digit_byte_Z by lia. f_equal. lia.
  - apply Z.eqb_neq in E.
    assert (0 <= n / 10 < 10 ^ Z.of_nat f)%Z as Hq.
    { split; [apply Z.div_pos; lia|]. apply Z.div_lt_upper_bound; lia. }
    rewrite IH; [|done|by intros ->; cbn in Hq; lia|].
    + rewrite decimal_from_cons, digit_byte_Z by lia. f_equal. lia.
    + constructor; [|done]. unfold is_digit. apply in_range_true. rewrite digit_byte_Z; lia.
Qed.

Lemma show_digits_lead fuel n k :
  (0 < n < 10 ^ Z.of_nat fuel)%Z -> head (show_digits fuel n k) <> Some x30.
Proof.
  revert n k. induction fuel as [|f IH]; intros n k Hn; [cbn in Hn; lia|].
  cbn [show_digits]. rewrite Nat2Z.inj_succ, Z.pow_succ_r in Hn by lia.
  pose proof (Z.mod_pos_bound n 10 ltac:(lia)) as Hm. pose proof (Z.div_mod n 10 ltac:(lia)) as Hdm.
  destruct (n / 10 =? 0)%Z eqn:E.
  - apply Z.eqb_eq in E. cbn. intros [= Hb]. apply (f_equal byte_Z) in Hb.
    rewrite digit_byte_Z in Hb by lia. change (byte_Z x30) with 48%Z in Hb. lia.
  - apply Z.eqb_neq in E. apply IH. split; [apply Z.le_neq; split; [apply Z.div_pos; lia|done]|].
    apply Z.div_lt_upper_bound; lia.
Qed.

(** [Display] prints the canonical numeral. *)
Lemma display_uint_canonical n : (0 <= n <= 65535)%Z -> canonical (display_uint n) n.
Proof.
  intros Hn. assert (n < 10 ^ Z.of_nat 20)%Z as Hb by (change (10 ^ Z.of_nat 20)%Z with 100000000000000000000%Z; lia).
  split_and!.
  - by apply show_digits_ne.
  - by apply display_uint_digits; lia.
  - apply (show_digits_decimal 20 n []); [lia|done|constructor].
  - intros H. destruct (decide (n = 0)%Z) as [->|]; [done|]. exfalso.
    apply (show_digits_lead 20 n []) in H; [done|lia].
Qed.

(** ** Lines and fields *)

(** [line] is the first line of [text]; it ends at the first line feed, and a
    carriage return before that belongs to the line end. *)
Definition first_line (text line : bytes) : Prop :=
  x0a ∉ line /\
  exists rest, text = line ++ [x0d; x0a] ++ rest \/
               (text = line ++ [x0a] ++ rest /\ last line <> Some x0d).

(** [code] is the second of the fields of [line], which single spaces
    separate. *)
Definition second_field (line code : bytes) : Prop :=
  exists version tail, line = version ++ x20 :: code ++ tail /\
    x20 ∉ version /\ x20 ∉ code /\ (tail = [] \/ exists reason, tail = x20 :: reason).

Lemma strip_last_cases (c : byte) (s : bytes) :
  (s = strip_last c s ++ [c]) \/ (strip_last c s = s /\ last s <> Some c).
Proof.
  unfold strip_last. destruct s as [|x s _] using rev_ind; [by right|].
  rewrite last_snoc. case_decide as E; [left|right; naive_solver].
  subst. rewrite length_app. simpl. by rewrite Nat.add_sub, take_app_length.
Qed.

Lemma strip_last_snoc (c : byte) (s : bytes) : strip_last c (s ++ [c]) = s.
Proof.
  unfold strip_last. rewrite last_snoc, decide_True by done.
  rewrite length_app. simpl. by rewrite Nat.add_sub, take_app_length.
Qed.

Lemma strip_last_other (c : byte) (s : bytes) : last s <> Some c -> strip_last c s = s.
Proof. unfold strip_last. destruct (last s); [|done]. case_decide; [by subst|done]. Qed.

Lemma lines_next_first text line :
  x0a ∈ text -> lines_next text = Some line <-> first_line text line.
Proof.
  intros Hin. unfold lines_next, first_line. destruct text as [|x text]; [set_solver|].
  destruct (split_once x0a (x :: text)) as [[l rest]|] eqn:E; [|by apply split_once_None in E].
  apply split_once_Some in E as [E Hl]. rewrite E. split.
  - intros [= <-]. destruct (strip_last_cases x0d l) as [Hs|[Hs Hlast]].
    + rewrite Hs in Hl. split; [set_solver|]. exists rest. left. rewrite Hs at 1. by rewrite <-app_assoc.
    + rewrite Hs. split; [done|]. exists rest. by right.
  - intros (Hline & rest' & [E'|[E' Hlast]]).
    + assert (l = line ++ [x0d] /\ rest = rest') as [-> ->].
      { apply (f_equal (split_once x0a)) in E'.
        change (line ++ [x0d; x0a] ++ rest') with (line ++ [x0d] ++ x0a :: rest') in E'.
        rewrite app_assoc, !split_once_app in E' by set_solver. by injection E'. }
      by rewrite strip_last_snoc.
    + apply (f_equal (split_once x0a)) in E'. cbn in E'. rewrite !split_once_app in E' by done.
      injection E' as -> ->. by rewrite strip_last_other.
Qed.

Lemma splitn_second line code :
  nth_error (splitn 3 x20 line) 1 = Some code <-> second_field line code.
Proof.
  cbn [splitn]. destruct (split_once x20 line) as [[a b]|] eqn:E; cycle 1.
  { split; [done|]. intros (v & t & -> & _). apply split_once_None in E. set_solver. }
  apply split_once_Some in E as [-> Ha]. cbn [nth_error].
  destruct (split_once x20 b) as [[c d]|] eqn:E'.
  - apply split_once_Some in E' as [-> Hc]. cbn. split.
    + intros [= <-]. exists a, (x20 :: d). split_and!; [done|done|done|right; by exists d].
    + intros (v & t & Heq & Hv & Hcode & Ht).
      apply (f_equal (split_once x20)) in Heq. rewrite !split_once_app in Heq by done.
      injection Heq as -> Heq. destruct Ht as [-> |[r ->]].
      * rewrite app_nil_r in Heq. subst code. set_solver.
      * apply (f_equal (split_once x20)) in Heq. rewrite !split_once_app in Heq by done.
        injection Heq as -> _. done.
  - apply split_once_None in E'. cbn. split.
    + intros [= <-]. exists a, []. rewrite app_nil_r. by split_and!; [..|left].
    + intros (v & t & Heq & Hv & Hcode & Ht).
      apply (f_equal (split_once x20)) in Heq. rewrite !split_once_app in Heq by done.
      injection Heq as -> Heq. destruct Ht as [-> |[r ->]]; [by rewrite app_nil_r in Heq; subst|].
      subst b. set_solver.
Qed.
