(* ===== verification/HttpConnect.v ===== *)
(** * HTTP CONNECT

    [src/proxy/http_connect.rs]: the request text, the byte-by-byte read of the
    response head, the status line, and the crate's own Base64 encoder. *)

From S2P Require Import Prelude RustStd Externals Envelope Stream Instances Socks5 TextSpec.

(** ** Base64 *)

(** [CHARS]. *)
Definition CHARS : bytes :=
  str "ABCDEFGHIJKLMNOPQRSTUVWXYZabcdefghijklmnopqrstuvwxyz0123456789+/".

Definition char_at (i : Z) : byte := nth (Z.to_nat i) CHARS x00.

(** The body of the loop over the chunks of [base64_encode]. *)
Definition encode_chunk (chunk : bytes) : bytes :=
  let b0 := byte_Z (nth 0 chunk x00) in
  let b1 := byte_Z (nth 1 chunk x00) in
  let b2 := byte_Z (nth 2 chunk x00) in
  let n := Z.lor (Z.lor (Z.shiftl b0 16) (Z.shiftl b1 8)) b2 in
  [ char_at (Z.shiftr n 18);
    char_at (Z.land (Z.shiftr n 12) 63);
    (if decide (1 < length chunk) then char_at (Z.land (Z.shiftr n 6) 63) else x3d);
    (if decide (2 < length chunk) then char_at (Z.land n 63) else x3d) ].

(** [base64_encode]. *)
Definition base64_encode (input : bytes) : bytes := concat (map encode_chunk (chunks3 input)).

(** The decoder of RFC 4648, the reference for [base64_encode]: the value of
    each character is its place in the RFC's table, given here by ranges. *)
Definition sextet (c : byte) : option Z :=
  if in_range 65 90 c then Some (byte_Z c - 65)%Z
  else if in_range 97 122 c then Some (byte_Z c - 71)%Z
  else if in_range 48 57 c then Some (byte_Z c + 4)%Z
  else if decide (c = x2b) then Some 62%Z
  else if decide (c = x2f) then Some 63%Z
  else None.

Definition group_val (a b c d : Z) : Z := (a * 262144 + b * 4096 + c * 64 + d)%Z.

Definition decode_group (a b c d : byte) : option bytes :=
  match sextet a, sextet b with
  | Some a, Some b =>
      if decide (c = x3d /\ d = x3d) then Some [as_u8 (group_val a b 0 0 / 65536)]
      else match sextet c with
           | Some c =>
               if decide (d = x3d) then
                 Some [as_u8 (group_val a b c 0 / 65536); as_u8 (group_val a b c 0 / 256)]
               else match sextet d with
                    | Some d =>
                        let n := group_val a b c d in
                        Some [as_u8 (n / 65536); as_u8 (n / 256); as_u8 n]
                    | None => None
                    end
           | None => None
           end
  | _, _ => None
  end.

Fixpoint base64_decode (s : bytes) : option bytes :=
  match s with
  | [] => Some []
  | a :: b :: c :: d :: s' =>
      match decode_group a b c d, base64_decode s' with
      | Some x, Some y => Some (x ++ y)
      | _, _ => None
      end
  | _ => None
  end.

Lemma sextet_char_at i : (0 <= i < 64)%Z -> sextet (char_at i) = Some i.
Proof.
  intros Hi. rewrite <-(Z2Nat.id i) at 2 by lia. unfold char_at.
  assert (Z.to_nat i < 64) as Hn by lia. revert Hn. generalize (Z.to_nat i). clear.
  intros n Hn. do 64 (destruct n as [|n]; [vm_compute; reflexivity|]). lia.
Qed.

Lemma char_at_not_pad i : (0 <= i < 64)%Z -> char_at i <> x3d.
Proof. intros Hi E. pose proof (sextet_char_at i Hi) as H. by rewrite E in H. Qed.

(** The 24-bit value of a chunk and its sextets, arithmetically. *)
Lemma chunk_val b0 b1 b2 :
  Z.lor (Z.lor (Z.shiftl (byte_Z b0) 16) (Z.shiftl (byte_Z b1) 8)) (byte_Z b2)
  = (byte_Z b0 * 65536 + byte_Z b1 * 256 + byte_Z b2)%Z.
Proof.
  pose proof (byte_Z_range b1). pose proof (byte_Z_range b2).
  rewrite (Z.shiftl_mul_pow2 (byte_Z b1)) by lia.
  rewrite lor_shiftl_add by lia.
  replace (byte_Z b0 * 2 ^ 16 + byte_Z b1 * 2 ^ 8)%Z
    with (Z.shiftl (byte_Z b0 * 256 + byte_Z b1) 8)
    by (rewrite Z.shiftl_mul_pow2 by lia; lia).
  rewrite lor_shiftl_add by lia. lia.
Qed.

Lemma land_63 n : Z.land n 63 = (n mod 64)%Z.
Proof. change 63%Z with (Z.ones 6). by rewrite Z.land_ones by lia. Qed.

Lemma as_u8_of_byte (b : byte) z : (z mod 256 = byte_Z b)%Z -> as_u8 z = b.
Proof. intros H. apply byte_Z_inj. by rewrite byte_Z_as_u8. Qed.

(** Decoding the sextets of an encoded chunk. *)
Lemma decode_encode_chunk chunk :
  0 < length chunk <= 3 ->
  exists a b c d, encode_chunk chunk = [a; b; c; d] /\ decode_group a b c d = Some chunk.
Proof.
  intros Hl. unfold encode_chunk. rewrite chunk_val, !Z.shiftr_div_pow2, !land_63 by lia.
  set (n := (byte_Z (nth 0 chunk x00) * 65536 + byte_Z (nth 1 chunk x00) * 256
             + byte_Z (nth 2 chunk x00))%Z).
  assert (Hn : (0 <= n < 16777216)%Z).
  { unfold n. pose proof (byte_Z_range (nth 0 chunk x00)).
    pose proof (byte_Z_range (nth 1 chunk x00)). pose proof (byte_Z_range (nth 2 chunk x00)). lia. }
  change (2 ^ 18)%Z with 262144%Z. change (2 ^ 12)%Z with 4096%Z. change (2 ^ 6)%Z with 64%Z.
  assert (0 <= n / 262144 < 64)%Z as Ha by divlia.
  assert (0 <= (n / 4096) mod 64 < 64)%Z as Hb by divlia.
  assert (0 <= (n / 64) mod 64 < 64)%Z as Hc by divlia.
  assert (0 <= n mod 64 < 64)%Z as Hd by divlia.
  eexists _, _, _, _. split; [reflexivity|]. unfold decode_group, group_val.
  rewrite !sextet_char_at by done.
  destruct chunk as [|b0 [|b1 [|b2 [|]]]]; simpl in Hl; try lia; cbn [length nth] in *.
  - rewrite !(decide_False (P := 1 < 1)), !(decide_False (P := 2 < 1)) by lia.
    rewrite decide_True by done. change (byte_Z x00) with 0%Z in *.
    pose proof (byte_Z_range b0). f_equal. f_equal. apply as_u8_of_byte. unfold n. divlia.
  - rewrite (decide_True (P := 1 < 2)), (decide_False (P := 2 < 2)) by lia.
    rewrite decide_False by (intros [E _]; by apply char_at_not_pad in E).
    rewrite sextet_char_at, decide_True by done. change (byte_Z x00) with 0%Z in *.
    pose proof (byte_Z_range b0). pose proof (byte_Z_range b1).
    f_equal. f_equal; [|f_equal]; apply as_u8_of_byte; unfold n; divlia.
  - rewrite (decide_True (P := 1 < 3)), (decide_True (P := 2 < 3)) by lia.
    rewrite decide_False by (intros [E _]; by apply char_at_not_pad in E).
    rewrite sextet_char_at, decide_False by (done || by apply char_at_not_pad).
    rewrite sextet_char_at by done. cbn zeta.
    pose proof (byte_Z_range b0). pose proof (byte_Z_range b1). pose proof (byte_Z_range b2).
    f_equal. f_equal; [|f_equal; [|f_equal]]; apply as_u8_of_byte; unfold n; divlia.
Qed.

Lemma chunks3_spec (s : bytes) :
  concat (chunks3 s) = s /\ Forall (fun c => 0 < length c <= 3) (chunks3 s).
Proof.
  remember (length s) as n eqn:Hn. revert s Hn.
  induction n as [n IH] using lt_wf_ind. intros s ->.
  destruct s as [|a [|b [|c s]]]; simpl; [done|..].
  1,2: split; [done|]; repeat constructor; simpl; lia.
  destruct (IH (length s) ltac:(simpl; lia) s eq_refl) as [-> Hf].
  split; [done|]. constructor; [simpl; lia|done].
Qed.

(** [base64_encode] is inverted by the RFC 4648 decoder on
    every input, and its output has four characters per started group of three
    bytes. *)
Lemma base64_roundtrip (input : bytes) :
  base64_decode (base64_encode input) = Some input /\
  length (base64_encode input) = 4 * ((length input + 2) / 3).
Proof.
  unfold base64_encode. destruct (chunks3_spec input) as [Hc Hf].
  split.
  - rewrite <-Hc at 2. clear Hc. induction Hf as [|chunk l Hl _ IH]; [done|].
    destruct (decode_encode_chunk chunk Hl) as (a & b & c & d & He & Hd).
    cbn [map concat]. rewrite He. cbn [app base64_decode]. by rewrite Hd, IH.
  - clear Hc Hf. remember (length input) as n eqn:Hn. revert input Hn.
    induction n as [n IH] using lt_wf_ind. intros s ->.
    destruct s as [|a [|b [|c s]]]; [done|done|done|].
    change (chunks3 (a :: b :: c :: s)) with ([a; b; c] :: chunks3 s).
    cbn [map concat]. rewrite length_app, (IH (length s)) by (simpl; lia).
    change (length (encode_chunk [a; b; c])) with 4. simpl length.
    replace (Datatypes.S (Datatypes.S (Datatypes.S (length s))) + 2)
      with (length s + 2 + 1 * 3) by lia.
    rewrite Nat.div_add by lia. lia.
Qed.

(** ** The tunnel *)

Section HttpConnect.
Context {WA : WireApi} {CA : CoreApi} {SA : SerdeApi} {S : Type} {IA : AsyncIo S}.

Definition CRLF : bytes := [x0d; x0a].

Definition host_port (host : bytes) (port : Z) : bytes :=
  host ++ x3a :: display_uint port.

(** The request text. *)
Definition http_request (host : bytes) (port : Z) (auth : option ProxyAuth) : bytes :=
  str "CONNECT " ++ host_port host port ++ str " HTTP/1.1" ++ CRLF ++
  str "Host: " ++ host_port host port ++ CRLF ++
  match auth with
  | Some creds =>
      str "Proxy-Authorization: Basic " ++
      base64_encode (user creds ++ x3a :: pass creds) ++ CRLF
  | None => []
  end ++ CRLF.

Definition MAX_RESPONSE : Z := 8192.

Definition head_end : bytes := CRLF ++ CRLF.

(** The read loop, one byte per iteration; it needs [MAX_RESPONSE + 1]
    iterations at most. *)
Fixpoint read_head (fuel : nat) (response_buf : bytes) : IO S ObfsError bytes :=
  match fuel with
  | 0 => fun io => (Pending, io)
  | Datatypes.S fuel' =>
      let* byte := io_map_err Io (read_exact 1) in
      let response_buf := response_buf ++ [at_ byte 0] in
      if (MAX_RESPONSE <? Z.of_nat (length response_buf))%Z then
        io_fail (io_err (str "HTTP CONNECT: response header too large"))
      else if ends_with head_end response_buf then io_ret response_buf
      else read_head fuel' response_buf
  end.

(** The status code of a response head. *)
Definition parse_status (response_buf : bytes) : Res ObfsError Z :=
  if from_utf8 response_buf then
    match lines_next response_buf with
    | None => Err (io_err (str "HTTP CONNECT: empty response"))
    | Some status_line =>
        match nth_error (splitn 3 x20 status_line) 1 with
        | None => Err (io_err (str "HTTP CONNECT: malformed status line"))
        | Some code_str =>
            match parse_u16 code_str with
            | None => Err (io_err (str "HTTP CONNECT: non-numeric status code"))
            | Some status_code => Ok status_code
            end
        end
    end
  else Err (io_err (str "HTTP CONNECT: non-UTF8 response")).

(** [tunnel_http_connect]. *)
Definition tunnel_http_connect (target_host : bytes) (target_port : Z)
    (auth : option ProxyAuth) : IO S ObfsError unit :=
  let* _ := io_map_err Io (write_all (http_request target_host target_port auth)) in
  let* response_buf := read_head (Z.to_nat (MAX_RESPONSE + 1)) [] in
  let* status_code := io_of_res (parse_status response_buf) in
  if (status_code =? 200)%Z then io_ret tt
  else io_fail (io_err (str "HTTP CONNECT: proxy returned status " ++ display_uint status_code)).

(** [dial_http_connect]; [connect] is [TcpStream::connect]. *)
Definition dial_http_connect (connect : bytes -> Poll (Res IoError S)) (proxy_addr : bytes)
    (target_host : bytes) (target_port : Z) (auth : option ProxyAuth)
    : Poll (Res ObfsError S) :=
  match connect proxy_addr with
  | Ready (Ok stream) =>
      match tunnel_http_connect target_host target_port auth stream with
      | (Ready (Ok _), stream') => Ready (Ok stream')
      | (Ready (Err e), _) => Ready (Err e)
      | (Pending, _) => Pending
      end
  | Ready (Err e) => Ready (Err (Io e))
  | Pending => Pending
  end.

(** ** Reading the head *)

Context {AV : AsyncView S} {AL : AsyncIoLaws S}.

(** [head] is a response head: it ends with the blank line, and no shorter
    non-empty prefix of it does. *)
Definition is_head (head : bytes) : Prop :=
  ends_with head_end head = true /\
  forall pre post, head = pre ++ post -> post <> [] -> ends_with head_end pre = false.

(** No prefix of [s] ends with the blank line. *)
Definition no_head (s : bytes) : Prop :=
  forall pre post, s = pre ++ post -> ends_with head_end pre = false.

(** The status a response head carries: it is UTF-8, and the second field of
    its first line is a numeral with this value, below 65536. *)
Definition head_status (head : bytes) (n : Z) : Prop :=
  utf8_text head /\ (n <= 65535)%Z /\
  exists line code, first_line head line /\ second_field line code /\ numeral code n.

(** The request: the target in the request line and in the Host field, its port
    in decimal; credentials, where there are any, in a Basic token that decodes
    to [user:pass]; a blank line. *)
Definition connect_text (host : bytes) (port : Z) (auth : option ProxyAuth) (text : bytes) : Prop :=
  exists ds field, canonical ds port /\
    text = str "CONNECT " ++ host ++ str ":" ++ ds ++ str " HTTP/1.1" ++ [x0d; x0a] ++
           str "Host: " ++ host ++ str ":" ++ ds ++ [x0d; x0a] ++ field ++ [x0d; x0a] /\
    match auth with
    | Some creds => exists token,
        field = str "Proxy-Authorization: Basic " ++ token ++ [x0d; x0a] /\
        base64_decode token = Some (user creds ++ str ":" ++ pass creds)
    | None => field = []
    end.

Lemma http_request_text host port auth :
  (0 <= port < 65536)%Z -> connect_text host port auth (http_request host port auth).
Proof.
  intros Hp. pose proof (display_uint_canonical port ltac:(lia)) as Hd.
  unfold http_request, host_port, CRLF. destruct auth as [creds|].
  - exists (display_uint port), (str "Proxy-Authorization: Basic " ++
      base64_encode (user creds ++ x3a :: pass creds) ++ [x0d; x0a]).
    split_and!; [done|by rewrite <-!app_assoc|].
    eexists. split; [reflexivity|]. apply base64_roundtrip.
  - exists (display_uint port), []. split_and!; [done|by rewrite <-!app_assoc|done].
Qed.

Lemma is_head_line_feed head : is_head head -> x0a ∈ head.
Proof.
  intros [[Hl Hd]%bool_decide_eq_true _].
  rewrite <-(take_drop (length head - length head_end) head), Hd. set_solver.
Qed.

(** [parse_status] reads exactly that status. *)
Lemma parse_status_spec head n : is_head head -> parse_status head = Ok n <-> head_status head n.
Proof.
  intros Hh%is_head_line_feed. unfold parse_status, head_status. rewrite <-from_utf8_spec.
  destruct (from_utf8 head); [|split; [done|by intros [? _]]]. split.
  - destruct (lines_next head) as [line|] eqn:El; [|done].
    destruct (nth_error _ 1) as [code|] eqn:Ec; [|done].
    destruct (parse_u16 code) as [m|] eqn:Em; [|done]. intros [= ->].
    apply parse_u16_numeral in Em as [Hn Hle]. apply splitn_second in Ec.
    apply lines_next_first in El; [|done]. split_and!; [done|done|]. by exists line, code.
  - intros (_ & Hle & line & code & Hl & Hc & Hn).
    apply lines_next_first in Hl as ->; [|done]. apply splitn_second in Hc as ->.
    by rewrite (proj2 (parse_u16_numeral code n)).
Qed.

Lemma read_head_step fuel buf x rest f o w (io : S) :
  view io = mkView (x :: rest) f o w ->
  exists io', view io' = mkView rest f o w /\
    read_head (Datatypes.S fuel) buf io =
      (if (MAX_RESPONSE <? Z.of_nat (length (buf ++ [x])))%Z then
         io_fail (io_err (str "HTTP CONNECT: response header too large"))
       else if ends_with head_end (buf ++ [x]) then io_ret (buf ++ [x])
       else read_head fuel (buf ++ [x])) io'.
Proof.
  intros V. destruct (read_exact_step 1 [x] rest f o w io V eq_refl) as (io' & H & V').
  exists io'. split; [done|]. cbn [read_head]. by io_step H.
Qed.

(** The whole head arrives within the limit. *)
Lemma read_head_run fuel buf post rest f o w (io : S) :
  is_head (buf ++ post) -> post <> [] ->
  (Z.of_nat (length (buf ++ post)) <= MAX_RESPONSE)%Z ->
  length post <= fuel ->
  view io = mkView (post ++ rest) f o w ->
  exists io', read_head fuel buf io = (Ready (Ok (buf ++ post)), io') /\
    view io' = mkView rest f o w.
Proof.
  revert buf post io. induction fuel as [|fuel IH]; intros buf post io [Hend Hfirst] Hne Hmax Hf V.
  { destruct post; simpl in Hf; [done|lia]. }
  destruct post as [|x post]; [done|]. clear Hne.
  destruct (read_head_step fuel buf x (post ++ rest) f o w io V) as (io1 & V1 & ->).
  rewrite (cons_middle x buf post), (app_assoc buf) in * by idtac.
  rewrite length_app in Hmax.
  rewrite (proj2 (Z.ltb_ge _ _)) by lia.
  destruct post as [|y post].
  - rewrite app_nil_r in *. rewrite Hend. by exists io1.
  - rewrite (Hfirst (buf ++ [x]) (y :: post)) by done.
    apply IH; [done|done|by rewrite length_app|simpl in *; lia|done].
Qed.

(** Too many bytes without a blank line. *)
Lemma read_head_too_large fuel buf post rest f o w (io : S) :
  no_head (buf ++ post) ->
  (Z.of_nat (length (buf ++ post)) = MAX_RESPONSE + 1)%Z -> post <> [] ->
  length post <= fuel ->
  view io = mkView (post ++ rest) f o w ->
  exists io', read_head fuel buf io =
      (Ready (Err (io_err (str "HTTP CONNECT: response header too large"))), io') /\
    view io' = mkView rest f o w.
Proof.
  revert buf post io. induction fuel as [|fuel IH]; intros buf post io Hno Hlen Hne Hf V.
  { destruct post; simpl in Hf; [done|lia]. }
  destruct post as [|x post]; [done|]. clear Hne.
  destruct (read_head_step fuel buf x (post ++ rest) f o w io V) as (io1 & V1 & ->).
  rewrite (cons_middle x buf post), (app_assoc buf) in * by idtac.
  rewrite length_app in Hlen.
  destruct post as [|y post].
  - simpl in Hlen. rewrite (proj2 (Z.ltb_lt _ _)) by lia. by exists io1.
  - simpl in Hlen. rewrite (proj2 (Z.ltb_ge _ _)) by lia.
    rewrite (Hno (buf ++ [x]) (y :: post)) by done.
    apply (IH (buf ++ [x]) (y :: post)); [done|rewrite length_app; simpl; lia|done|simpl in *; lia|done].
Qed.

Lemma no_head_snoc buf x :
  no_head buf -> ends_with head_end (buf ++ [x]) = false -> no_head (buf ++ [x]).
Proof.
  intros Hno Hx pre post Heq. destruct post as [|y post _] using rev_ind.
  - rewrite app_nil_r in Heq. by subst.
  - rewrite app_assoc in Heq. apply app_inj_tail in Heq as [-> _]. by eapply Hno.
Qed.

Lemma no_head_is_head buf x :
  no_head buf -> ends_with head_end (buf ++ [x]) = true -> is_head (buf ++ [x]).
Proof.
  intros Hno Hx. split; [done|]. intros pre post Heq Hne.
  destruct post as [|y post _] using rev_ind; [done|].
  rewrite app_assoc in Heq. apply app_inj_tail in Heq as [-> _]. by eapply Hno.
Qed.

Lemma no_head_nil : no_head [].
Proof. intros pre post Heq. symmetry in Heq. by apply app_nil in Heq as [-> _]. Qed.

(** A head that was read is the first one delivered, and within the limit. *)
Lemma read_head_inv fuel buf i f o w (io io' : S) head :
  view io = mkView i f o w -> no_head buf ->
  read_head fuel buf io = (Ready (Ok head), io') ->
  exists post rest, i = post ++ rest /\ head = buf ++ post /\ is_head head /\
    (Z.of_nat (length head) <= MAX_RESPONSE)%Z /\ view io' = mkView rest f o w.
Proof.
  revert buf i io. induction fuel as [|fuel IH]; intros buf i io V Hno H; [done|].
  cbn [read_head] in H.
  apply io_bind_inv in H as (b & io1 & Hr%io_map_err_inv & H).
  destruct (read_exact_inv _ _ _ _ _ _ _ _ V Hr) as (Hi & Hl & V1).
  apply length_1 in Hl as [x ->]. cbn [at_ nth] in H.
  destruct (MAX_RESPONSE <? _)%Z eqn:Emax; [done|]. apply Z.ltb_ge in Emax.
  destruct (ends_with head_end (buf ++ [x])) eqn:Eend.
  - injection H as <- <-. exists [x], (drop 1 i).
    split_and!; [done|done|by apply no_head_is_head|done|done].
  - destruct (IH _ _ _ V1 (no_head_snoc _ _ Hno Eend) H) as (post & rest & Hd & -> & Hh & Hm & V2).
    exists (x :: post), rest. rewrite Hi, Hd.
    split_and!; [done|by rewrite <-app_assoc|done|done|done].
Qed.

(** The loop ends by itself: [MAX_RESPONSE + 1] iterations are enough. *)
Lemma read_head_total fuel buf i f o w (io : S) :
  view io = mkView i f o w -> f <> FinWait ->
  (Z.of_nat (length buf) + Z.of_nat fuel = MAX_RESPONSE + 1)%Z ->
  (Z.of_nat (length buf) <= MAX_RESPONSE)%Z ->
  exists r io' k, read_head fuel buf io = (Ready r, io') /\ k <= fuel /\
    view io' = mkView (drop k i) f o w.
Proof.
  revert buf i io. induction fuel as [|fuel IH]; intros buf i io V Hf Hfuel Hbuf; [lia|].
  destruct i as [|x i].
  - destruct (read_exact_end_step 1 [] f o w io V) as (io1 & Hr & V1); [simpl; lia|].
    destruct f as [|e|]; [| |done]; simpl in Hr; cbn [read_head];
      (erewrite io_bind_err by (by apply io_map_err_err));
      (eexists _, io1, 0; split_and!; [done|lia|done]).
  - destruct (read_head_step fuel buf x i f o w io V) as (io1 & V1 & ->).
    destruct (MAX_RESPONSE <? Z.of_nat (length (buf ++ [x])))%Z eqn:Emax.
    { eexists _, io1, 1. split_and!; [done|lia|done]. }
    destruct (ends_with head_end (buf ++ [x])).
    { eexists _, io1, 1. split_and!; [done|lia|done]. }
    apply Z.ltb_ge in Emax.
    destruct (IH (buf ++ [x]) i io1 V1 Hf) as (r & io2 & k & Hr & Hk & V2);
      [rewrite length_app; simpl; lia|done|].
    exists r, io2, (Datatypes.S k). split_and!; [done|lia|done].
Qed.

Lemma tunnel_http_run host port auth head rest f o (io : S) :
  is_head head -> (Z.of_nat (length head) <= MAX_RESPONSE)%Z ->
  parse_status head = Ok 200%Z ->
  view io = mkView (head ++ rest) f o true ->
  exists io', tunnel_http_connect host port auth io = (Ready (Ok tt), io') /\
    view io' = mkView rest f (o ++ http_request host port auth) true.
Proof.
  intros Hh Hmax Hst V. unfold tunnel_http_connect.
  destruct (write_all_step (http_request host port auth) _ _ _ io V) as (io1 & H1 & V1).
  io_step H1.
  destruct (read_head_run (Z.to_nat (MAX_RESPONSE + 1)) [] head rest f (o ++ http_request host port auth) true io1 Hh)
    as (io2 & H2 & V2); [|done|lia|done|].
  { intros ->. by destruct Hh. }
  io_step H2. cbn [app]. rewrite Hst. exists io2. by split.
Qed.

Lemma tunnel_http_inv host port auth i f o w (io io' : S) :
  view io = mkView i f o w ->
  tunnel_http_connect host port auth io = (Ready (Ok tt), io') ->
  exists head rest, i = head ++ rest /\ is_head head /\
    (Z.of_nat (length head) <= MAX_RESPONSE)%Z /\ parse_status head = Ok 200%Z /\
    view io' = mkView rest f (o ++ http_request host port auth) w.
Proof.
  intros V H. unfold tunnel_http_connect in H.
  apply io_bind_inv in H as ([] & io1 & H1%io_map_err_inv & H).
  apply (write_all_inv _ _ _ _ _ _ _ V) in H1.
  apply io_bind_inv in H as (head & io2 & H2 & H).
  destruct (read_head_inv _ _ _ _ _ _ _ _ _ H1 no_head_nil H2)
    as (post & rest & -> & -> & Hh & Hm & V2).
  apply io_bind_inv in H as (status & io3 & H3 & H).
  unfold io_of_res in H3. injection H3 as H3 <-.
  destruct (status =? 200)%Z eqn:E; [|done]. apply Z.eqb_eq in E as ->.
  injection H as <-. by exists post, rest.
Qed.

(** The call always completes once the stream
    ends or fails: at most 8193 bytes of the response are read, whatever the
    proxy sends. *)
Lemma tunnel_http_connect_total host port auth i f o (io : S) :
  view io = mkView i f o true -> f <> FinWait ->
  exists r io' k,
    tunnel_http_connect host port auth io = (Ready r, io') /\
    (Z.of_nat k <= MAX_RESPONSE + 1)%Z /\
    view io' = mkView (drop k i) f (o ++ http_request host port auth) true.
Proof.
  intros V Hf. unfold tunnel_http_connect.
  destruct (write_all_step (http_request host port auth) _ _ _ io V) as (io1 & H1 & V1).
  io_step H1.
  destruct (read_head_total (Z.to_nat (MAX_RESPONSE + 1)) [] i f _ true io1 V1 Hf)
    as (r & io2 & k & H2 & Hk & V2); [done|done|].
  assert (Z.of_nat k <= MAX_RESPONSE + 1)%Z by (unfold MAX_RESPONSE in *; lia).
  destruct r as [head|e].
  - io_step H2. unfold io_bind, io_of_res.
    destruct (parse_status head) as [c|e]; [|by eauto 10].
    destruct (c =? 200)%Z; by eexists _, io2, k.
  - erewrite io_bind_err by exact H2. by eauto 10.
Qed.

(** A head with another status is an error that names it. *)
Lemma tunnel_http_refused host port auth head n rest f o (io : S) :
  is_head head -> (Z.of_nat (length head) <= MAX_RESPONSE)%Z -> head_status head n -> n <> 200%Z ->
  view io = mkView (head ++ rest) f o true ->
  exists io' ds, tunnel_http_connect host port auth io =
      (Ready (Err (io_err (str "HTTP CONNECT: proxy returned status " ++ ds))), io') /\ canonical ds n.
Proof.
  intros Hh Hmax Hst Hn V. unfold tunnel_http_connect.
  destruct (write_all_step (http_request host port auth) _ _ _ io V) as (io1 & H1 & V1). io_step H1.
  destruct (read_head_run (Z.to_nat (MAX_RESPONSE + 1)) [] head rest f
              (o ++ http_request host port auth) true io1 Hh) as (io2 & H2 & V2); [|done|lia|done|].
  { intros ->. by destruct Hh. }
  io_step H2. cbn [app]. pose proof (proj2 (parse_status_spec head n Hh) Hst) as Hp. rewrite Hp.
  exists io2, (display_uint n). unfold io_bind, io_of_res. rewrite (proj2 (Z.eqb_neq _ _)) by done.
  split; [done|]. apply display_uint_canonical.
  unfold parse_status in Hp. repeat case_match; simplify_eq. by eapply parse_u16_bound.
Qed.

(** C28: [tunnel_http_connect] succeeds exactly when the first response head
    the proxy delivers has at most 8192 bytes, is UTF-8 (the concatenated
    encodings of Unicode scalar values) and has, as the second field of its
    first line, a decimal numeral of value 200.  It has then written the
    CONNECT request for the target (host and decimal port in both places, the
    credentials in Base64) and left the stream at the first byte after the
    blank line, never reading into the tunnelled data.  A head with another
    status is an error that names the status.  Once the stream ends or fails
    the call completes, whatever the proxy sends, having read at most 8193
    bytes. *)
Theorem tunnel_http_connect_exact host port auth i f o (io : S) :
  (0 <= port < 65536)%Z -> view io = mkView i f o true ->
  ((exists io', tunnel_http_connect host port auth io = (Ready (Ok tt), io')) <->
   (exists head rest,
      i = head ++ rest /\ is_head head /\
      (Z.of_nat (length head) <= 8192)%Z /\ head_status head 200)) /\
  (forall io', tunnel_http_connect host port auth io = (Ready (Ok tt), io') ->
     exists head rest text, i = head ++ rest /\ is_head head /\ connect_text host port auth text /\
       view io' = mkView rest f (o ++ text) true) /\
  (forall head rest n,
     i = head ++ rest -> is_head head -> (Z.of_nat (length head) <= 8192)%Z ->
     head_status head n -> n <> 200%Z ->
     exists io' ds, tunnel_http_connect host port auth io =
       (Ready (Err (io_err (str "HTTP CONNECT: proxy returned status " ++ ds))), io') /\
       canonical ds n) /\
  (f <> FinWait -> exists r io' k text,
     tunnel_http_connect host port auth io = (Ready r, io') /\
     (Z.of_nat k <= 8193)%Z /\ connect_text host port auth text /\
     view io' = mkView (drop k i) f (o ++ text) true).
Proof.
  intros Hp V. pose proof (http_request_text host port auth Hp) as Ht. split_and!; [split| | |].
  - intros [io' H].
    destruct (tunnel_http_inv _ _ _ _ _ _ _ _ _ V H) as (head & rest & Hi & Hh & Hm & Hs & _).
    apply parse_status_spec in Hs; [|done]. by exists head, rest.
  - intros (head & rest & -> & Hh & Hm & Hs%parse_status_spec); [|done].
    destruct (tunnel_http_run host port auth head rest f o io Hh Hm Hs V) as (io' & H & _).
    by exists io'.
  - intros io' H. destruct (tunnel_http_inv _ _ _ _ _ _ _ _ _ V H) as (head & rest & ?).
    exists head, rest, (http_request host port auth). naive_solver.
  - intros head rest n -> Hh Hm Hs Hn. by eapply tunnel_http_refused.
  - intros Hf. destruct (tunnel_http_connect_total host port auth i f o io V Hf)
      as (r & io' & k & H & Hk & V'). by exists r, io', k, (http_request host port auth).
Qed.

(** A proxy that sends 8193 bytes without a
    blank line is cut off there, with the size error. *)
Lemma tunnel_http_connect_oversized host port auth junk rest f o (io : S) :
  no_head junk -> (Z.of_nat (length junk) = MAX_RESPONSE + 1)%Z ->
  view io = mkView (junk ++ rest) f o true ->
  exists io',
    tunnel_http_connect host port auth io =
      (Ready (Err (io_err (str "HTTP CONNECT: response header too large"))), io') /\
    view io' = mkView rest f (o ++ http_request host port auth) true.
Proof.
  intros Hno Hlen V. unfold tunnel_http_connect.
  destruct (write_all_step (http_request host port auth) _ _ _ io V) as (io1 & H1 & V1).
  io_step H1.
  destruct (read_head_too_large (Z.to_nat (MAX_RESPONSE + 1)) [] junk rest f (o ++ http_request host port auth) true io1)
    as (io2 & H2 & V2); [done|done| |lia|done|].
  { intros ->. simpl in Hlen. unfold MAX_RESPONSE in Hlen. lia. }
  exists io2. by erewrite io_bind_err by exact H2.
Qed.

End HttpConnect.

(** ** Concrete runs *)

Module HttpRuns.
Import Ref.

Definition established : bytes :=
  str "HTTP/1.1 200 Connection Established" ++ CRLF ++ CRLF.

Definition proxy_says (head : bytes) (f : Fin) : Script :=
  mkScript [head ++ [xaa; xbb]] f [] None.

Example base64_example : base64_encode (str "bob:passw0rd") = str "Ym9iOnBhc3N3MHJk".
Proof. reflexivity. Qed.

Example status_200 : parse_status established = Ok 200%Z.
Proof. reflexivity. Qed.

Example status_407 :
  parse_status (str "HTTP/1.1 407 Proxy Auth Required" ++ CRLF ++ CRLF) = Ok 407%Z.
Proof. reflexivity. Qed.

(** The answer of the run carries status 200, as text. *)
Example established_status : is_head established /\ head_status established 200.
Proof.
  assert (is_head established) as Hh.
  { split; [done|]. intros pre post E Hne. apply bool_decide_eq_false. intros [Hl Hd].
    assert (length pre < length established) as Hlt
      by (rewrite E, length_app; destruct post; [done|simpl; lia]).
    assert (pre = take (length pre) established) as Hpre by (by rewrite E, take_app_length).
    revert Hd Hl. rewrite Hpre. revert Hlt. generalize (length pre). clear.
    intros n Hn. do 39 (destruct n as [|n]; [vm_compute; (lia || done)|]). vm_compute in Hn. lia. }
  split; [done|]. by apply parse_status_spec.
Qed.

Lemma tunnel_http_connect_exact_witness :
  ((exists io', tunnel_http_connect (str "h") 443 None (proxy_says established FinEof)
                = (Ready (Ok tt), io')) <->
   (exists head rest,
      established ++ [xaa; xbb] = head ++ rest /\ is_head head /\
      (Z.of_nat (length head) <= 8192)%Z /\ head_status head 200)) /\
  (forall io', tunnel_http_connect (str "h") 443 None (proxy_says established FinEof)
               = (Ready (Ok tt), io') ->
     exists head rest text, established ++ [xaa; xbb] = head ++ rest /\ is_head head /\
       connect_text (str "h") 443 None text /\ view io' = mkView rest FinEof ([] ++ text) true) /\
  (forall head rest n,
     established ++ [xaa; xbb] = head ++ rest -> is_head head ->
     (Z.of_nat (length head) <= 8192)%Z -> head_status head n -> n <> 200%Z ->
     exists io' ds, tunnel_http_connect (str "h") 443 None (proxy_says established FinEof) =
       (Ready (Err (io_err (str "HTTP CONNECT: proxy returned status " ++ ds))), io') /\
       canonical ds n) /\
  (FinEof <> FinWait -> exists r io' k text,
     tunnel_http_connect (str "h") 443 None (proxy_says established FinEof) = (Ready r, io') /\
     (Z.of_nat k <= 8193)%Z /\ connect_text (str "h") 443 None text /\
     view io' = mkView (drop k (established ++ [xaa; xbb])) FinEof ([] ++ text) true).
Proof.
  refine (tunnel_http_connect_exact (str "h") 443 None _ FinEof []
            (proxy_says established FinEof) _ _).
  - lia.
  - reflexivity.
Defined.

Lemma tunnel_http_connect_total_example :
  exists r io' k,
    tunnel_http_connect (str "h") 443 None (proxy_says (str "HTTP/1.1 200 OK") FinEof)
      = (Ready r, io') /\
    (Z.of_nat k <= MAX_RESPONSE + 1)%Z /\
    view io' = mkView (drop k (str "HTTP/1.1 200 OK" ++ [xaa; xbb])) FinEof
                 ([] ++ http_request (str "h") 443 None) true.
Proof.
  refine (tunnel_http_connect_total (str "h") 443 None _ FinEof []
            (proxy_says (str "HTTP/1.1 200 OK") FinEof) _ _).
  - reflexivity.
  - done.
Defined.

(** 8193 letters. *)
Definition letters : bytes := repeat x61 (Z.to_nat 8193).

Lemma repeat_not_ends (n : nat) pre post :
  repeat x61 n = pre ++ post -> ends_with head_end pre = false.
Proof.
  intros Heq. apply bool_decide_eq_false. intros [_ Hd].
  assert (x0a ∈ pre) as Hin.
  { rewrite <-(take_drop (length pre - length head_end) pre), Hd. set_solver. }
  assert (x0a ∈ repeat x61 n) as Hin' by (rewrite Heq; set_solver).
  apply list_elem_of_In in Hin'. by apply repeat_spec in Hin'.
Qed.

Lemma tunnel_http_connect_oversized_example :
  exists io',
    tunnel_http_connect (str "h") 443 None (mkScript [letters; [xaa]] FinWait [] None) =
      (Ready (Err (io_err (str "HTTP CONNECT: response header too large"))), io') /\
    view io' = mkView [xaa] FinWait ([] ++ http_request (str "h") 443 None) true.
Proof.
  refine (tunnel_http_connect_oversized (str "h") 443 None letters [xaa] FinWait []
            (mkScript [letters; [xaa]] FinWait [] None) _ _ _).
  - intros pre post. apply repeat_not_ends.
  - unfold letters. rewrite repeat_length. reflexivity.
  - reflexivity.
Defined.

End HttpRuns.
