(* ===== verification/ProxyDial.v ===== *)
(** * Dialling through a proxy chain

    [src/proxy/mod.rs]: [parse_addr] and [dial], which asks every hop in turn
    for the next one and the last hop for the target. *)

From S2P Require Import Prelude RustStd Externals Envelope Stream Instances Socks5 TextSpec HttpConnect.

Section ProxyDial.
Context {WA : WireApi} {CA : CoreApi} {SA : SerdeApi} {S : Type} {IA : AsyncIo S}.

(** [parse_addr]. *)
Definition parse_addr (addr : bytes) : Res ObfsError (bytes * Z) :=
  match rfind x3a addr with
  | None => Err (Io (io_other (str "invalid proxy addr")))
  | Some colon =>
      let host := take colon addr in
      match parse_u16 (drop (colon + 1) addr) with
      | None => Err (Io (io_other (str "invalid proxy port")))
      | Some port => Ok (host, port)
      end
  end.

(** The flat hop list: the first hop from the configuration's own fields, then
    its chain. *)
Definition hop_list (proxy : ProxyConfig) : list ProxyHop :=
  mkProxyHop (px_kind proxy) (px_addr proxy) (px_auth proxy) :: px_chain proxy.

(** The tunnel negotiation of one hop. *)
Definition tunnel_hop (hop : ProxyHop) (next_host : bytes) (next_port : Z)
    : IO S ObfsError unit :=
  match hop_kind hop with
  | Socks5 => tunnel_socks5 next_host next_port (hop_auth hop)
  | HttpConnect => tunnel_http_connect next_host next_port (hop_auth hop)
  end.

(** The loop over the hops. *)
Fixpoint dial_loop (hops : list ProxyHop) (target_host : bytes) (target_port : Z)
    : IO S ObfsError unit :=
  match hops with
  | [] => io_ret tt
  | hop :: hops' =>
      let* (next_host, next_port) :=
        io_of_res (match hops' with
                   | next :: _ => parse_addr (hop_addr next)
                   | [] => Ok (target_host, target_port)
                   end) in
      let* _ := tunnel_hop hop next_host next_port in
      dial_loop hops' target_host target_port
  end.

(** [dial]; [connect] is [TcpStream::connect]. *)
Definition dial (connect : bytes -> Poll (Res IoError S)) (proxy : ProxyConfig)
    (target_host : bytes) (target_port : Z) : Poll (Res ObfsError S) :=
  match connect (px_addr proxy) with
  | Ready (Ok stream) =>
      match dial_loop (hop_list proxy) target_host target_port stream with
      | (Ready (Ok _), stream') => Ready (Ok stream')
      | (Ready (Err e), _) => Ready (Err e)
      | (Pending, _) => Pending
      end
  | Ready (Err e) => Ready (Err (Io e))
  | Pending => Pending
  end.

(** ** Addresses *)

(** [parse_addr] splits at the last colon: it returns
    [(host, port)] exactly for the texts [host:digits] whose part after the
    last colon is a [u16]. *)
Lemma parse_addr_exact addr host port :
  parse_addr addr = Ok (host, port) <->
  exists ds, addr = host ++ x3a :: ds /\ x3a ∉ ds /\ parse_u16 ds = Some port.
Proof.
  unfold parse_addr. split.
  - destruct (rfind x3a addr) as [c|] eqn:E; [|done].
    apply rfind_Some in E as (Ha & Hn & Hl). rewrite Nat.add_1_r.
    destruct (parse_u16 (drop (Datatypes.S c) addr)) eqn:Ep; [|done].
    intros [= <- <-]. by exists (drop (Datatypes.S c) addr).
  - intros (ds & -> & Hn & Hp). rewrite rfind_app by done.
    rewrite take_app_length, Nat.add_1_r, cons_middle, app_assoc.
    replace (Datatypes.S (length host)) with (length (host ++ [x3a]))
      by (rewrite length_app; simpl; lia).
    by rewrite drop_app_length, Hp.
Qed.

(** The address text of any host, colons included, and
    any 16-bit port parses back to them. *)
Lemma parse_addr_roundtrip host port :
  (0 <= port <= 65535)%Z -> parse_addr (host_port host port) = Ok (host, port).
Proof.
  intros Hp. unfold parse_addr, host_port.
  rewrite rfind_app by (eapply digits_not_in; [done|by apply display_uint_digits; lia]).
  rewrite take_app_length, Nat.add_1_r, cons_middle, app_assoc.
  replace (Datatypes.S (length host)) with (length (host ++ [x3a]))
    by (rewrite length_app; simpl; lia).
  by rewrite drop_app_length, parse_display_u16.
Qed.

(** ** The conversation with a chain of proxies *)

(** The address text of a hop: [host], a colon, and a numeral for [port] that
    has no colon itself. *)
Definition address (addr host : bytes) (port : Z) : Prop :=
  exists ds, addr = host ++ str ":" ++ ds /\ x3a ∉ ds /\ numeral ds port /\ (port <= 65535)%Z.

Lemma parse_addr_address addr host port :
  parse_addr addr = Ok (host, port) <-> address addr host port.
Proof.
  rewrite parse_addr_exact. unfold address.
  split; intros (ds & Ha & Hc & Hn); exists ds; apply parse_u16_numeral in Hn; naive_solver.
Qed.

(** What one hop is told and answers when it agrees to connect to
    [host:port]: a SOCKS5 session, or the CONNECT request and a head with
    status 200. *)
Inductive hop_talk (hop : ProxyHop) (host : bytes) (port : Z) : bytes -> bytes -> Prop :=
| talk_socks5 s :
    hop_kind hop = Socks5 -> socks_session (hop_auth hop) host port s ->
    hop_talk hop host port (se_said s) (se_heard s)
| talk_http head text :
    hop_kind hop = HttpConnect -> is_head head -> (Z.of_nat (length head) <= 8192)%Z ->
    head_status head 200 -> connect_text host port (hop_auth hop) text ->
    hop_talk hop host port text head.

(** The conversation with all hops: each is asked for the address of the next
    hop, the last one for the target. *)
Inductive chain_talk (host : bytes) (port : Z) : list ProxyHop -> bytes -> bytes -> Prop :=
| chain_last hop said heard :
    hop_talk hop host port said heard -> chain_talk host port [hop] said heard
| chain_next hop next hops nhost nport said heard said' heard' :
    address (hop_addr next) nhost nport ->
    hop_talk hop nhost nport said heard ->
    chain_talk host port (next :: hops) said' heard' ->
    chain_talk host port (hop :: next :: hops) (said ++ said') (heard ++ heard').

Context {AV : AsyncView S} {AL : AsyncIoLaws S}.

Lemma tunnel_hop_run hop host port said heard rest f o (io : S) :
  hop_talk hop host port said heard -> view io = mkView (heard ++ rest) f o true ->
  exists io' said', tunnel_hop hop host port io = (Ready (Ok tt), io') /\
    view io' = mkView rest f (o ++ said') true.
Proof.
  intros Ht V. unfold tunnel_hop. destruct Ht as [s -> Hs|head text -> Hh Hm Hst _].
  - by eapply session_run.
  - apply parse_status_spec in Hst; [|done].
    destruct (tunnel_http_run host port (hop_auth hop) head rest f o io Hh Hm Hst V) as (io' & H & V').
    by eexists io', _.
Qed.

Lemma tunnel_hop_inv hop host port i f o w (io io' : S) :
  (0 <= port < 65536)%Z ->
  view io = mkView i f o w -> tunnel_hop hop host port io = (Ready (Ok tt), io') ->
  exists said heard rest, i = heard ++ rest /\ hop_talk hop host port said heard /\
    view io' = mkView rest f (o ++ said) w.
Proof.
  intros Hp V H. unfold tunnel_hop in H. destruct (hop_kind hop) eqn:E.
  - destruct (session_inv _ _ _ _ _ _ _ _ _ Hp V H) as (s & rest & Hs & Hi & V').
    exists (se_said s), (se_heard s), rest. split_and!; [done|by constructor|done].
  - destruct (tunnel_http_inv _ _ _ _ _ _ _ _ _ V H) as (head & rest & -> & Hh & Hm & Hs & V').
    apply parse_status_spec in Hs; [|done].
    exists (http_request host port (hop_auth hop)), head, rest.
    split_and!; [done| |done]. constructor; [done..|]. by apply http_request_text.
Qed.

Lemma dial_loop_run hops host port said heard rest f o (io : S) :
  chain_talk host port hops said heard -> view io = mkView (heard ++ rest) f o true ->
  exists io', dial_loop hops host port io = (Ready (Ok tt), io').
Proof.
  intros Hc. revert o io.
  induction Hc as [hop said heard Ht|hop next hops nh np said heard said' heard' Hp Ht Hc IH];
    intros o io V.
  - destruct (tunnel_hop_run _ _ _ _ _ _ _ _ _ Ht V) as (io1 & said' & H1 & V1).
    exists io1. cbn [dial_loop]. unfold io_bind at 1. cbn. by io_step H1.
  - rewrite <-app_assoc in V.
    destruct (tunnel_hop_run _ _ _ _ _ _ _ _ _ Ht V) as (io1 & said1 & H1 & V1).
    destruct (IH _ _ V1) as (io2 & H2). exists io2.
    change (dial_loop (hop :: next :: hops) host port) with
      (let* (next_host, next_port) := io_of_res (parse_addr (hop_addr next)) in
       let* _ := tunnel_hop hop next_host next_port in
       dial_loop (next :: hops) host port).
    apply parse_addr_address in Hp. rewrite Hp. unfold io_bind at 1, io_of_res. by io_step H1.
Qed.

Lemma parse_addr_port addr h p : parse_addr addr = Ok (h, p) -> (0 <= p < 65536)%Z.
Proof.
  unfold parse_addr. destruct (rfind x3a addr); [|done].
  destruct (parse_u16 _) eqn:E; [|done]. intros [= _ <-].
  apply parse_u16_bound in E. lia.
Qed.

Lemma dial_loop_inv hops host port i f o w (io io' : S) :
  hops <> [] -> (0 <= port < 65536)%Z ->
  view io = mkView i f o w -> dial_loop hops host port io = (Ready (Ok tt), io') ->
  exists said heard rest, i = heard ++ rest /\ chain_talk host port hops said heard /\
    view io' = mkView rest f (o ++ said) w.
Proof.
  intros Hne Hp. revert i o io Hne. induction hops as [|hop hops IH]; intros i o io Hne V H; [done|].
  cbn [dial_loop] in H. apply io_bind_inv in H as ([nh np] & io1 & Hn & H).
  unfold io_of_res in Hn. injection Hn as Hn <-.
  apply io_bind_inv in H as ([] & io2 & Ht & H).
  destruct hops as [|next hops].
  - injection Hn as <- <-. injection H as <-.
    destruct (tunnel_hop_inv _ _ _ _ _ _ _ _ _ Hp V Ht) as (said & heard & rest & ? & ? & ?).
    exists said, heard, rest. split_and!; [done|by constructor|done].
  - pose proof (parse_addr_port _ _ _ Hn) as Hnp.
    destruct (tunnel_hop_inv _ _ _ _ _ _ _ _ _ Hnp V Ht) as (said & heard & rest & -> & Ht' & V2).
    destruct (IH _ _ _ ltac:(done) V2 H) as (said' & heard' & rest' & -> & Hc & V3).
    exists (said ++ said'), (heard ++ heard'), rest'.
    apply parse_addr_address in Hn.
    split_and!; [by rewrite app_assoc|by eapply chain_next|by rewrite V3, app_assoc].
Qed.

(** C26: [dial] returns a stream exactly when the TCP connection to the first
    hop is made and, over that one connection, every hop in turn accepts a
    tunnel to the next hop's address and the last one to the target: by a
    SOCKS5 session as laid out in the RFCs (the four demands of [Demand] apart,
    which the client does not check), or by an HTTP head with status 200.  The returned stream is that connection:
    it has carried those requests, in that order and nothing else, and stands at
    the first byte after the last hop's answer.  A refused first connection is
    the call's error, and one that is not answered keeps the call waiting: no
    other route is tried. *)
Theorem dial_chain_exact connect proxy host port :
  (0 <= port < 65536)%Z ->
  (forall io : S, connect (px_addr proxy) = Ready (Ok io) -> v_wr (view io) = true) ->
  ((exists io', dial connect proxy host port = Ready (Ok io')) <->
   (exists io said heard rest, connect (px_addr proxy) = Ready (Ok io) /\
      chain_talk host port (hop_list proxy) said heard /\ v_in (view io) = heard ++ rest)) /\
  (forall io', dial connect proxy host port = Ready (Ok io') ->
     exists io said heard rest, connect (px_addr proxy) = Ready (Ok io) /\
       chain_talk host port (hop_list proxy) said heard /\ v_in (view io) = heard ++ rest /\
       view io' = mkView rest (v_fin (view io)) (v_out (view io) ++ said) true) /\
  (forall e, connect (px_addr proxy) = Ready (Err e) ->
     dial connect proxy host port = Ready (Err (Io e))) /\
  (connect (px_addr proxy) = Pending -> dial connect proxy host port = Pending).
Proof.
  intros Hp Hw.
  assert (Hinv : forall io', dial connect proxy host port = Ready (Ok io') ->
     exists io said heard rest, connect (px_addr proxy) = Ready (Ok io) /\
       chain_talk host port (hop_list proxy) said heard /\ v_in (view io) = heard ++ rest /\
       view io' = mkView rest (v_fin (view io)) (v_out (view io) ++ said) true).
  { intros io' H. unfold dial in H. destruct (connect (px_addr proxy)) as [[io|]|] eqn:Ec; [|done|done].
    specialize (Hw io eq_refl).
    destruct (dial_loop _ _ _ io) as [[[[]|]|] io1] eqn:E; [|done|done]. injection H as ->.
    destruct (view io) as [i f o w] eqn:V. cbn in Hw. subst w.
    apply (dial_loop_inv _ _ _ i f o true) in E as (said & heard & rest & Hi & Ht & V'); [|done..].
    exists io, said, heard, rest. by rewrite V. }
  split_and!; [split|done| |].
  - intros [io' H]. destruct (Hinv io' H) as (io & said & heard & rest & ? & ? & ? & _).
    by exists io, said, heard, rest.
  - intros (io & said & heard & rest & Hc & Ht & Hi). specialize (Hw io Hc). unfold dial. rewrite Hc.
    destruct (dial_loop_run _ host port said heard rest (v_fin (view io)) (v_out (view io)) io Ht)
      as (io' & ->); [|by exists io'].
    destruct (view io). cbn in *. by subst.
  - intros e He. unfold dial. by rewrite He.
  - intros Hc. unfold dial. by rewrite Hc.
Qed.

End ProxyDial.

(** ** Concrete runs *)

Module DialRuns.
Import Ref.

Lemma parse_addr_roundtrip_example :
  parse_addr (host_port (str "[::1]") 4433) = Ok (str "[::1]", 4433%Z).
Proof. refine (parse_addr_roundtrip (str "[::1]") 4433 _). lia. Defined.

(** SOCKS5 to HTTP CONNECT to the target. *)
Definition two_hops : ProxyConfig :=
  mkProxyConfig Socks5 (str "10.0.0.1:1080") None
    [mkProxyHop HttpConnect (str "10.0.0.2:3128") None].

Definition both_answers : bytes :=
  [x05; x00; x05; x00; x00; x01; x00; x00; x00; x00; x00; x00] ++ HttpRuns.established.

Definition path : Script := mkScript [both_answers; [xaa]] FinWait [] None.

Definition connect_path (addr : bytes) : Poll (Res IoError Script) :=
  if decide (addr = str "10.0.0.1:1080") then Ready (Ok path)
  else Ready (Err (io_other (str "unreachable"))).

Lemma dial_chain_exact_witness :
  ((exists io', dial connect_path two_hops (str "obfs") 4433 = Ready (Ok io')) <->
   (exists io said heard rest, connect_path (px_addr two_hops) = Ready (Ok io) /\
      chain_talk (str "obfs") 4433 (hop_list two_hops) said heard /\ v_in (view io) = heard ++ rest)) /\
  (forall io', dial connect_path two_hops (str "obfs") 4433 = Ready (Ok io') ->
     exists io said heard rest, connect_path (px_addr two_hops) = Ready (Ok io) /\
       chain_talk (str "obfs") 4433 (hop_list two_hops) said heard /\ v_in (view io) = heard ++ rest /\
       view io' = mkView rest (v_fin (view io)) (v_out (view io) ++ said) true) /\
  (forall e, connect_path (px_addr two_hops) = Ready (Err e) ->
     dial connect_path two_hops (str "obfs") 4433 = Ready (Err (Io e))) /\
  (connect_path (px_addr two_hops) = Pending ->
   dial connect_path two_hops (str "obfs") 4433 = Pending).
Proof.
  refine (dial_chain_exact connect_path two_hops (str "obfs") 4433 _ _).
  - lia.
  - intros io H. change (connect_path (px_addr two_hops)) with (Ready (@Ok IoError _ path)) in H.
    injection H as <-. reflexivity.
Defined.

(** The bytes the two hops are sent. *)
Example two_hops_said :
  match dial connect_path two_hops (str "obfs") 4433 with
  | Ready (Ok io) => sc_out io
  | _ => []
  end = greeting None ++ connect_request (str "10.0.0.2") 3128
        ++ http_request (str "obfs") 4433 None.
Proof. reflexivity. Qed.

End DialRuns.
