(* ===== verification/ProxyPeers.v ===== *)
(** * The proxies' side of the tunnels

    The test modules of [src/proxy/socks5.rs] and [src/proxy/http_connect.rs]
    contain a SOCKS5 proxy and an HTTP CONNECT proxy of their own.  They are
    modelled here as programs over the same streams, and composed with the
    tunnels: for the targets and credentials the protocols can carry, the two
    ends agree on whether the tunnel opens, and the proxy dials exactly the
    requested target.  The tests themselves are in [UnitTests]. *)

From S2P Require Import Prelude RustStd Externals Envelope Stream Instances Socks5 TextSpec HttpConnect.

(** [String::from_utf8_lossy]: every maximal invalid sequence becomes U+FFFD. *)
Definition replacement : bytes := [xef; xbf; xbd].

Fixpoint from_utf8_lossy (s : bytes) : bytes :=
  match s with
  | [] => []
  | a :: s1 =>
      if in_range 0 127 a then a :: from_utf8_lossy s1
      else if in_range 194 223 a then
        match s1 with
        | b :: s2 => if cont b then a :: b :: from_utf8_lossy s2 else replacement ++ from_utf8_lossy s1
        | [] => replacement
        end
      else if in_range 224 239 a then
        match s1 with
        | b :: s2 =>
            if second3 a b then
              match s2 with
              | c :: s3 =>
                  if cont c then a :: b :: c :: from_utf8_lossy s3
                  else replacement ++ from_utf8_lossy s2
              | [] => replacement
              end
            else replacement ++ from_utf8_lossy s1
        | [] => replacement
        end
      else if in_range 240 244 a then
        match s1 with
        | b :: s2 =>
            if second4 a b then
              match s2 with
              | c :: s3 =>
                  if cont c then
                    match s3 with
                    | d :: s4 =>
                        if cont d then a :: b :: c :: d :: from_utf8_lossy s4
                        else replacement ++ from_utf8_lossy s3
                    | [] => replacement
                    end
                  else replacement ++ from_utf8_lossy s2
              | [] => replacement
              end
            else replacement ++ from_utf8_lossy s1
        | [] => replacement
        end
      else replacement ++ from_utf8_lossy s1
  end.

Lemma from_utf8_lossy_valid s : from_utf8 s = true -> from_utf8_lossy s = s.
Proof.
  remember (length s) as n eqn:Hn. revert s Hn.
  induction n as [n IH] using lt_wf_ind. intros s ->.
  destruct s as [|a s1]; [done|]. cbn [from_utf8 from_utf8_lossy].
  destruct (in_range 0 127 a); [intros H; f_equal; by eapply IH; [|done|done]; simpl; lia|].
  destruct (in_range 194 223 a).
  { destruct s1 as [|b s2]; [done|]. intros [-> H]%andb_prop.
    do 2 f_equal. by eapply IH; [|done|done]; simpl; lia. }
  destruct (in_range 224 239 a).
  { destruct s1 as [|b [|c s3]]; [done|done|]. intros [[-> ->]%andb_prop H]%andb_prop.
    do 3 f_equal. by eapply IH; [|done|done]; simpl; lia. }
  destruct (in_range 240 244 a); [|done].
  destruct s1 as [|b [|c [|d s4]]]; [done|done|done|].
  intros [[[-> ->]%andb_prop ->]%andb_prop H]%andb_prop.
  do 4 f_equal. by eapply IH; [|done|done]; simpl; lia.
Qed.

(** ** The SOCKS5 proxy *)

Section MockSocks5.
Context {S T : Type} {IA : AsyncIo S}.

(** A future that does not use the stream. *)
Definition io_await {E A} (r : Poll (Res E A)) : IO S E A := fun s => (r, s).

Definition usize (b : byte) : nat := Z.to_nat (byte_Z b).

(** [read_socks5_addr]. *)
Definition read_socks5_addr (atyp : byte) : IO S IoError (bytes * Z) :=
  let* host :=
    if decide (atyp = x01) then
      let* buf := read_exact 4 in
      io_ret (display_v4 (at_ buf 0) (at_ buf 1) (at_ buf 2) (at_ buf 3))
    else if decide (atyp = x03) then
      let* len_buf := read_exact 1 in
      let* name := read_exact (usize (at_ len_buf 0)) in
      if from_utf8 name then io_ret name else io_fail (io_other (str "invalid hostname"))
    else if decide (atyp = x04) then
      let* buf := read_exact 16 in
      let segments := map (fun i => hex_byte (at_ buf (2 * i)) ++ hex_byte (at_ buf (2 * i + 1))) (seq 0 8) in
      io_ret (foldr (fun seg acc => match acc with [] => seg | _ => seg ++ x3a :: acc end) [] segments)
    else io_fail (io_other (str "unknown atyp")) in
  let* port_buf := read_exact 2 in
  io_ret (host, from_be_u16 (at_ port_buf 0) (at_ port_buf 1)).

(** The username/password sub-negotiation of [handle_socks5_conn]: are these
    the required credentials? *)
Definition check_credentials (req_user req_pass : bytes) : IO S IoError bool :=
  let* sub_ver := read_exact 1 in
  let* ulen_buf := read_exact 1 in
  let* user_bytes := read_exact (usize (at_ ulen_buf 0)) in
  let* plen_buf := read_exact 1 in
  let* pass_bytes := read_exact (usize (at_ plen_buf 0)) in
  io_ret (bool_decide (from_utf8_lossy user_bytes = req_user /\ from_utf8_lossy pass_bytes = req_pass)).

(** From the CONNECT request on; the result is the target stream that is
    relayed. *)
Definition serve_connect (tcp_connect : bytes -> Poll (Res IoError T)) : IO S IoError (option T) :=
  let* req_hdr := read_exact 4 in
  if decide (at_ req_hdr 0 <> x05 \/ at_ req_hdr 1 <> x01) then
    io_fail (io_other (str "only CONNECT supported"))
  else
    let* (target_host, target_port) := read_socks5_addr (at_ req_hdr 3) in
    let* target := io_await (tcp_connect (host_port target_host target_port)) in
    let* _ := write_all [x05; x00; x00; x01; x00; x00; x00; x00; x00; x00] in
    io_ret (Some target).

(** [handle_socks5_conn]: [None] where it returns without relaying. *)
Definition handle_socks5_conn (tcp_connect : bytes -> Poll (Res IoError T))
    (required_auth : option (bytes * bytes)) : IO S IoError (option T) :=
  let* hdr := read_exact 2 in
  if decide (at_ hdr 0 <> x05) then io_fail (io_other (str "bad version"))
  else
    let* methods := read_exact (usize (at_ hdr 1)) in
    match required_auth with
    | Some (req_user, req_pass) =>
        if decide (x02 ∈ methods) then
          let* _ := write_all [x05; x02] in
          let* ok := check_credentials req_user req_pass in
          if ok : bool then
            let* _ := write_all [x01; x00] in serve_connect tcp_connect
          else
            let* _ := write_all [x01; x01] in io_ret None
        else
          let* _ := write_all [x05; xff] in io_ret None
    | None =>
        let* _ := write_all [x05; x00] in serve_connect tcp_connect
    end.

Context {AV : AsyncView S} {AL : AsyncIoLaws S}.

Lemma check_credentials_run u p creds rest f o w (io : S) :
  length (user creds) <= 255 -> length (pass creds) <= 255 ->
  from_utf8 (user creds) = true -> from_utf8 (pass creds) = true ->
  view io = mkView (auth_request creds ++ rest) f o w ->
  exists io', check_credentials u p io
    = (Ready (Ok (bool_decide (user creds = u /\ pass creds = p))), io') /\
    view io' = mkView rest f o w.
Proof.
  intros Hu Hp Uu Up V. unfold auth_request in V. rewrite <-!app_comm_cons, <-app_assoc in V.
  unfold check_credentials.
  destruct (read_exact_step 1 [x01] _ _ _ _ io V eq_refl) as (io1 & H1 & V1). io_step H1.
  destruct (read_exact_step 1 [_] _ _ _ _ io1 V1 eq_refl) as (io2 & H2 & V2). io_step H2.
  cbn [at_ nth]. unfold usize at 1. rewrite len_byte by done.
  destruct (read_exact_step _ _ _ _ _ _ io2 V2 eq_refl) as (io3 & H3 & V3). io_step H3.
  destruct (read_exact_step 1 [_] _ _ _ _ io3 V3 eq_refl) as (io4 & H4 & V4). io_step H4.
  cbn [at_ nth]. unfold usize. rewrite len_byte by done.
  destruct (read_exact_step _ _ _ _ _ _ io4 V4 eq_refl) as (io5 & H5 & V5). io_step H5.
  exists io5. by rewrite !from_utf8_lossy_valid.
Qed.

Lemma from_be_port port :
  (0 <= port < 65536)%Z ->
  from_be_u16 (as_u8 (Z.shiftr port 8)) (as_u8 (Z.land port 255)) = port.
Proof.
  intros Hp. change 255%Z with (Z.ones 8). rewrite Z.land_ones, Z.shiftr_div_pow2 by lia.
  unfold from_be_u16. rewrite !byte_Z_as_u8. change (2 ^ 8)%Z with 256%Z.
  rewrite Z.mod_mod by lia. divlia.
Qed.

(** The proxy understands the client's CONNECT request. *)
Lemma read_socks5_domain host port rest f o w (io : S) :
  length host <= 255 -> from_utf8 host = true -> (0 <= port < 65536)%Z ->
  view io = mkView (as_u8 (Z.of_nat (length host)) :: host ++
              [as_u8 (Z.shiftr port 8); as_u8 (Z.land port 255)] ++ rest) f o w ->
  exists io', read_socks5_addr x03 io = (Ready (Ok (host, port)), io') /\
    view io' = mkView rest f o w.
Proof.
  intros Hh Uh Hp V. unfold read_socks5_addr. rewrite (decide_False (P := x03 = x01)), decide_True by done.
  destruct (read_exact_step 1 [_] _ _ _ _ io V eq_refl) as (io1 & H1 & V1).
  destruct (read_exact_step _ _ _ _ _ _ io1 V1 eq_refl) as (io2 & H2 & V2).
  erewrite io_bind_ok; cycle 1.
  { io_step H1. cbn [at_ nth]. unfold usize. rewrite len_byte by done. io_step H2. by rewrite Uh. }
  destruct (read_exact_step 2 [_; _] _ _ _ _ io2 V2 eq_refl) as (io3 & H3 & V3). io_step H3.
  exists io3. cbn [at_ nth]. by rewrite from_be_port.
Qed.

(** What the proxy makes of its own dial, and whether the client is told. *)
Definition served (d : Poll (Res IoError T)) : Poll (Res IoError (option T)) :=
  match d with
  | Ready (Ok t) => Ready (Ok (Some t))
  | Ready (Err e) => Ready (Err e)
  | Pending => Pending
  end.

Definition dialled (d : Poll (Res IoError T)) : bool :=
  match d with Ready (Ok _) => true | _ => false end.

Lemma serve_connect_run tcp_connect host port rest f o (io : S) :
  length host <= 255 -> from_utf8 host = true -> (0 <= port < 65536)%Z ->
  view io = mkView (connect_request host port ++ rest) f o true ->
  exists io', serve_connect tcp_connect io = (served (tcp_connect (host_port host port)), io') /\
    view io' = mkView rest f (o ++ if dialled (tcp_connect (host_port host port))
                                   then success_reply x00 x01 (repeat x00 6) else []) true.
Proof.
  intros Hh Uh Hp V. unfold connect_request in V. cbn [app] in V.
  rewrite <-app_assoc in V. unfold serve_connect.
  destruct (read_exact_step 4 [x05; x01; x00; x03] _ _ _ _ io V eq_refl) as (io1 & H1 & V1). io_step H1.
  cbn [at_ nth]. rewrite decide_False by naive_solver.
  destruct (read_socks5_domain host port rest f o true io1 Hh Uh Hp V1) as (io2 & H2 & V2). io_step H2.
  unfold io_bind at 1, io_await. destruct (tcp_connect (host_port host port)) as [[t|e]|];
    [|exists io2; by rewrite app_nil_r..].
  destruct (write_all_step [x05; x00; x00; x01; x00; x00; x00; x00; x00; x00] _ _ _ io2 V2)
    as (io3 & H3 & V3). io_step H3. by exists io3.
Qed.

(** The greeting. *)
Lemma greeting_run auth rest f o w (io : S) :
  view io = mkView (greeting auth ++ rest) f o w ->
  exists io1 io2, read_exact 2 io = (Ready (Ok [x05; as_u8 (Z.of_nat (length (methods auth)))]), io1) /\
    read_exact (usize (as_u8 (Z.of_nat (length (methods auth))))) io1 = (Ready (Ok (methods auth)), io2) /\
    view io2 = mkView rest f o w.
Proof.
  intros V. unfold greeting in V. rewrite <-app_assoc in V.
  destruct (read_exact_step 2 [x05; _] _ _ _ _ io V eq_refl) as (io1 & H1 & V1).
  destruct (read_exact_step (usize (as_u8 (Z.of_nat (length (methods auth))))) (methods auth) _ _ _ _ io1 V1)
    as (io2 & H2 & V2); [by destruct auth|]. by exists io1, io2.
Qed.

End MockSocks5.

(** ** The tunnel against the SOCKS5 proxy *)

Section Socks5Agreement.
Context {WA : WireApi} {CA : CoreApi} {SA : SerdeApi}.
Context {S T : Type} {IA : AsyncIo S} {AV : AsyncView S} {AL : AsyncIoLaws S}.

(** Does the proxy let this client through? *)
Definition admitted (required : option (bytes * bytes)) (auth : option ProxyAuth) : bool :=
  match required, auth with
  | None, _ => true
  | Some (u, p), Some creds => bool_decide (user creds = u /\ pass creds = p)
  | Some _, None => false
  end.

(** What each end writes. *)
Definition client_talk (required : option (bytes * bytes)) (auth : option ProxyAuth)
    (host : bytes) (port : Z) : bytes :=
  greeting auth ++
  (match required, auth with Some _, Some creds => auth_request creds | _, _ => [] end) ++
  (if admitted required auth then connect_request host port else []).

(** [reached]: the proxy's own dial succeeded. *)
Definition proxy_talk (required : option (bytes * bytes)) (auth : option ProxyAuth) (reached : bool) : bytes :=
  match required, auth with
  | None, _ => [x05; x00]
  | Some _, Some _ => [x05; x02; x01; if admitted required auth then x00 else x01]
  | Some _, None => [x05; xff]
  end ++ (if admitted required auth && reached then success_reply x00 x01 (repeat x00 6) else []).

(** Credentials that fit the protocol; Rust strings are UTF-8. *)
Definition creds_fit (auth : option ProxyAuth) : Prop :=
  match auth with
  | Some c => length (user c) <= 255 /\ length (pass c) <= 255 /\
      from_utf8 (user c) = true /\ from_utf8 (pass c) = true
  | None => True
  end.

Definition refusal_text (required : option (bytes * bytes)) (auth : option ProxyAuth) : ObfsError :=
  io_err (match auth with
          | Some _ => str "SOCKS5: authentication failed"
          | None => str "SOCKS5: no acceptable authentication method"
          end).

(** The client's outcome: [f] is how its stream ends. *)
Definition client_outcome (required : option (bytes * bytes)) (auth : option ProxyAuth)
    (reached : bool) (f : Fin) : Poll (Res ObfsError unit) :=
  if admitted required auth then if reached then Ready (Ok tt) else unanswered f
  else Ready (Err (refusal_text required auth)).

(** The method and exchange of a client that is let through. *)
Lemma admitted_exchange required auth :
  creds_fit auth -> admitted required auth = true ->
  exists selected written reply, selected <> xff /\ auth_exchange selected auth written reply /\
    (forall reached, proxy_talk required auth reached = [x05; selected] ++ reply ++
       (if reached then success_reply x00 x01 (repeat x00 6) else [])) /\
    forall host port, client_talk required auth host port
      = greeting auth ++ written ++ connect_request host port.
Proof.
  intros Hc Ha. unfold proxy_talk, client_talk. rewrite Ha. destruct required as [[u p]|].
  - destruct auth as [creds|]; [|done]. destruct Hc as (Hu & Hp & _ & _).
    exists x02, (auth_request creds), [x01; x00]. by split_and!; [|by apply auth_password| |].
  - exists x00, [], []. by split_and!; [|constructor| |].
Qed.

Lemma client_side_admitted required auth host port reached tail f o (c : S) :
  creds_fit auth -> length host <= 255 -> admitted required auth = true ->
  (reached = false -> tail = []) ->
  view c = mkView (proxy_talk required auth reached ++ tail) f o true ->
  exists c', tunnel_socks5 host port auth c = (client_outcome required auth reached f, c') /\
    view c' = mkView tail f (o ++ client_talk required auth host port) true.
Proof.
  intros Hc Hh Ha Htail V. unfold client_outcome. rewrite Ha.
  destruct (admitted_exchange required auth Hc Ha) as (sel & wr & rp & Hs & He & Hp & Ht).
  rewrite Ht. rewrite Hp, <-!app_assoc in V. destruct reached.
  - eapply tunnel_run; [done|done|exact He| |exact V]. by constructor.
  - rewrite (Htail eq_refl) in *. destruct (tunnel_to_connect host port _ _ _ _ _ _ _ c Hs He V) as (c1 & -> & V1).
    destruct (connect_unanswered host port f _ c1 Hh V1) as (c2 & -> & V2).
    exists c2. by rewrite V2, <-!app_assoc.
Qed.

Lemma client_side_refused required auth host port reached tail f o (c : S) :
  creds_fit auth -> admitted required auth = false ->
  view c = mkView (proxy_talk required auth reached ++ tail) f o true ->
  exists c', tunnel_socks5 host port auth c = (client_outcome required auth reached f, c') /\
    view c' = mkView tail f (o ++ client_talk required auth host port) true.
Proof.
  intros Hc Ha V. unfold client_outcome, proxy_talk, client_talk in *. rewrite Ha in *.
  destruct required as [[u p]|]; [|done]. unfold tunnel_socks5. destruct auth as [creds|].
  - destruct Hc as (Hu & Hp & _ & _). rewrite !app_nil_r in *.
    destruct (write_all_step (greeting (Some creds)) _ _ _ c V) as (c1 & H1 & V1). io_step H1.
    destruct (read_exact_step 2 [x05; x02] _ _ _ _ c1 V1 eq_refl) as (c2 & H2 & V2). io_step H2.
    cbn [at_ nth]. rewrite (decide_False (P := x05 <> x05)), decide_False by naive_solver.
    unfold authenticate_socks5. rewrite decide_True, decide_False by (done || lia).
    destruct (write_all_step (auth_request creds) _ _ _ c2 V2) as (c3 & H3 & V3).
    destruct (read_exact_step 2 [x01; x01] _ _ _ _ c3 V3 eq_refl) as (c4 & H4 & V4).
    exists c4. split; [|by rewrite V4, <-app_assoc].
    apply io_bind_err. io_step H3. by io_step H4.
  - simpl in *.
    destruct (write_all_step (greeting None) _ _ _ c V) as (c1 & H1 & V1). io_step H1.
    destruct (read_exact_step 2 [x05; xff] _ _ _ _ c1 V1 eq_refl) as (c2 & H2 & V2). io_step H2.
    cbn [at_ nth]. rewrite (decide_False (P := x05 <> x05)), decide_True by naive_solver. by exists c2.
Qed.

Lemma proxy_side required auth host port (tcp_connect : bytes -> Poll (Res IoError T)) tail f o (s : S) :
  creds_fit auth -> length host <= 255 -> from_utf8 host = true -> (0 <= port < 65536)%Z ->
  view s = mkView (client_talk required auth host port ++ tail) f o true ->
  exists s', handle_socks5_conn tcp_connect required s
      = (if admitted required auth then served (tcp_connect (host_port host port))
         else Ready (Ok None), s') /\
    view s' = mkView tail f
      (o ++ proxy_talk required auth (dialled (tcp_connect (host_port host port)))) true.
Proof.
  intros Hc Hh Uh Hp V. unfold client_talk in V. rewrite <-!app_assoc in V.
  unfold handle_socks5_conn.
  destruct (greeting_run auth _ _ _ _ s V) as (s1 & s2 & H1 & H2 & V2).
  io_step H1. cbn [at_ nth]. rewrite decide_False by naive_solver. io_step H2.
  unfold proxy_talk. destruct required as [[u p]|].
  - destruct auth as [creds|]; cbn [methods].
    + rewrite decide_True by set_solver. destruct Hc as (Hu & Hpw & Uu & Up).
      destruct (write_all_step [x05; x02] _ _ _ s2 V2) as (s3 & H3 & V3). io_step H3.
      destruct (check_credentials_run u p creds _ _ _ _ s3 Hu Hpw Uu Up V3) as (s4 & H4 & V4). io_step H4.
      cbn [admitted] in *. case_bool_decide.
      * destruct (write_all_step [x01; x00] _ _ _ s4 V4) as (s5 & H5 & V5). io_step H5.
        destruct (serve_connect_run tcp_connect host port _ _ _ s5 Hh Uh Hp V5) as (s6 & H6 & V6).
        exists s6. by rewrite H6, V6, <-!app_assoc.
      * destruct (write_all_step [x01; x01] _ _ _ s4 V4) as (s5 & H5 & V5). io_step H5.
        exists s5. by rewrite V5, <-!app_assoc.
    + rewrite decide_False by set_solver.
      destruct (write_all_step [x05; xff] _ _ _ s2 V2) as (s3 & H3 & V3). io_step H3. by exists s3.
  - destruct (write_all_step [x05; x00] _ _ _ s2 V2) as (s3 & H3 & V3). io_step H3.
    destruct (serve_connect_run tcp_connect host port tail f _ s3 Hh Uh Hp V3) as (s4 & H4 & V4).
    exists s4. by rewrite H4, V4, <-!app_assoc.
Qed.

(** C29: [tunnel_socks5] and the SOCKS5 proxy of its tests, run against each
    other, for a host name of at most 255 bytes and credentials whose parts
    have at most 255 bytes, all UTF-8.  If the proxy asks for no credentials or
    for the ones the client has, it dials exactly the requested target, and
    only when that dial has succeeded does the client succeed; when the dial
    fails the proxy fails with that error, and while it is pending the proxy
    waits, and in both cases the client has got no answer to its request and
    ends as its stream does: with its end or error, or waiting.  Otherwise the
    client fails with the corresponding error and the proxy dials nothing.
    Each has written what the other read, and what follows on either stream is
    left for the tunnelled protocol. *)
Theorem socks5_peers_agree required auth host port (tcp_connect : bytes -> Poll (Res IoError T)) :
  creds_fit auth -> length host <= 255 -> from_utf8 host = true -> (0 <= port < 65536)%Z ->
  let d := tcp_connect (host_port host port) in
  exists c2p p2c, forall (c s : S) ctail ptail f g o o',
    (admitted required auth = true -> dialled d = false -> ctail = []) ->
    view c = mkView (p2c ++ ctail) f o true -> view s = mkView (c2p ++ ptail) g o' true ->
    exists c' s',
      tunnel_socks5 host port auth c
        = (if admitted required auth then
             match d with Ready (Ok _) => Ready (Ok tt) | _ => unanswered f end
           else Ready (Err (refusal_text required auth)), c') /\
      handle_socks5_conn tcp_connect required s
        = (if admitted required auth then
             match d with
             | Ready (Ok t) => Ready (Ok (Some t))
             | Ready (Err e) => Ready (Err e)
             | Pending => Pending
             end
           else Ready (Ok None), s') /\
      view c' = mkView ctail f (o ++ c2p) true /\ view s' = mkView ptail g (o' ++ p2c) true.
Proof.
  intros Hc Hh Uh Hp d. exists (client_talk required auth host port), (proxy_talk required auth (dialled d)).
  intros c s ctail ptail f g o o' Htail Vc Vs.
  assert (exists c', tunnel_socks5 host port auth c = (client_outcome required auth (dialled d) f, c') /\
    view c' = mkView ctail f (o ++ client_talk required auth host port) true) as (c' & H1 & V1).
  { destruct (admitted required auth) eqn:Ha;
      [apply client_side_admitted; auto|by apply client_side_refused]. }
  destruct (proxy_side required auth host port tcp_connect _ _ _ s Hc Hh Uh Hp Vs) as (s' & H2 & V2).
  exists c', s'. rewrite H1, H2. split_and!; [|done..].
  unfold client_outcome. subst d. by destruct (tcp_connect _) as [[]|].
Qed.

End Socks5Agreement.

(** ** The HTTP CONNECT proxy *)

(** [str::contains]. *)
Definition starts_with (pat s : bytes) : bool := bool_decide (take (length pat) s = pat).

Fixpoint contains (pat s : bytes) : bool :=
  starts_with pat s || match s with [] => false | _ :: s' => contains pat s' end.

(** The length in bytes of the white-space character (Unicode [White_Space]) at
    the front of [s], or 0. *)
Definition ws_len (s : bytes) : nat :=
  match s with
  | a :: s1 =>
      if in_range 9 13 a || bool_decide (a = x20) then 1
      else
        match s1 with
        | b :: s2 =>
            if bool_decide (a = xc2) && (bool_decide (b = x85) || bool_decide (b = xa0)) then 2
            else
              match s2 with
              | c :: _ =>
                  if (bool_decide (a = xe1) && bool_decide (b = x9a) && bool_decide (c = x80)) ||
                     (bool_decide (a = xe2) && bool_decide (b = x80) &&
                        (in_range 128 138 c || bool_decide (c = xa8) || bool_decide (c = xa9)
                           || bool_decide (c = xaf))) ||
                     (bool_decide (a = xe2) && bool_decide (b = x81) && bool_decide (c = x9f)) ||
                     (bool_decide (a = xe3) && bool_decide (b = x80) && bool_decide (c = x80))
                  then 3 else 0
              | [] => 0
              end
        | [] => 0
        end
  | [] => 0
  end.

(** [str::split_whitespace]: [word] is the word being read, reversed; [skip]
    bytes still belong to a white-space character. *)
Fixpoint words_from (word : bytes) (skip : nat) (s : bytes) : list bytes :=
  match s with
  | [] => match word with [] => [] | _ => [rev word] end
  | x :: s' =>
      match skip with
      | Datatypes.S k => words_from word k s'
      | 0 =>
          match ws_len s with
          | 0 => words_from (x :: word) 0 s'
          | Datatypes.S k =>
              match word with
              | [] => words_from [] k s'
              | _ => rev word :: words_from [] k s'
              end
          end
      end
  end.

Definition split_whitespace (s : bytes) : list bytes := words_from [] 0 s.

Section MockHttp.
Context {S T : Type} {IA : AsyncIo S}.

(** The read loop: at most 8193 iterations. *)
Fixpoint read_request (fuel : nat) (req_buf : bytes) : IO S IoError bytes :=
  match fuel with
  | 0 => fun io => (Pending, io)
  | Datatypes.S fuel =>
      let* byte := read_exact 1 in
      let req_buf := req_buf ++ [at_ byte 0] in
      if ends_with head_end req_buf then io_ret req_buf
      else if (8192 <? Z.of_nat (length req_buf))%Z then io_fail (io_other (str "request too large"))
      else read_request fuel req_buf
  end.

Definition auth_header (req_user req_pass : bytes) : bytes :=
  str "Proxy-Authorization: Basic " ++ base64_encode (req_user ++ x3a :: req_pass).

(** [handle_http_connect_conn]: [Some] target where it relays. *)
Definition handle_http_connect_conn (tcp_connect : bytes -> Poll (Res IoError T))
    (required_auth : option (bytes * bytes)) (respond_with : bytes) : IO S IoError (option T) :=
  let* req_buf := read_request (Z.to_nat 8193) [] in
  let req_str := if from_utf8 req_buf then req_buf else [] in
  let authorised :=
    match required_auth with
    | Some (req_user, req_pass) => contains (auth_header req_user req_pass) req_str
    | None => true
    end in
  if authorised then
    let first_line := default [] (lines_next req_str) in
    let target := default [] (split_whitespace first_line !! 1) in
    let* _ := write_all (respond_with ++ CRLF ++ CRLF) in
    if contains (str "200") respond_with then
      let* target_conn := io_await (tcp_connect target) in io_ret (Some target_conn)
    else io_ret None
  else
    let* _ := write_all (str "HTTP/1.1 407 Proxy Auth Required" ++ CRLF ++ CRLF) in io_ret None.

Context {AV : AsyncView S} {AL : AsyncIoLaws S}.

Lemma read_request_run fuel buf post rest f o w (io : S) :
  is_head (buf ++ post) -> post <> [] -> (Z.of_nat (length (buf ++ post)) <= 8192)%Z ->
  length post <= fuel -> view io = mkView (post ++ rest) f o w ->
  exists io', read_request fuel buf io = (Ready (Ok (buf ++ post)), io') /\
    view io' = mkView rest f o w.
Proof.
  revert buf post io. induction fuel as [|fuel IH]; intros buf post io [Hend Hfirst] Hne Hmax Hf V.
  { destruct post; simpl in Hf; [done|lia]. }
  destruct post as [|x post]; [done|]. clear Hne.
  destruct (read_exact_step 1 [x] (post ++ rest) f o w io V eq_refl) as (io1 & H1 & V1).
  cbn [read_request]. io_step H1. cbn [at_ nth].
  rewrite (cons_middle x buf post), (app_assoc buf) in * by idtac.
  destruct post as [|y post].
  - rewrite app_nil_r in *. rewrite Hend. by exists io1.
  - rewrite (Hfirst (buf ++ [x]) (y :: post)) by done. rewrite length_app in Hmax.
    rewrite (proj2 (Z.ltb_ge _ _)) by lia.
    apply IH; [done|done|by rewrite length_app|simpl in *; lia|done].
Qed.

End MockHttp.

(** ** The text of the request *)

Abbreviation all P s := (Forall (fun b : byte => P b = true) s).

(** ASCII without line ends; ASCII that is neither white space nor control. *)
Definition tame (b : byte) : bool :=
  in_range 0 127 b && negb (bool_decide (b = x0d)) && negb (bool_decide (b = x0a)).
Definition visible (b : byte) : bool := in_range 33 126 b.

Lemma all_forallb (P : byte -> bool) s : forallb P s = true -> all P s.
Proof. intros H%Is_true_true%forallb_True. eapply Forall_impl; [exact H|]. by intros b Hb%Is_true_true. Qed.

Lemma visible_tame s : all visible s -> all tame s.
Proof. intros H. eapply Forall_impl; [exact H|]. by intros []; vm_compute. Qed.

Lemma digits_visible s : Forall is_digit s -> all visible s.
Proof. intros H. eapply Forall_impl; [exact H|]. by intros []; vm_compute. Qed.

Lemma tame_not_in s : all tame s -> x0d ∉ s /\ x0a ∉ s.
Proof. intros H. rewrite Forall_forall in H. split; intros Hin; specialize (H _ Hin); by vm_compute in H. Qed.

Lemma ascii_utf8 s : all (in_range 0 127) s -> from_utf8 s = true.
Proof. induction 1 as [|b s Hb _ IH]; [done|]. cbn [from_utf8]. by rewrite Hb. Qed.

Lemma tame_ascii s : all tame s -> all (in_range 0 127) s.
Proof. intros H. eapply Forall_impl; [exact H|]. by intros []; vm_compute. Qed.

(** A property of all Base64 characters; [x00] is [char_at]'s default. *)
Lemma base64_all (P : byte -> bool) s :
  forallb P (x00 :: x3d :: CHARS) = true -> all P (base64_encode s).
Proof.
  intros HP%all_forallb. rewrite !Forall_cons in HP. destruct HP as (H0 & Hpad & HC).
  assert (forall i, P (char_at i) = true) as Hat.
  { intros i. unfold char_at. destruct (nth_in_or_default (Z.to_nat i) CHARS x00) as [H| ->]; [|done].
    rewrite Forall_forall in HC. by apply HC, list_elem_of_In. }
  unfold base64_encode. apply Forall_concat, Forall_map, Forall_forall. intros chunk _.
  unfold encode_chunk. cbv zeta. repeat (apply Forall_cons; split); try done; by case_decide.
Qed.

Lemma base64_tame s : all tame (base64_encode s).
Proof. by apply base64_all. Qed.

(** A text whose only blank line is at its end. *)
Definition one_blank (t : bytes) : Prop :=
  forall i, t !! i = Some x0d -> t !! (i + 2) = Some x0d -> i + 4 = length t.

Lemma one_blank_last l : x0d ∉ l -> one_blank (l ++ CRLF ++ CRLF).
Proof.
  intros Hl i H1 H2. rewrite !length_app. simpl.
  destruct (decide (i < length l)).
  { rewrite lookup_app_l in H1 by lia. by apply list_elem_of_lookup_2 in H1. }
  rewrite lookup_app_r in H1, H2 by lia.
  destruct (i - length l) as [|[|[|k]]] eqn:E; [lia|done| |].
  - replace (i + 2 - length l) with 4 in H2 by lia. done.
  - destruct k as [|k]; done.
Qed.

Lemma one_blank_line l t :
  x0d ∉ l -> t !! 0 <> Some x0d -> one_blank t -> one_blank (l ++ CRLF ++ t).
Proof.
  intros Hl Ht Hok i H1 H2. rewrite !length_app. simpl.
  destruct (decide (i < length l)).
  { rewrite lookup_app_l in H1 by lia. by apply list_elem_of_lookup_2 in H1. }
  rewrite lookup_app_r in H1, H2 by lia.
  replace (i + 2 - length l) with (i - length l + 2) in H2 by lia.
  destruct (i - length l) as [|[|k]] eqn:E.
  - by rewrite (lookup_app_r CRLF) in H2 by (simpl; lia).
  - done.
  - rewrite (lookup_app_r CRLF) in H1, H2 by (simpl; lia). simpl in H1, H2.
    rewrite Nat.sub_0_r in H1. replace (k + 2 - 0) with (k + 2) in H2 by lia.
    specialize (Hok k H1 H2). lia.
Qed.

Lemma one_blank_head t : one_blank (t ++ head_end) -> is_head (t ++ head_end).
Proof.
  intros Hok. split.
  - unfold ends_with. apply bool_decide_eq_true. rewrite length_app. split; [lia|].
    replace (length t + length head_end - length head_end) with (length t) by lia.
    apply drop_app_length.
  - intros pre post E Hne. apply bool_decide_eq_false. intros [Hl Hd].
    rewrite <-(take_drop (length pre - length head_end) pre), Hd in E.
    set (q := take _ pre) in E. rewrite <-app_assoc in E.
    specialize (Hok (length q)). rewrite E in Hok.
    rewrite lookup_app_r, Nat.sub_diag in Hok by lia. specialize (Hok eq_refl).
    rewrite lookup_app_r in Hok by lia.
    replace (length q + 2 - length q) with 2 in Hok by lia.
    specialize (Hok eq_refl). rewrite !length_app in Hok. simpl in Hok.
    destruct post; [done|]. simpl in Hok. lia.
Qed.

(** The lines of the request. *)
Definition target_line (host : bytes) (port : Z) : bytes :=
  str "CONNECT " ++ host_port host port ++ str " HTTP/1.1".
Definition header_lines (host : bytes) (port : Z) (auth : option ProxyAuth) : bytes :=
  str "Host: " ++ host_port host port ++
  match auth with
  | Some creds => CRLF ++ auth_header (user creds) (pass creds)
  | None => []
  end.

Lemma http_request_lines host port auth :
  http_request host port auth = target_line host port ++ CRLF ++ header_lines host port auth ++ head_end.
Proof.
  unfold http_request, target_line, header_lines, auth_header, head_end. rewrite <-!app_assoc.
  by destruct auth; rewrite <-?app_assoc.
Qed.

Lemma host_port_visible host port :
  all visible host -> (0 <= port)%Z -> all visible (host_port host port).
Proof.
  intros Hh Hp. unfold host_port. apply Forall_app. split; [done|]. apply Forall_cons. split; [done|].
  by apply digits_visible, display_uint_digits.
Qed.

Lemma target_line_tame host port :
  all visible host -> (0 <= port)%Z -> all tame (target_line host port).
Proof.
  intros Hh Hp. unfold target_line. apply Forall_app. split; [by apply all_forallb|].
  apply Forall_app. split; [by apply visible_tame, host_port_visible|by apply all_forallb].
Qed.

Lemma http_request_head host port auth :
  all visible host -> (0 <= port)%Z -> is_head (http_request host port auth).
Proof.
  intros Hh Hp. rewrite http_request_lines, !app_assoc. apply one_blank_head. rewrite <-!app_assoc.
  pose proof (tame_not_in _ (target_line_tame host port Hh Hp)) as [Ht _].
  apply one_blank_line; [done|done|]. unfold header_lines, head_end. rewrite <-!app_assoc.
  assert (x0d ∉ str "Host: " ++ host_port host port) as Hhost.
  { intros [H|H]%elem_of_app; [vm_compute in H; set_solver|].
    by apply (tame_not_in _ (visible_tame _ (host_port_visible host port Hh Hp))) in H. }
  destruct auth as [creds|]; rewrite <-?(app_assoc CRLF), (app_assoc (str "Host: "));
    [|by apply one_blank_last].
  apply one_blank_line; [done|done|]. apply one_blank_last.
  unfold auth_header. intros [H|H]%elem_of_app; [vm_compute in H; set_solver|].
  by apply (tame_not_in _ (base64_tame _)) in H.
Qed.

(** ** What the proxy reads off the request *)

Lemma contains_spec pat s : contains pat s = true <-> exists a b, s = a ++ pat ++ b.
Proof.
  unfold contains. split.
  - induction s as [|x s IH]; cbn -[starts_with]; intros [H|H]%orb_prop; try done.
    + apply bool_decide_eq_true in H. exists [], []. by rewrite take_nil in H; rewrite <-H.
    + apply bool_decide_eq_true in H. exists [], (drop (length pat) (x :: s)).
      by rewrite <-H at 1; rewrite app_nil_l, take_drop.
    + destruct (IH H) as (a & b & ->). by exists (x :: a), b.
  - intros (a & b & ->). induction a as [|x a IH].
    + assert (starts_with pat (pat ++ b) = true) as H
        by (apply bool_decide_eq_true, take_app_length).
      by destruct (pat ++ b); cbn -[starts_with] in *; rewrite H.
    + cbn -[starts_with]. by rewrite IH, orb_true_r.
Qed.

Lemma contains_bool pat s c : (contains pat s = true <-> c = true) -> contains pat s = c.
Proof. destruct (contains pat s), c; intuition congruence. Qed.

(** A separator that the pattern does not contain cuts the text. *)
Lemma contains_cut pat l x t :
  x ∉ pat -> contains pat (l ++ x :: t) = contains pat l || contains pat t.
Proof.
  intros Hx. apply contains_bool. rewrite orb_true_iff, !contains_spec. split.
  - intros (a & b & E). apply app_eq_inv in E as [(k & -> & E)|(k & -> & E)].
    + apply app_eq_inv in E as [(k' & -> & E)|(k' & -> & _)]; [|left; by exists a, k'].
      destruct k' as [|y k']; [left; exists a, []; by rewrite !app_nil_r|].
      injection E. intros. subst. set_solver.
    + destruct k as [|y k]; [|injection E; intros; subst; right; by exists k, b].
      destruct pat as [|p pat]; [by left; exists l, []; rewrite !app_nil_r|].
      injection E. intros. subst. set_solver.
  - intros [(a & b & ->)|(a & b & ->)].
    + exists a, (b ++ x :: t). by rewrite <-!app_assoc.
    + exists (l ++ x :: a), b. by rewrite <-!app_assoc.
Qed.

Definition spaces (s : bytes) : nat := length (filter (fun b => b = x20) s).

Lemma spaces_app s t : spaces (s ++ t) = spaces s + spaces t.
Proof. unfold spaces. by rewrite filter_app, length_app. Qed.

Lemma spaces_cons s : spaces (x20 :: s) = Datatypes.S (spaces s).
Proof. unfold spaces. by rewrite filter_cons_True. Qed.

Lemma spaces_none s : x20 ∉ s <-> spaces s = 0.
Proof.
  unfold spaces. split.
  - intros H. rewrite length_zero_iff_nil. apply elem_of_nil_inv. intros b. rewrite list_elem_of_filter.
    by intros [-> ?].
  - intros H%length_zero_iff_nil Hin. assert (x20 ∈ filter (fun b => b = x20) s) as Hf
      by (by apply list_elem_of_filter). rewrite H in Hf. set_solver.
Qed.

Lemma visible_spaces s : all visible s -> spaces s = 0.
Proof.
  intros H. apply spaces_none. intros Hin. rewrite Forall_forall in H.
  specialize (H _ Hin). by vm_compute in H.
Qed.

Lemma base64_spaces s : spaces (base64_encode s) = 0.
Proof.
  apply spaces_none. intros Hin.
  pose proof (base64_all (fun b => negb (bool_decide (b = x20))) s eq_refl) as H.
  rewrite Forall_forall in H. specialize (H _ Hin). by vm_compute in H.
Qed.

Definition basic_creds (u p : bytes) : bytes := base64_encode (u ++ x3a :: p).

Lemma auth_header_words u p :
  auth_header u p = str "Proxy-Authorization:" ++ x20 :: str "Basic" ++ x20 :: basic_creds u p.
Proof. done. Qed.

Lemma auth_header_spaces u p : spaces (auth_header u p) = 2.
Proof. unfold auth_header. rewrite spaces_app, base64_spaces. done. Qed.

Lemma not_in_header u p b : tame b = false -> b ∉ auth_header u p.
Proof.
  intros Hb. unfold auth_header. intros [H|H]%elem_of_app.
  - assert (all tame (str "Proxy-Authorization: Basic ")) as Ht by (by apply all_forallb).
    rewrite Forall_forall in Ht. rewrite Ht in Hb; done.
  - pose proof (base64_tame (u ++ x3a :: p)) as Ht. rewrite Forall_forall in Ht. rewrite Ht in Hb; done.
Qed.

(** Where the header occurs in a text of three words. *)
Lemma header_occurs u p l1 m l2 :
  spaces l1 = 0 -> spaces m = 0 -> spaces l2 = 0 ->
  contains (auth_header u p) (l1 ++ x20 :: m ++ x20 :: l2) = true ->
  exists a b, l1 = a ++ str "Proxy-Authorization:" /\ l2 = basic_creds u p ++ b.
Proof.
  intros H1 Hm H2 (a & b & E)%contains_spec.
  assert (spaces a = 0) as Ha.
  { apply (f_equal spaces) in E.
    rewrite !spaces_app, !spaces_cons, !spaces_app, !spaces_cons, auth_header_spaces in E. lia. }
  rewrite auth_header_words, <-(app_assoc (str "Proxy-Authorization:")), (app_assoc a) in E.
  apply app_sep_inj in E as [E1 E2]; [|by apply spaces_none|].
  2: { apply spaces_none. rewrite spaces_app, Ha. done. }
  change (m ++ x20 :: l2 = str "Basic" ++ x20 :: (basic_creds u p ++ b)) in E2.
  apply app_sep_inj in E2 as [_ E2]; [|by apply spaces_none|by apply spaces_none]. by exists a, b.
Qed.

Lemma short_line_no_header u p s : spaces s < 2 -> contains (auth_header u p) s = false.
Proof.
  intros Hs. apply contains_bool. split; [|done]. intros (a & b & ->)%contains_spec.
  rewrite !spaces_app, auth_header_spaces in Hs. lia.
Qed.

(** The credentials the proxy accepts: it searches the request for the header,
    so that the required ones need only be a prefix, in Base64, of those sent. *)
Definition http_admitted (required : option (bytes * bytes)) (auth : option ProxyAuth) : bool :=
  match required, auth with
  | None, _ => true
  | Some (u, p), Some creds => starts_with (basic_creds u p) (basic_creds (user creds) (pass creds))
  | Some _, None => false
  end.

Lemma http_admitted_same creds : http_admitted (Some (user creds, pass creds)) (Some creds) = true.
Proof. apply bool_decide_eq_true. by rewrite firstn_all. Qed.

Lemma header_in_header u p u' p' :
  contains (auth_header u p) (auth_header u' p') = starts_with (basic_creds u p) (basic_creds u' p').
Proof.
  apply contains_bool. unfold starts_with. rewrite bool_decide_eq_true. split.
  - intros H. rewrite (auth_header_words u') in H.
    apply header_occurs in H as (a & b & _ & ->); [|done|done|apply base64_spaces].
    apply take_app_length.
  - intros H. apply contains_spec. exists [], (drop (length (basic_creds u p)) (basic_creds u' p')).
    unfold auth_header. fold (basic_creds u p) (basic_creds u' p').
    rewrite app_nil_l, <-app_assoc. f_equal. rewrite <-H at 1. by rewrite take_drop.
Qed.

Lemma request_header_occurs u p host port auth :
  all visible host -> (0 <= port)%Z ->
  contains (auth_header u p) (http_request host port auth) = http_admitted (Some (u, p)) auth.
Proof.
  intros Hh Hp. pose proof (not_in_header u p x0d eq_refl) as Hcr.
  pose proof (not_in_header u p x0a eq_refl) as Hlf.
  pose proof (visible_spaces _ (host_port_visible host port Hh Hp)) as Hsp.
  assert (forall l t, contains (auth_header u p) (l ++ CRLF ++ t)
            = contains (auth_header u p) l || contains (auth_header u p) t) as Hline.
  { intros l t. change (CRLF ++ t) with (x0d :: [] ++ x0a :: t). rewrite !contains_cut by done.
    by rewrite (short_line_no_header u p []) by (vm_compute; lia). }
  rewrite http_request_lines, Hline. unfold header_lines, head_end. rewrite <-!app_assoc.
  assert (contains (auth_header u p) (target_line host port) = false) as ->.
  { apply contains_bool. split; [|done]. unfold target_line.
    change (str "CONNECT " ++ ?x ++ str " HTTP/1.1") with (str "CONNECT" ++ x20 :: x ++ x20 :: str "HTTP/1.1").
    intros (a & b & E & _)%header_occurs; [|done|done|done].
    apply (f_equal length) in E. rewrite length_app in E. simpl in E. lia. }
  assert (contains (auth_header u p) (str "Host: " ++ host_port host port) = false) as Hhost.
  { apply short_line_no_header. rewrite spaces_app, Hsp. vm_compute. lia. }
  destruct auth as [creds|];
    rewrite <-?(app_assoc CRLF), ?app_nil_l, (app_assoc (str "Host: ")), !Hline, Hhost.
  - rewrite header_in_header. cbn [http_admitted orb].
    rewrite (short_line_no_header u p CRLF) by (vm_compute; lia). apply orb_false_r.
  - by rewrite (short_line_no_header u p CRLF) by (vm_compute; lia).
Qed.

Lemma visible_not_ws x s : visible x = true -> ws_len (x :: s) = 0.
Proof. by destruct x; intros Hx; vm_compute in Hx; destruct s as [|y [|z s]]. Qed.

Lemma words_from_word w v s :
  all visible v -> words_from w 0 (v ++ s) = words_from (rev v ++ w) 0 s.
Proof.
  intros Hv. revert w. induction Hv as [|x v Hx _ IH]; intros w; [done|].
  cbn [app words_from]. rewrite visible_not_ws by done.
  rewrite IH. cbn [rev]. by rewrite <-app_assoc.
Qed.

Lemma words_from_space v s :
  all visible v -> v <> [] -> words_from [] 0 (v ++ x20 :: s) = v :: words_from [] 0 s.
Proof.
  intros Hv Hne. rewrite words_from_word, app_nil_r by done. cbn [words_from].
  change (ws_len (x20 :: s)) with 1. cbn iota beta.
  destruct (rev v) as [|y r] eqn:E; [|rewrite <-E; by rewrite rev_involutive].
  apply (f_equal (@rev _)) in E. by rewrite rev_involutive in E.
Qed.

Lemma target_words host port :
  all visible host -> (0 <= port)%Z -> split_whitespace (target_line host port) !! 1 = Some (host_port host port).
Proof.
  intros Hh Hp. unfold split_whitespace, target_line.
  change (str "CONNECT " ++ ?x ++ str " HTTP/1.1") with (str "CONNECT" ++ x20 :: x ++ x20 :: str "HTTP/1.1").
  rewrite words_from_space; [|by apply all_forallb|done].
  rewrite words_from_space; [done|by apply host_port_visible|].
  unfold host_port. by destruct host.
Qed.

Lemma lines_next_crlf l t : x0a ∉ l -> lines_next (l ++ CRLF ++ t) = Some l.
Proof.
  intros Hl. unfold lines_next. change (CRLF ++ t) with ([x0d] ++ x0a :: t). rewrite app_assoc.
  rewrite split_once_app by set_solver.
  assert (strip_last x0d (l ++ [x0d]) = l) as ->.
  { unfold strip_last. rewrite last_snoc, decide_True by done.
    rewrite length_app, Nat.add_sub. apply take_app_length. }
  by destruct l.
Qed.

Lemma http_request_utf8 host port auth :
  all visible host -> (0 <= port)%Z -> from_utf8 (http_request host port auth) = true.
Proof.
  intros Hh Hp. apply ascii_utf8. rewrite http_request_lines.
  pose proof (tame_ascii _ (target_line_tame host port Hh Hp)) as H1.
  pose proof (tame_ascii _ (visible_tame _ (host_port_visible host port Hh Hp))) as H2.
  unfold header_lines, auth_header.
  destruct auth as [creds|]; [pose proof (tame_ascii _ (base64_tame (user creds ++ x3a :: pass creds)))|];
    repeat first [done|by apply all_forallb|apply Forall_app; split].
Qed.

Section HttpAgreement.
Context {WA : WireApi} {CA : CoreApi} {SA : SerdeApi}.
Context {S T : Type} {IA : AsyncIo S} {AV : AsyncView S} {AL : AsyncIoLaws S}.

(** The status line the proxy answers with. *)
Definition answer_line (required : option (bytes * bytes)) (auth : option ProxyAuth)
    (respond_with : bytes) : bytes :=
  if http_admitted required auth then respond_with else str "HTTP/1.1 407 Proxy Auth Required".

(** What the client makes of a response head. *)
Definition head_verdict (head : bytes) : Res ObfsError unit :=
  match parse_status head with
  | Ok c =>
      if (c =? 200)%Z then Ok tt
      else Err (io_err (str "HTTP CONNECT: proxy returned status " ++ display_uint c))
  | Err e => Err e
  end.

Lemma tunnel_http_verdict host port auth head rest f o (io : S) :
  is_head head -> (Z.of_nat (length head) <= MAX_RESPONSE)%Z ->
  view io = mkView (head ++ rest) f o true ->
  exists io', tunnel_http_connect host port auth io = (Ready (head_verdict head), io') /\
    view io' = mkView rest f (o ++ http_request host port auth) true.
Proof.
  intros Hh Hmax V. unfold tunnel_http_connect.
  destruct (write_all_step (http_request host port auth) _ _ _ io V) as (io1 & H1 & V1). io_step H1.
  destruct (read_head_run (Z.to_nat (MAX_RESPONSE + 1)) [] head rest f (o ++ http_request host port auth) true io1 Hh)
    as (io2 & H2 & V2); [|done|lia|done|].
  { intros ->. by destruct Hh. }
  io_step H2. cbn [app]. exists io2. split; [|done]. unfold head_verdict, io_bind, io_of_res.
  destruct (parse_status head) as [c|e]; [|done]. by destruct (c =? 200)%Z.
Qed.

Lemma http_proxy_side required auth respond_with host port
    (tcp_connect : bytes -> Poll (Res IoError T)) tail f o (s : S) :
  all visible host -> (0 <= port)%Z -> (Z.of_nat (length (http_request host port auth)) <= 8192)%Z ->
  view s = mkView (http_request host port auth ++ tail) f o true ->
  exists s', handle_http_connect_conn tcp_connect required respond_with s
      = (if http_admitted required auth && contains (str "200") respond_with
         then served (tcp_connect (host_port host port)) else Ready (Ok None), s') /\
    view s' = mkView tail f (o ++ answer_line required auth respond_with ++ head_end) true.
Proof.
  intros Hh Hp Hmax V. unfold handle_http_connect_conn, answer_line.
  destruct (read_request_run (Z.to_nat 8193) [] _ tail f o true s
              (http_request_head host port auth Hh Hp)) as (s1 & H1 & V1); [|done|lia|done|].
  { unfold http_request. by intros E. }
  io_step H1. cbn [app]. rewrite http_request_utf8 by done.
  replace (match required with Some (u, p) => contains (auth_header u p) (http_request host port auth)
           | None => true end) with (http_admitted required auth)
    by (destruct required as [[u p]|]; [by rewrite request_header_occurs|done]).
  destruct (http_admitted required auth).
  - rewrite http_request_lines, lines_next_crlf by (by apply tame_not_in, target_line_tame).
    rewrite (target_words host port Hh Hp : split_whitespace (default [] (Some _)) !! 1 = _).
    destruct (write_all_step (respond_with ++ CRLF ++ CRLF) _ _ _ s1 V1) as (s2 & H2 & V2). io_step H2.
    exists s2. cbn [andb]. destruct (contains (str "200") respond_with); [|done].
    unfold io_bind, io_await. simpl. by destruct (tcp_connect (host_port host port)) as [[]|].
  - destruct (write_all_step (str "HTTP/1.1 407 Proxy Auth Required" ++ CRLF ++ CRLF) _ _ _ s1 V1)
      as (s2 & H2 & V2). io_step H2. by exists s2.
Qed.

(** ** The status line *)

(** A status line: version, three-digit code, reason. *)
Definition status_line (n : Z) (reason : bytes) : bytes :=
  str "HTTP/1.1" ++ x20 :: display_uint n ++ x20 :: reason.

Lemma code_contains_200 n :
  (100 <= n <= 999)%Z -> contains (str "200") (display_uint n) = (n =? 200)%Z.
Proof.
  intros Hn.
  assert (forallb (fun k => eqb (contains (str "200") (display_uint (Z.of_nat k))) (Z.of_nat k =? 200)%Z)
            (seq 100 900) = true) as H by (vm_compute; reflexivity).
  rewrite forallb_forall in H. specialize (H (Z.to_nat n)). rewrite Z2Nat.id in H by lia.
  apply eqb_prop, H, in_seq. lia.
Qed.

Lemma status_line_contains_200 n reason :
  (100 <= n <= 999)%Z -> contains (str "200") reason = false ->
  contains (str "200") (status_line n reason) = (n =? 200)%Z.
Proof.
  intros Hn Hr. unfold status_line. rewrite !contains_cut by (vm_compute; set_solver).
  by rewrite code_contains_200, Hr, orb_false_r.
Qed.

Lemma status_line_tame n reason : (0 <= n)%Z -> all tame reason -> all tame (status_line n reason).
Proof.
  intros Hn Hr. unfold status_line. apply Forall_app. split; [by apply all_forallb|].
  apply Forall_cons. split; [done|]. apply Forall_app. split; [|by constructor].
  by apply visible_tame, digits_visible, display_uint_digits.
Qed.

Lemma tame_line_head line : all tame line -> is_head (line ++ head_end).
Proof. intros [Hcr _]%tame_not_in. by apply one_blank_head, one_blank_last. Qed.

(** Its code is the status of the head it begins. *)
Lemma status_line_status n reason :
  (100 <= n <= 999)%Z -> all tame reason -> head_status (status_line n reason ++ head_end) n.
Proof.
  intros Hn Hr. pose proof (status_line_tame n reason ltac:(lia) Hr) as Ht.
  destruct (display_uint_canonical n ltac:(lia)) as (Hne & Hd & Hval & _).
  split_and!; [|lia|].
  - apply from_utf8_spec, ascii_utf8, Forall_app. split; [by apply tame_ascii|by apply all_forallb].
  - exists (status_line n reason), (display_uint n). split_and!.
    + split; [by apply tame_not_in|]. exists [x0d; x0a]. by left.
    + exists (str "HTTP/1.1"), (x20 :: reason). split_and!; [done| | |right; by exists reason].
      * vm_compute. set_solver.
      * by eapply digits_not_in.
    + exists [], (display_uint n). by split_and!; [|left|..].
Qed.

Lemma status_line_verdict n reason :
  (100 <= n <= 999)%Z -> all tame reason ->
  head_verdict (status_line n reason ++ head_end) =
    if (n =? 200)%Z then Ok tt
    else Err (io_err (str "HTTP CONNECT: proxy returned status " ++ display_uint n)).
Proof.
  intros Hn Hr. pose proof (status_line_tame n reason ltac:(lia) Hr) as Ht%tame_line_head.
  unfold head_verdict. by rewrite (proj2 (parse_status_spec _ n Ht) (status_line_status n reason Hn Hr)).
Qed.

Lemma http_admitted_spec required auth :
  http_admitted required auth = true <->
  match required, auth with
  | None, _ => True
  | Some (u, p), Some creds => exists more,
      base64_encode (user creds ++ str ":" ++ pass creds) = base64_encode (u ++ str ":" ++ p) ++ more
  | Some _, None => False
  end.
Proof.
  unfold http_admitted, starts_with, basic_creds.
  destruct required as [[u p]|], auth as [creds|]; try done. rewrite bool_decide_eq_true. split.
  - intros H. eexists. pose proof (take_drop (length (base64_encode (u ++ x3a :: p)))
      (base64_encode (user creds ++ x3a :: pass creds))) as E.
    rewrite H in E. symmetry. exact E.
  - intros [more E]. change (str ":" ++ ?x) with (x3a :: x) in E. rewrite E. apply take_app_length.
Qed.

(** C30: [tunnel_http_connect] and the HTTP proxy of its tests, run against
    each other, for a host of visible ASCII characters, a request and an answer
    of at most 8192 bytes, and a configured status line made of the version, a
    code from 100 to 999 and an ASCII reason on one line that does not contain
    "200" itself.  Each
    reads exactly what the other wrote.  The proxy lets the client through when
    it requires no credentials or the Base64 text of the required ones begins
    that of the client's, as it does when they are the same.  If it does and
    the code is 200, the client succeeds and the proxy dials the requested
    target, with that dial's outcome; the answer is sent before the dial, so
    the client's result does not depend on it.  In every other case the proxy
    dials nothing and the client reports the status it was sent: the configured
    one, or 407 when the credentials are missing. *)
Theorem http_peers_agree required auth n reason host port
    (tcp_connect : bytes -> Poll (Res IoError T)) :
  all visible host -> (0 <= port < 65536)%Z ->
  (Z.of_nat (length (http_request host port auth)) <= 8192)%Z ->
  (100 <= n <= 999)%Z -> all tame reason -> contains (str "200") reason = false ->
  (Z.of_nat (length (status_line n reason ++ head_end)) <= 8192)%Z ->
  let status code := io_err (str "HTTP CONNECT: proxy returned status " ++ display_uint code) in
  (http_admitted required auth = true <->
   match required, auth with
   | None, _ => True
   | Some (u, p), Some creds => exists more,
       base64_encode (user creds ++ str ":" ++ pass creds) = base64_encode (u ++ str ":" ++ p) ++ more
   | Some _, None => False
   end) /\
  exists c2p p2c, forall (c s : S) ctail ptail f g o o',
    view c = mkView (p2c ++ ctail) f o true -> view s = mkView (c2p ++ ptail) g o' true ->
    exists c' s',
      tunnel_http_connect host port auth c
        = (Ready (if http_admitted required auth then
                    if (n =? 200)%Z then Ok tt else Err (status n)
                  else Err (status 407%Z)), c') /\
      handle_http_connect_conn tcp_connect required (status_line n reason) s
        = (if http_admitted required auth && (n =? 200)%Z then
             match tcp_connect (host_port host port) with
             | Ready (Ok t) => Ready (Ok (Some t))
             | Ready (Err e) => Ready (Err e)
             | Pending => Pending
             end
           else Ready (Ok None), s') /\
      view c' = mkView ctail f (o ++ c2p) true /\ view s' = mkView ptail g (o' ++ p2c) true.
Proof.
  intros Hh Hp Hreq Hn Hr H200 Hresp status. split; [apply http_admitted_spec|].
  exists (http_request host port auth), (answer_line required auth (status_line n reason) ++ head_end).
  intros c s ctail ptail f g o o' Vc Vs.
  pose proof (status_line_tame n reason ltac:(lia) Hr) as Ht.
  edestruct (tunnel_http_verdict host port auth) as (c' & Hc & V1); [| |exact Vc|].
  { apply tame_line_head. unfold answer_line. destruct (http_admitted _ _); [done|]. by apply all_forallb. }
  { unfold answer_line. by destruct (http_admitted _ _). }
  destruct (http_proxy_side required auth (status_line n reason) host port tcp_connect ptail g o' s)
    as (s' & Hs & V2); [done|lia|done|done|].
  exists c', s'. rewrite status_line_contains_200 in Hs by done. split_and!; [|done..].
  rewrite Hc. unfold answer_line. destruct (http_admitted required auth); [|done].
  by rewrite status_line_verdict.
Qed.

End HttpAgreement.

(** ** Concrete runs *)

Module ProxyPeerRuns.
Import Ref.

Definition alice : ProxyAuth := mkProxyAuth (str "alice") (str "s3cr3t").
Definition bob : ProxyAuth := mkProxyAuth (str "bob") (str "passw0rd").

(** The network of the runs: every target is dialled, to a stream named by its
    address. *)
Definition dial_all (target : bytes) : Poll (Res IoError bytes) := Ready (Ok target).

Definition ok_line : bytes := str "HTTP/1.1 200 Connection Established".

(** The header search accepts credentials that extend the required ones. *)
Example http_prefix_admitted :
  http_admitted (Some (str "bob", str "pa")) (Some bob) = true.
Proof. reflexivity. Qed.

(** One target answers, one refuses. *)
Definition dial_some (target : bytes) : Poll (Res IoError bytes) :=
  if decide (target = str "example.org:443") then Ready (Ok target)
  else Ready (Err (io_other (str "refused"))).

Lemma socks5_peers_agree_witness :
  let d := dial_some (host_port (str "example.com") 443) in
  exists c2p p2c, forall (c s : Script) ctail ptail f g o o',
    (admitted (Some (str "alice", str "s3cr3t")) (Some alice) = true -> dialled d = false -> ctail = []) ->
    view c = mkView (p2c ++ ctail) f o true -> view s = mkView (c2p ++ ptail) g o' true ->
    exists c' s',
      tunnel_socks5 (str "example.com") 443 (Some alice) c
        = (if admitted (Some (str "alice", str "s3cr3t")) (Some alice) then
             match d with Ready (Ok _) => Ready (Ok tt) | _ => unanswered f end
           else Ready (Err (refusal_text (Some (str "alice", str "s3cr3t")) (Some alice))), c') /\
      handle_socks5_conn dial_some (Some (str "alice", str "s3cr3t")) s
        = (if admitted (Some (str "alice", str "s3cr3t")) (Some alice) then
             match d with
             | Ready (Ok t) => Ready (Ok (Some t))
             | Ready (Err e) => Ready (Err e)
             | Pending => Pending
             end
           else Ready (Ok None), s') /\
      view c' = mkView ctail f (o ++ c2p) true /\ view s' = mkView ptail g (o' ++ p2c) true.
Proof.
  refine (socks5_peers_agree (Some (str "alice", str "s3cr3t")) (Some alice) (str "example.com") 443
            dial_some _ _ _ _).
  - split_and!; [simpl; lia|simpl; lia|reflexivity|reflexivity].
  - simpl. lia.
  - reflexivity.
  - lia.
Defined.

Lemma http_peers_agree_witness :
  let status code := io_err (str "HTTP CONNECT: proxy returned status " ++ display_uint code) in
  (http_admitted (Some (str "bob", str "passw0rd")) (Some bob) = true <->
   exists more,
     base64_encode (user bob ++ str ":" ++ pass bob)
       = base64_encode (str "bob" ++ str ":" ++ str "passw0rd") ++ more) /\
  exists c2p p2c, forall (c s : Script) ctail ptail f g o o',
    view c = mkView (p2c ++ ctail) f o true -> view s = mkView (c2p ++ ptail) g o' true ->
    exists c' s',
      tunnel_http_connect (str "example.org") 443 (Some bob) c
        = (Ready (if http_admitted (Some (str "bob", str "passw0rd")) (Some bob) then
                    if (503 =? 200)%Z then Ok tt else Err (status 503%Z)
                  else Err (status 407%Z)), c') /\
      handle_http_connect_conn dial_all (Some (str "bob", str "passw0rd"))
        (status_line 503 (str "Service Unavailable")) s
        = (if http_admitted (Some (str "bob", str "passw0rd")) (Some bob) && (503 =? 200)%Z then
             match dial_all (host_port (str "example.org") 443) with
             | Ready (Ok t) => Ready (Ok (Some t))
             | Ready (Err e) => Ready (Err e)
             | Pending => Pending
             end
           else Ready (Ok None), s') /\
      view c' = mkView ctail f (o ++ c2p) true /\ view s' = mkView ptail g (o' ++ p2c) true.
Proof.
  refine (http_peers_agree (Some (str "bob", str "passw0rd")) (Some bob) 503 (str "Service Unavailable")
            (str "example.org") 443 dial_all _ _ _ _ _ _ _).
  - by apply all_forallb.
  - lia.
  - vm_compute. done.
  - lia.
  - by apply all_forallb.
  - reflexivity.
  - vm_compute. done.
Defined.

(** The status line of the tests. *)
Example ok_line_is_status_line : ok_line = status_line 200 (str "Connection Established").
Proof. reflexivity. Qed.

End ProxyPeerRuns.
