(* ===== verification/UdpWire.v ===== *)
(** * Datagram types, record keys and load gates

    [src/udp/wire_dgram.rs], [src/udp/keys.rs] and [src/udp/cookie_gate.rs]. *)

From S2P Require Import Prelude RustStd Externals.

(** ** Inner datagram framing *)

(** [DgramType]. *)
Inductive DgramType : Type := Hs1 | Hs2 | Hs3 | Cookie | Data.

#[global] Instance DgramType_eq_dec : EqDecision DgramType.
Proof. solve_decision. Defined.

(** [DgramType::as_byte]. *)
Definition as_byte (ty : DgramType) : byte :=
  match ty with Hs1 => x01 | Hs2 => x02 | Hs3 => x03 | Cookie => x04 | Data => x05 end.

(** [DgramType::from_byte]. *)
Definition from_byte (b : byte) : option DgramType :=
  match b with
  | x01 => Some Hs1
  | x02 => Some Hs2
  | x03 => Some Hs3
  | x04 => Some Cookie
  | x05 => Some Data
  | _ => None
  end.

(** [encode_inner]. *)
Definition encode_inner (ty : DgramType) (body : bytes) : bytes := as_byte ty :: body.

(** [decode_inner]. *)
Definition decode_inner (data : bytes) : option (DgramType * bytes) :=
  match data with
  | [] => None
  | b :: body =>
      match from_byte b with
      | Some ty => Some (ty, body)
      | None => None
      end
  end.

Lemma from_as_byte ty : from_byte (as_byte ty) = Some ty.
Proof. by destruct ty. Qed.

Lemma as_from_byte b ty : from_byte b = Some ty -> as_byte ty = b.
Proof. destruct b; simpl; intros; simplify_eq; reflexivity. Qed.

Lemma decode_encode_inner ty body : decode_inner (encode_inner ty body) = Some (ty, body).
Proof. simpl. by rewrite from_as_byte. Qed.

(** [decode_inner] accepts exactly the images of
    [encode_inner], and inverts it. *)
Lemma inner_datagram_bijective data ty body :
  decode_inner data = Some (ty, body) <-> data = encode_inner ty body.
Proof.
  split; [|by intros ->; apply decode_encode_inner].
  destruct data as [|b data]; [done|]. simpl.
  destruct (from_byte b) as [ty'|] eqn:E; [|done]. intros [= -> ->].
  unfold encode_inner. by rewrite (as_from_byte _ _ E).
Qed.

(** ** Record keys *)

Section Keys.
Context {WA : WireApi}.

(** [derive_key]. *)
Definition derive_key (seed label : bytes) : bytes := blake2s_mac seed label.

(** [derive_record_keys]: the client-to-server key, then the other. *)
Definition derive_record_keys (seed : bytes) : RecordKey * RecordKey :=
  let c2s := derive_key seed (str "vaiexia-udp-c2s") in
  let s2c := derive_key seed (str "vaiexia-udp-s2c") in
  (record_key_from_bytes c2s, record_key_from_bytes s2c).

End Keys.

(** ** Load gates *)

(** [LoadGate]. *)
Class LoadGate (G : Type) : Type := under_load : G -> bool.

Inductive AlwaysOpen : Type := always_open.
Inductive AlwaysUnderLoad : Type := always_under_load.

#[global] Instance always_open_gate : LoadGate AlwaysOpen := fun _ => false.
#[global] Instance always_under_load_gate : LoadGate AlwaysUnderLoad := fun _ => true.
