(* ===== verification/DataPlane.v ===== *)
(** * The UDP data channel

    [src/udp/dataplane.rs]: envelopes sealed into records, framed and shaped
    into datagrams, and back.  The record layer and its replay window belong
    to [vaiexia-wire]; [RecordLaws] states what the channel relies on. *)

From S2P Require Import Prelude RustStd Externals Envelope UdpWire Instances.

Section DataPlane.
Context {WA : WireApi} {CA : CoreApi} {SA : SerdeApi}.

(** [DataChannel]. *)
Record DataChannel : Type := mkDataChannel {
  sealer : RecordSealer;
  opener : RecordOpener;
  mimic : DatagramMimicry;
}.

(** [DataChannel::new]. *)
Definition data_channel_new (s : RecordSealer) (o : RecordOpener) (m : DatagramMimicry)
    : DataChannel := mkDataChannel s o m.

Definition with_sealer (s : RecordSealer) (ch : DataChannel) : DataChannel :=
  mkDataChannel s (opener ch) (mimic ch).

Definition with_opener (o : RecordOpener) (ch : DataChannel) : DataChannel :=
  mkDataChannel (sealer ch) o (mimic ch).

(** [DataChannel::seal_envelope]. *)
Definition seal_envelope (ch : DataChannel) (env : Envelope) (rng : Rng)
    : Res ObfsError bytes * DataChannel * Rng :=
  match to_vec env with
  | Err e => (Err (Serde e), ch, rng)
  | Ok json =>
      match seal (sealer ch) json [] with
      | (Err e, s') => (Err (Wire e), with_sealer s' ch, rng)
      | (Ok record, s') =>
          let inner := encode_inner Data record in
          let '(out, rng') := shape_out (mimic ch) inner rng in
          (Ok out, with_sealer s' ch, rng')
      end
  end.

(** [DataChannel::open_datagram]. *)
Definition open_datagram (ch : DataChannel) (datagram : bytes)
    : Res ObfsError (option Envelope) * DataChannel :=
  match shape_in (mimic ch) datagram with
  | None => (Ok None, ch)
  | Some inner =>
      match decode_inner inner with
      | None => (Ok None, ch)
      | Some (ty, record) =>
          if decide (ty <> Data) then (Ok None, ch)
          else
            match open (opener ch) record [] with
            | (Err _, o') => (Ok None, with_opener o' ch)
            | (Ok plaintext, o') =>
                match from_slice plaintext with
                | Ok env => (Ok (Some env), with_opener o' ch)
                | Err _ => (Ok None, with_opener o' ch)
                end
            end
      end
  end.

(** ** What the record layer promises *)

(** [sealer_at s k n]: the next record of [s] is number [n] under key [k];
    [sealed k n pt ct]: [ct] is record [n] under [k] with payload [pt];
    [opener_for o k]: [o] opens records of key [k]; [accepts o n]: it would take
    record [n].  A fresh opener takes every record of its key once; taking one
    may also give up records more than [window] behind it; a record that is not
    taken is an error and changes nothing. *)
Class RecordLaws (window : nat) (sealer_at : RecordSealer -> RecordKey -> nat -> Prop)
    (sealed : RecordKey -> nat -> bytes -> bytes -> Prop)
    (opener_for : RecordOpener -> RecordKey -> Prop)
    (accepts : RecordOpener -> nat -> Prop) : Prop := {
  sealer_new_at : forall k, sealer_at (sealer_new k) k 0;
  seal_number : forall s k n pt ct s',
    sealer_at s k n -> seal s pt [] = (Ok ct, s') ->
    sealed k n pt ct /\ sealer_at s' k (S n);
  opener_new_for : forall k, opener_for (opener_new k) k;
  opener_new_accepts : forall k n pt ct, sealed k n pt ct -> accepts (opener_new k) n;
  open_fresh : forall o k n pt ct,
    opener_for o k -> accepts o n -> sealed k n pt ct ->
    exists o', open o ct [] = (Ok pt, o') /\ opener_for o' k /\ ~ accepts o' n /\
      (forall m, m <> n -> n < m + window -> accepts o m -> accepts o' m) /\
      (forall m, ~ accepts o m -> ~ accepts o' m);
  open_stale : forall o k n pt ct,
    opener_for o k -> ~ accepts o n -> sealed k n pt ct ->
    exists e, open o ct [] = (Err e, o);
  accepts_or_not : forall o n, accepts o n \/ ~ accepts o n;
}.

(** ** Properties *)

Lemma open_datagram_ok (ch : DataChannel) (datagram : bytes) :
  exists o ch', open_datagram ch datagram = (Ok o, ch').
Proof. unfold open_datagram. repeat case_match; by eauto. Qed.

(** [open_datagram] returns an error on no input
    whatever: junk, handshake datagrams, replays and undecodable plaintexts all
    come back as [Ok None], so a caller that leaves its loop on an error is not
    torn down by a datagram.  A datagram that is not a data datagram leaves the
    channel untouched. *)
Lemma open_datagram_never_fails (ch : DataChannel) (datagram : bytes) :
  (exists o, (open_datagram ch datagram).1 = Ok o) /\
  ((forall record, shape_in (mimic ch) datagram <> Some (encode_inner Data record)) ->
   open_datagram ch datagram = (Ok None, ch)).
Proof.
  split.
  - destruct (open_datagram_ok ch datagram) as (o & ch' & ->). by exists o.
  - unfold open_datagram. intros Hno. destruct (shape_in (mimic ch) datagram) as [inner|]; [|done].
    destruct inner as [|b body]; [done|]. simpl.
    destruct (from_byte b) as [ty|] eqn:E; [|done].
    case_decide as Ht; [done|]. exfalso. subst ty.
    apply (Hno body). unfold encode_inner. by rewrite (as_from_byte _ _ E).
Qed.

Section Delivery.
Context {window : nat} {sealer_at : RecordSealer -> RecordKey -> nat -> Prop}
  {sealed : RecordKey -> nat -> bytes -> bytes -> Prop}
  {opener_for : RecordOpener -> RecordKey -> Prop} {accepts : RecordOpener -> nat -> Prop}
  {RL : RecordLaws window sealer_at sealed opener_for accepts} {JL : SerdeLaws}.
Context (m : DatagramMimicry) {DL : DatagramLaws m}.

(** A datagram that carries record [n] of key [k] with envelope [env]. *)
Definition carries (k : RecordKey) (n : nat) (env : Envelope) (d : bytes) : Prop :=
  exists pt ct, from_slice pt = Ok env /\ sealed k n pt ct /\
    shape_in m d = Some (encode_inner Data ct).

Lemma seal_envelope_carries ch env rng d ch' rng' k n :
  mimic ch = m -> sealer_at (sealer ch) k n ->
  seal_envelope ch env rng = (Ok d, ch', rng') ->
  carries k n env d /\ sealer_at (sealer ch') k (S n) /\ mimic ch' = m.
Proof.
  intros Hm Hs. unfold seal_envelope.
  destruct (to_vec env) as [pt|] eqn:E1; [|done].
  destruct (seal (sealer ch) pt []) as [[ct|] s'] eqn:E2; [|done].
  destruct (shape_out (mimic ch) (encode_inner Data ct) rng) as [out rng1] eqn:E3.
  intros [= <- <- <-]. destruct (seal_number _ _ _ _ _ _ Hs E2) as [Hsd Hs'].
  split_and!; [|done|done]. exists pt, ct. split_and!; [by apply serde_roundtrip|done|].
  rewrite Hm in E3. rewrite <-(shape_roundtrip (encode_inner Data ct) rng). by rewrite E3.
Qed.

(** Opening a datagram the opener still takes, and one it does not. *)
Lemma open_datagram_fresh ch k n env d :
  mimic ch = m -> opener_for (opener ch) k -> accepts (opener ch) n -> carries k n env d ->
  exists o', open_datagram ch d = (Ok (Some env), with_opener o' ch) /\
    opener_for o' k /\ ~ accepts o' n /\
    (forall j, j <> n -> n < j + window -> accepts (opener ch) j -> accepts o' j) /\
    (forall j, ~ accepts (opener ch) j -> ~ accepts o' j).
Proof.
  intros Hm Ho Ha (pt & ct & Hpt & Hs & Hd).
  destruct (open_fresh _ _ _ _ _ Ho Ha Hs) as (o' & Hop & ?).
  exists o'. split; [|done]. unfold open_datagram.
  rewrite Hm, Hd, decode_encode_inner, decide_False by auto. by rewrite Hop, Hpt.
Qed.

Lemma open_datagram_stale ch k n env d :
  mimic ch = m -> opener_for (opener ch) k -> ~ accepts (opener ch) n -> carries k n env d ->
  open_datagram ch d = (Ok None, ch).
Proof.
  intros Hm Ho Ha (pt & ct & Hpt & Hs & Hd).
  destruct (open_stale _ _ _ _ _ Ho Ha Hs) as (e & Hop).
  unfold open_datagram. rewrite Hm, Hd, decode_encode_inner, decide_False by auto.
  rewrite Hop. by destruct ch.
Qed.

(** A sender that seals a list of envelopes. *)
Fixpoint seal_all (ch : DataChannel) (envs : list Envelope) (rng : Rng)
    : option (list bytes) :=
  match envs with
  | [] => Some []
  | env :: envs' =>
      match seal_envelope ch env rng with
      | (Ok d, ch', rng') => cons d <$> seal_all ch' envs' rng'
      | _ => None
      end
  end.

(** A receiver that opens a list of datagrams in the order they arrive. *)
Fixpoint open_all (ch : DataChannel) (ds : list bytes) : list (option Envelope) :=
  match ds with
  | [] => []
  | d :: ds' =>
      match open_datagram ch d with
      | (Ok r, ch') => r :: open_all ch' ds'
      | (Err _, ch') => None :: open_all ch' ds'
      end
  end.

(** What may come out when datagram [i] arrives after the datagrams [before]:
    nothing if it was among them; its envelope if it is new and no earlier
    arrival is [window] or more ahead of it; one of the two if it is new and
    that far behind. *)
Definition arrival_result (envs : list Envelope) (before : list nat) (i : nat)
    (r : option Envelope) : Prop :=
  (i ∈ before -> r = None) /\
  (i ∉ before -> (forall j, j ∈ before -> j < i + window) -> r = envs !! i) /\
  (r = None \/ r = envs !! i).

Lemma seal_all_carries ch envs rng ds k n :
  mimic ch = m -> sealer_at (sealer ch) k n -> seal_all ch envs rng = Some ds ->
  length ds = length envs /\
  forall i env, envs !! i = Some env -> exists d, ds !! i = Some d /\ carries k (n + i) env d.
Proof.
  revert ch rng ds n. induction envs as [|e envs IH]; intros ch rng ds n Hm Hs; simpl.
  { by intros [= <-]. }
  destruct (seal_envelope ch e rng) as [[[d|] ch'] rng'] eqn:E; [|done].
  destruct (seal_envelope_carries _ _ _ _ _ _ _ _ Hm Hs E) as (Hc & Hs' & Hm').
  destruct (seal_all ch' envs rng') as [ds'|] eqn:E2; [|done]. intros [= <-].
  destruct (IH _ _ _ _ Hm' Hs' E2) as [Hl IH']. split; [simpl; congruence|].
  intros [|i] env; simpl.
  - intros [= <-]. exists d. by rewrite Nat.add_0_r.
  - intros (d' & ? & ?)%IH'. exists d'. by rewrite Nat.add_succ_r.
Qed.

(** The opener's refusals after the arrivals [seen]. *)
Definition window_inv (o : RecordOpener) (len : nat) (seen : list nat) : Prop :=
  forall i, i < len ->
    (i ∈ seen -> ~ accepts o i) /\
    (i ∉ seen -> (forall j, j ∈ seen -> j < i + window) -> accepts o i).

(** One arrival. *)
Lemma open_one_arrival k envs ds seen ch i d :
  (forall i env, envs !! i = Some env -> exists d, ds !! i = Some d /\ carries k i env d) ->
  length ds = length envs ->
  mimic ch = m -> opener_for (opener ch) k -> window_inv (opener ch) (length envs) seen ->
  ds !! i = Some d ->
  exists r ch', open_datagram ch d = (Ok r, ch') /\ arrival_result envs seen i r /\
    mimic ch' = m /\ opener_for (opener ch') k /\ window_inv (opener ch') (length envs) (seen ++ [i]).
Proof.
  intros Hc Hlen Hm Ho Hinv Hd.
  assert (i < length envs) as Hi by (rewrite <-Hlen; by eapply lookup_lt_Some).
  destruct (lookup_lt_is_Some_2 envs i Hi) as [env Henv].
  destruct (Hc i env Henv) as (d' & Hd' & Hcar). rewrite Hd in Hd'. injection Hd' as <-.
  destruct (Hinv i Hi) as [Hold Hnew].
  destruct (accepts_or_not (opener ch) i) as [Hacc|Hacc].
  - destruct (open_datagram_fresh ch k i env d Hm Ho Hacc Hcar) as (o' & -> & Ho' & Hno & Hkeep & Hgone).
    eexists _, _. split; [done|]. split; [unfold arrival_result; naive_solver|].
    split; [done|]. split; [done|].
    intros j Hj. simpl. destruct (Hinv j Hj) as [Hoj Hnj]. split.
    + intros [Hs| ->%list_elem_of_singleton]%elem_of_app; [|done]. by apply Hgone, Hoj.
    + intros Hns Hwin. apply Hkeep; [set_solver|apply Hwin; set_solver|]. apply Hnj; set_solver.
  - rewrite (open_datagram_stale ch k i env d Hm Ho) by done.
    eexists _, _. split; [done|]. split; [unfold arrival_result; naive_solver|].
    split; [done|]. split; [done|].
    intros j Hj. destruct (Hinv j Hj) as [Hoj Hnj]. split.
    + intros [Hs| ->%list_elem_of_singleton]%elem_of_app; [by apply Hoj|done].
    + intros Hns Hwin. apply Hnj; set_solver.
Qed.

Lemma open_all_arrivals k envs ds arrivals delivered seen ch :
  (forall i env, envs !! i = Some env -> exists d, ds !! i = Some d /\ carries k i env d) ->
  length ds = length envs ->
  mimic ch = m -> opener_for (opener ch) k -> window_inv (opener ch) (length envs) seen ->
  mapM (fun i => ds !! i) arrivals = Some delivered ->
  length (open_all ch delivered) = length arrivals /\
  forall pos i, arrivals !! pos = Some i ->
    exists r, open_all ch delivered !! pos = Some r /\
      arrival_result envs (seen ++ take pos arrivals) i r.
Proof.
  intros Hc Hlen. revert delivered seen ch.
  induction arrivals as [|i rest IH]; intros delivered seen ch Hm Ho Hinv Hd.
  { injection Hd as <-. by split. }
  rewrite mapM_Some in Hd. apply Forall2_cons_inv_l in Hd as (d & ds' & Hd & Hrest & ->).
  rewrite <-mapM_Some in Hrest.
  destruct (open_one_arrival k envs ds seen ch i d Hc Hlen Hm Ho Hinv Hd)
    as (r & ch' & E & Hr & Hm' & Ho' & Hinv').
  destruct (IH ds' (seen ++ [i]) ch' Hm' Ho' Hinv' Hrest) as [Hl IH'].
  simpl. rewrite E. split; [simpl; congruence|]. intros [|pos] i'; simpl.
  - intros [= <-]. exists r. by rewrite app_nil_r.
  - intros (r' & Hr' & Ha)%IH'. exists r'. split; [done|]. by rewrite <-app_assoc in Ha.
Qed.

(** C25: let a sender seal any number of envelopes, and let the network deliver
    the datagrams in any order, any of them any number of times, or not at all.
    Every arrival yields one result.  A datagram that arrived before yields
    nothing.  A datagram that is new yields its envelope, provided no datagram
    sealed [window] or more after it has arrived first; if one has, it yields
    its envelope or nothing, and never another envelope. *)
Theorem datagrams_delivered_at_most_once k o s envs rng ds arrivals delivered :
  seal_all (data_channel_new (sealer_new k) o m) envs rng = Some ds ->
  mapM (fun i => ds !! i) arrivals = Some delivered ->
  let results := open_all (data_channel_new s (opener_new k) m) delivered in
  length results = length arrivals /\
  forall pos i, arrivals !! pos = Some i ->
    exists r, results !! pos = Some r /\
      (i ∈ take pos arrivals -> r = None) /\
      (i ∉ take pos arrivals -> (forall j, j ∈ take pos arrivals -> j < i + window) -> r = envs !! i) /\
      (r = None \/ r = envs !! i).
Proof.
  intros Hseal Hd.
  destruct (seal_all_carries (data_channel_new (sealer_new k) o m) envs rng ds k 0
              eq_refl (sealer_new_at k) Hseal) as [Hlen Hc].
  apply (open_all_arrivals k envs ds arrivals delivered []); try done; [apply opener_new_for|].
  intros i Hi. split; [set_solver|]. intros _ _.
  destruct (lookup_lt_is_Some_2 envs i Hi) as [env Henv].
  destruct (Hc i env Henv) as (d & _ & pt & ct & _ & Hs & _). by eapply opener_new_accepts.
Qed.

End Delivery.

End DataPlane.

(** ** Concrete runs *)

Module DataPlaneRuns.
Import Ref.

Definition r_sealer_at (s : RSealer) (k : bytes) (n : nat) : Prop :=
  rk_key s = k /\ rk_ctr s = n.
Definition r_sealed (k : bytes) (n : nat) (pt ct : bytes) : Prop :=
  n < 256 /\ ct = k ++ as_u8 (Z.of_nat n) :: pt.
Definition r_opener_for (o : ROpener) (k : bytes) : Prop := ro_key o = k.
Definition r_accepts (o : ROpener) (n : nat) : Prop :=
  n < 256 /\ as_u8 (Z.of_nat n) ∉ ro_seen o.

Lemma ctr_inj n m : n < 256 -> m < 256 -> as_u8 (Z.of_nat n) = as_u8 (Z.of_nat m) -> n = m.
Proof.
  intros Hn Hm E. apply (f_equal byte_Z) in E.
  rewrite !byte_Z_as_u8, !Z.mod_small in E by lia. lia.
Qed.

Lemma r_open_head o n pt :
  r_open o (ro_key o ++ as_u8 (Z.of_nat n) :: pt) [] =
  if decide (as_u8 (Z.of_nat n) ∈ ro_seen o) then (Err (str "replay"), o)
  else (Ok pt, mkROpener (ro_key o) (as_u8 (Z.of_nat n) :: ro_seen o)).
Proof. unfold r_open. by rewrite take_app_length, decide_True, drop_app_length by done. Qed.

#[export] Instance r_record_laws :
  RecordLaws 64 (r_sealer_at : RecordSealer -> RecordKey -> nat -> Prop) r_sealed
    (r_opener_for : RecordOpener -> RecordKey -> Prop) r_accepts.
Proof.
  split.
  - by intros k.
  - intros s k n pt ct s' [<- <-]. simpl. unfold r_seal. case_decide; [|done].
    intros [= <- <-]. by repeat split.
  - by intros k.
  - intros k n pt ct [Hn ->]. split; [done|]. simpl. set_solver.
  - intros o k n pt ct <- [Hn Ha] [_ ->]. simpl. rewrite r_open_head, decide_False by done.
    eexists. split; [reflexivity|]. split; [done|]. unfold r_accepts. simpl. split_and!.
    + intros [_ Hin]. set_solver.
    + intros j Hj _ [Hlt Hin]. split; [done|]. apply not_elem_of_cons. split; [|done].
      intros E%ctr_inj; [done|lia|lia].
    + intros j Hno [Hlt Hin]. apply Hno. split; [done|]. set_solver.
  - intros o k n pt ct <- Hno [Hn ->]. simpl. rewrite r_open_head.
    case_decide as Hin; [by eauto|]. exfalso. by apply Hno.
  - intros o n. unfold r_accepts. destruct (decide (n < 256 /\ as_u8 (Z.of_nat n) ∉ ro_seen o)); auto.
Qed.

(** Three envelopes; the last arrives first and is repeated, the second is
    lost. *)
Definition three : list Envelope := [EPing; EPong; ERequest (str "r1")].

Definition sent : list bytes :=
  [ [xc0; x05; x6b; x00; x07]; [xc0; x05; x6b; x01; x08];
    [xc0; x05; x6b; x02; x01; x72; x31] ].

Definition arrived : list bytes :=
  [ [xc0; x05; x6b; x02; x01; x72; x31]; [xc0; x05; x6b; x00; x07];
    [xc0; x05; x6b; x02; x01; x72; x31] ].

Lemma datagrams_delivered_at_most_once_witness :
  let results := open_all (data_channel_new (mkRSealer [] 0) (mkROpener [x6b] []) marked) arrived in
  length results = length [2; 0; 2] /\
  forall pos i, [2; 0; 2] !! pos = Some i ->
    exists r, results !! pos = Some r /\
      (i ∈ take pos [2; 0; 2] -> r = None) /\
      (i ∉ take pos [2; 0; 2] -> (forall j, j ∈ take pos [2; 0; 2] -> j < i + 64) -> r = three !! i) /\
      (r = None \/ r = three !! i).
Proof.
  refine (datagrams_delivered_at_most_once marked [x6b] (mkROpener [] []) (mkRSealer [] 0)
            three 0 sent [2; 0; 2] arrived _ _).
  - reflexivity.
  - reflexivity.
Defined.

(** What the receiver gets in that run. *)
Example arrived_results :
  open_all (data_channel_new (mkRSealer [] 0) (mkROpener [x6b] []) marked) arrived
  = [Some (ERequest (str "r1")); Some EPing; None].
Proof. reflexivity. Qed.

End DataPlaneRuns.
