(* ===== verification/UdpHandshake.v ===== *)
(** * The UDP handshake: messages, cookies, and the server's two steps

    [src/udp/handshake.rs], the part shared by both ends and the responder's
    side.  The initiator's retransmission loop is in [UdpConnect]. *)

From S2P Require Import Prelude RustStd Externals Envelope UdpWire DataPlane Instances.

Section UdpHandshake.
Context {WA : WireApi} {CA : CoreApi} {SA : SerdeApi}.

(** [shape_hs]. *)
Definition shape_hs (ty : DgramType) (msg : bytes) (m : DatagramMimicry) (rng : Rng)
    : bytes * Rng :=
  let inner := encode_inner ty msg in
  shape_out m inner rng.

(** [unshape_hs]. *)
Definition unshape_hs (datagram : bytes) (m : DatagramMimicry) : option (DgramType * bytes) :=
  match shape_in m datagram with
  | None => None
  | Some inner => decode_inner inner
  end.

(** [encode_cookie]. *)
Definition encode_cookie (cookie : bytes) : bytes := cookie.

(** [decode_cookie]. *)
Definition decode_cookie (body : bytes) : option bytes :=
  if decide (length body < 16) then None else Some (take 16 body).

(** [src_bytes]. *)
Definition src_bytes (addr : SocketAddr) : bytes := display_addr addr.

(** [encode_msg1_framed]: [as u16] keeps the low 16 bits of the length. *)
Definition encode_msg1_framed (msg1 : bytes) (cookie : option bytes) : bytes :=
  let len := (Z.of_nat (length msg1) mod 65536)%Z in
  to_be_u16 len ++ msg1 ++ match cookie with Some c => c | None => [] end.

(** [decode_msg1_framed]. *)
Definition decode_msg1_framed (body : bytes) : option (bytes * option bytes) :=
  match body with
  | hi :: lo :: rest =>
      let msg1_len := Z.to_nat (from_be_u16 hi lo) in
      if decide (length rest < msg1_len) then None
      else
        let msg1 := take msg1_len rest in
        let remaining := drop msg1_len rest in
        let cookie := if decide (16 <= length remaining) then Some (take 16 remaining)
                      else None in
        Some (msg1, cookie)
  | _ => None
  end.

(** [AcceptResult]. *)
Inductive AcceptResult : Type :=
| CookieReply (wire : bytes)
| PartialHandshake (responder : Handshake) (msg2 : bytes) (client_addr : SocketAddr).

(** [format!("{what}: {e}")]. *)
Definition hs_failed (what : bytes) (e : WireError) : ObfsError :=
  HandshakeFailed (what ++ str ": " ++ wire_display e).

(** [process_hs1]; [ent] is the responder's randomness. *)
Definition process_hs1 {G : Type} {LG : LoadGate G} (ent : Entropy) (body : bytes)
    (client_addr : SocketAddr) (server_private : bytes) (cookie_secret : CookieSecret)
    (load_gate : G) (m : DatagramMimicry) (rng : Rng)
    : Res ObfsError (option AcceptResult) * Rng :=
  match decode_msg1_framed body with
  | None => (Ok None, rng)
  | Some (msg1, supplied_cookie) =>
      let src := src_bytes client_addr in
      let cookie_ok := match supplied_cookie with
                       | Some c => cookie_verify cookie_secret src c
                       | None => false
                       end in
      if under_load load_gate && negb cookie_ok then
        let cookie := cookie_make cookie_secret src in
        let encoded := encode_cookie cookie in
        let '(wire, rng) := shape_hs Cookie encoded m rng in
        (Ok (Some (CookieReply wire)), rng)
      else
        match responder ent server_private with
        | Err e => (Err (hs_failed (str "responder") e), rng)
        | Ok hs =>
            match read_message hs msg1 with
            | (Err _, _) => (Ok None, rng)
            | (Ok _, hs) =>
                match write_message hs [] with
                | (Err e, _) => (Err (hs_failed (str "write msg2") e), rng)
                | (Ok msg2, hs) =>
                    let '(wire_msg2, rng) := shape_hs Hs2 msg2 m rng in
                    (Ok (Some (PartialHandshake hs wire_msg2 client_addr)), rng)
                end
            end
        end
  end.

(** [complete_handshake_msg3]. *)
Definition complete_handshake_msg3 (hs : Handshake) (msg3_body : bytes) (m : DatagramMimicry)
    : Res ObfsError (DataChannel * bytes) * Handshake :=
  match read_message hs msg3_body with
  | (Err e, hs) => (Err (hs_failed (str "read msg3") e), hs)
  | (Ok payload, hs) =>
      if decide (length payload < 32) then
        (Err (HandshakeFailed (str "msg3 payload too short for seed")), hs)
      else
        let seed := take 32 payload in
        match remote_static hs with
        | None => (Err (HandshakeFailed (str "no remote static after msg3")), hs)
        | Some client_static =>
            let '(c2s_key, s2c_key) := derive_record_keys seed in
            let channel := data_channel_new (sealer_new s2c_key) (opener_new c2s_key) m in
            (Ok (channel, client_static), hs)
        end
  end.

(** ** Message 1 and cookies *)

Lemma decode_encode_msg1 msg1 cookie :
  (Z.of_nat (length msg1) < 65536)%Z ->
  match cookie with Some c => length c = 16 | None => True end ->
  decode_msg1_framed (encode_msg1_framed msg1 cookie) = Some (msg1, cookie).
Proof.
  intros Hl Hc. unfold encode_msg1_framed. rewrite Z.mod_small by lia.
  unfold to_be_u16, decode_msg1_framed. cbn [app]. rewrite from_to_be_u16, Z.mod_small by lia.
  rewrite Nat2Z.id, decide_False by (rewrite length_app; lia).
  rewrite take_app_length, drop_app_length. destruct cookie as [c|]; simpl.
  - rewrite decide_True by lia. by rewrite take_ge by lia.
  - done.
Qed.

(** On an arbitrary body [decode_msg1_framed] never reads
    out of range: what it returns is a length-prefixed message of the body,
    followed by the first 16 of the remaining bytes when there are that many,
    and it refuses the body exactly when the prefix or the message is cut
    short. *)
Lemma decode_msg1_total body :
  match decode_msg1_framed body with
  | Some (msg1, cookie) =>
      exists hi lo tail, body = hi :: lo :: msg1 ++ tail /\
        Z.of_nat (length msg1) = from_be_u16 hi lo /\
        match cookie with
        | Some c => length c = 16 /\ c `prefix_of` tail
        | None => length tail < 16
        end
  | None =>
      match body with
      | hi :: lo :: rest => (Z.of_nat (length rest) < from_be_u16 hi lo)%Z
      | _ => True
      end
  end.
Proof.
  unfold decode_msg1_framed. destruct body as [|hi [|lo rest]]; [done|done|].
  assert (0 <= from_be_u16 hi lo)%Z.
  { unfold from_be_u16. pose proof (byte_Z_range hi). pose proof (byte_Z_range lo). lia. }
  case_decide as Hl; [lia|].
  exists hi, lo, (drop (Z.to_nat (from_be_u16 hi lo)) rest).
  rewrite take_drop, length_take. split_and!; [done|lia|].
  case_decide as Hc; [|lia]. rewrite length_take. split; [lia|].
  apply prefix_take.
Qed.

Lemma decode_cookie_16 c : length c = 16 -> decode_cookie c = Some c.
Proof. intros Hc. unfold decode_cookie. rewrite decide_False by lia. by rewrite take_ge by lia. Qed.

Lemma unshape_shape_hs ty msg m rng :
  DatagramLaws m -> unshape_hs (shape_hs ty msg m rng).1 m = Some (ty, msg).
Proof.
  intros DL. unfold unshape_hs, shape_hs. by rewrite shape_roundtrip, decode_encode_inner.
Qed.

(** What the cookie secret promises: 16-byte cookies that verify for the
    source they were made for. *)
Class CookieLaws : Prop := {
  cookie_length : forall s src, length (cookie_make s src) = 16;
  cookie_verifies : forall s src, cookie_verify s src (cookie_make s src) = true;
}.

Section Process.
Context {G : Type} {LG : LoadGate G}.

(** Under load and without a verifying cookie, the outcome is a cookie reply
    or nothing; the responder is not run. *)
Lemma process_hs1_challenges ent body addr priv cs (g : G) m rng msg1 supplied :
  decode_msg1_framed body = Some (msg1, supplied) ->
  under_load g = true ->
  (forall c, supplied = Some c -> cookie_verify cs (src_bytes addr) c = false) ->
  process_hs1 ent body addr priv cs g m rng =
    (Ok (Some (CookieReply (shape_hs Cookie (cookie_make cs (src_bytes addr)) m rng).1)),
     (shape_hs Cookie (cookie_make cs (src_bytes addr)) m rng).2).
Proof.
  intros Hd Hl Hc. unfold process_hs1. rewrite Hd, Hl.
  replace (match supplied with
           | Some c => cookie_verify cs (src_bytes addr) c
           | None => false
           end) with false by (destruct supplied; [by rewrite Hc|done]).
  cbn [negb andb]. unfold encode_cookie. by destruct (shape_hs _ _ _ _).
Qed.

(** Under load, responder state is made only for a first message whose cookie
    verifies for the source address. *)
Lemma process_hs1_needs_cookie ent body addr priv cs (g : G) m rng hs wire addr' rng' :
  under_load g = true ->
  process_hs1 ent body addr priv cs g m rng = (Ok (Some (PartialHandshake hs wire addr')), rng') ->
  exists msg1 c, decode_msg1_framed body = Some (msg1, Some c) /\
    cookie_verify cs (src_bytes addr) c = true /\ addr' = addr.
Proof.
  intros Hl H. destruct (decode_msg1_framed body) as [[msg1 supplied]|] eqn:Hd;
    [|by unfold process_hs1 in H; rewrite Hd in H].
  destruct supplied as [c|].
  - destruct (cookie_verify cs (src_bytes addr) c) eqn:Hv.
    + exists msg1, c. split_and!; [done|done|]. revert H. unfold process_hs1.
      rewrite Hd, Hl, Hv. cbn [negb andb]. repeat case_match; intros; simplify_eq; done.
    + rewrite (process_hs1_challenges ent body addr priv cs g m rng msg1 (Some c)) in H;
        [done|done|done|]. by intros ? [= <-].
  - by rewrite (process_hs1_challenges ent body addr priv cs g m rng msg1 None) in H.
Qed.

(** A first message with a verifying cookie is answered with message 2. *)
Lemma process_hs1_accepts ent body addr priv cs (g : G) m rng msg1 c hs hs' hs'' p1 msg2 :
  decode_msg1_framed body = Some (msg1, Some c) ->
  cookie_verify cs (src_bytes addr) c = true ->
  responder ent priv = Ok hs -> read_message hs msg1 = (Ok p1, hs') ->
  write_message hs' [] = (Ok msg2, hs'') ->
  process_hs1 ent body addr priv cs g m rng
    = (Ok (Some (PartialHandshake hs'' (shape_hs Hs2 msg2 m rng).1 addr)),
       (shape_hs Hs2 msg2 m rng).2).
Proof.
  intros Hd Hv Hr Hm1 Hm2. unfold process_hs1.
  rewrite Hd, Hv, andb_false_r, Hr, Hm1, Hm2. by destruct (shape_hs _ _ _ _).
Qed.

(** The challenge can be answered.  Under load, a
    first message without a cookie is answered with a datagram from which the
    client decodes a 16-byte cookie; resending the message with that cookie
    from the same address makes the server run the Noise responder and answer
    with message 2. *)
Lemma cookie_challenge_completes ent ent' msg1 addr priv cs (g : G) m rng rng2 hs hs' hs'' p1 msg2 :
  CookieLaws -> DatagramLaws m ->
  under_load g = true ->
  (Z.of_nat (length msg1) < 65536)%Z ->
  responder ent' priv = Ok hs ->
  read_message hs msg1 = (Ok p1, hs') ->
  write_message hs' [] = (Ok msg2, hs'') ->
  exists wire rng1 body c,
    process_hs1 ent (encode_msg1_framed msg1 None) addr priv cs g m rng
      = (Ok (Some (CookieReply wire)), rng1) /\
    unshape_hs wire m = Some (Cookie, body) /\
    decode_cookie body = Some c /\
    exists wire2 rng3,
      process_hs1 ent' (encode_msg1_framed msg1 (Some c)) addr priv cs g m rng2
        = (Ok (Some (PartialHandshake hs'' wire2 addr)), rng3) /\
      unshape_hs wire2 m = Some (Hs2, msg2).
Proof.
  intros CL DL Hl Hlen Hr Hm1 Hm2.
  set (c := cookie_make cs (src_bytes addr)).
  pose proof (cookie_length cs (src_bytes addr)) as Hclen. fold c in Hclen.
  exists (shape_hs Cookie c m rng).1, (shape_hs Cookie c m rng).2, c, c.
  split_and!.
  - apply (process_hs1_challenges _ _ _ _ _ _ _ _ msg1 None); [|done|done].
    by apply decode_encode_msg1.
  - by apply unshape_shape_hs.
  - by apply decode_cookie_16.
  - exists (shape_hs Hs2 msg2 m rng2).1, (shape_hs Hs2 msg2 m rng2).2.
    split; [|by apply unshape_shape_hs].
    eapply process_hs1_accepts; [by apply decode_encode_msg1|apply cookie_verifies|done..].
Qed.

End Process.

(** ** Message 3 *)

(** A third message that carries exactly a seed. *)
Lemma complete_handshake_msg3_seed hs body m seed hs' key :
  read_message hs body = (Ok seed, hs') -> length seed = 32 -> remote_static hs' = Some key ->
  complete_handshake_msg3 hs body m
    = (Ok (data_channel_new (sealer_new (derive_record_keys seed).2)
             (opener_new (derive_record_keys seed).1) m, key), hs').
Proof.
  intros Hr Hl Hk. unfold complete_handshake_msg3. rewrite Hr, decide_False by lia.
  rewrite Hk, take_ge by lia. by destruct (derive_record_keys seed).
Qed.

(** The responder accepts exactly a third message whose
    payload has at least 32 bytes and whose sender is authenticated; the
    channel it builds from the first 32 bytes seals with the key the
    initiator's channel (built from the same seed) opens with, and opens with
    the key it seals with. *)
Lemma msg3_channels_match hs body m ch key hs' :
  complete_handshake_msg3 hs body m = (Ok (ch, key), hs') <->
  exists payload,
    read_message hs body = (Ok payload, hs') /\ 32 <= length payload /\
    remote_static hs' = Some key /\
    let '(c2s, s2c) := derive_record_keys (take 32 payload) in
    ch = data_channel_new (sealer_new s2c) (opener_new c2s) m.
Proof.
  unfold complete_handshake_msg3. split.
  - destruct (read_message hs body) as [[payload|] hs1] eqn:E; [|done].
    case_decide; [done|].
    destruct (remote_static hs1) eqn:Er; [|done].
    destruct (derive_record_keys (take 32 payload)) as [c2s s2c] eqn:Ek.
    intros [= <- <- <-]. exists payload. rewrite Ek. split_and!; [done|lia|done|done].
  - intros (payload & -> & Hl & Hr & Hch). rewrite decide_False by lia.
    rewrite Hr. destruct (derive_record_keys (take 32 payload)). by subst.
Qed.

End UdpHandshake.

(** ** Concrete runs *)

Module UdpHandshakeRuns.
Import Ref.

#[export] Instance r_cookie_laws : CookieLaws.
Proof.
  split; intros s src; simpl.
  - unfold r_cookie. rewrite length_take, !length_app, length_rev, repeat_length. lia.
  - by rewrite bool_decide_true.
Qed.

Definition client : SocketAddr := V4 xcb x00 x71 x07 51820.
Definition priv : bytes := str "server".
Definition hs1 : bytes := x01 :: pub_of priv.

Lemma cookie_challenge_completes_example :
  exists wire rng1 body c,
    process_hs1 0 (encode_msg1_framed hs1 None) client priv (str "k", None) always_under_load marked 0
      = (Ok (Some (CookieReply wire)), rng1) /\
    unshape_hs wire marked = Some (Cookie, body) /\
    decode_cookie body = Some c /\
    exists wire2 rng3,
      process_hs1 0 (encode_msg1_framed hs1 (Some c)) client priv (str "k", None)
          always_under_load marked 0
        = (Ok (Some (PartialHandshake (mkRHandshake RResp priv None 2) wire2 client)), rng3) /\
      unshape_hs wire2 marked = Some (Hs2, [x02]).
Proof.
  refine (cookie_challenge_completes 0 0 hs1 client priv (str "k", None) always_under_load
            marked 0 0 (mkRHandshake RResp priv None 0) (mkRHandshake RResp priv None 1)
            (mkRHandshake RResp priv None 2) [] [x02] _ _ _ _ _ _ _); reflexivity.
Defined.

End UdpHandshakeRuns.
