(* ===== verification/UdpConnect.v ===== *)
(** * The UDP handshake of the client

    [client_udp_handshake] and [recv_from_server] of [src/udp/handshake.rs]:
    retransmission of message 1 with the cookie of the last challenge, message
    3 with the seed, the wait for the server's ready record, and the fresh
    attempts.

    The network is a script: what the awaited receives yield in order (a
    datagram with its source, a socket error, or the expiry of the surrounding
    [timeout]), what the sends return, and the datagrams sent so far.  A run
    that asks for more than the script holds is still waiting. *)

From S2P Require Import Prelude RustStd Externals Envelope UdpWire DataPlane.
From S2P Require Import UdpHandshake Instances.

(** One outcome of awaiting [sock.recv_from] under a [timeout]. *)
Inductive NetEv : Type :=
| Got (src : SocketAddr) (data : bytes)
| RecvErr (e : IoError)
| Elapsed.

Record Net : Type := mkNet {
  n_in : list NetEv;
  n_send : list (option IoError);   (** outcomes of the next sends; [Ok] after them *)
  n_out : list (SocketAddr * bytes);
}.

Definition MAX_HS_TRIES : nat := 12.
Definition MAX_HANDSHAKE_ATTEMPTS : nat := 3.

(** [sock.send_to(&wire, dst).await]. *)
Definition net_send (wire : bytes) (dst : SocketAddr) : IO Net IoError unit := fun n =>
  match n_send n with
  | Some e :: rest => (Ready (Err e), mkNet (n_in n) rest (n_out n))
  | _ => (Ready (Ok tt), mkNet (n_in n) (drop 1 (n_send n)) (n_out n ++ [(dst, wire)]))
  end.

(** [timeout(_, recv_from_server(&sock, expected_src, _)).await]: [None] when
    the time is up; datagrams of other sources are skipped. *)
Fixpoint recv_evs (expected_src : SocketAddr) (evs : list NetEv)
    : Poll (option (Res IoError bytes)) * list NetEv :=
  match evs with
  | [] => (Pending, [])
  | Elapsed :: rest => (Ready None, rest)
  | RecvErr e :: rest => (Ready (Some (Err e)), rest)
  | Got src data :: rest =>
      if decide (src = expected_src) then (Ready (Some (Ok data)), rest)
      else recv_evs expected_src rest
  end.

Definition recv_from_server (expected_src : SocketAddr)
    : IO Net IoError (option (Res IoError bytes)) := fun n =>
  match recv_evs expected_src (n_in n) with
  | (Ready r, rest) => (Ready (Ok r), mkNet rest (n_send n) (n_out n))
  | (Pending, rest) => (Pending, mkNet rest (n_send n) (n_out n))
  end.

Section UdpConnect.
Context {WA : WireApi} {CA : CoreApi} {SA : SerdeApi}.
Context (server_addr : SocketAddr) (mimic : DatagramMimicry).

(** [timeout(_, async { loop { .. } }).await] around the wait for the ready
    record: [true] once a record opens. *)
Fixpoint ready_evs (ch : DataChannel) (evs : list NetEv)
    : Poll bool * DataChannel * list NetEv :=
  match evs with
  | [] => (Pending, ch, [])
  | Elapsed :: rest => (Ready false, ch, rest)
  | RecvErr e :: rest => (Ready false, ch, rest)
  | Got src data :: rest =>
      if decide (src = server_addr) then
        match open_datagram ch data with
        | (Ok (Some _), ch') => (Ready true, ch', rest)
        | (_, ch') => ready_evs ch' rest
        end
      else ready_evs ch rest
  end.

Definition wait_ready (ch : DataChannel) : IO Net ObfsError (bool * DataChannel) := fun n =>
  match ready_evs ch (n_in n) with
  | (Ready b, ch', rest) => (Ready (Ok (b, ch')), mkNet rest (n_send n) (n_out n))
  | (Pending, ch', rest) => (Pending, mkNet rest (n_send n) (n_out n))
  end.

(** ['msg1_loop]: message 2 when it arrives within [tries] transmissions. *)
Fixpoint msg1_loop (tries : nat) (msg1 : bytes) (current_cookie : option bytes) (rng : Rng)
    : IO Net ObfsError (option bytes * Rng) :=
  match tries with
  | 0 => io_ret (None, rng)
  | S tries =>
      let framed := encode_msg1_framed msg1 current_cookie in
      let '(wire, rng) := shape_hs Hs1 framed mimic rng in
      let* _ := io_map_err Io (net_send wire server_addr) in
      let* result := io_map_err Io (recv_from_server server_addr) in
      match result with
      | None => msg1_loop tries msg1 current_cookie rng
      | Some (Err e) => io_fail (Io e)
      | Some (Ok data) =>
          match unshape_hs data mimic with
          | Some (Hs2, body) => io_ret (Some body, rng)
          | Some (Cookie, body) =>
              let current_cookie := match decode_cookie body with
                                    | Some cookie => Some cookie
                                    | None => current_cookie
                                    end in
              msg1_loop tries msg1 current_cookie rng
          | _ => msg1_loop tries msg1 current_cookie rng
          end
      end
  end.

(** [let _ = sock.send_to(..).await]. *)
Definition send_ignored (wire : bytes) : IO Net ObfsError unit := fun n =>
  (Ready (Ok tt), (net_send wire server_addr n).2).

(** The resend loop after the first wait. *)
Fixpoint resend_loop (n : nat) (wire3 : bytes) (ch : DataChannel)
    : IO Net ObfsError (option DataChannel) :=
  match n with
  | 0 => io_ret None
  | S n =>
      let* _ := send_ignored wire3 in
      let* (ready, ch) := wait_ready ch in
      if ready : bool then io_ret (Some ch) else resend_loop n wire3 ch
  end.

(** The end of an attempt, from message 3 on. *)
Definition finish_attempt (seed msg3 : bytes) (rng : Rng)
    : IO Net ObfsError (option DataChannel * Rng) :=
  let '(wire3, rng) := shape_hs Hs3 msg3 mimic rng in
  let* _ := io_map_err Io (net_send wire3 server_addr) in
  let '(c2s_key, s2c_key) := derive_record_keys seed in
  let channel := data_channel_new (sealer_new c2s_key) (opener_new s2c_key) mimic in
  let* (ready, channel) := wait_ready channel in
  if ready : bool then io_ret (Some channel, rng)
  else let* r := resend_loop 3 wire3 channel in io_ret (r, rng).

(** One attempt; [None] where the source continues with the next. *)
Definition attempt (ent : Entropy) (server_pub client_private : bytes) (rng : Rng)
    : IO Net ObfsError (option DataChannel * Rng) :=
  let '(seed, rng) := fill_bytes rng 32 in
  let* hs := io_of_res (res_map_err (hs_failed (str "initiator"))
                          (initiator ent client_private server_pub)) in
  let* (msg1, hs) := io_call (hs_failed (str "write msg1")) (write_message hs []) in
  let* (msg2_body, rng) := msg1_loop MAX_HS_TRIES msg1 None rng in
  match msg2_body with
  | None => io_ret (None, rng)
  | Some msg2 =>
      match read_message hs msg2 with
      | (Err _, _) => io_ret (None, rng)
      | (Ok _, hs) =>
          match write_message hs seed with
          | (Err _, _) => io_ret (None, rng)
          | (Ok msg3, _) => finish_attempt seed msg3 rng
          end
      end
  end.

Fixpoint attempts (n : nat) (ents : nat -> Entropy) (server_pub client_private : bytes)
    (rng : Rng) : IO Net ObfsError (DataChannel * Rng) :=
  match n with
  | 0 => io_fail (HandshakeFailed (str "handshake exhausted all attempts"))
  | S n =>
      let* (r, rng) := attempt (ents n) server_pub client_private rng in
      match r with
      | Some channel => io_ret (channel, rng)
      | None => attempts n ents server_pub client_private rng
      end
  end.

(** [client_udp_handshake]; [ents] is the initiators' randomness. *)
Definition client_udp_handshake (ents : nat -> Entropy) (server_pub client_private : bytes)
    (rng : Rng) : IO Net ObfsError (DataChannel * Rng) :=
  attempts MAX_HANDSHAKE_ATTEMPTS ents server_pub client_private rng.

(** ** Termination and traffic *)

(** Expiries left in a script. *)
Fixpoint elapsed (evs : list NetEv) : nat :=
  match evs with
  | [] => 0
  | Elapsed :: rest => S (elapsed rest)
  | _ :: rest => elapsed rest
  end.

(** [m] returns once [waits] timeouts have expired, and sends at most [sends]
    datagrams. *)
Definition costs {E A} (waits sends : nat) (m : IO Net E A) : Prop := forall n,
  waits <= elapsed (n_in n) ->
  exists r n', m n = (Ready r, n') /\
    elapsed (n_in n) <= elapsed (n_in n') + waits /\
    length (n_out n') <= length (n_out n) + sends.

Lemma costs_ret {E A} (a : A) : costs 0 0 (io_ret a : IO Net E A).
Proof. intros n _. eexists _, _. split; [reflexivity|lia]. Qed.

Lemma costs_fail {E A} (e : E) : costs 0 0 (io_fail e : IO Net E A).
Proof. intros n _. eexists _, _. split; [reflexivity|lia]. Qed.

Lemma costs_weaken {E A} w s w' s' (m : IO Net E A) :
  costs w s m -> w <= w' -> s <= s' -> costs w' s' m.
Proof.
  intros H Hw Hs n Hn. destruct (H n ltac:(lia)) as (r & n' & -> & ? & ?).
  eexists _, _. split; [reflexivity|lia].
Qed.

Lemma costs_bind {E A B} w1 s1 w2 s2 (m : IO Net E A) (k : A -> IO Net E B) :
  costs w1 s1 m -> (forall a, costs w2 s2 (k a)) -> costs (w1 + w2) (s1 + s2) (io_bind m k).
Proof.
  intros Hm Hk n Hn. unfold io_bind. destruct (Hm n ltac:(lia)) as ([a|e] & n1 & -> & ? & ?).
  - destruct (Hk a n1 ltac:(lia)) as (r & n2 & -> & ? & ?).
    eexists _, _. split; [reflexivity|lia].
  - eexists _, _. split; [reflexivity|lia].
Qed.

Lemma costs_map_err {E F A} w s (f : E -> F) (m : IO Net E A) :
  costs w s m -> costs w s (io_map_err f m).
Proof.
  intros Hm n Hn. unfold io_map_err. destruct (Hm n Hn) as ([a|e] & n1 & -> & ? & ?);
    eexists _, _; by split.
Qed.

Lemma costs_of_res {E A} (r : Res E A) : costs 0 0 (io_of_res r : IO Net E A).
Proof. intros n _. eexists _, _. split; [reflexivity|lia]. Qed.

Lemma costs_call {E F L A} (f : F -> E) (r : Res F A * L) : costs 0 0 (io_call f r : IO Net E (A * L)).
Proof. intros n _. destruct r as [[a|e] l]; eexists _, _; (split; [reflexivity|lia]). Qed.

Lemma costs_send wire dst : costs 0 1 (net_send wire dst).
Proof.
  intros n _. unfold net_send. destruct (n_send n) as [|[e|] rest]; eexists _, _;
    (split; [reflexivity|]); simpl; rewrite ?length_app; simpl; lia.
Qed.

Lemma costs_send_ignored wire : costs 0 1 (send_ignored wire).
Proof.
  intros n Hn. destruct (costs_send wire server_addr n Hn) as (r & n' & E & ?).
  unfold send_ignored. rewrite E. eexists _, _. by split.
Qed.

Lemma costs_recv src : costs 1 0 (recv_from_server src).
Proof.
  intros n Hn. unfold recv_from_server.
  assert (exists r rest, recv_evs src (n_in n) = (Ready r, rest) /\
            elapsed (n_in n) <= elapsed rest + 1) as (r & rest & -> & He).
  { induction (n_in n) as [|[s d|e|] evs IH]; simpl in *; [lia| | |].
    - case_decide; [eexists _, _; split; [done|lia]|]. by apply IH.
    - eexists _, _. split; [done|lia].
    - eexists _, _. split; [done|lia]. }
  eexists _, _. split; [reflexivity|]. simpl. lia.
Qed.

Lemma costs_wait_ready ch : costs 1 0 (wait_ready ch).
Proof.
  intros n Hn. unfold wait_ready.
  assert (exists b ch' rest, ready_evs ch (n_in n) = (Ready b, ch', rest) /\
            elapsed (n_in n) <= elapsed rest + 1) as (b & ch' & rest & -> & He).
  { revert ch. induction (n_in n) as [|[s d|e|] evs IH]; intros ch; simpl in *; [lia| | |].
    - case_decide; [|by apply IH].
      destruct (open_datagram ch d) as [[[env|]|e] ch']; [|by apply IH..].
      eexists _, _, _. split; [done|lia].
    - eexists _, _, _. split; [done|lia].
    - eexists _, _, _. split; [done|lia]. }
  eexists _, _. split; [reflexivity|]. simpl. lia.
Qed.

Lemma costs_msg1_loop tries msg1 cookie rng : costs tries tries (msg1_loop tries msg1 cookie rng).
Proof.
  revert cookie rng. induction tries as [|tries IH]; intros cookie rng; simpl; [apply costs_ret|].
  destruct (shape_hs _ _ _ _) as [wire rng'].
  apply (costs_bind 0 1 (S tries) tries); [apply costs_map_err, costs_send|intros _].
  apply (costs_bind 1 0 tries tries); [apply costs_map_err, costs_recv|intros r].
  repeat case_match; try apply IH; eapply costs_weaken; (apply costs_ret || apply costs_fail || lia).
Qed.

Lemma costs_resend_loop k wire3 ch : costs k k (resend_loop k wire3 ch).
Proof.
  revert ch. induction k as [|k IH]; intros ch; simpl; [apply costs_ret|].
  apply (costs_bind 0 1 (S k) k); [apply costs_send_ignored|intros _].
  apply (costs_bind 1 0 k k); [apply costs_wait_ready|intros [[] ch']]; [|apply IH].
  eapply costs_weaken; [apply costs_ret|lia..].
Qed.

Lemma costs_attempt ent spub cpriv rng : costs 16 16 (attempt ent spub cpriv rng).
Proof.
  unfold attempt. destruct (fill_bytes rng 32) as [seed rng1].
  apply (costs_bind 0 0 16 16); [apply costs_of_res|intros hs].
  apply (costs_bind 0 0 16 16); [apply costs_call|intros [msg1 hs1]].
  apply (costs_bind 12 12 4 4); [apply costs_msg1_loop|intros [[msg2|] rng2]].
  2: eapply costs_weaken; [apply costs_ret|lia..].
  destruct (read_message hs1 msg2) as [[p|] hs2]; [|eapply costs_weaken; [apply costs_ret|lia..]].
  destruct (write_message hs2 seed) as [[msg3|] hs3];
    [|eapply costs_weaken; [apply costs_ret|lia..]].
  unfold finish_attempt. destruct (shape_hs _ _ _ _) as [wire3 rng3].
  apply (costs_bind 0 1 4 3); [apply costs_map_err, costs_send|intros _].
  destruct (derive_record_keys seed) as [c2s s2c].
  apply (costs_bind 1 0 3 3); [apply costs_wait_ready|intros [[] ch]].
  - eapply costs_weaken; [apply costs_ret|lia..].
  - apply (costs_bind 3 3 0 0); [apply costs_resend_loop|intros r; apply costs_ret].
Qed.

Lemma costs_attempts k ents spub cpriv rng :
  costs (16 * k) (16 * k) (attempts k ents spub cpriv rng).
Proof.
  revert rng. induction k as [|k IH]; intros rng; simpl; [apply costs_fail|].
  eapply costs_weaken.
  - apply (costs_bind 16 16 (16 * k) (16 * k)); [apply costs_attempt|].
    intros [[ch|] rng']; [|apply IH]. eapply costs_weaken; [apply costs_ret|lia..].
  - lia.
  - lia.
Qed.

(** C19: whatever the network delivers, the client's
    handshake returns by the time 48 timeouts have expired (12
    retransmissions and 4 waits for the ready record in each of 3 attempts),
    and it never sends more than 48 datagrams. *)
Theorem udp_handshake_terminates ents spub cpriv rng n :
  48 <= elapsed (n_in n) ->
  exists r n', client_udp_handshake ents spub cpriv rng n = (Ready r, n') /\
    length (n_out n') <= length (n_out n) + 48.
Proof.
  intros Hn. destruct (costs_attempts MAX_HANDSHAKE_ATTEMPTS ents spub cpriv rng n Hn)
    as (r & n' & E & _ & ?). by exists r, n'.
Qed.

(** ** Properties of whole runs *)

(** A property of computations that holds of the handshake's building blocks
    and is kept by sequencing holds of the handshake. *)
Record io_closed (P : forall A, IO Net ObfsError A -> Prop) : Prop := {
  ic_ret : forall A (a : A), P A (io_ret a);
  ic_fail : forall A e, P A (io_fail e);
  ic_of_res : forall A (r : Res ObfsError A), P A (io_of_res r);
  ic_call : forall F L A (f : F -> ObfsError) (r : Res F A * L), P (A * L)%type (io_call f r);
  ic_bind : forall A B (m : IO Net ObfsError A) (k : A -> IO Net ObfsError B),
    P A m -> (forall a, P B (k a)) -> P B (io_bind m k);
  ic_send : forall wire, P unit (io_map_err Io (net_send wire server_addr));
  ic_send_ignored : forall wire, P unit (send_ignored wire);
  ic_recv : P (option (Res IoError bytes)) (io_map_err Io (recv_from_server server_addr));
  ic_wait_ready : forall ch, P (bool * DataChannel)%type (wait_ready ch);
}.

Section Closed.
Context (P : forall A, IO Net ObfsError A -> Prop) (HP : io_closed P).

Lemma closed_msg1_loop tries msg1 cookie rng : P _ (msg1_loop tries msg1 cookie rng).
Proof.
  revert cookie rng. induction tries as [|tries IH]; intros cookie rng; simpl; [by apply ic_ret|].
  destruct (shape_hs _ _ _ _) as [wire rng'].
  apply ic_bind; [done|by apply ic_send|intros _].
  apply ic_bind; [done|by apply ic_recv|intros r].
  repeat case_match; (apply IH || by apply ic_ret || by apply ic_fail).
Qed.

Lemma closed_resend_loop k wire3 ch : P _ (resend_loop k wire3 ch).
Proof.
  revert ch. induction k as [|k IH]; intros ch; simpl; [by apply ic_ret|].
  apply ic_bind; [done|by apply ic_send_ignored|intros _].
  apply ic_bind; [done|by apply ic_wait_ready|intros [[] ch']]; [by apply ic_ret|apply IH].
Qed.

Lemma closed_finish_attempt seed msg3 rng : P _ (finish_attempt seed msg3 rng).
Proof.
  unfold finish_attempt. destruct (shape_hs _ _ _ _) as [wire3 rng3].
  apply ic_bind; [done|by apply ic_send|intros _].
  destruct (derive_record_keys seed) as [c2s s2c].
  apply ic_bind; [done|by apply ic_wait_ready|intros [[] ch]]; [by apply ic_ret|].
  apply ic_bind; [done|apply closed_resend_loop|intros r; by apply ic_ret].
Qed.

Lemma closed_attempt ent spub cpriv rng : P _ (attempt ent spub cpriv rng).
Proof.
  unfold attempt. destruct (fill_bytes rng 32) as [seed rng1].
  apply ic_bind; [done|by apply ic_of_res|intros hs].
  apply ic_bind; [done|by apply ic_call|intros [msg1 hs1]].
  apply ic_bind; [done|apply closed_msg1_loop|intros [[msg2|] rng2]]; [|by apply ic_ret].
  destruct (read_message hs1 msg2) as [[p|] hs2]; [|by apply ic_ret].
  destruct (write_message hs2 seed) as [[msg3|] hs3]; [|by apply ic_ret].
  apply closed_finish_attempt.
Qed.

Lemma closed_attempts k ents spub cpriv rng : P _ (attempts k ents spub cpriv rng).
Proof.
  revert rng. induction k as [|k IH]; intros rng; simpl; [by apply ic_fail|].
  apply ic_bind; [done|apply closed_attempt|intros [[ch|] r]]; [by apply ic_ret|apply IH].
Qed.

End Closed.

(** ** Datagrams of other sources *)

(** What is left of a script without the datagrams of other sources. *)
Definition visible (ev : NetEv) : bool :=
  match ev with Got src _ => bool_decide (src = server_addr) | _ => true end.

Definition hide (n : Net) : Net :=
  mkNet (filter (fun ev => visible ev) (n_in n)) (n_send n) (n_out n).

(** [m] does not tell a network from the same network without them. *)
Definition blind {E A} (m : IO Net E A) : Prop := forall n,
  m (hide n) = ((m n).1, hide (m n).2).

Lemma blind_ret {E A} (a : A) : blind (io_ret a : IO Net E A).
Proof. by intros n. Qed.
Lemma blind_fail {E A} (e : E) : blind (io_fail e : IO Net E A).
Proof. by intros n. Qed.
Lemma blind_of_res {E A} (r : Res E A) : blind (io_of_res r : IO Net E A).
Proof. by intros n. Qed.
Lemma blind_call {E F L A} (f : F -> E) (r : Res F A * L) : blind (io_call f r : IO Net E (A * L)).
Proof. intros n. by destruct r as [[]]. Qed.

Lemma blind_bind {E A B} (m : IO Net E A) (k : A -> IO Net E B) :
  blind m -> (forall a, blind (k a)) -> blind (io_bind m k).
Proof.
  intros Hm Hk n. unfold io_bind. rewrite Hm. destruct (m n) as [[[a|e]|] n']; simpl; [|done..].
  apply Hk.
Qed.

Lemma blind_map_err {E F A} (f : E -> F) (m : IO Net E A) : blind m -> blind (io_map_err f m).
Proof.
  intros Hm n. unfold io_map_err. rewrite Hm. by destruct (m n) as [[[a|e]|] n'].
Qed.

Lemma blind_send wire : blind (net_send wire server_addr).
Proof. intros n. unfold net_send. simpl. by destruct (n_send n) as [|[e|] rest]. Qed.

Lemma blind_send_ignored wire : blind (send_ignored wire).
Proof. intros n. unfold send_ignored. by rewrite blind_send. Qed.

Lemma visible_other src data : src <> server_addr -> visible (Got src data) = false.
Proof. intros. simpl. by apply bool_decide_eq_false. Qed.

Lemma blind_recv : blind (recv_from_server server_addr).
Proof.
  intros n. unfold recv_from_server, hide. simpl.
  assert (forall evs, recv_evs server_addr (filter (fun ev => visible ev) evs)
    = ((recv_evs server_addr evs).1, filter (fun ev => visible ev) (recv_evs server_addr evs).2)) as ->.
  { induction evs as [|[s d|e|] evs IH]; [done| |done|done].
    destruct (decide (s = server_addr)) as [->|Hne].
    - rewrite filter_cons_True by (simpl; by rewrite bool_decide_true). simpl.
      by rewrite !decide_True by done.
    - rewrite filter_cons_False by (rewrite visible_other by done; auto). simpl.
      rewrite !decide_False by done. apply IH. }
  by destruct (recv_evs server_addr (n_in n)) as [[] rest].
Qed.

Lemma blind_wait_ready ch : blind (wait_ready ch).
Proof.
  intros n. unfold wait_ready, hide. simpl.
  assert (forall evs ch, ready_evs ch (filter (fun ev => visible ev) evs)
    = ((ready_evs ch evs).1, filter (fun ev => visible ev) (ready_evs ch evs).2)) as ->.
  { induction evs as [|[s d|e|] evs IH]; intros c; [done| |done|done].
    destruct (decide (s = server_addr)) as [->|Hne].
    - rewrite filter_cons_True by (simpl; by rewrite bool_decide_true). simpl.
      rewrite !decide_True by done. by destruct (open_datagram c d) as [[[]|] c'].
    - rewrite filter_cons_False by (rewrite visible_other by done; auto). simpl.
      rewrite !decide_False by done. apply IH. }
  by destruct (ready_evs ch (n_in n)) as [[[] c] rest].
Qed.

Lemma blind_closed : io_closed (fun A => @blind ObfsError A).
Proof.
  split; auto using blind_ret, blind_fail, blind_of_res, blind_call, blind_bind, blind_map_err,
    blind_send, blind_send_ignored, blind_recv, blind_wait_ready.
Qed.

(** Datagrams from any address but the server's
    have no influence on the handshake: on the network without them it gives
    the same result and sends the same datagrams. *)
Lemma foreign_datagrams_ignored ents spub cpriv rng n :
  let '(r, n') := client_udp_handshake ents spub cpriv rng n in
  client_udp_handshake ents spub cpriv rng (hide n) = (r, hide n').
Proof.
  unfold client_udp_handshake.
  rewrite (closed_attempts _ blind_closed MAX_HANDSHAKE_ATTEMPTS ents spub cpriv rng n).
  by destruct (attempts _ _ _ _ _ n).
Qed.

(** ** What success means *)

Lemma open_datagram_frame ch d :
  sealer (open_datagram ch d).2 = sealer ch /\ DataPlane.mimic (open_datagram ch d).2 = DataPlane.mimic ch.
Proof. unfold open_datagram. repeat case_match; done. Qed.

(** A channel after it was fed datagrams. *)
Definition feed (ch : DataChannel) (ds : list bytes) : DataChannel :=
  fold_left (fun c d => (open_datagram c d).2) ds ch.

Lemma feed_frame ch ds :
  sealer (feed ch ds) = sealer ch /\ DataPlane.mimic (feed ch ds) = DataPlane.mimic ch.
Proof.
  revert ch. induction ds as [|d ds IH]; intros ch; [done|]. simpl.
  destruct (IH (open_datagram ch d).2) as [-> ->]. apply open_datagram_frame.
Qed.

(** [ch'] is [ch] after datagrams of the server in [evs], the last of which
    opened. *)
Definition opened_ready (ch ch' : DataChannel) (evs : list NetEv) : Prop :=
  exists ds data env,
    (forall d, d ∈ ds ++ [data] -> Got server_addr d ∈ evs) /\
    open_datagram (feed ch ds) data = (Ok (Some env), ch').

(** [ch'] is [ch] after some datagrams of the server in [evs]. *)
Definition fed (ch ch' : DataChannel) (evs : list NetEv) : Prop :=
  exists ds, (forall d, d ∈ ds -> Got server_addr d ∈ evs) /\ ch' = feed ch ds.

Lemma ready_evs_inv ch evs b ch' rest :
  ready_evs ch evs = (Ready b, ch', rest) ->
  (if b then opened_ready ch ch' evs else fed ch ch' evs) /\ rest `suffix_of` evs.
Proof.
  revert ch. induction evs as [|[s d|e|] evs IH]; intros ch; simpl; [done| | |].
  - case_decide as Es.
    + subst s. destruct (open_datagram ch d) as [[[env|]|e] c] eqn:Eo.
      * intros [= <- <- <-]. split; [|by eexists [_]]. exists [], d, env. split; [|done].
        intros x ->%list_elem_of_singleton. left.
      * intros [H Hs]%IH. split; [|by apply suffix_cons_r].
        destruct b; [destruct H as (ds & data & env & Hin & Ho); exists (d :: ds), data, env
                    |destruct H as (ds & Hin & Ho); exists (d :: ds)];
          simpl; rewrite Eo; (split; [|done]); intros x [->|?]%elem_of_cons; [left|right; auto|left|right; auto].
      * exfalso. revert Eo. unfold open_datagram. repeat case_match; done.
    + intros [H Hs]%IH. split; [|by apply suffix_cons_r].
      destruct b; [destruct H as (ds & data & env & Hin & Ho); exists ds, data, env
                  |destruct H as (ds & Hin & Ho); exists ds]; (split; [|done]); intros x ?; right; auto.
  - intros [= <- <- <-]. split; [|by eexists [_]]. exists []. split; [|done].
    intros d Hd. by apply not_elem_of_nil in Hd.
  - intros [= <- <- <-]. split; [|by eexists [_]]. exists []. split; [|done].
    intros d Hd. by apply not_elem_of_nil in Hd.
Qed.

(** Runs only append to what was sent and only consume what arrives. *)
Definition grows {A} (m : IO Net ObfsError A) : Prop := forall n,
  n_out n `prefix_of` n_out (m n).2 /\ n_in (m n).2 `suffix_of` n_in n.

Lemma recv_evs_suffix src evs : (recv_evs src evs).2 `suffix_of` evs.
Proof.
  induction evs as [|[s d|e|] evs IH]; simpl; [done| |by eexists [_]|by eexists [_]].
  case_decide; simpl; [by eexists [_]|by apply suffix_cons_r].
Qed.

Lemma net_send_grows wire n :
  n_out n `prefix_of` n_out (net_send wire server_addr n).2 /\
  n_in (net_send wire server_addr n).2 = n_in n.
Proof.
  unfold net_send. destruct (n_send n) as [|[e|] rest]; simpl; (split; [|done]);
    [by eexists|done|by eexists].
Qed.

Lemma ready_evs_suffix ch evs : (ready_evs ch evs).2 `suffix_of` evs.
Proof.
  revert ch. induction evs as [|[s d|e|] evs IH]; intros ch; simpl; [done| |by eexists [_]|by eexists [_]].
  case_decide; [|by apply suffix_cons_r].
  destruct (open_datagram ch d) as [[[]|] c]; simpl; [by eexists [_]|by apply suffix_cons_r..].
Qed.

Lemma grows_closed : io_closed (fun A => @grows A).
Proof.
  split.
  - by intros A a n.
  - by intros A e n.
  - by intros A r n.
  - intros F L A f [[a|e] l] n; done.
  - intros A B m k Hm Hk n. unfold io_bind. specialize (Hm n).
    destruct (m n) as [[[a|e]|] n1]; [|done..]. simpl in Hm. destruct Hm as [H1 H2].
    destruct (Hk a n1) as [H3 H4]. split; by etrans.
  - intros wire n. destruct (net_send_grows wire n) as [H1 H2]. unfold io_map_err.
    destruct (net_send wire server_addr n) as [[[a|e]|] n1]; simpl in *; by rewrite H2.
  - intros wire n. unfold send_ignored. simpl. destruct (net_send_grows wire n) as [H1 H2].
    by rewrite H2.
  - intros n. unfold io_map_err, recv_from_server.
    pose proof (recv_evs_suffix server_addr (n_in n)).
    by destruct (recv_evs server_addr (n_in n)) as [[] rest].
  - intros ch n. unfold wait_ready. pose proof (ready_evs_suffix ch (n_in n)).
    by destruct (ready_evs ch (n_in n)) as [[[] c] rest].
Qed.

(** The client's channel for a seed. *)
Definition client_channel (seed : bytes) : DataChannel :=
  data_channel_new (sealer_new (derive_record_keys seed).1)
    (opener_new (derive_record_keys seed).2) mimic.

Lemma suffix_elem (evs evs' : list NetEv) ev : evs' `suffix_of` evs -> ev ∈ evs' -> ev ∈ evs.
Proof. intros [k ->] H. apply elem_of_app. by right. Qed.

Lemma opened_ready_suffix ch ch' evs evs' :
  opened_ready ch ch' evs' -> evs' `suffix_of` evs -> opened_ready ch ch' evs.
Proof.
  intros (ds & data & env & Hin & Ho) Hs. exists ds, data, env. split; [|done].
  intros d Hd. eapply suffix_elem; [done|auto].
Qed.

Lemma fed_opened ch ch1 ch2 evs :
  fed ch ch1 evs -> opened_ready ch1 ch2 evs -> opened_ready ch ch2 evs.
Proof.
  intros (ds & Hin & ->) (ds' & data & env & Hin' & Ho). exists (ds ++ ds'), data, env. split.
  - intros d. rewrite <-app_assoc. intros [?|?]%elem_of_app; auto.
  - unfold feed. by rewrite fold_left_app.
Qed.

Lemma wait_ready_inv ch n b ch' n' :
  wait_ready ch n = (Ready (Ok (b, ch')), n') ->
  (if b then opened_ready ch ch' (n_in n) else fed ch ch' (n_in n)) /\ n_in n' `suffix_of` n_in n.
Proof.
  unfold wait_ready. destruct (ready_evs ch (n_in n)) as [[[b'|] c] rest] eqn:E; [|done].
  intros [= <- <- <-]. by apply ready_evs_inv in E.
Qed.

Lemma resend_loop_inv k wire3 ch n ch' n' :
  resend_loop k wire3 ch n = (Ready (Ok (Some ch')), n') -> opened_ready ch ch' (n_in n).
Proof.
  revert ch n. induction k as [|k IH]; intros ch n; simpl; [done|].
  intros (? & n1 & H1 & ([b c] & n2 & [Hb Hs]%wait_ready_inv & H3)%io_bind_inv)%io_bind_inv.
  assert (n_in n1 = n_in n) as E.
  { unfold send_ignored in H1. injection H1 as _ <-. apply net_send_grows. }
  rewrite E in *. destruct b.
  - by injection H3 as -> <-.
  - eapply fed_opened; [done|]. apply IH in H3. by eapply opened_ready_suffix.
Qed.

Lemma net_send_inv wire n n' :
  net_send wire server_addr n = (Ready (Ok tt), n') ->
  n_out n' = n_out n ++ [(server_addr, wire)] /\ n_in n' = n_in n.
Proof. unfold net_send. destruct (n_send n) as [|[e|] rest]; [|done|]; by intros [= <-]. Qed.

Lemma finish_attempt_inv seed msg3 rng n ch rng' n' :
  finish_attempt seed msg3 rng n = (Ready (Ok (Some ch, rng')), n') ->
  (server_addr, (shape_hs Hs3 msg3 mimic rng).1) ∈ n_out n' /\
  opened_ready (client_channel seed) ch (n_in n).
Proof.
  intros H. pose proof (closed_finish_attempt _ grows_closed seed msg3 rng n) as [_ _].
  unfold finish_attempt in H. destruct (shape_hs Hs3 msg3 mimic rng) as [wire3 rng3].
  apply io_bind_inv in H as ([] & n1 & [Ho Hi]%io_map_err_inv%net_send_inv & H).
  destruct (derive_record_keys seed) as [c2s s2c] eqn:Ek.
  replace (data_channel_new _ _ _) with (client_channel seed) in H
    by (unfold client_channel; by rewrite Ek).
  assert (forall n2, n_out n1 `prefix_of` n_out n2 -> (server_addr, wire3) ∈ n_out n2) as Hmem.
  { intros n2 [k ->]. rewrite Ho. rewrite !elem_of_app, list_elem_of_singleton. auto. }
  apply io_bind_inv in H as ([b c] & n2 & Hw & H).
  pose proof (ic_wait_ready _ grows_closed (client_channel seed) n1) as [Hp _].
  rewrite Hw in Hp. apply wait_ready_inv in Hw as [Hb Hs]. rewrite Hi in *. destruct b.
  - injection H as <- _ <-. auto.
  - apply io_bind_inv in H as (r & n3 & Hr & [= -> _ <-]).
    pose proof (closed_resend_loop _ grows_closed 3 wire3 c n2) as [Hp2 _]. rewrite Hr in Hp2.
    apply resend_loop_inv in Hr. split; [apply Hmem; by etrans|].
    eapply fed_opened; [done|]. by eapply opened_ready_suffix.
Qed.

(** The generator [r'] is [r] after some datagrams were shaped. *)
Inductive shaped (r : Rng) : Rng -> Prop :=
| shaped_none : shaped r r
| shaped_more r' ty msg : shaped r r' -> shaped r (shape_hs ty msg mimic r').2.

(** [r'] is [r] after [j] attempts, each of which has drawn a seed of its own
    and shaped its datagrams. *)
Inductive after_attempts (r : Rng) : nat -> Rng -> Prop :=
| after_none : after_attempts r 0 r
| after_more j r1 r' :
    shaped (fill_bytes r 32).2 r1 -> after_attempts r1 j r' -> after_attempts r (S j) r'.

Lemma shaped_trans r1 r2 r3 : shaped r1 r2 -> shaped r2 r3 -> shaped r1 r3.
Proof. intros H1 H2. induction H2; [done|by constructor]. Qed.

Lemma shaped_one ty msg r wire r' : shape_hs ty msg mimic r = (wire, r') -> shaped r r'.
Proof. intros E. replace r' with (shape_hs ty msg mimic r).2 by (by rewrite E). do 2 constructor. Qed.

Lemma recv_evs_got src evs data rest :
  recv_evs src evs = (Ready (Some (Ok data)), rest) -> exists pre, evs = pre ++ Got src data :: rest.
Proof.
  induction evs as [|[s d|e|] evs IH]; simpl; [done| |done|done].
  case_decide as E; [intros [= -> ->]; subst; by exists []|].
  intros [pre ->]%IH. by exists (Got s d :: pre).
Qed.

(** The loop returns message 2 only off a datagram that arrived from the
    server, and only shapes datagrams with the generator. *)
Lemma msg1_loop_inv tries msg1 cookie rng n r rng' n' :
  msg1_loop tries msg1 cookie rng n = (Ready (Ok (r, rng')), n') ->
  shaped rng rng' /\
  forall msg2, r = Some msg2 -> exists pre w2, n_in n = pre ++ Got server_addr w2 :: n_in n' /\
    unshape_hs w2 mimic = Some (Hs2, msg2).
Proof.
  revert cookie rng n. induction tries as [|tries IH]; intros cookie rng n; cbn [msg1_loop].
  { intros [= <- <- <-]. split; [constructor|done]. }
  destruct (shape_hs Hs1 _ mimic rng) as [wire rng1] eqn:Esh. apply shaped_one in Esh.
  intros ([] & n1 & [_ Hi]%io_map_err_inv%net_send_inv & (res & n2 & Hr%io_map_err_inv & H)%io_bind_inv)%io_bind_inv.
  unfold recv_from_server in Hr. rewrite Hi in Hr.
  pose proof (recv_evs_suffix server_addr (n_in n)) as [sk Hsk].
  destruct (recv_evs server_addr (n_in n)) as [[res'|] rest] eqn:Er; [|done].
  injection Hr as <- <-. simpl in Hsk.
  assert (forall ck, msg1_loop tries msg1 ck rng1 (mkNet rest (n_send n1) (n_out n1))
            = (Ready (Ok (r, rng')), n') ->
          shaped rng rng' /\ forall msg2, r = Some msg2 ->
            exists pre w2, n_in n = pre ++ Got server_addr w2 :: n_in n' /\
              unshape_hs w2 mimic = Some (Hs2, msg2)) as Hrec.
  { intros ck [Hs Hm]%IH. split; [by eapply shaped_trans|]. intros msg2 (pre & w2 & E & Hu)%Hm.
    simpl in E. exists (sk ++ pre), w2. by rewrite Hsk, E, <-app_assoc. }
  destruct res' as [[data|e]|]; [|done|by eapply Hrec].
  destruct (unshape_hs data mimic) as [[[] body]|] eqn:Eu; try (by eapply Hrec).
  injection H as <- <- <-. split; [done|]. intros msg2 [= <-].
  apply recv_evs_got in Er as [pre ->]. by exists pre, data.
Qed.

Lemma finish_attempt_shaped seed msg3 rng n r rng' n' :
  finish_attempt seed msg3 rng n = (Ready (Ok (r, rng')), n') -> shaped rng rng'.
Proof.
  unfold finish_attempt. destruct (shape_hs Hs3 msg3 mimic rng) as [wire3 rng3] eqn:E.
  apply shaped_one in E. intros ([] & n1 & _ & H)%io_bind_inv.
  destruct (derive_record_keys seed) as [c2s s2c].
  apply io_bind_inv in H as ([b c] & n2 & _ & H). destruct b.
  - by injection H as _ <- _.
  - by apply io_bind_inv in H as (r' & n3 & _ & [= _ <- _]).
Qed.

(** What the attempt with generator [r] and randomness [ent] has done when it
    returned the channel [ch]: it drew its seed, started an initiator and sent
    message 1, took message 2 off a datagram of the server, sent message 3 with
    the seed, and opened a record among what arrived after message 2. *)
Definition completed (ent : Entropy) (spub cpriv : bytes) (r : Rng) (ch : DataChannel)
    (evs : list NetEv) (out : list (SocketAddr * bytes)) : Prop :=
  exists seed hs0 msg1 hs1 pre w2 post msg2 p hs2 msg3 hs3 r3,
    seed = (fill_bytes r 32).1 /\
    initiator ent cpriv spub = Ok hs0 /\
    write_message hs0 [] = (Ok msg1, hs1) /\
    evs = pre ++ Got server_addr w2 :: post /\ unshape_hs w2 mimic = Some (Hs2, msg2) /\
    read_message hs1 msg2 = (Ok p, hs2) /\
    write_message hs2 seed = (Ok msg3, hs3) /\
    shaped (fill_bytes r 32).2 r3 /\ (server_addr, (shape_hs Hs3 msg3 mimic r3).1) ∈ out /\
    opened_ready (client_channel seed) ch post.

Lemma attempt_inv ent spub cpriv rng n r rng' n' :
  attempt ent spub cpriv rng n = (Ready (Ok (r, rng')), n') ->
  shaped (fill_bytes rng 32).2 rng' /\
  forall ch, r = Some ch -> completed ent spub cpriv rng ch (n_in n) (n_out n').
Proof.
  intros H. unfold attempt in H. destruct (fill_bytes rng 32) as [seed rng1] eqn:Es.
  apply io_bind_inv in H as (hs0 & n1 & H0 & H).
  unfold io_of_res in H0. injection H0 as H0 <-.
  destruct (initiator ent cpriv spub) as [hs0'|] eqn:Ei; [|done]. injection H0 as ->.
  apply io_bind_inv in H as ([msg1 hs1] & n2 & H1 & H).
  unfold io_call in H1. destruct (write_message hs0 []) as [[m|] h] eqn:Ew; [|done].
  injection H1 as -> -> <-.
  apply io_bind_inv in H as ([msg2 rng2] & n3 & [Hsh Hm2]%msg1_loop_inv & H).
  destruct msg2 as [msg2|]; [|by injection H as <- <- <-].
  destruct (read_message hs1 msg2) as [[p|] hs2] eqn:Er; [|by injection H as <- <- <-].
  destruct (write_message hs2 seed) as [[msg3|] hs3] eqn:Ew3; [|by injection H as <- <- <-].
  split; [eapply shaped_trans; [done|by eapply finish_attempt_shaped]|].
  intros ch ->. destruct (Hm2 msg2 eq_refl) as (pre & w2 & Hin & Hu).
  apply finish_attempt_inv in H as [Hout Hready].
  exists seed, hs0, msg1, hs1, pre, w2, (n_in n3), msg2, p, hs2, msg3, hs3, rng2.
  rewrite Es. by split_and!.
Qed.

Lemma completed_later ent spub cpriv r ch evs evs' out :
  completed ent spub cpriv r ch evs' out -> evs' `suffix_of` evs -> completed ent spub cpriv r ch evs out.
Proof.
  intros (seed & hs0 & msg1 & hs1 & pre & w2 & post & H) [k ->].
  exists seed, hs0, msg1, hs1, (k ++ pre), w2, post.
  destruct H as (msg2 & p & hs2 & msg3 & hs3 & r3 & ? & ? & ? & -> & ? & ? & ? & ? & ? & ?).
  exists msg2, p, hs2, msg3, hs3, r3. rewrite <-app_assoc. by split_and!.
Qed.

Lemma attempts_inv k ents spub cpriv rng n ch rng' n' :
  attempts k ents spub cpriv rng n = (Ready (Ok (ch, rng')), n') ->
  exists j r, j < k /\ after_attempts rng j r /\
    completed (ents (k - 1 - j)) spub cpriv r ch (n_in n) (n_out n').
Proof.
  revert rng n. induction k as [|k IH]; intros rng n; simpl; [done|].
  intros ([r rng1] & n1 & H1 & H2)%io_bind_inv.
  pose proof (closed_attempt _ grows_closed (ents k) spub cpriv rng n) as [_ Hs]. rewrite H1 in Hs.
  apply attempt_inv in H1 as [Hsh Hc]. destruct r as [c|].
  - injection H2 as -> -> ->. exists 0, rng. replace (k - 0 - 0) with k by lia.
    split_and!; [lia|constructor|by apply Hc].
  - apply IH in H2 as (j & r & Hj & Ha & Hd). exists (S j), r.
    replace (k - 0 - S j) with (k - 1 - j) by lia.
    split_and!; [lia|by econstructor|by eapply completed_later].
Qed.

(** C18: the client's handshake succeeds only in one of its three attempts, the
    [j]-th after [j] failed ones.  That attempt drew its seed from the
    generator as the earlier attempts had left it, each having drawn a seed of
    its own; it used its own initiator, whose second message is one that
    arrived in a datagram from the server; it sent the third message with the
    seed to the server; and among what arrived after message 2 a record from
    the server's address opened under the server-to-client key of that very
    seed.  The channel returned seals with the client-to-server key of the
    seed. *)
Theorem udp_handshake_sound ents spub cpriv rng n ch rng' n' :
  client_udp_handshake ents spub cpriv rng n = (Ready (Ok (ch, rng')), n') ->
  exists j r seed hs0 msg1 hs1 pre w2 post msg2 p hs2 msg3 hs3 r3,
    j < 3 /\ after_attempts rng j r /\ seed = (fill_bytes r 32).1 /\
    initiator (ents (2 - j)) cpriv spub = Ok hs0 /\
    write_message hs0 [] = (Ok msg1, hs1) /\
    n_in n = pre ++ Got server_addr w2 :: post /\ unshape_hs w2 mimic = Some (Hs2, msg2) /\
    read_message hs1 msg2 = (Ok p, hs2) /\
    write_message hs2 seed = (Ok msg3, hs3) /\
    shaped (fill_bytes r 32).2 r3 /\ (server_addr, (shape_hs Hs3 msg3 mimic r3).1) ∈ n_out n' /\
    opened_ready (client_channel seed) ch post /\
    sealer ch = sealer_new (derive_record_keys seed).1 /\ DataPlane.mimic ch = mimic.
Proof.
  intros (j & r & Hj & Ha & seed & hs0 & msg1 & hs1 & pre & w2 & post & msg2 & p & hs2 & msg3 & hs3 & r3 & H)%attempts_inv.
  exists j, r, seed, hs0, msg1, hs1, pre, w2, post, msg2, p, hs2, msg3, hs3, r3.
  destruct H as (? & ? & ? & ? & ? & ? & ? & ? & ? & Hr).
  split_and!; try done; destruct Hr as (ds & data & env & _ & Ho);
    pose proof (open_datagram_frame (feed (client_channel seed) ds) data) as [E1 E2];
    pose proof (feed_frame (client_channel seed) ds) as [E3 E4]; rewrite Ho in E1, E2; simpl in *;
    congruence.
Qed.

(** ** An undisturbed run with a cookie challenge *)

Lemma net_send_ok wire n :
  n_send n = [] ->
  net_send wire server_addr n = (Ready (Ok tt), mkNet (n_in n) [] (n_out n ++ [(server_addr, wire)])).
Proof. unfold net_send. by intros ->. Qed.

Lemma recv_got data rest out :
  recv_from_server server_addr (mkNet (Got server_addr data :: rest) [] out)
  = (Ready (Ok (Some (Ok data))), mkNet rest [] out).
Proof. unfold recv_from_server. simpl. by rewrite decide_True. Qed.

(** The initiator's side of one exchange. *)
Definition initiator_run (hs0 : Handshake) (seed msg1 msg2 msg3 : bytes) : Prop :=
  exists hs1 p hs2 hs3,
    write_message hs0 [] = (Ok msg1, hs1) /\ read_message hs1 msg2 = (Ok p, hs2) /\
    write_message hs2 seed = (Ok msg3, hs3).

Lemma msg1_loop_challenged tries msg1 rng w0 c0 c w2 msg2 rest out :
  unshape_hs w0 mimic = Some (Cookie, c0) -> decode_cookie c0 = Some c ->
  unshape_hs w2 mimic = Some (Hs2, msg2) ->
  let '(d1, rng1) := shape_hs Hs1 (encode_msg1_framed msg1 None) mimic rng in
  let '(d2, rng2) := shape_hs Hs1 (encode_msg1_framed msg1 (Some c)) mimic rng1 in
  msg1_loop (S (S tries)) msg1 None rng
    (mkNet (Got server_addr w0 :: Got server_addr w2 :: rest) [] out)
  = (Ready (Ok (Some msg2, rng2)),
     mkNet rest [] (out ++ [(server_addr, d1); (server_addr, d2)])).
Proof.
  intros H0 Hc H2. cbn [msg1_loop]. destruct (shape_hs Hs1 _ mimic rng) as [d1 rng1].
  destruct (shape_hs Hs1 (encode_msg1_framed msg1 (Some c)) mimic rng1) as [d2 rng2] eqn:E2.
  erewrite io_bind_ok by (by apply io_map_err_ok, net_send_ok). cbv beta. simpl n_in. simpl n_out.
  erewrite io_bind_ok by (by apply io_map_err_ok, recv_got). cbv beta iota.
  rewrite H0, Hc, E2.
  erewrite io_bind_ok by (by apply io_map_err_ok, net_send_ok). cbv beta. simpl n_in. simpl n_out.
  erewrite io_bind_ok by (by apply io_map_err_ok, recv_got). cbv beta iota.
  rewrite H2, <-app_assoc. done.
Qed.

Lemma udp_client_run ents spub cpriv rng seed rng0 hs0 msg1 msg2 msg3 w0 c0 c w2 ready env ch rest out :
  fill_bytes rng 32 = (seed, rng0) ->
  initiator (ents 2) cpriv spub = Ok hs0 ->
  initiator_run hs0 seed msg1 msg2 msg3 ->
  unshape_hs w0 mimic = Some (Cookie, c0) -> decode_cookie c0 = Some c ->
  unshape_hs w2 mimic = Some (Hs2, msg2) ->
  open_datagram (client_channel seed) ready = (Ok (Some env), ch) ->
  let '(d1, rng1) := shape_hs Hs1 (encode_msg1_framed msg1 None) mimic rng0 in
  let '(d2, rng2) := shape_hs Hs1 (encode_msg1_framed msg1 (Some c)) mimic rng1 in
  let '(d3, rng3) := shape_hs Hs3 msg3 mimic rng2 in
  client_udp_handshake ents spub cpriv rng
    (mkNet (Got server_addr w0 :: Got server_addr w2 :: Got server_addr ready :: rest) [] out)
  = (Ready (Ok (ch, rng3)),
     mkNet rest [] (out ++ [(server_addr, d1); (server_addr, d2); (server_addr, d3)])).
Proof.
  intros Hf Hi (hs1 & p & hs2 & hs3 & Hw1 & Hr2 & Hw3) H0 Hc H2 Ho.
  pose proof (msg1_loop_challenged 10 msg1 rng0 w0 c0 c w2 msg2 (Got server_addr ready :: rest) out
                H0 Hc H2) as Hloop.
  destruct (shape_hs Hs1 _ mimic rng0) as [d1 rng1].
  destruct (shape_hs Hs1 _ mimic rng1) as [d2 rng2].
  destruct (shape_hs Hs3 msg3 mimic rng2) as [d3 rng3] eqn:E3.
  unfold client_udp_handshake. cbn [attempts MAX_HANDSHAKE_ATTEMPTS].
  match goal with |- _ = (_, ?nf) => rewrite (io_bind_ok _ _ _ (Some ch, rng3) nf); [done|] end.
  unfold attempt. rewrite Hf.
  erewrite io_bind_ok by (unfold io_of_res; by rewrite Hi).
  erewrite io_bind_ok by (by apply io_call_ok). cbv beta iota.
  erewrite io_bind_ok by exact Hloop. cbv beta iota. rewrite Hr2, Hw3.
  unfold finish_attempt. rewrite E3.
  erewrite io_bind_ok by (by apply io_map_err_ok, net_send_ok). cbv beta. simpl n_in. simpl n_out.
  unfold client_channel in Ho. destruct (derive_record_keys seed) as [c2s s2c].
  match goal with |- _ = (_, ?nf) => rewrite (io_bind_ok _ _ _ (true, ch) nf); [done|] end.
  unfold wait_ready. simpl. rewrite decide_True by done.
  simpl in Ho. rewrite Ho. by rewrite <-app_assoc.
Qed.

End UdpConnect.

(** ** Concrete runs *)

Module UdpConnectRuns.
Import Ref.

Definition cpriv : bytes := str "client".
Definition spub : bytes := pub_of (str "server").
Definition saddr : SocketAddr := V4 xc0 x00 x02 x01 443.
Definition other : SocketAddr := V4 x0a x00 x00 x01 53.

(** A network where nothing arrives. *)
Definition silence : Net := mkNet (repeat Elapsed 48) [] [].

Lemma udp_handshake_terminates_witness :
  exists r n',
    client_udp_handshake saddr marked (fun _ => 0) spub cpriv 0 silence = (Ready r, n') /\
    length (n_out n') <= length (n_out silence) + 48.
Proof.
  refine (udp_handshake_terminates saddr marked (fun _ => 0) spub cpriv 0 silence _).
  vm_compute. lia.
Defined.

(** In silence the bound is met by the 36 retransmissions of message 1. *)
Lemma silence_exhausts :
  (client_udp_handshake saddr marked (fun _ => 0) spub cpriv 0 silence).1
    = Ready (Err (HandshakeFailed (str "handshake exhausted all attempts"))) /\
  length (n_out (client_udp_handshake saddr marked (fun _ => 0) spub cpriv 0 silence).2) = 36.
Proof. split; reflexivity. Qed.

(** The first attempt gets no answer; in the second, message 2 arrives after
    one lost transmission and a stray datagram, then the ready record.  The seed
    is the second one drawn. *)
Definition seed : bytes := repeat x01 32.
Definition ready : bytes :=
  xc0 :: encode_inner Data ((derive_record_keys seed).2 ++ [x00; x08]).
Definition talk : Net :=
  mkNet (repeat Elapsed 12 ++
         [Elapsed; Got other [xc0; x02; x02]; Got saddr [xc0; x02; x02]; Got saddr ready]) [] [].
Definition chan : DataChannel :=
  data_channel_new (mkRSealer (derive_record_keys seed).1 0)
    (mkROpener (derive_record_keys seed).2 [x00]) marked.

Lemma udp_handshake_sound_witness :
  exists j r seed hs0 msg1 hs1 pre w2 post msg2 p hs2 msg3 hs3 r3,
    j < 3 /\ after_attempts marked 0 j r /\ seed = (fill_bytes r 32).1 /\
    initiator ((fun _ => 0) (2 - j)) cpriv spub = Ok hs0 /\
    write_message hs0 [] = (Ok msg1, hs1) /\
    n_in talk = pre ++ Got saddr w2 :: post /\ unshape_hs w2 marked = Some (Hs2, msg2) /\
    read_message hs1 msg2 = (Ok p, hs2) /\
    write_message hs2 seed = (Ok msg3, hs3) /\
    shaped marked (fill_bytes r 32).2 r3 /\
    (saddr, (shape_hs Hs3 msg3 marked r3).1) ∈
      n_out (client_udp_handshake saddr marked (fun _ => 0) spub cpriv 0 talk).2 /\
    opened_ready saddr (client_channel marked seed) chan post /\
    sealer chan = sealer_new (derive_record_keys seed).1 /\ mimic chan = marked.
Proof.
  refine (udp_handshake_sound saddr marked (fun _ => 0) spub cpriv 0 talk chan 2
            (client_udp_handshake saddr marked (fun _ => 0) spub cpriv 0 talk).2 _).
  reflexivity.
Defined.

End UdpConnectRuns.
