(* ===== verification/UdpServer.v ===== *)
(** * The UDP server

    [src/udp/server.rs]: the receive loop with its half-open handshakes and
    its peers, the per-peer sealer tasks, the subscription forwarders, the
    send loop and the rotation of the cookie secret.

    The receive loop owns [pending], [peers] and its generator; the channels
    ([Arc<DataChannel>]) and the outbound queues ([ev_tx]) are shared with the
    spawned tasks, so they live in stores of the server state and peers, tasks
    and forwarders hold indices into them.  Each task advances by steps of its
    own; a run is a sequence of steps in any order. *)

From S2P Require Import Prelude RustStd Externals Envelope Verifier UdpWire DataPlane.
From S2P Require Import UdpHandshake.

(** Instants and durations in nanoseconds. *)
Definition from_secs (n : Z) : Z := (n * 1000000000)%Z.
Definition duration_since (now earlier : Z) : Z := Z.max 0 (now - earlier).

Definition MAX_PEERS : Z := 1024.
Definition MAX_PENDING : Z := 2048.
Definition PENDING_SOFT_LIMIT : Z := 256.
Definition PEER_IDLE_TIMEOUT : Z := from_secs 120.
Definition COOKIE_ROTATE_INTERVAL : Z := from_secs 120.

(** [HashMap::len]. *)
Definition map_len {A} (m : gmap SocketAddr A) : Z := Z.of_nat (size m).

Section UdpServer.
Context {WA : WireApi} {CA : CoreApi} {SA : SerdeApi}.

(** [PendingHandshake]. *)
Record PendingHandshake : Type := mkPending {
  ph_responder : Handshake;
  created_at : Z;
}.

(** [PeerState]: [channel] and [outbound_tx] are indices into the stores. *)
Record PeerState : Type := mkPeer {
  channel : nat;
  last_seen : Z;
  outbound_tx : nat;
}.

(** The event sender task of one peer: the receiving end of its queue. *)
Record SealerTask : Type := mkTask {
  st_dst : SocketAddr;
  st_chan : nat;
  st_queue : list Envelope;
  st_rng : Rng;
  st_done : bool;
}.

(** A subscription forwarder: it holds a sender of a sealer task's queue. *)
Record Forwarder : Type := mkForwarder {
  fw_topic : Topic;
  fw_source : EventSource;
  fw_tx : nat;
  fw_done : bool;
}.

Record Server : Type := mkServer {
  pending : gmap SocketAddr PendingHandshake;
  peers : gmap SocketAddr PeerState;
  rng : Rng;
  service : Service;
  cookie_secret : CookieSecret;
  chans : list DataChannel;
  tasks : list SealerTask;
  forwarders : list Forwarder;
  out_queue : list (SocketAddr * bytes);   (** [out_tx], read by the send loop *)
  sent : list (SocketAddr * bytes);        (** handed to the socket *)
  receiving : bool;                        (** [recv_task] is running *)
  rotating : bool;                         (** [rotate_task] is running *)
}.

Definition set_pending (m : gmap SocketAddr PendingHandshake) (sv : Server) : Server :=
  mkServer m (peers sv) (rng sv) (service sv) (cookie_secret sv) (chans sv) (tasks sv)
    (forwarders sv) (out_queue sv) (sent sv) (receiving sv) (rotating sv).
Definition set_peers (m : gmap SocketAddr PeerState) (sv : Server) : Server :=
  mkServer (pending sv) m (rng sv) (service sv) (cookie_secret sv) (chans sv) (tasks sv)
    (forwarders sv) (out_queue sv) (sent sv) (receiving sv) (rotating sv).
Definition set_rng (r : Rng) (sv : Server) : Server :=
  mkServer (pending sv) (peers sv) r (service sv) (cookie_secret sv) (chans sv) (tasks sv)
    (forwarders sv) (out_queue sv) (sent sv) (receiving sv) (rotating sv).
Definition set_service (s : Service) (sv : Server) : Server :=
  mkServer (pending sv) (peers sv) (rng sv) s (cookie_secret sv) (chans sv) (tasks sv)
    (forwarders sv) (out_queue sv) (sent sv) (receiving sv) (rotating sv).
Definition set_secret (c : CookieSecret) (sv : Server) : Server :=
  mkServer (pending sv) (peers sv) (rng sv) (service sv) c (chans sv) (tasks sv)
    (forwarders sv) (out_queue sv) (sent sv) (receiving sv) (rotating sv).
Definition set_chans (cs : list DataChannel) (sv : Server) : Server :=
  mkServer (pending sv) (peers sv) (rng sv) (service sv) (cookie_secret sv) cs (tasks sv)
    (forwarders sv) (out_queue sv) (sent sv) (receiving sv) (rotating sv).
Definition set_tasks (ts : list SealerTask) (sv : Server) : Server :=
  mkServer (pending sv) (peers sv) (rng sv) (service sv) (cookie_secret sv) (chans sv) ts
    (forwarders sv) (out_queue sv) (sent sv) (receiving sv) (rotating sv).
Definition set_forwarders (fs : list Forwarder) (sv : Server) : Server :=
  mkServer (pending sv) (peers sv) (rng sv) (service sv) (cookie_secret sv) (chans sv)
    (tasks sv) fs (out_queue sv) (sent sv) (receiving sv) (rotating sv).
Definition set_out (o : list (SocketAddr * bytes)) (sv : Server) : Server :=
  mkServer (pending sv) (peers sv) (rng sv) (service sv) (cookie_secret sv) (chans sv)
    (tasks sv) (forwarders sv) o (sent sv) (receiving sv) (rotating sv).

Definition set_running (recv rot : bool) (sv : Server) : Server :=
  mkServer (pending sv) (peers sv) (rng sv) (service sv) (cookie_secret sv) (chans sv)
    (tasks sv) (forwarders sv) (out_queue sv) (sent sv) recv rot.

(** [let _ = sock.send_to(&wire, dst).await]. *)
Definition send_to (wire : bytes) (dst : SocketAddr) (sv : Server) : Server :=
  mkServer (pending sv) (peers sv) (rng sv) (service sv) (cookie_secret sv) (chans sv)
    (tasks sv) (forwarders sv) (out_queue sv) (sent sv ++ [(dst, wire)])
    (receiving sv) (rotating sv).

(** [if let Ok(wire) = ch.seal_envelope(&env, rng) { sock.send_to(&wire, dst) }],
    on the shared channel [c]. *)
Definition seal_and_send (c : nat) (env : Envelope) (dst : SocketAddr) (sv : Server) : Server :=
  match chans sv !! c with
  | None => sv
  | Some ch =>
      match seal_envelope ch env (rng sv) with
      | (Ok wire, ch', rng') => send_to wire dst (set_rng rng' (set_chans (<[c := ch']> (chans sv)) sv))
      | (Err _, ch', rng') => set_rng rng' (set_chans (<[c := ch']> (chans sv)) sv)
      end
  end.

(** [ev_tx.send(env)].  The receiver is the sealer task, which ends only when
    no sender is left, so a send never fails. *)
Definition enqueue (env : Envelope) (t : SealerTask) : SealerTask :=
  mkTask (st_dst t) (st_chan t) (st_queue t ++ [env]) (st_rng t) (st_done t).

Definition ev_send (t : nat) (env : Envelope) (sv : Server) : Server :=
  set_tasks (alter (enqueue env) t (tasks sv)) sv.

(** How a branch of [handle_dgram] ends: at a [return], or at the end of the
    [match], from where the clean-up follows. *)
Inductive Flow : Type :=
| Return (sv : Server)
| Fall (sv : Server).

(** What a call of [handle_dgram] draws from its surroundings: the responder's
    randomness, the seed of a new sealer task's generator, and the readings of
    the clock in the branch and at the clean-up. *)
Record Ambient : Type := mkAmbient {
  am_entropy : Entropy;
  am_task_rng : Rng;
  am_now : Z;
  am_cleanup : Z;
}.

Section Handler.
Context {G L : Type} {TG : TransportGate G} {LG : LoadGate L}.
Context (server_priv : bytes) (gate : G) (load : L) (profile : DatagramMimicry).

(** The [DgramType::Hs1] branch. *)
Definition on_hs1 (am : Ambient) (body : bytes) (src : SocketAddr) (sv : Server) : Flow :=
  if (MAX_PEERS <=? map_len (peers sv))%Z then Return sv
  else
    let effective_under_load :=
      under_load load || (PENDING_SOFT_LIMIT <=? map_len (pending sv))%Z in
    let '(result, rng') :=
      if effective_under_load
      then process_hs1 (am_entropy am) body src server_priv (cookie_secret sv)
             always_under_load profile (rng sv)
      else process_hs1 (am_entropy am) body src server_priv (cookie_secret sv)
             always_open profile (rng sv) in
    let sv := set_rng rng' sv in
    match result with
    | Ok (Some (CookieReply wire)) => Fall (send_to wire src sv)
    | Ok (Some (PartialHandshake responder msg2 _)) =>
        if (MAX_PENDING <=? map_len (pending sv))%Z && negb (bool_decide (is_Some (pending sv !! src)))
        then Return sv
        else Fall (send_to msg2 src
                     (set_pending (<[src := mkPending responder (am_now am)]> (pending sv)) sv))
    | _ => Fall sv
    end.

(** The [DgramType::Hs3] branch. *)
Definition on_hs3 (am : Ambient) (body : bytes) (src : SocketAddr) (sv : Server) : Flow :=
  match pending sv !! src with
  | None => Return sv
  | Some ph =>
      let sv := set_pending (delete src (pending sv)) sv in
      match complete_handshake_msg3 (ph_responder ph) body profile with
      | (Ok (ch, client_static), _) =>
          match authenticate gate client_static with
          | Err _ => Return sv
          | Ok _ =>
              let c := length (chans sv) in
              let sv := set_chans (chans sv ++ [ch]) sv in
              let sv := seal_and_send c EPong src sv in
              let t := length (tasks sv) in
              let sv := set_tasks (tasks sv ++ [mkTask src c [] (am_task_rng am) false]) sv in
              Fall (set_peers (<[src := mkPeer c (am_now am) t]> (peers sv)) sv)
          end
      | (Err _, _) => Fall sv
      end
  end.

(** The [Envelope::Subscribe] arm of the data branch. *)
Definition on_subscribe (topic : Topic) (capability : option Capability) (ev_tx : nat)
    (sv : Server) : Server :=
  match verify_topic (service sv) capability topic with
  | Err err =>
      let diag := match core_auth err with
                  | Some d => d
                  | None => diagnostic_error FORBIDDEN (str "subscription denied")
                  end in
      ev_send ev_tx (ESubscribeError topic diag) sv
  | Ok _ =>
      match event_source (service sv) topic with
      | Some event_src =>
          set_forwarders (forwarders sv ++ [mkForwarder topic event_src ev_tx false]) sv
      | None => sv
      end
  end.

(** The [match env] of the data branch; [c] and [ev_tx] are the peer's channel
    and queue. *)
Definition on_envelope (env : Envelope) (c ev_tx : nat) (src : SocketAddr) (sv : Server) : Server :=
  match env with
  | EPing => seal_and_send c EPong src sv
  | ERequest req =>
      let '(resp, service') := handle (service sv) req in
      seal_and_send c (EResponse resp) src (set_service service' sv)
  | ESubscribe topic _ capability => on_subscribe topic capability ev_tx sv
  | EUnsubscribe _ => sv
  | _ => sv
  end.

(** The [DgramType::Data] branch. *)
Definition on_data (am : Ambient) (dgram : bytes) (src : SocketAddr) (sv : Server) : Flow :=
  match peers sv !! src with
  | None => Return sv
  | Some peer =>
      let peer := mkPeer (channel peer) (am_now am) (outbound_tx peer) in
      let sv := set_peers (<[src := peer]> (peers sv)) sv in
      match chans sv !! channel peer with
      | None => Return sv
      | Some ch =>
          let '(r, ch') := open_datagram ch dgram in
          let sv := set_chans (<[channel peer := ch']> (chans sv)) sv in
          match r with
          | Ok (Some env) => Fall (on_envelope env (channel peer) (outbound_tx peer) src sv)
          | _ => Return sv
          end
      end
  end.

(** The end of [handle_dgram]. *)
Definition pending_live (now : Z) (ph : PendingHandshake) : bool :=
  (duration_since now (created_at ph) <? from_secs 5)%Z.
Definition peer_live (now : Z) (p : PeerState) : bool :=
  (duration_since now (last_seen p) <? PEER_IDLE_TIMEOUT)%Z.

Definition cleanup (now : Z) (sv : Server) : Server :=
  let sv := set_pending (filter (fun kv => pending_live now kv.2) (pending sv)) sv in
  set_peers (filter (fun kv => peer_live now kv.2) (peers sv)) sv.

(** [handle_dgram]. *)
Definition handle_dgram (am : Ambient) (dgram : bytes) (src : SocketAddr) (sv : Server) : Server :=
  match shape_in profile dgram with
  | None => sv
  | Some inner =>
      match decode_inner inner with
      | None => sv
      | Some (ty, body) =>
          let flow := match ty with
                      | Hs1 => on_hs1 am body src sv
                      | Hs3 => on_hs3 am body src sv
                      | Data => on_data am dgram src sv
                      | _ => Fall sv
                      end in
          match flow with
          | Return sv => sv
          | Fall sv => cleanup (am_cleanup am) sv
          end
      end
  end.

(** ** The tasks *)

(** Is a sender of queue [i] left?  A peer of the map or a running forwarder
    holds one. *)
Definition has_sender (i : nat) (sv : Server) : bool :=
  existsb (fun kv => outbound_tx kv.2 =? i) (map_to_list (peers sv)) ||
  existsb (fun f => negb (fw_done f) && (fw_tx f =? i)) (forwarders sv).

(** One turn of an event sender task: [ev_rx.recv().await] yields the next
    envelope, yields [None] when the queue is empty and no sender is left, or
    waits. *)
Definition sealer_step (i : nat) (sv : Server) : Server :=
  match tasks sv !! i with
  | None => sv
  | Some t =>
      if st_done t then sv
      else
        match st_queue t, chans sv !! st_chan t with
        | env :: q, Some ch =>
            let '(r, ch', rng') := seal_envelope ch env (st_rng t) in
            let sv := set_chans (<[st_chan t := ch']> (chans sv)) sv in
            let sv := set_tasks (<[i := mkTask (st_dst t) (st_chan t) q rng' false]> (tasks sv)) sv in
            match r with
            | Ok wire => set_out (out_queue sv ++ [(st_dst t, wire)]) sv
            | Err _ => sv
            end
        | [], _ =>
            if has_sender i sv then sv
            else set_tasks (<[i := mkTask (st_dst t) (st_chan t) [] (st_rng t) true]> (tasks sv)) sv
        | _, None => sv
        end
  end.

(** What [rx.recv().await] of a broadcast receiver yields. *)
Inductive BroadcastRecv : Type :=
| RecvEvent (ev : Event)
| RecvLagged
| RecvClosed.

(** One turn of a subscription forwarder. *)
Definition forward_step (j : nat) (r : BroadcastRecv) (sv : Server) : Server :=
  match forwarders sv !! j with
  | None => sv
  | Some f =>
      if fw_done f then sv
      else
        match r with
        | RecvEvent ev =>
            if decide (event_topic ev = fw_topic f) then ev_send (fw_tx f) (EEvent ev) sv else sv
        | RecvLagged => sv
        | RecvClosed =>
            set_forwarders (<[j := mkForwarder (fw_topic f) (fw_source f) (fw_tx f) true]>
                              (forwarders sv)) sv
        end
  end.

(** One turn of the send loop. *)
Definition send_loop_step (sv : Server) : Server :=
  match out_queue sv with
  | [] => sv
  | (dst, data) :: q => send_to data dst (set_out q sv)
  end.

(** One tick of [spawn_cookie_rotation], with the seed it drew. *)
Definition rotate_step (seed : bytes) (sv : Server) : Server :=
  if rotating sv then set_secret (cookie_rotate (cookie_secret sv) seed) sv else sv.

(** The end of the receive task: its maps are dropped with it, and with them
    the senders of the peers' queues. *)
Definition stop_receiving (sv : Server) : Server :=
  set_running false (rotating sv) (set_peers empty (set_pending empty sv)).

(** One turn of the receive loop: a datagram, or the error that ends it. *)
Definition recv_step (am : Ambient) (r : option (bytes * SocketAddr)) (sv : Server) : Server :=
  if receiving sv then
    match r with
    | None => stop_receiving sv
    | Some (dgram, src) => handle_dgram am dgram src sv
    end
  else sv.

(** [UdpServeHandle::shutdown], also run on drop. *)
Definition shutdown (sv : Server) : Server := set_running false false (stop_receiving sv).

(** The steps of the server; any order of them is a run. *)
Inductive Step : Type :=
| SRecv (am : Ambient) (r : option (bytes * SocketAddr))
| SSeal (i : nat)
| SForward (j : nat) (r : BroadcastRecv)
| SSend
| SRotate (seed : bytes)
| SShutdown.

Definition step (s : Step) (sv : Server) : Server :=
  match s with
  | SRecv am r => recv_step am r sv
  | SSeal i => sealer_step i sv
  | SForward j r => forward_step j r sv
  | SSend => send_loop_step sv
  | SRotate seed => rotate_step seed sv
  | SShutdown => shutdown sv
  end.

Definition run (ss : list Step) (sv : Server) : Server := fold_left (fun sv s => step s sv) ss sv.

(** The state [serve_obfs_udp] starts from. *)
Definition serve_obfs_udp (seed : bytes) (rng0 : Rng) (svc : Service) : Server :=
  mkServer empty empty rng0 svc (cookie_secret_new seed) [] [] [] [] [] true true.

(** [UdpServeHandle]; the tasks it aborts are [receiving] and [rotating]. *)
Record UdpServeHandle : Type := mkUdpServeHandle { uh_local_addr : SocketAddr }.

(** [serve_obfs_udp] as its caller sees it: [bound] is what [UdpSocket::bind]
    returns and [addr] what [local_addr] of the socket does. *)
Definition bind_obfs_udp (bound : Res IoError unit) (addr : Res IoError SocketAddr)
    (seed : bytes) (rng0 : Rng) (svc : Service) : Res ObfsError (UdpServeHandle * Server) :=
  match bound with
  | Err e => Err (Io e)
  | Ok _ =>
      match addr with
      | Err e => Err (Io e)
      | Ok local_addr => Ok (mkUdpServeHandle local_addr, serve_obfs_udp seed rng0 svc)
      end
  end.

(** States reachable from it. *)
Inductive reachable : Server -> Prop :=
| reach_init seed rng0 svc : reachable (serve_obfs_udp seed rng0 svc)
| reach_step s sv : reachable sv -> reachable (step s sv).

(** ** What the building blocks leave alone *)

(** Sending and sealing change the channels in place, the generator and what
    was sent; nothing else. *)
Lemma seal_and_send_frame c env dst sv :
  pending (seal_and_send c env dst sv) = pending sv /\
  peers (seal_and_send c env dst sv) = peers sv /\
  service (seal_and_send c env dst sv) = service sv /\
  length (chans (seal_and_send c env dst sv)) = length (chans sv) /\
  tasks (seal_and_send c env dst sv) = tasks sv /\
  forwarders (seal_and_send c env dst sv) = forwarders sv.
Proof.
  unfold seal_and_send. destruct (chans sv !! c); [|done].
  destruct (seal_envelope _ _ _) as [[[]] ?]; simpl; rewrite ?length_insert; done.
Qed.

Lemma seal_and_send_pending c env dst sv : pending (seal_and_send c env dst sv) = pending sv.
Proof. apply seal_and_send_frame. Qed.
Lemma seal_and_send_peers c env dst sv : peers (seal_and_send c env dst sv) = peers sv.
Proof. apply seal_and_send_frame. Qed.
Lemma seal_and_send_chans c env dst sv :
  length (chans (seal_and_send c env dst sv)) = length (chans sv).
Proof. apply seal_and_send_frame. Qed.
Lemma seal_and_send_tasks c env dst sv : tasks (seal_and_send c env dst sv) = tasks sv.
Proof. apply seal_and_send_frame. Qed.
Lemma seal_and_send_forwarders c env dst sv :
  forwarders (seal_and_send c env dst sv) = forwarders sv.
Proof. apply seal_and_send_frame. Qed.
Hint Rewrite seal_and_send_pending seal_and_send_peers seal_and_send_chans
  seal_and_send_tasks seal_and_send_forwarders @length_insert @length_alter : frame.

(** An envelope from a peer touches neither map. *)
Lemma on_envelope_maps env c t src sv :
  pending (on_envelope env c t src sv) = pending sv /\
  peers (on_envelope env c t src sv) = peers sv /\
  length (chans (on_envelope env c t src sv)) = length (chans sv).
Proof.
  destruct env; simpl; autorewrite with frame; try done.
  - destruct (handle _ _). by autorewrite with frame.
  - unfold on_subscribe. by repeat case_match.
Qed.

(** ** Bounds *)

(** The maps of the receive loop are bounded: [MAX_PENDING] half-open
    handshakes, and [MAX_PEERS - 1] peers on top of them. *)
Definition bounded (sv : Server) : Prop :=
  (map_len (pending sv) <= MAX_PENDING)%Z /\
  (map_len (peers sv) + map_len (pending sv) <= MAX_PEERS - 1 + MAX_PENDING)%Z.

Lemma map_len_filter {A} (P : SocketAddr * A -> Prop) `{!forall x, Decision (P x)}
    (m : gmap SocketAddr A) : (map_len (filter P m) <= map_len m)%Z.
Proof.
  unfold map_len. apply inj_le, map_subseteq_size, map_filter_subseteq.
Qed.

Lemma map_len_insert {A} (m : gmap SocketAddr A) k x :
  map_len (<[k := x]> m) = (if decide (is_Some (m !! k)) then map_len m else map_len m + 1)%Z.
Proof.
  unfold map_len. rewrite map_size_insert. destruct (m !! k); simpl; lia.
Qed.

Lemma map_len_delete {A} (m : gmap SocketAddr A) k :
  is_Some (m !! k) -> map_len (delete k m) = (map_len m - 1)%Z.
Proof.
  intros [x H]. unfold map_len. rewrite map_size_delete, H.
  assert (size m <> 0) by (intros E%map_size_empty_inv; by rewrite E, lookup_empty in H). lia.
Qed.

Lemma cleanup_bounded now sv : bounded sv -> bounded (cleanup now sv).
Proof.
  unfold bounded, cleanup. simpl.
  pose proof (map_len_filter (fun kv => pending_live now kv.2) (pending sv)).
  pose proof (map_len_filter (fun kv => peer_live now kv.2) (peers sv)). lia.
Qed.

Definition flow_sv (f : Flow) : Server := match f with Return sv | Fall sv => sv end.

Lemma on_hs1_bounded am body src sv : bounded sv -> bounded (flow_sv (on_hs1 am body src sv)).
Proof.
  unfold on_hs1, bounded. intros [Hp Hs]. destruct (Z.leb_spec MAX_PEERS (map_len (peers sv)));
    [done|].
  destruct (if _ : bool then _ else _) as [[[[]|]|] rng']; try done. simpl.
  destruct (Z.leb_spec MAX_PENDING (map_len (pending sv))); simpl;
    [case_bool_decide as Hin; simpl|]; rewrite ?map_len_insert; try done.
  - by rewrite decide_True.
  - case_decide; lia.
Qed.

Lemma on_hs3_bounded am body src sv : bounded sv -> bounded (flow_sv (on_hs3 am body src sv)).
Proof.
  unfold on_hs3, bounded. intros [Hp Hs]. destruct (pending sv !! src) eqn:E; [|done].
  pose proof (map_len_delete (pending sv) src ltac:(by eexists)).
  destruct (complete_handshake_msg3 _ _ _) as [[[ch k]|] ?]; [|simpl; lia].
  destruct (authenticate gate k); simpl; [|lia].
  autorewrite with frame. simpl. rewrite map_len_insert. case_decide; lia.
Qed.

Lemma on_data_bounded am dgram src sv : bounded sv -> bounded (flow_sv (on_data am dgram src sv)).
Proof.
  unfold on_data, bounded. intros [Hp Hs]. destruct (peers sv !! src) eqn:E; [|done]. simpl.
  assert (map_len (<[src := mkPeer (channel p) (am_now am) (outbound_tx p)]> (peers sv))
          = map_len (peers sv)) as Hl by (rewrite map_len_insert; by rewrite decide_True by eauto).
  destruct (chans sv !! channel p); simpl; [|by rewrite Hl].
  destruct (open_datagram _ _) as [[[env|]|] ch']; simpl; rewrite ?Hl; try done.
  destruct (on_envelope_maps env (channel p) (outbound_tx p) src
    (set_chans (<[channel p:=ch']> (chans sv))
       (set_peers (<[src:=mkPeer (channel p) (am_now am) (outbound_tx p)]> (peers sv)) sv)))
    as (-> & -> & _). simpl. by rewrite Hl.
Qed.

(** A predicate that the branches and the clean-up preserve is preserved by
    [handle_dgram]. *)
Lemma handle_dgram_preserves (P : Server -> Prop) am dgram src sv :
  (forall body, P sv -> P (flow_sv (on_hs1 am body src sv))) ->
  (forall body, P sv -> P (flow_sv (on_hs3 am body src sv))) ->
  (P sv -> P (flow_sv (on_data am dgram src sv))) ->
  (forall now sv', P sv' -> P (cleanup now sv')) ->
  P sv -> P (handle_dgram am dgram src sv).
Proof.
  intros H1 H3 Hd Hc HP. unfold handle_dgram.
  destruct (shape_in profile dgram) as [inner|]; [|done].
  destruct (decode_inner inner) as [[ty body]|]; [|done].
  specialize (H1 body HP). specialize (H3 body HP). specialize (Hd HP).
  destruct ty.
  - destruct (on_hs1 am body src sv); simpl in *; auto.
  - auto.
  - destruct (on_hs3 am body src sv); simpl in *; auto.
  - auto.
  - destruct (on_data am dgram src sv); simpl in *; auto.
Qed.

(** The tasks leave both maps alone. *)
Lemma sealer_step_maps i sv :
  pending (sealer_step i sv) = pending sv /\ peers (sealer_step i sv) = peers sv.
Proof.
  unfold sealer_step. destruct (tasks sv !! i) as [t|]; [|done].
  destruct (st_done t); [done|]. destruct (st_queue t) as [|env q].
  - by destruct (has_sender i sv).
  - destruct (chans sv !! st_chan t); [|done].
    by destruct (seal_envelope _ _ _) as [[[]] ?].
Qed.

Lemma forward_step_maps j r sv :
  pending (forward_step j r sv) = pending sv /\ peers (forward_step j r sv) = peers sv.
Proof.
  unfold forward_step. destruct (forwarders sv !! j) as [f|]; [|done].
  destruct (fw_done f); [done|]. destruct r; try done. by case_decide.
Qed.

Lemma send_loop_step_frame sv :
  pending (send_loop_step sv) = pending sv /\ peers (send_loop_step sv) = peers sv /\
  chans (send_loop_step sv) = chans sv /\ tasks (send_loop_step sv) = tasks sv /\
  forwarders (send_loop_step sv) = forwarders sv.
Proof. unfold send_loop_step. by destruct (out_queue sv) as [|[]]. Qed.

Lemma step_bounded s sv : bounded sv -> bounded (step s sv).
Proof.
  intros HB. destruct s as [am [[dgram src]|]|i|j r| |seed|]; simpl.
  - unfold recv_step. destruct (receiving sv); [|done].
    apply handle_dgram_preserves; auto using on_hs1_bounded, on_hs3_bounded, on_data_bounded,
      cleanup_bounded.
  - unfold recv_step. destruct (receiving sv); [by split|done].
  - unfold bounded. by destruct (sealer_step_maps i sv) as [-> ->].
  - unfold bounded. by destruct (forward_step_maps j r sv) as [-> ->].
  - unfold bounded. by destruct (send_loop_step_frame sv) as (-> & -> & _).
  - unfold rotate_step. by destruct (rotating sv).
  - by split.
Qed.

(** C4: in every reachable state of the server, whatever
    datagrams arrived from whatever addresses and however the tasks were
    scheduled, at most 2048 handshakes are half-open, and peers and half-open
    handshakes together number at most 3071. *)
Theorem server_memory_bounded sv :
  reachable sv ->
  (map_len (pending sv) <= 2048)%Z /\ (map_len (peers sv) + map_len (pending sv) <= 3071)%Z.
Proof.
  intros HR. assert (bounded sv) as [Hp Hs].
  { induction HR as [seed rng0 svc|s sv HR IH]; [by split|by apply step_bounded]. }
  unfold MAX_PENDING, MAX_PEERS in *. lia.
Qed.

(** ** The stores *)

(** Channels and sealer tasks are allocated together; the task of a peer is
    running, seals with the peer's channel and sends to the peer's address; a
    running forwarder sends to a running task. *)
Record wf (sv : Server) : Prop := {
  wf_alloc : length (chans sv) = length (tasks sv);
  wf_task : forall i t, tasks sv !! i = Some t -> st_chan t = i;
  wf_peer : forall src p, peers sv !! src = Some p ->
    channel p = outbound_tx p /\
    exists t, tasks sv !! outbound_tx p = Some t /\ st_dst t = src /\ st_done t = false;
  wf_forwarder : forall j f, forwarders sv !! j = Some f ->
    exists t, tasks sv !! fw_tx f = Some t /\ (fw_done f = false -> st_done t = false);
}.

(** [wf] looks at the tasks only through their destination, channel and
    whether they run. *)
Definition task_shape (t : SealerTask) : SocketAddr * nat * bool :=
  (st_dst t, st_chan t, st_done t).

Lemma wf_transfer sv sv' :
  wf sv ->
  length (chans sv') = length (chans sv) ->
  map task_shape (tasks sv') = map task_shape (tasks sv) ->
  (forall src p, peers sv' !! src = Some p ->
     exists p', peers sv !! src = Some p' /\ channel p' = channel p /\ outbound_tx p' = outbound_tx p) ->
  (forall j f, forwarders sv' !! j = Some f ->
     (exists t, tasks sv !! fw_tx f = Some t /\ (fw_done f = false -> st_done t = false))) ->
  wf sv'.
Proof.
  intros [Ha Ht Hp Hf] Hc Hs Hpeers Hfw.
  assert (forall i t, tasks sv !! i = Some t ->
    exists t', tasks sv' !! i = Some t' /\ task_shape t' = task_shape t) as Hfwd.
  { intros i t Hi. apply (f_equal (lookup i)) in Hs.
    rewrite !list_lookup_fmap, Hi in Hs. simpl in Hs.
    destruct (tasks sv' !! i) as [t'|]; [|done]. injection Hs as Hs. exists t'.
    split; [done|]. unfold task_shape. congruence. }
  split.
  - apply (f_equal length) in Hs. rewrite !length_map in Hs. congruence.
  - intros i t' Hi. apply (f_equal (lookup i)) in Hs.
    rewrite !list_lookup_fmap, Hi in Hs. simpl in Hs.
    destruct (tasks sv !! i) as [t|] eqn:E; [|done]. injection Hs as _ Hch _.
    rewrite Hch. by apply Ht.
  - intros src p (p' & Hp' & Ec & Eo)%Hpeers.
    destruct (Hp _ _ Hp') as (Ecp & t & Hi & Hd & Hdone).
    split; [congruence|]. destruct (Hfwd _ _ Hi) as (t' & Hi' & E).
    exists t'. unfold task_shape in E. split_and!; congruence.
  - intros j f (t & Hi & Hd)%Hfw. destruct (Hfwd _ _ Hi) as (t' & Hi' & E).
    exists t'. unfold task_shape in E. split; [done|]. intros Hdone%Hd. congruence.
Qed.

Lemma task_shape_enqueue env t ts :
  map task_shape (alter (enqueue env) t ts) = map task_shape ts.
Proof.
  apply list_eq. intros i. rewrite !list_lookup_fmap.
  destruct (decide (i = t)) as [->|].
  - rewrite list_lookup_alter_eq. by destruct (ts !! t).
  - by rewrite list_lookup_alter_ne.
Qed.

(** Changes of the maps, the generators and the network leave [wf] as it is. *)
Lemma wf_same sv sv' :
  wf sv -> length (chans sv') = length (chans sv) -> tasks sv' = tasks sv ->
  (forall src p, peers sv' !! src = Some p ->
     exists p', peers sv !! src = Some p' /\ channel p' = channel p /\ outbound_tx p' = outbound_tx p) ->
  forwarders sv' = forwarders sv -> wf sv'.
Proof.
  intros HW Hc Ht Hp Hf. apply (wf_transfer sv); [done|done|by rewrite Ht|done|].
  intros j f. rewrite Hf. apply HW.
Qed.

Lemma cleanup_wf now sv : wf sv -> wf (cleanup now sv).
Proof.
  intros HW. apply (wf_same sv); [done..| |done]. unfold cleanup. simpl.
  intros src p [Hp _]%map_lookup_filter_Some. by eauto.
Qed.

Lemma on_hs1_frame am body src sv :
  let sv' := flow_sv (on_hs1 am body src sv) in
  peers sv' = peers sv /\ chans sv' = chans sv /\ tasks sv' = tasks sv /\
  forwarders sv' = forwarders sv.
Proof.
  unfold on_hs1. simpl. destruct (_ <=? map_len (peers sv))%Z; [done|].
  destruct (if _ : bool then _ else _) as [[[[]|]|] rng']; try done.
  by destruct (_ && _).
Qed.

Lemma on_hs1_wf am body src sv : wf sv -> wf (flow_sv (on_hs1 am body src sv)).
Proof.
  intros HW. destruct (on_hs1_frame am body src sv) as (Hp & Hc & Ht & Hf).
  apply (wf_same sv); [done|by rewrite Hc|done|rewrite Hp; eauto|done].
Qed.

(** A peer is added together with its channel and its task. *)
Lemma add_peer_wf sv sv' ch src now r :
  wf sv -> length (chans sv') = length (chans sv ++ [ch]) ->
  tasks sv' = tasks sv ++ [mkTask src (length (chans sv)) [] r false] ->
  peers sv' = <[src := mkPeer (length (chans sv)) now (length (tasks sv))]> (peers sv) ->
  forwarders sv' = forwarders sv -> wf sv'.
Proof.
  intros [Ha Ht Hp Hf] Hc' Ht' Hp' Hf'. split.
  - rewrite Hc', Ht', !length_app, Ha. done.
  - intros i t. rewrite Ht'. intros [Hi|[Hi Hx]]%lookup_app_Some; [by apply Ht|].
    apply list_lookup_singleton_Some in Hx as [Hz <-]. simpl. lia.
  - intros s p. rewrite Hp', Ht'. destruct (decide (src = s)) as [<-|Hne].
    + rewrite lookup_insert_eq. intros [= <-]. simpl. split; [done|]. eexists.
      rewrite list_lookup_middle by done. done.
    + rewrite lookup_insert_ne by done. intros (E & t & Hi & ?)%Hp.
      split; [done|]. exists t. split; [|done]. by apply lookup_app_l_Some.
  - intros j f. rewrite Hf', Ht'. intros (t & Hi & ?)%Hf. exists t.
    split; [|done]. by apply lookup_app_l_Some.
Qed.

Lemma on_hs3_wf am body src sv : wf sv -> wf (flow_sv (on_hs3 am body src sv)).
Proof.
  intros HW. unfold on_hs3. destruct (pending sv !! src) as [ph|]; [|done].
  assert (wf (set_pending (delete src (pending sv)) sv)) as HW'
    by (apply (wf_same sv); simpl; eauto).
  destruct (complete_handshake_msg3 _ _ _) as [[[ch k]|] ?]; [|done].
  destruct (authenticate gate k); [|done]. simpl.
  apply (add_peer_wf (set_pending (delete src (pending sv)) sv) _ ch src (am_now am)
           (am_task_rng am)); simpl; autorewrite with frame; done.
Qed.

Lemma on_envelope_wf env c t src sv :
  (exists x, tasks sv !! t = Some x /\ st_done x = false) ->
  wf sv -> wf (on_envelope env c t src sv).
Proof.
  intros (x & Hx & Hd) HW.
  assert (forall e sv', wf sv' -> wf (seal_and_send c e src sv')) as Hseal.
  { intros e sv' H'. apply (wf_same sv'); [done|by autorewrite with frame..| |].
    - autorewrite with frame. eauto.
    - by autorewrite with frame. }
  destruct env as [req| | |topic ? cap| | | |]; simpl; auto.
  - destruct (handle _ _) as [resp svc]. apply Hseal. apply (wf_same sv); simpl; eauto.
  - unfold on_subscribe. destruct (verify_topic _ _ _).
    + destruct (event_source _ _) as [es|]; [|done].
      apply (wf_transfer sv); simpl; [done|done|done|eauto|].
      intros j f [Hf|[_ Hf]]%lookup_app_Some; [by eapply wf_forwarder|].
      apply list_lookup_singleton_Some in Hf as [_ <-]. simpl. eauto.
    + apply (wf_transfer sv); simpl; [done|done|apply task_shape_enqueue|eauto|].
      intros j f. apply HW.
Qed.

Lemma on_data_wf am dgram src sv : wf sv -> wf (flow_sv (on_data am dgram src sv)).
Proof.
  intros HW. unfold on_data. destruct (peers sv !! src) as [p|] eqn:E; [|done]. simpl.
  set (sv1 := set_peers _ sv).
  assert (forall cs, length cs = length (chans sv) -> wf (set_chans cs sv1)) as HW1.
  { intros cs Hcs. apply (wf_same sv); [done|done|done| |done].
    simpl. intros s q. destruct (decide (src = s)) as [<-|Hne].
    - rewrite lookup_insert_eq. intros [= <-]. eauto.
    - rewrite lookup_insert_ne by done. eauto. }
  destruct (chans sv !! channel p); simpl; [|by apply (HW1 (chans sv))].
  destruct (open_datagram _ _) as [[[env|]|] ch']; simpl; [|apply HW1; by rewrite length_insert..].
  apply on_envelope_wf; [|apply HW1; by rewrite length_insert].
  destruct (wf_peer sv HW src p E) as (_ & t & Ht & _ & Hd). simpl. eauto.
Qed.

(** A task ends only when nobody can send to it any more. *)
Lemma has_sender_false i sv :
  has_sender i sv = false ->
  (forall src p, peers sv !! src = Some p -> outbound_tx p <> i) /\
  (forall j f, forwarders sv !! j = Some f -> fw_done f = false -> fw_tx f <> i).
Proof.
  unfold has_sender. intros [Hp Hf]%orb_false_iff. split.
  - intros src p Hs <-. apply not_true_iff_false in Hp. apply Hp, existsb_exists.
    exists (src, p). split; [|by apply Nat.eqb_refl].
    by apply list_elem_of_In, elem_of_map_to_list.
  - intros j f Hj Hd <-. apply not_true_iff_false in Hf. apply Hf, existsb_exists.
    exists f. split; [by eapply list_elem_of_In, list_elem_of_lookup_2|].
    by rewrite Hd, Nat.eqb_refl.
Qed.

Lemma sealer_step_wf i sv : wf sv -> wf (sealer_step i sv).
Proof.
  intros HW. unfold sealer_step. destruct (tasks sv !! i) as [t|] eqn:Ei; [|done].
  destruct (st_done t) eqn:Ed; [done|]. destruct (st_queue t) as [|env q] eqn:Eq.
  - destruct (has_sender i sv) eqn:Es; [done|]. apply has_sender_false in Es as [Hps Hfs].
    destruct HW as [Ha Ht Hp Hf].
    split; simpl; [by rewrite length_insert| | |].
    + intros k x. rewrite list_lookup_insert_Some. intros [(-> & <- & _)|[_ Hk]]; simpl; auto.
    + intros src p Hs. destruct (Hp _ _ Hs) as (? & x & Hx & ?). split; [done|].
      exists x. rewrite list_lookup_insert_ne; [done|]. intros E. by eapply Hps.
    + intros j f Hj. destruct (Hf _ _ Hj) as (x & Hx & Hxd).
      destruct (decide (i = fw_tx f)) as [E|Hne].
      * eexists. rewrite <-E, list_lookup_insert_eq by (by eapply lookup_lt_Some).
        split; [done|]. intros Hfd. by destruct (Hfs _ _ Hj Hfd).
      * exists x. by rewrite list_lookup_insert_ne.
  - destruct (chans sv !! st_chan t) as [ch|]; [|done].
    assert (forall r, map task_shape (<[i:=mkTask (st_dst t) (st_chan t) q r false]> (tasks sv))
              = map task_shape (tasks sv)) as Hsh.
    { intros r. rewrite list_fmap_insert. apply list_insert_id.
      rewrite list_lookup_fmap, Ei. simpl. unfold task_shape. simpl. by rewrite Ed. }
    destruct (seal_envelope ch env (st_rng t)) as [[[w|e] ch'] r];
      (apply (wf_transfer sv); simpl;
        [done|by rewrite length_insert|apply Hsh|by eauto|apply HW]).
Qed.

Lemma forward_step_wf j r sv : wf sv -> wf (forward_step j r sv).
Proof.
  intros HW. unfold forward_step. destruct (forwarders sv !! j) as [f|] eqn:Ej; [|done].
  destruct (fw_done f) eqn:Ed; [done|]. destruct r as [ev| |]; [|done|].
  - case_decide; [|done]. apply (wf_transfer sv); simpl; [done|done|apply task_shape_enqueue|eauto|].
    apply HW.
  - apply (wf_transfer sv); simpl; [done|done|done|eauto|].
    intros k x. rewrite list_lookup_insert_Some. intros [(<- & <- & _)|[_ Hk]]; simpl.
    + destruct (wf_forwarder sv HW _ _ Ej) as (t & Ht & _). exists t. by split.
    + by apply (wf_forwarder sv HW k).
Qed.

Lemma stop_receiving_wf sv sv' :
  wf sv -> chans sv' = chans sv -> tasks sv' = tasks sv -> forwarders sv' = forwarders sv ->
  peers sv' = empty -> wf sv'.
Proof.
  intros HW Hc Ht Hf Hp. apply (wf_same sv); [done|by rewrite Hc|done| |done].
  intros a p. by rewrite Hp, lookup_empty.
Qed.

Lemma step_wf s sv : wf sv -> wf (step s sv).
Proof.
  intros HW. destruct s as [am [[dgram src]|]|i|j r| |seed|]; simpl.
  - unfold recv_step. destruct (receiving sv); [|done].
    apply handle_dgram_preserves; auto using on_hs1_wf, on_hs3_wf, on_data_wf, cleanup_wf.
  - unfold recv_step. destruct (receiving sv); [|done]. by apply (stop_receiving_wf sv).
  - by apply sealer_step_wf.
  - by apply forward_step_wf.
  - destruct (send_loop_step_frame sv) as (_ & Hp & Hc & Ht & Hf).
    apply (wf_same sv); [done|by rewrite Hc|done|rewrite Hp; eauto|done].
  - unfold rotate_step. destruct (rotating sv); [|done]. apply (wf_same sv); simpl; eauto.
  - by apply (stop_receiving_wf sv).
Qed.

Lemma reachable_wf sv : reachable sv -> wf sv.
Proof.
  intros HR. induction HR as [seed rng0 svc|s sv HR IH]; [|by apply step_wf].
  split; simpl; [done| | |]; intros ? ?; by rewrite ?lookup_nil, ?lookup_empty.
Qed.

(** C22: in every reachable state each peer has a
    running sealer task of its own, which seals with that peer's channel and
    sends to that peer's address; two peers never share a channel, so no
    record sealed for one can be addressed to another; and whoever still holds
    a sender of a queue (a peer or a running forwarder) finds the receiving
    task alive, so sending to it cannot fail. *)
Theorem peers_do_not_share_channels sv :
  reachable sv ->
  (forall src p, peers sv !! src = Some p ->
     exists t, tasks sv !! outbound_tx p = Some t /\ st_dst t = src /\ st_chan t = channel p /\
       st_done t = false /\ is_Some (chans sv !! channel p)) /\
  (forall src src' p p', peers sv !! src = Some p -> peers sv !! src' = Some p' ->
     channel p = channel p' -> src = src') /\
  (forall j f, forwarders sv !! j = Some f -> fw_done f = false ->
     exists t, tasks sv !! fw_tx f = Some t /\ st_done t = false).
Proof.
  intros HW%reachable_wf. split_and!.
  - intros src p Hs. destruct (wf_peer sv HW _ _ Hs) as (Ec & t & Ht & Hd & Hr).
    exists t. split_and!; [done|done| |done|].
    + rewrite Ec. by eapply wf_task.
    + rewrite Ec. apply lookup_lt_is_Some. rewrite (wf_alloc sv HW). by eapply lookup_lt_Some.
  - intros src src' p p' Hs Hs' E.
    destruct (wf_peer sv HW _ _ Hs) as (Ec & t & Ht & Hd & _).
    destruct (wf_peer sv HW _ _ Hs') as (Ec' & t' & Ht' & Hd' & _). congruence.
  - intros j f Hj Hf. destruct (wf_forwarder sv HW _ _ Hj) as (t & Ht & Hd). eauto.
Qed.

(** ** Replies *)

Definition branch (am : Ambient) (dgram : bytes) (src : SocketAddr) (ty : DgramType) (body : bytes)
    (sv : Server) : Flow :=
  match ty with
  | Hs1 => on_hs1 am body src sv
  | Hs3 => on_hs3 am body src sv
  | Data => on_data am dgram src sv
  | _ => Fall sv
  end.

Definition finish (am : Ambient) (f : Flow) : Server :=
  match f with Return sv => sv | Fall sv => cleanup (am_cleanup am) sv end.

Lemma handle_dgram_unshape am dgram src sv :
  handle_dgram am dgram src sv =
  match unshape_hs dgram profile with
  | None => sv
  | Some (ty, body) => finish am (branch am dgram src ty body sv)
  end.
Proof.
  unfold handle_dgram, unshape_hs. destruct (shape_in profile dgram) as [inner|]; [|done].
  by destruct (decode_inner inner) as [[[] body]|].
Qed.

(** [sv'] has handed at most one more datagram to the socket, for [src]. *)
Definition one_reply (src : SocketAddr) (sv sv' : Server) : Prop :=
  out_queue sv' = out_queue sv /\
  (sent sv' = sent sv \/ exists wire, sent sv' = sent sv ++ [(src, wire)]).

Lemma seal_and_send_reply c env src sv : one_reply src sv (seal_and_send c env src sv).
Proof.
  unfold one_reply, seal_and_send. destruct (chans sv !! c); [|by auto].
  destruct (seal_envelope _ _ _) as [[[]] ?]; simpl; eauto.
Qed.

Lemma on_envelope_reply env c t src sv : one_reply src sv (on_envelope env c t src sv).
Proof.
  destruct env; simpl; try (by split; auto); try apply seal_and_send_reply.
  - destruct (handle _ _). apply (seal_and_send_reply c _ src (set_service _ sv)).
  - unfold on_subscribe. repeat case_match; by split; auto.
Qed.

Lemma branch_reply am dgram src ty body sv :
  one_reply src sv (flow_sv (branch am dgram src ty body sv)).
Proof.
  destruct ty; simpl; try (by split; auto).
  - unfold on_hs1. destruct (_ <=? map_len (peers sv))%Z; [by split; auto|].
    destruct (if _ : bool then _ else _) as [[[[]|]|] rng']; try (by split; eauto).
    destruct (_ && _); split; simpl; eauto.
  - unfold on_hs3. destruct (pending sv !! src); [|by split; auto].
    destruct (complete_handshake_msg3 _ _ _) as [[[ch k]|] ?]; [|by split; auto].
    destruct (authenticate gate k); [|by split; auto].
    apply (seal_and_send_reply _ EPong src (set_chans _ (set_pending _ sv))).
  - unfold on_data. destruct (peers sv !! src) as [p|]; [|by split; auto]. simpl.
    destruct (chans sv !! channel p); [|by split; auto].
    destruct (open_datagram _ _) as [[[env|]|] ch']; [|by split; auto..].
    apply (on_envelope_reply env _ _ src (set_chans _ (set_peers _ sv))).
Qed.

(** C24: whatever the server receives, it hands at most one
    datagram to the socket in response, and that datagram goes to the address
    the received one came from; a datagram the profile or the type byte does
    not recognise changes nothing at all. *)
Theorem handle_dgram_one_reply am dgram src sv :
  one_reply src sv (handle_dgram am dgram src sv) /\
  (unshape_hs dgram profile = None -> handle_dgram am dgram src sv = sv).
Proof.
  rewrite handle_dgram_unshape. split; [|by intros ->].
  destruct (unshape_hs dgram profile) as [[ty body]|]; [|by split; auto].
  pose proof (branch_reply am dgram src ty body sv) as H.
  by destruct (branch am dgram src ty body sv).
Qed.

(** ** Half-open handshakes *)

Lemma finish_pending am f a ph :
  pending (finish am f) !! a = Some ph -> pending (flow_sv f) !! a = Some ph.
Proof. destruct f; simpl; [done|]. by intros [? _]%map_lookup_filter_Some. Qed.

Lemma finish_peers am f a p :
  peers (finish am f) !! a = Some p -> peers (flow_sv f) !! a = Some p.
Proof. destruct f; simpl; [done|]. by intros [? _]%map_lookup_filter_Some. Qed.

(** Only the [Hs1] branch adds to [pending]. *)
Lemma branch_pending am dgram src ty body sv a ph :
  pending (flow_sv (branch am dgram src ty body sv)) !! a = Some ph ->
  pending sv !! a <> Some ph ->
  ty = Hs1 /\ a = src /\ (map_len (peers sv) < MAX_PEERS)%Z /\
  exists msg2 a' rng',
    (if under_load load || (PENDING_SOFT_LIMIT <=? map_len (pending sv))%Z
     then process_hs1 (am_entropy am) body src server_priv (cookie_secret sv)
            always_under_load profile (rng sv)
     else process_hs1 (am_entropy am) body src server_priv (cookie_secret sv)
            always_open profile (rng sv))
    = (Ok (Some (PartialHandshake (ph_responder ph) msg2 a')), rng').
Proof.
  intros Hp Hn. destruct ty; simpl in Hp; try done.
  - unfold on_hs1 in Hp. destruct (Z.leb_spec MAX_PEERS (map_len (peers sv))); [done|].
    destruct (if _ : bool then _ else _) as [[[[|hs msg2 a']|]|] rng'] eqn:E; try done.
    destruct (_ && _); [done|]. simpl in Hp.
    destruct (decide (src = a)) as [<-|Hne].
    + rewrite lookup_insert_eq in Hp. injection Hp as <-. eauto 10.
    + by rewrite lookup_insert_ne in Hp.
  - unfold on_hs3 in Hp. destruct (pending sv !! src) as [ph'|]; [|done].
    assert (delete src (pending sv) !! a = Some ph) as [_ Hd]%lookup_delete_Some; [|done].
    destruct (complete_handshake_msg3 _ _ _) as [[[ch k]|] ?]; [|done].
    destruct (authenticate gate k); [|done]. simpl in Hp. by autorewrite with frame in Hp.
  - unfold on_data in Hp. destruct (peers sv !! src) as [p|]; [|done]. simpl in Hp.
    destruct (chans sv !! channel p); [|done].
    destruct (open_datagram _ _) as [[[env|]|] ch']; [|done..]. simpl in Hp.
    by rewrite (proj1 (on_envelope_maps _ _ _ _ _)) in Hp.
Qed.

(** C9: a datagram adds half-open handshake state only
    for its own source address and only if it is a well-formed first message
    while there are fewer than 1024 peers; and when the load gate reports
    load, or 256 handshakes are already half-open, only if that message echoes
    a cookie that verifies for the source address. *)
Theorem half_open_needs_cookie am dgram src sv a ph :
  pending (handle_dgram am dgram src sv) !! a = Some ph ->
  pending sv !! a <> Some ph ->
  a = src /\ (map_len (peers sv) < 1024)%Z /\
  exists body msg1 supplied,
    unshape_hs dgram profile = Some (Hs1, body) /\
    decode_msg1_framed body = Some (msg1, supplied) /\
    (under_load load = true \/ (256 <= map_len (pending sv))%Z ->
     exists c, supplied = Some c /\ cookie_verify (cookie_secret sv) (src_bytes src) c = true).
Proof.
  rewrite handle_dgram_unshape. intros Hp Hn.
  destruct (unshape_hs dgram profile) as [[ty body]|]; [|done].
  apply finish_pending in Hp.
  destruct (branch_pending _ _ _ _ _ _ _ _ Hp Hn) as (-> & -> & Hl & msg2 & a' & rng' & E).
  split_and!; [done|done|]. destruct (decode_msg1_framed body) as [[msg1 supplied]|] eqn:Hd.
  2: { exfalso. unfold process_hs1 in E. rewrite Hd in E. by destruct (_ || _). }
  exists body, msg1, supplied. split_and!; [done|done|]. intros Hload.
  replace (under_load load || _) with true in E.
  2: { symmetry. apply orb_true_iff. destruct Hload; [by left|right]. by apply Z.leb_le. }
  destruct (process_hs1_needs_cookie _ _ _ _ _ _ _ _ _ _ _ _ eq_refl E)
    as (msg1' & c & Hd' & Hv & _).
  rewrite Hd in Hd'. injection Hd' as <- ->. eauto.
Qed.

(** ** Who becomes a peer *)

(** In state [sv], [dgram] from [src] is the third message of a half-open
    handshake, and the gate accepts the key it proves. *)
Definition admits (sv : Server) (dgram : bytes) (src : SocketAddr) (key : bytes) : Prop :=
  exists body ph ch hs',
    unshape_hs dgram profile = Some (Hs3, body) /\ pending sv !! src = Some ph /\
    complete_handshake_msg3 (ph_responder ph) body profile = (Ok (ch, key), hs') /\
    authenticate gate key = Ok tt.

(** In state [sv], [dgram] from the peer [p] at [src] opens to [env]. *)
Definition opens (sv : Server) (dgram : bytes) (src : SocketAddr) (p : PeerState)
    (env : Envelope) : Prop :=
  exists body ch ch',
    unshape_hs dgram profile = Some (Data, body) /\ peers sv !! src = Some p /\
    chans sv !! channel p = Some ch /\ open_datagram ch dgram = (Ok (Some env), ch').

(** The same session: a peer whose [last_seen] may differ. *)
Definition same_session (p p' : PeerState) : Prop :=
  channel p = channel p' /\ outbound_tx p = outbound_tx p'.

Lemma branch_peers am dgram src ty body sv a p :
  unshape_hs dgram profile = Some (ty, body) ->
  peers (flow_sv (branch am dgram src ty body sv)) !! a = Some p ->
  (exists p', peers sv !! a = Some p' /\ same_session p' p) \/
  (a = src /\ channel p = length (chans sv) /\ exists key, admits sv dgram src key).
Proof.
  intros Hu Hp. destruct ty; simpl in Hp; try (by left; eexists; repeat split).
  - destruct (on_hs1_frame am body src sv) as (E & _). rewrite E in Hp.
    left. by eexists.
  - unfold on_hs3 in Hp. destruct (pending sv !! src) as [ph|] eqn:Eph; [|by left; eexists].
    destruct (complete_handshake_msg3 _ _ _) as [[[ch k]|] hs'] eqn:Ec; [|by left; eexists].
    destruct (authenticate gate k) as [[]|] eqn:Eg; [|by left; eexists].
    simpl in Hp. autorewrite with frame in Hp. simpl in Hp.
    destruct (decide (src = a)) as [<-|Hne].
    + rewrite lookup_insert_eq in Hp. injection Hp as <-. right. split_and!; [done|done|].
      exists k, body, ph, ch, hs'. done.
    + rewrite lookup_insert_ne in Hp by done. left. by eexists.
  - left. unfold on_data in Hp. destruct (peers sv !! src) as [p0|] eqn:E0; [|by eexists].
    assert (<[src:=mkPeer (channel p0) (am_now am) (outbound_tx p0)]> (peers sv) !! a = Some p)
      as Ha.
    { simpl in Hp. destruct (chans sv !! channel p0); [|done].
      destruct (open_datagram _ _) as [[[env|]|] ch']; [|done..]. simpl in Hp.
      by rewrite (proj1 (proj2 (on_envelope_maps _ _ _ _ _))) in Hp. }
    destruct (decide (src = a)) as [<-|Hne].
    + rewrite lookup_insert_eq in Ha. injection Ha as <-. by eexists.
    + rewrite lookup_insert_ne in Ha by done. by eexists.
Qed.

Lemma step_peers s sv a p :
  peers (step s sv) !! a = Some p ->
  (exists p', peers sv !! a = Some p' /\ same_session p' p) \/
  (exists am dgram key, s = SRecv am (Some (dgram, a)) /\ admits sv dgram a key).
Proof.
  intros Hp. destruct s as [am [[dgram src]|]|i|j r| |seed|]; simpl in Hp.
  - unfold recv_step in Hp. destruct (receiving sv); [|by left; eexists].
    rewrite handle_dgram_unshape in Hp.
    destruct (unshape_hs dgram profile) as [[ty body]|] eqn:Hu; [|by left; eexists].
    apply finish_peers in Hp.
    destruct (branch_peers _ _ _ _ _ _ _ _ Hu Hp) as [?|(-> & _ & key & Ha)]; [by left|].
    right. by eexists _, _, _.
  - unfold recv_step in Hp. destruct (receiving sv); [|by left; eexists].
    simpl in Hp. by rewrite lookup_empty in Hp.
  - rewrite (proj2 (sealer_step_maps i sv)) in Hp. by left; eexists.
  - rewrite (proj2 (forward_step_maps j r sv)) in Hp. by left; eexists.
  - rewrite (proj1 (proj2 (send_loop_step_frame sv))) in Hp. by left; eexists.
  - unfold rotate_step in Hp. destruct (rotating sv); by left; eexists.
  - by rewrite lookup_empty in Hp.
Qed.

Lemma run_snoc ss s sv : run (ss ++ [s]) sv = step s (run ss sv).
Proof. unfold run. by rewrite fold_left_app. Qed.

(** C2: every peer the server knows at the end of a run
    was admitted at a point of that run: a datagram from the peer's address
    completed the handshake that address had half-open, and the transport gate
    accepted the static key the handshake proved.  No other step of the run,
    in any interleaving, makes a peer. *)
Theorem peers_are_authenticated ss seed rng0 svc a p :
  peers (run ss (serve_obfs_udp seed rng0 svc)) !! a = Some p ->
  exists ss1 am dgram ss2 key,
    ss = ss1 ++ SRecv am (Some (dgram, a)) :: ss2 /\
    admits (run ss1 (serve_obfs_udp seed rng0 svc)) dgram a key.
Proof.
  revert p. induction ss as [|s ss IH] using rev_ind; intros p Hp; [done|].
  rewrite run_snoc in Hp. apply step_peers in Hp as [(p' & Hp' & _)|(am & dgram & key & -> & Ha)].
  - destruct (IH _ Hp') as (ss1 & am & dgram & ss2 & key & -> & Ha).
    exists ss1, am, dgram, (ss2 ++ [s]), key. by rewrite <-app_assoc.
  - by exists ss, am, dgram, [], key.
Qed.

(** ** Who receives events *)

(** In state [sv], [dgram] from [src] is a subscription to [topic] by the peer
    whose queue is [t], and the service authorises it. *)
Definition grants (sv : Server) (dgram : bytes) (src : SocketAddr) (topic : Topic) (t : nat) : Prop :=
  exists p filter cap subject,
    opens sv dgram src p (ESubscribe topic filter cap) /\ outbound_tx p = t /\
    verify_topic (service sv) cap topic = Ok subject.

Definition subscribed (sv : Server) (topic : Topic) (t : nat) : Prop :=
  exists j f, forwarders sv !! j = Some f /\ fw_topic f = topic /\ fw_tx f = t.

Definition queued (sv : Server) (ev : Event) (t : nat) : Prop :=
  exists x, tasks sv !! t = Some x /\ EEvent ev ∈ st_queue x.

Lemma queued_ev_send env t sv ev i :
  queued (ev_send t env sv) ev i -> queued sv ev i \/ (env = EEvent ev /\ i = t).
Proof.
  intros (x & Hx & Hin). simpl in Hx. rewrite list_lookup_alter in Hx. case_decide as E.
  - subst i. apply fmap_Some in Hx as (y & Hy & ->). simpl in Hin.
    rewrite elem_of_app, list_elem_of_singleton in Hin.
    destruct Hin as [Hin| <-]; [left; by eexists|by right].
  - left. by eexists.
Qed.

(** A denied or granted subscription adds no event to a queue. *)
Lemma on_envelope_events env c t src sv :
  (forall topic i, subscribed (on_envelope env c t src sv) topic i ->
     subscribed sv topic i \/
     exists filter cap subject, env = ESubscribe topic filter cap /\ i = t /\
       verify_topic (service sv) cap topic = Ok subject) /\
  (forall ev i, queued (on_envelope env c t src sv) ev i -> queued sv ev i).
Proof.
  unfold subscribed, queued. split.
  - intros topic i (j & f & Hj & Hf & Hi).
    destruct env as [req| | |tp flt cap| | | |]; simpl in Hj; autorewrite with frame in Hj; try by eauto 10.
    + destruct (handle _ _). autorewrite with frame in Hj. by eauto 10.
    + unfold on_subscribe in Hj. destruct (verify_topic _ _ _) as [subject|] eqn:Ev; [|by eauto 10].
      destruct (event_source _ _); [|by eauto 10]. simpl in Hj.
      apply lookup_app_Some in Hj as [Hj|[_ Hj]]; [by eauto 10|].
      apply list_lookup_singleton_Some in Hj as [_ <-]. simpl in *. subst. eauto 10.
  - intros ev i (x & Hx & Hin).
    destruct env as [req| | |tp flt cap| | | |]; simpl in Hx; autorewrite with frame in Hx; try by eauto.
    + destruct (handle _ _). autorewrite with frame in Hx. by eauto.
    + unfold on_subscribe in Hx. destruct (verify_topic _ _ _); [by destruct (event_source _ _); eauto|].
      edestruct queued_ev_send as [?|[? _]]; [by eexists|done|done].
Qed.


Lemma branch_events am dgram src ty body sv :
  unshape_hs dgram profile = Some (ty, body) ->
  (forall topic i, subscribed (flow_sv (branch am dgram src ty body sv)) topic i ->
     subscribed sv topic i \/ grants sv dgram src topic i) /\
  (forall ev i, queued (flow_sv (branch am dgram src ty body sv)) ev i -> queued sv ev i).
Proof.
  intros Hu. destruct ty; simpl; try (by split; auto).
  - destruct (on_hs1_frame am body src sv) as (_ & _ & Et & Ef).
    unfold subscribed, queued. rewrite Et, Ef. split; auto.
  - unfold on_hs3. destruct (pending sv !! src) as [ph|]; [|by split; auto].
    destruct (complete_handshake_msg3 _ _ _) as [[[ch k]|] hs']; [|by split; auto].
    destruct (authenticate gate k) as [[]|]; [|by split; auto].
    unfold subscribed, queued. simpl. autorewrite with frame. simpl. split; [auto|].
    intros ev i (x & [Hx|[_ Hx]]%lookup_app_Some & Hin); [by eauto|].
    apply list_lookup_singleton_Some in Hx as [_ <-]. simpl in Hin. by apply not_elem_of_nil in Hin.
  - unfold on_data. destruct (peers sv !! src) as [p|] eqn:Ep; [|by split; auto]. simpl.
    destruct (chans sv !! channel p) as [ch|] eqn:Ec; [|by split; auto].
    destruct (open_datagram ch dgram) as [[[env|]|] ch'] eqn:Eo; [|by split; auto..]. simpl.
    edestruct on_envelope_events as [Hs Hq]. split; [|exact Hq].
    intros topic i [?|(flt & cap & subject & -> & -> & Hv)]%Hs; [by left|]. right.
    exists p, flt, cap, subject. split_and!; [|done|done]. by exists body, ch, ch'.
Qed.

(** Only a granted subscription starts a forwarder, and only a forwarder puts
    an event in a queue. *)
Lemma step_events s sv :
  (forall topic i, subscribed (step s sv) topic i ->
     subscribed sv topic i \/
     exists am dgram src, s = SRecv am (Some (dgram, src)) /\ grants sv dgram src topic i) /\
  (forall ev i, queued (step s sv) ev i -> queued sv ev i \/ subscribed sv (event_topic ev) i).
Proof.
  destruct s as [am [[dgram src]|]|k|j r| |seed|]; simpl.
  - unfold recv_step. destruct (receiving sv); [|by split; auto].
    rewrite handle_dgram_unshape.
    destruct (unshape_hs dgram profile) as [[ty body]|] eqn:Hu; [|by split; auto].
    destruct (branch_events am dgram src ty body sv Hu) as [Hs Hq].
    assert (forall f, tasks (finish am f) = tasks (flow_sv f) /\
                      forwarders (finish am f) = forwarders (flow_sv f)) as Hfin by (by intros []).
    unfold subscribed at 1, queued at 1. destruct (Hfin (branch am dgram src ty body sv)) as [-> ->].
    split; [|by intros ev i ?%Hq; left].
    intros topic i [?|?]%Hs; [by left|right]. by exists am, dgram, src.
  - unfold recv_step. destruct (receiving sv); by split; auto.
  - unfold sealer_step. destruct (tasks sv !! k) as [t|] eqn:Ek; [|by split; auto].
    destruct (st_done t); [by split; auto|].
    assert (forall q r d, (forall e, e ∈ q -> e ∈ st_queue t) -> forall ev i,
      (exists x, <[k := mkTask (st_dst t) (st_chan t) q r d]> (tasks sv) !! i = Some x /\
         EEvent ev ∈ st_queue x) -> queued sv ev i) as Hq.
    { intros q r d Hsub ev i (x & [(-> & <- & _)|[_ Hx]]%list_lookup_insert_Some & Hin);
        [|by eexists]. exists t. split; [done|]. by apply Hsub. }
    destruct (st_queue t) as [|env q] eqn:Eq.
    + destruct (has_sender k sv); [by split; auto|]. split; [by auto|].
      intros ev i H. left. exact (Hq [] _ _ (fun _ He => He) ev i H).
    + destruct (chans sv !! st_chan t) as [ch|]; [|by split; auto].
      destruct (seal_envelope _ _ _) as [[[w|e] ch'] r]; (split; [by auto|]);
        intros ev i H; left; (eapply Hq; [|exact H]); intros x He; by right.
  - unfold forward_step. destruct (forwarders sv !! j) as [f|] eqn:Ej; [|by split; auto].
    destruct (fw_done f); [by split; auto|]. destruct r as [ev| |]; [|by split; auto|].
    + case_decide as Et; [|by split; auto]. split; [by auto|].
      intros ev' i [?|[[= <-] ->]]%queued_ev_send; [by left|right]. by exists j, f.
    + split; [|by auto]. unfold subscribed. simpl.
      intros topic i (j' & x & [(-> & <- & _)|[_ Hx]]%list_lookup_insert_Some & Ht & Hi);
        left; [by exists j', f|by exists j', x].
  - unfold subscribed, queued. destruct (send_loop_step_frame sv) as (_ & _ & _ & -> & ->).
    split; auto.
  - unfold rotate_step. destruct (rotating sv); by split; auto.
  - split; auto.
Qed.

(** Some datagram of the run [ss] was granted a subscription to [topic] for
    queue [t]. *)
Definition granted_in (ss : list Step) (sv0 : Server) (topic : Topic) (t : nat) : Prop :=
  exists ss1 am dgram src ss2,
    ss = ss1 ++ SRecv am (Some (dgram, src)) :: ss2 /\ grants (run ss1 sv0) dgram src topic t.

Lemma granted_in_snoc ss s sv0 topic t :
  granted_in ss sv0 topic t -> granted_in (ss ++ [s]) sv0 topic t.
Proof.
  intros (ss1 & am & dgram & src & ss2 & -> & H).
  exists ss1, am, dgram, src, (ss2 ++ [s]). by rewrite <-app_assoc.
Qed.

Lemma run_subscribed ss seed rng0 svc topic t :
  subscribed (run ss (serve_obfs_udp seed rng0 svc)) topic t ->
  granted_in ss (serve_obfs_udp seed rng0 svc) topic t.
Proof.
  induction ss as [|s ss IH] using rev_ind; [by intros (j & f & Hj & _)|].
  rewrite run_snoc. intros [H|(am & dgram & src & -> & H)]%step_events.
  - by apply granted_in_snoc, IH.
  - by exists ss, am, dgram, src, [].
Qed.

(** C16: an event waits in (and is then sealed
    and sent from) the queue of a peer's sealer task only if, earlier in the
    run, a datagram that opened under that peer's channel asked for the
    event's own topic and the service's verifier granted it. *)
Theorem events_need_granted_subscription ss seed rng0 svc ev t :
  queued (run ss (serve_obfs_udp seed rng0 svc)) ev t ->
  granted_in ss (serve_obfs_udp seed rng0 svc) (event_topic ev) t.
Proof.
  induction ss as [|s ss IH] using rev_ind; [by intros (x & Hx & _)|].
  rewrite run_snoc. intros [H|H]%step_events; apply granted_in_snoc; [by apply IH|].
  by apply run_subscribed.
Qed.

(** ** Requests *)

Lemma seal_envelope_keeps_opener ch env r :
  opener (seal_envelope ch env r).1.2 = opener ch /\ mimic (seal_envelope ch env r).1.2 = mimic ch.
Proof.
  unfold seal_envelope. destruct (to_vec env); [|done].
  destruct (seal _ _ _) as [[] s]; [|done]. by destruct (shape_out _ _ _).
Qed.

(** The data branch, on a datagram that opens. *)
Lemma on_data_opens am dgram src sv p ch env ch' :
  peers sv !! src = Some p -> chans sv !! channel p = Some ch ->
  open_datagram ch dgram = (Ok (Some env), ch') ->
  on_data am dgram src sv =
    Fall (on_envelope env (channel p) (outbound_tx p) src
            (set_chans (<[channel p := ch']> (chans sv))
               (set_peers (<[src := mkPeer (channel p) (am_now am) (outbound_tx p)]> (peers sv)) sv))).
Proof. intros Hp Hc Ho. unfold on_data. rewrite Hp. simpl. by rewrite Hc, Ho. Qed.

(** ... and on one that does not. *)
Lemma on_data_refused am dgram src sv :
  (forall p ch, peers sv !! src = Some p -> chans sv !! channel p = Some ch ->
     exists ch', open_datagram ch dgram = (Ok None, ch')) ->
  exists sv', on_data am dgram src sv = Return sv' /\
    service sv' = service sv /\ sent sv' = sent sv /\ forwarders sv' = forwarders sv.
Proof.
  intros H. unfold on_data. destruct (peers sv !! src) as [p|]; [|by eexists]. simpl.
  destruct (chans sv !! channel p) as [ch|] eqn:E; [|by eexists].
  destruct (H p ch eq_refl E) as [ch' ->]. by eexists.
Qed.

Section Requests.
Context {window : nat} {sealer_at : RecordSealer -> RecordKey -> nat -> Prop}
  {sealed : RecordKey -> nat -> bytes -> bytes -> Prop}
  {opener_for : RecordOpener -> RecordKey -> Prop} {accepts : RecordOpener -> nat -> Prop}
  {RL : RecordLaws window sealer_at sealed opener_for accepts}.

(** A datagram whose record the peer's opener no longer takes runs nothing and
    is not answered. *)
Lemma replay_ignored am dgram src sv p ch k n env :
  carries (sealed := sealed) profile k n env dgram ->
  mimic ch = profile -> opener_for (opener ch) k -> ~ accepts (opener ch) n ->
  chans sv !! channel p = Some ch ->
  (forall q, peers sv !! src = Some q -> channel q = channel p) ->
  service (handle_dgram am dgram src sv) = service sv /\
  sent (handle_dgram am dgram src sv) = sent sv.
Proof.
  intros Hcar Hm Ho Ha Hc Hq. pose proof Hcar as (pt & ct & _ & _ & E).
  rewrite handle_dgram_unshape. unfold unshape_hs. rewrite E, decode_encode_inner. simpl.
  destruct (on_data_refused am dgram src sv) as (sv' & -> & ? & ? & _); [|done].
  intros q ch' Eq Hc'. rewrite (Hq q Eq), Hc in Hc'. injection Hc' as <-. exists ch.
  by apply (open_datagram_stale (RL := RL) profile ch k n env).
Qed.

(** A datagram from a peer that carries a request the
    peer's opener has not seen runs the service on that request once, answers
    the peer's address with the sealed response and nothing else, and marks
    the peer as seen; a later copy of the same datagram, whenever it arrives,
    runs nothing and is not answered. *)
Lemma request_executed_once am am2 dgram src sv p ch k n req resp svc' :
  peers sv !! src = Some p -> chans sv !! channel p = Some ch -> mimic ch = profile ->
  opener_for (opener ch) k -> accepts (opener ch) n ->
  carries (sealed := sealed) profile k n (ERequest req) dgram ->
  handle (service sv) req = (resp, svc') ->
  exists ch1,
    open_datagram ch dgram = (Ok (Some (ERequest req)), ch1) /\
    let sv1 := handle_dgram am dgram src sv in
    let sv2 := handle_dgram am2 dgram src sv1 in
    service sv1 = svc' /\
    sent sv1 = sent sv ++ match seal_envelope ch1 (EResponse resp) (rng sv) with
                          | (Ok wire, _, _) => [(src, wire)]
                          | _ => []
                          end /\
    peers sv1 = filter (fun kv => peer_live (am_cleanup am) kv.2)
                  (<[src := mkPeer (channel p) (am_now am) (outbound_tx p)]> (peers sv)) /\
    service sv2 = service sv1 /\ sent sv2 = sent sv1.
Proof.
  intros Hp Hc Hm Ho Ha Hcar Hh.
  assert (exists ct, unshape_hs dgram profile = Some (Data, ct)) as [ct Hu].
  { destruct Hcar as (pt & ct & _ & _ & E). exists ct. unfold unshape_hs.
    by rewrite E, decode_encode_inner. }
  destruct (open_datagram_fresh (RL := RL) profile ch k n _ dgram Hm Ho Ha Hcar)
    as (o' & Hop & Ho' & Hna & _).
  exists (with_opener o' ch). split; [done|].
  rewrite (handle_dgram_unshape am), Hu. simpl.
  rewrite (on_data_opens _ _ _ _ _ _ _ _ Hp Hc Hop). simpl. rewrite Hh.
  set (sv0 := set_service svc' _).
  assert (chans sv0 !! channel p = Some (with_opener o' ch)) as Hc0.
  { simpl. apply list_lookup_insert_eq. by eapply lookup_lt_Some. }
  pose proof (seal_envelope_keeps_opener (with_opener o' ch) (EResponse resp) (rng sv)) as [Eo Em].
  unfold seal_and_send. rewrite Hc0. simpl rng.
  assert (forall q, filter (fun kv => peer_live (am_cleanup am) kv.2)
      (<[src:=mkPeer (channel p) (am_now am) (outbound_tx p)]> (peers sv)) !! src = Some q ->
      channel q = channel p) as Hq.
  { intros q [Hq _]%map_lookup_filter_Some. rewrite lookup_insert_eq in Hq. by injection Hq as <-. }
  destruct (seal_envelope (with_opener o' ch) (EResponse resp) (rng sv)) as [[[wire|e] ch2] r];
    simpl in Eo, Em; simpl; rewrite ?app_nil_r; (do 3 (split; [done|]));
    match goal with |- service (handle_dgram _ _ _ ?s) = _ /\ _ =>
      refine (replay_ignored am2 dgram src s p ch2 k n (ERequest req) Hcar _ _ _ _ Hq) end;
    simpl; try congruence; try done;
    rewrite list_lookup_insert_eq; rewrite ?length_insert; [done|by eapply lookup_lt_Some|done|by eapply lookup_lt_Some].
Qed.

End Requests.

(** What the tasks run under: no datagram stops the receive loop or the
    rotation, or changes the cookie secret. *)
Definition control (sv : Server) : bool * bool * CookieSecret :=
  (receiving sv, rotating sv, cookie_secret sv).

Lemma handle_dgram_control am dgram src sv : control (handle_dgram am dgram src sv) = control sv.
Proof.
  apply (handle_dgram_preserves (fun sv' => control sv' = control sv)); try done.
  - intros body _. unfold on_hs1. repeat case_match; simplify_eq; done.
  - intros body _. unfold on_hs3, seal_and_send. repeat case_match; simplify_eq; done.
  - intros _. unfold on_data. destruct (peers sv !! src) as [p|]; [|done]. simpl.
    destruct (chans sv !! channel p); [|done].
    destruct (open_datagram _ _) as [[[env|]|] ch']; [|done..]. simpl.
    destruct env; simpl; unfold on_subscribe, seal_and_send; repeat case_match; simplify_eq; done.
Qed.

Lemma handle_dgram_receiving am dgram src sv :
  receiving (handle_dgram am dgram src sv) = receiving sv.
Proof. by pose proof (handle_dgram_control am dgram src sv) as [= ? _ _]. Qed.

(** ** A full server *)

(** A datagram from an address that is not a peer, of the kinds a client sends
    (first message, third message, data) or unrecognisable.  The kinds only a
    server sends, message 2 and the cookie reply, are left out: [handle_dgram]
    has no branch for them and falls through to its clean-up. *)
Definition newcomer (sv : Server) (r : Ambient * (bytes * SocketAddr)) : Prop :=
  peers sv !! r.2.2 = None /\
  match unshape_hs r.2.1 profile with Some (Hs2, _) | Some (Cookie, _) => False | _ => True end.

Lemma full_ignores am dgram src sv :
  (MAX_PEERS <= map_len (peers sv))%Z -> pending sv = empty ->
  newcomer sv (am, (dgram, src)) -> handle_dgram am dgram src sv = sv.
Proof.
  intros Hfull Hp [Hn Ht]. simpl in *. rewrite handle_dgram_unshape.
  destruct (unshape_hs dgram profile) as [[[] body]|]; simpl; try done.
  - unfold on_hs1. by rewrite (proj2 (Z.leb_le _ _) Hfull).
  - unfold on_hs3. by rewrite Hp, lookup_empty.
  - unfold on_data. by rewrite Hn.
Qed.

(** C32: once 1024 peers are in the map and no handshake is half-open, any
    number of first messages, third messages, data datagrams and unrecognisable
    datagrams from addresses that are not peers, at any times, leave the server
    exactly as it is: an [Hs1] returns before the clean-up, and so do third
    messages and data without state.  However long every one of the 1024 peers
    has been idle, no such datagram evicts one and no new client is admitted.
    The clean-up does run, from any address, on the two kinds of datagram that
    only a server sends: after one of these exactly the peers seen within
    [PEER_IDLE_TIMEOUT] remain. *)
Theorem full_server_ignores_clients sv (arrivals : list (Ambient * (bytes * SocketAddr))) :
  (1024 <= map_len (peers sv))%Z -> pending sv = empty ->
  Forall (newcomer sv) arrivals ->
  run (map (fun r => SRecv r.1 (Some r.2)) arrivals) sv = sv /\
  forall am dgram src ty body,
    unshape_hs dgram profile = Some (ty, body) -> ty = Hs2 \/ ty = Cookie ->
    forall a p, peers (handle_dgram am dgram src sv) !! a = Some p <->
      peers sv !! a = Some p /\ (duration_since (am_cleanup am) (last_seen p) < PEER_IDLE_TIMEOUT)%Z.
Proof.
  intros Hfull Hp HA. split.
  - induction HA as [|[am [dgram src]] rs Hr HA IH]; [done|].
    unfold run in *. simpl. unfold recv_step.
    destruct (receiving sv) eqn:E; [|done]. by rewrite (full_ignores am dgram src sv).
  - intros am dgram src ty body Hu Hty a p. rewrite handle_dgram_unshape, Hu.
    assert (finish am (branch am dgram src ty body sv) = cleanup (am_cleanup am) sv) as ->
      by (by destruct Hty as [-> | ->]).
    cbn. rewrite map_lookup_filter_Some, Is_true_true. unfold peer_live. by rewrite Z.ltb_lt.
Qed.

(** ** Joining *)

Lemma filter_peers_live now (m : gmap SocketAddr PeerState) :
  (forall a p, m !! a = Some p -> peer_live now p = true) ->
  filter (fun kv => peer_live now kv.2) m = m.
Proof.
  intros H. apply map_filter_id. intros a p Hp. by apply Is_true_eq_left, (H a p).
Qed.

(** The third message of a half-open handshake, accepted. *)
Lemma handle_hs3_admits am dgram src sv key :
  admits sv dgram src key ->
  (forall a p, peers sv !! a = Some p -> peer_live (am_cleanup am) p = true) ->
  peer_live (am_cleanup am) (mkPeer 0 (am_now am) 0) = true ->
  let sv' := handle_dgram am dgram src sv in
  peers sv' = <[src := mkPeer (length (chans sv)) (am_now am) (length (tasks sv))]> (peers sv) /\
  pending sv' = filter (fun kv => pending_live (am_cleanup am) kv.2) (delete src (pending sv)).
Proof.
  intros (body & ph & ch & hs' & Hu & Hp & Hc & Hg) Hlive Hnow. simpl.
  rewrite handle_dgram_unshape, Hu. simpl. unfold on_hs3. rewrite Hp, Hc, Hg. simpl.
  autorewrite with frame. simpl. split; [|done].
  apply filter_peers_live. intros a p.
  rewrite lookup_insert_Some. intros [[_ <-]|[_ Ha]]; [done|by eapply Hlive].
Qed.

(** A first message, accepted without a cookie while nothing is half-open. *)
Lemma handle_hs1_pends am dgram src sv body hs msg2 a r' :
  unshape_hs dgram profile = Some (Hs1, body) ->
  (map_len (peers sv) < MAX_PEERS)%Z -> under_load load = false -> pending sv = empty ->
  process_hs1 (am_entropy am) body src server_priv (cookie_secret sv) always_open profile (rng sv)
    = (Ok (Some (PartialHandshake hs msg2 a)), r') ->
  (forall a p, peers sv !! a = Some p -> peer_live (am_cleanup am) p = true) ->
  pending_live (am_cleanup am) (mkPending hs (am_now am)) = true ->
  let sv' := handle_dgram am dgram src sv in
  peers sv' = peers sv /\ pending sv' = {[src := mkPending hs (am_now am)]} /\
  receiving sv' = receiving sv.
Proof.
  intros Hu Hl Hload Hp Hpr Hlive Hnow. simpl. rewrite handle_dgram_unshape, Hu. simpl.
  unfold on_hs1. rewrite (proj2 (Z.leb_gt _ _)) by done. rewrite Hload, Hp. simpl.
  rewrite Hpr. simpl. rewrite Hp. simpl. split_and!; [by apply filter_peers_live| |done].
  apply map_filter_id. intros b ph [_ <-]%lookup_singleton_Some.
  by apply Is_true_eq_left.
Qed.

(** C35: completing a handshake adds the peer however many
    peers there are: with [MAX_PEERS] or more in the map, all of them live,
    the accepted third message of a new address makes one more. *)
Theorem hs3_ignores_peer_limit am dgram src sv key :
  admits sv dgram src key -> peers sv !! src = None ->
  (forall a p, peers sv !! a = Some p -> peer_live (am_cleanup am) p = true) ->
  peer_live (am_cleanup am) (mkPeer 0 (am_now am) 0) = true ->
  map_len (peers (handle_dgram am dgram src sv)) = (map_len (peers sv) + 1)%Z.
Proof.
  intros Ha Hn Hl Hnow. destruct (handle_hs3_admits am dgram src sv key Ha Hl Hnow) as [-> _].
  rewrite map_len_insert, decide_False; [done|]. rewrite Hn. by intros [].
Qed.

(** ** Subscriptions of evicted peers *)

(** C36: a forwarder keeps its peer's sealer task alive
    when the peer itself is evicted: after a datagram whose clean-up removes
    the idle peer from the map, the peer's idle task does not end, and an event
    on the subscribed topic is still queued, sealed with the evicted peer's
    channel and sent to its address. *)
Theorem events_sent_after_eviction am dgram src body sv j f x p ch ev wire ch' r' :
  unshape_hs dgram profile = Some (Cookie, body) ->
  peers sv !! st_dst x = Some p -> peer_live (am_cleanup am) p = false ->
  forwarders sv !! j = Some f -> fw_done f = false -> event_topic ev = fw_topic f ->
  tasks sv !! fw_tx f = Some x -> st_done x = false -> st_queue x = [] ->
  chans sv !! st_chan x = Some ch -> seal_envelope ch (EEvent ev) (st_rng x) = (Ok wire, ch', r') ->
  out_queue sv = [] ->
  let sv1 := handle_dgram am dgram src sv in
  peers sv1 !! st_dst x = None /\
  step (SSeal (fw_tx f)) sv1 = sv1 /\
  sent (run [SForward j (RecvEvent ev); SSeal (fw_tx f); SSend] sv1)
    = sent sv ++ [(st_dst x, wire)].
Proof.
  intros Hu Hp Hl Hj Hfd Ht Hx Hd Hq Hc Hs Ho.
  rewrite handle_dgram_unshape, Hu. simpl finish. split_and!.
  - simpl. apply map_lookup_filter_None. right. intros p' Hp'. rewrite Hp in Hp'.
    injection Hp' as <-. simpl. rewrite Hl. by intros [].
  - simpl. unfold sealer_step. simpl. rewrite Hx, Hd, Hq.
    replace (has_sender _ _) with true; [done|].
    symmetry. apply orb_true_iff. right. apply existsb_exists. exists f.
    split; [by eapply list_elem_of_In, list_elem_of_lookup_2|]. by rewrite Hfd, Nat.eqb_refl.
  - unfold run. simpl. unfold forward_step. simpl. rewrite Hj, Hfd, decide_True by done.
    unfold sealer_step. simpl. rewrite list_lookup_alter_eq, Hx. simpl.
    rewrite Hd, Hq. simpl. rewrite Hc, Hs. simpl.
    unfold send_loop_step. simpl. by rewrite Ho.
Qed.

End Handler.
End UdpServer.
