(* ===== verification/UdpServerRuns.v ===== *)
(** * Concrete runs of the UDP server

    Clients that join, subscribe, send requests and go idle, evaluated on the
    reference instantiation; and the server filled to its peer limit, reached
    from its initial state. *)

From S2P Require Import Prelude RustStd Externals Envelope Verifier UdpWire DataPlane.
From S2P Require Import UdpHandshake Instances UdpServer.

Module UdpServerRuns.
Import Ref.

Definition spriv : bytes := str "server".
Definition cpriv : bytes := str "client".
Definition svc : RService := mkRService 0 [str "news"] x2a.
Definition start : Server := serve_obfs_udp (str "k") 0 svc.

(** The [i]-th client address. *)
Definition cl (i : nat) : SocketAddr :=
  V4 x0a x00 (as_u8 (Z.of_nat i / 256)) (as_u8 (Z.of_nat i)) 4000.

Definition seed : bytes := repeat x55 32.
Definition d1 : bytes := xc0 :: encode_inner Hs1 (encode_msg1_framed (x01 :: pub_of spriv) None).
Definition d3 : bytes :=
  xc0 :: encode_inner Hs3 (x03 :: as_u8 (Z.of_nat (length (pub_of cpriv))) :: pub_of cpriv ++ seed).

(** A call of the handler at [t] seconds. *)
Definition at_sec (t : Z) : Ambient := mkAmbient 0 0 (from_secs t) (from_secs t).

Definition joins (i : nat) : list Step :=
  [SRecv (at_sec 0) (Some (d1, cl i)); SRecv (at_sec 0) (Some (d3, cl i))].

Abbreviation srun := (run spriv allow_all always_open marked).
Abbreviation shandle := (handle_dgram spriv allow_all always_open marked).
Abbreviation sreachable := (reachable spriv allow_all always_open marked).

Lemma reachable_run ss sv : sreachable sv -> sreachable (srun ss sv).
Proof.
  revert sv. induction ss as [|s ss IH]; intros sv HR; [done|]. apply (IH (step _ _ _ _ s sv)).
  by constructor.
Qed.

Lemma run_reachable ss : sreachable (srun ss start).
Proof. apply reachable_run. constructor. Qed.

(** The client's side of the channel of [cl 0]: keys, and datagrams. *)
Definition c2s : bytes := (derive_record_keys seed).1.
Definition data (n : nat) (e : Envelope) : bytes :=
  xc0 :: encode_inner Data (c2s ++ as_u8 (Z.of_nat n) :: env_out e).

Definition r1 : core.(Request) := str "r1".
Definition resp1 : core.(Response) := (str "r1", x00).
Definition subscribe_news : Step :=
  SRecv (at_sec 1) (Some (data 0 (ESubscribe (str "news") None (Some x2a)), cl 0)).
Definition request : Step := SRecv (at_sec 1) (Some (data 1 (ERequest r1), cl 0)).
Definition news : core.(Event) := (str "news", x21).

Definition joined : Server := srun (joins 0) start.
Definition subscribed0 : Server := srun (joins 0 ++ [subscribe_news]) start.

Lemma server_memory_bounded_witness :
  (map_len (pending joined) <= 2048)%Z /\
  (map_len (peers joined) + map_len (pending joined) <= 3071)%Z.
Proof. refine (server_memory_bounded spriv allow_all always_open marked joined _). apply run_reachable. Defined.

Lemma peers_do_not_share_channels_witness :
  exists t, tasks joined !! 0 = Some t /\ st_dst t = cl 0 /\ st_chan t = 0 /\
    st_done t = false /\ is_Some (chans joined !! 0).
Proof.
  refine (proj1 (peers_do_not_share_channels spriv allow_all always_open marked joined _)
            (cl 0) (mkPeer 0 0 0) _).
  - apply run_reachable.
  - reflexivity.
Defined.

Lemma half_open_needs_cookie_witness :
  cl 0 = cl 0 /\ (map_len (peers start) < 1024)%Z /\
  exists body msg1 supplied,
    unshape_hs d1 marked = Some (Hs1, body) /\
    decode_msg1_framed body = Some (msg1, supplied) /\
    (under_load always_open = true \/ (256 <= map_len (pending start))%Z ->
     exists c, supplied = Some c /\
       cookie_verify (cookie_secret start) (src_bytes (cl 0)) c = true).
Proof.
  refine (half_open_needs_cookie spriv allow_all always_open marked (at_sec 0) d1 (cl 0) start (cl 0)
            (mkPending (mkRHandshake RResp spriv None 2) 0) _ _).
  - reflexivity.
  - discriminate.
Defined.

Lemma peers_are_authenticated_witness :
  exists ss1 am dgram ss2 key,
    joins 0 = ss1 ++ SRecv am (Some (dgram, cl 0)) :: ss2 /\
    admits allow_all marked (srun ss1 start) dgram (cl 0) key.
Proof.
  refine (peers_are_authenticated spriv allow_all always_open marked (joins 0) (str "k") 0 svc
            (cl 0) (mkPeer 0 0 0) _).
  reflexivity.
Defined.

Lemma events_need_granted_subscription_witness :
  granted_in spriv allow_all always_open marked
    (joins 0 ++ [subscribe_news; SForward 0 (RecvEvent news)]) start (str "news") 0.
Proof.
  refine (events_need_granted_subscription spriv allow_all always_open marked
            (joins 0 ++ [subscribe_news; SForward 0 (RecvEvent news)]) (str "k") 0 svc news 0 _).
  exists (mkTask (WA := wire) (cl 0) 0 [EEvent news] 0 false). split; [reflexivity|left].
Defined.

(** The datagram of a request, against the opener of [cl 0]. *)
Lemma request_carries :
  carries (sealed := DataPlaneRuns.r_sealed) marked c2s 1 (ERequest r1)
    (data 1 (ERequest r1)).
Proof.
  exists (env_out (ERequest r1)), (c2s ++ as_u8 1 :: env_out (ERequest r1)).
  split; [reflexivity|]. split; [|reflexivity]. split; [lia|reflexivity].
Qed.

Definition chan0 : DataChannel :=
  data_channel_new (mkRSealer (derive_record_keys seed).2 1) (mkROpener c2s []) marked.

Lemma request_executed_once_example :
  exists ch1,
    open_datagram chan0 (data 1 (ERequest r1)) = (Ok (Some (ERequest r1)), ch1) /\
    let sv1 := shandle (at_sec 1) (data 1 (ERequest r1)) (cl 0) joined in
    let sv2 := shandle (at_sec 2) (data 1 (ERequest r1)) (cl 0) sv1 in
    service sv1 = mkRService 1 [str "news"] x2a /\
    sent sv1 = sent joined ++ match seal_envelope ch1 (EResponse resp1) (rng joined) with
                              | (Ok wire, _, _) => [(cl 0, wire)]
                              | _ => []
                              end /\
    peers sv1 = filter (fun kv => peer_live (am_cleanup (at_sec 1)) kv.2)
                  (<[cl 0 := mkPeer 0 (from_secs 1) 0]> (peers joined)) /\
    service sv2 = service sv1 /\ sent sv2 = sent sv1.
Proof.
  refine (request_executed_once spriv allow_all always_open marked
            (RL := DataPlaneRuns.r_record_laws) (at_sec 1) (at_sec 2)
            (data 1 (ERequest r1)) (cl 0) joined (mkPeer 0 0 0) chan0 c2s 1 r1
            resp1 (mkRService 1 [str "news"] x2a) _ _ _ _ _ _ _).
  - reflexivity.
  - reflexivity.
  - reflexivity.
  - reflexivity.
  - split; [lia|]. apply not_elem_of_nil.
  - apply request_carries.
  - reflexivity.
Defined.

(** *** A full server is reachable: 1024 clients join, one after the other. *)

Record joined_by (n : nat) (sv : Server) : Prop := {
  jb_reachable : sreachable sv;
  jb_receiving : receiving sv = true;
  jb_pending : pending sv = empty;
  jb_len : map_len (peers sv) = Z.of_nat n;
  jb_seen : forall a p, peers sv !! a = Some p -> last_seen p = 0%Z;
  jb_fresh : forall i, n <= i -> (Z.of_nat i < 65536)%Z -> peers sv !! cl i = None;
}.

Lemma cl_inj i j : (Z.of_nat i < 65536)%Z -> (Z.of_nat j < 65536)%Z -> cl i = cl j -> i = j.
Proof.
  intros Hi Hj [= H1 H2]. apply (f_equal byte_Z) in H1, H2.
  rewrite !byte_Z_as_u8 in H1, H2. rewrite !(Z.mod_small (_ / 256)) in H1 by divlia. divlia.
Qed.

Lemma join_one n sv :
  n < 1024 -> joined_by n sv -> joined_by (S n) (srun (joins n) sv).
Proof.
  intros Hn [HR Hr Hp Hl Hs Hf].
  assert (forall sv', peers sv' = peers sv ->
    forall a p, peers sv' !! a = Some p -> peer_live (from_secs 0) p = true) as Hlive.
  { intros sv' E a p. rewrite E. intros Ha%Hs. unfold peer_live. by rewrite Ha. }
  set (hs := mkRHandshake RResp spriv None 2 : wire.(Handshake)).
  destruct (handle_hs1_pends spriv allow_all always_open marked (at_sec 0) d1 (cl n) sv
              (encode_msg1_framed (x01 :: pub_of spriv) None) hs [xc0; x02; x02] (cl n) (rng sv))
    as (Hp1 & Hq1 & Hr1);
    [reflexivity|unfold MAX_PEERS; lia|reflexivity|done|reflexivity|by apply Hlive|reflexivity|].
  set (sv1 := shandle (at_sec 0) d1 (cl n) sv) in *.
  destruct (handle_hs3_admits spriv allow_all always_open marked (at_sec 0) d3 (cl n) sv1
              (pub_of cpriv)) as [Hp2 Hq2]; [|by apply Hlive|reflexivity|].
  { eexists _, (mkPending hs 0), _, _. rewrite Hq1, lookup_singleton_eq. by repeat split. }
  assert (srun (joins n) sv = shandle (at_sec 0) d3 (cl n) sv1) as E.
  { unfold run, joins. cbn [fold_left step]. unfold recv_step at 2. rewrite Hr. fold sv1.
    unfold recv_step. by rewrite Hr1, Hr. }
  assert (sreachable (srun (joins n) sv)) as HR2 by (by apply reachable_run).
  rewrite E in *. split; [done| | | | |].
  - rewrite handle_dgram_receiving. by rewrite Hr1.
  - rewrite Hq2, Hq1, delete_singleton_eq. apply map_filter_empty.
  - rewrite Hp2, Hp1, map_len_insert, decide_False; [lia|].
    rewrite Hf by lia. by intros [].
  - intros a p. rewrite Hp2, Hp1, lookup_insert_Some. intros [[_ <-]|[_ Ha]]; [done|by eapply Hs].
  - intros i Hi Hi'. rewrite Hp2, Hp1, lookup_insert_ne; [apply Hf; lia|].
    intros Ei%cl_inj; lia.
Qed.

Fixpoint join_all (n : nat) : Server :=
  match n with 0 => start | S n => srun (joins n) (join_all n) end.

Lemma join_all_joined n : n <= 1024 -> joined_by n (join_all n).
Proof.
  induction n as [|n IH]; intros Hn; [|apply join_one; [lia|apply IH; lia]].
  split; [constructor|done|done|done| |done]. intros a p. simpl. by rewrite lookup_empty.
Qed.

(** Every other client is turned away for ever, a day later too. *)
Lemma full_server_ignores_clients_witness :
  sreachable (join_all (Z.to_nat 1024)) /\
  srun (map (fun r => SRecv r.1 (Some r.2))
          [(at_sec 3600, (d1, cl 2000)); (at_sec 86400, (d1, cl 2001))])
    (join_all (Z.to_nat 1024)) = join_all (Z.to_nat 1024).
Proof.
  assert (joined_by (Z.to_nat 1024) (join_all (Z.to_nat 1024))) as HJ by (apply join_all_joined; lia).
  split; [by apply (jb_reachable _ _ HJ)|].
  refine (proj1 (full_server_ignores_clients spriv allow_all always_open marked (join_all (Z.to_nat 1024)) _ _ _ _)).
  - rewrite (jb_len _ _ HJ). lia.
  - apply (jb_pending _ _ HJ).
  - do 2 (apply List.Forall_cons; [split; [apply (jb_fresh _ _ HJ); lia|exact I]|]).
    apply List.Forall_nil.
Defined.

Lemma hs3_ignores_peer_limit_witness :
  map_len (peers (shandle (at_sec 0) d3 (cl 1)
                    (srun (joins 0 ++ [SRecv (at_sec 0) (Some (d1, cl 1))]) start))) = 2%Z.
Proof.
  refine (hs3_ignores_peer_limit spriv allow_all always_open marked (at_sec 0) d3 (cl 1)
            (srun (joins 0 ++ [SRecv (at_sec 0) (Some (d1, cl 1))]) start) (pub_of cpriv) _ _ _ _).
  - eexists _, (mkPending (WA := wire) (mkRHandshake RResp spriv None 2) 0), _, _. by repeat split.
  - reflexivity.
  - intros a p. change (peers _) with (<[cl 0 := mkPeer 0 0 0]> (empty : gmap SocketAddr PeerState)).
    rewrite lookup_insert_Some. by intros [[_ <-]|[_ ?]].
  - reflexivity.
Defined.

(** The peer that subscribed is evicted by a stray datagram at 200 seconds. *)
Lemma events_sent_after_eviction_witness :
  let sv1 := shandle (at_sec 200) [xc0; x04] (cl 9) subscribed0 in
  peers sv1 !! cl 0 = None /\
  step spriv allow_all always_open marked (SSeal 0) sv1 = sv1 /\
  sent (srun [SForward 0 (RecvEvent news); SSeal 0; SSend] sv1)
    = sent subscribed0 ++
      [(cl 0, xc0 :: encode_inner Data ((derive_record_keys seed).2 ++ x01 :: env_out (EEvent news)))].
Proof.
  refine (events_sent_after_eviction spriv allow_all always_open marked (at_sec 200) [xc0; x04]
            (cl 9) [] subscribed0 0 (mkForwarder (str "news") (str "news") 0 false)
            (mkTask (cl 0) 0 [] 0 false) (mkPeer 0 (from_secs 1) 0)
            (data_channel_new (mkRSealer (derive_record_keys seed).2 1) (mkROpener c2s [x00]) marked)
            news _
            (data_channel_new (mkRSealer (derive_record_keys seed).2 2) (mkROpener c2s [x00]) marked)
            0 _ _ _ _ _ _ _ _ _ _ _ _); reflexivity.
Defined.

End UdpServerRuns.
