(* ===== verification/UdpEndToEnd.v ===== *)
(** * The UDP client against the UDP server

    The client's handshake of [UdpConnect] and the server's [handle_dgram] of
    [UdpServer], with a network that delivers the datagrams of each to the
    other. *)

From S2P Require Import Prelude RustStd Externals Envelope Verifier UdpWire DataPlane.
From S2P Require Import UdpHandshake UdpConnect UdpServer Instances.

Section EndToEnd.
Context {WA : WireApi} {CA : CoreApi} {SA : SerdeApi} {JL : SerdeLaws} {CL : CookieLaws}.
Context {window : nat} {sealer_at : RecordSealer -> RecordKey -> nat -> Prop}
  {sealed : RecordKey -> nat -> bytes -> bytes -> Prop}
  {opener_for : RecordOpener -> RecordKey -> Prop} {accepts : RecordOpener -> nat -> Prop}
  {RL : RecordLaws window sealer_at sealed opener_for accepts}.
Context {G L : Type} {TG : TransportGate G} {LG : LoadGate L}.
Context (server_priv : bytes) (gate : G) (load : L) (m : DatagramMimicry) {DL : DatagramLaws m}.

Abbreviation deliver := (handle_dgram server_priv gate load m).

(** ** The server's three steps *)

Lemma deliver_challenge am d msg1 cookie src sv :
  unshape_hs d m = Some (Hs1, encode_msg1_framed msg1 cookie) ->
  (Z.of_nat (length msg1) < 65536)%Z -> under_load load = true ->
  match cookie with
  | Some c => length c = 16 /\ cookie_verify (cookie_secret sv) (src_bytes src) c = false
  | None => True
  end ->
  (map_len (peers sv) < MAX_PEERS)%Z ->
  let '(w0, r) := shape_hs Cookie (cookie_make (cookie_secret sv) (src_bytes src)) m (rng sv) in
  deliver am d src sv = cleanup (am_cleanup am) (send_to w0 src (set_rng r sv)).
Proof.
  intros Hu Hlen Hl Hc Hp. rewrite handle_dgram_unshape, Hu. simpl. unfold on_hs1.
  rewrite (proj2 (Z.leb_gt _ _)), Hl by done. simpl.
  rewrite (process_hs1_challenges _ _ _ _ _ _ _ _ msg1 cookie).
  - by destruct (shape_hs _ _ _ _).
  - apply decode_encode_msg1; [done|]. destruct cookie; [apply Hc|done].
  - done.
  - intros c ->. apply Hc.
Qed.

Lemma deliver_hs1 am d msg1 c src sv hs hs' hs'' p1 msg2 :
  unshape_hs d m = Some (Hs1, encode_msg1_framed msg1 (Some c)) ->
  (Z.of_nat (length msg1) < 65536)%Z -> length c = 16 ->
  cookie_verify (cookie_secret sv) (src_bytes src) c = true -> under_load load = true ->
  (map_len (peers sv) < MAX_PEERS)%Z -> (map_len (pending sv) < MAX_PENDING)%Z ->
  responder (am_entropy am) server_priv = Ok hs -> read_message hs msg1 = (Ok p1, hs') ->
  write_message hs' [] = (Ok msg2, hs'') ->
  let '(w2, r) := shape_hs Hs2 msg2 m (rng sv) in
  deliver am d src sv =
    cleanup (am_cleanup am) (send_to w2 src
      (set_pending (<[src := mkPending hs'' (am_now am)]> (pending sv)) (set_rng r sv))).
Proof.
  intros Hu Hlen Hc Hv Hl Hp Hpd Hr Hm1 Hm2. rewrite handle_dgram_unshape, Hu. simpl. unfold on_hs1.
  rewrite (proj2 (Z.leb_gt _ (map_len (peers sv)))), Hl by done. simpl.
  rewrite (process_hs1_accepts _ _ _ _ _ _ _ _ msg1 c hs hs' hs'' p1 msg2)
    by (done || by apply decode_encode_msg1).
  destruct (shape_hs Hs2 msg2 m (rng sv)) as [w2 r]. simpl.
  by rewrite (proj2 (Z.leb_gt _ (map_len (pending sv)))) by done.
Qed.

Lemma deliver_hs3 am d msg3 src sv ph ch key hs' ready ch' r :
  unshape_hs d m = Some (Hs3, msg3) -> pending sv !! src = Some ph ->
  complete_handshake_msg3 (ph_responder ph) msg3 m = (Ok (ch, key), hs') ->
  authenticate gate key = Ok tt -> seal_envelope ch EPong (rng sv) = (Ok ready, ch', r) ->
  let sv' := deliver am d src sv in
  sent sv' = sent sv ++ [(src, ready)] /\
  chans sv' = chans sv ++ [ch'] /\
  peers sv' = filter (fun kv => peer_live (am_cleanup am) kv.2)
    (<[src := mkPeer (length (chans sv)) (am_now am) (length (tasks sv))]> (peers sv)).
Proof.
  intros Hu Hp Hc Hg Hs. simpl. rewrite handle_dgram_unshape, Hu. simpl. unfold on_hs3.
  rewrite Hp, Hc, Hg. unfold seal_and_send. simpl.
  rewrite list_lookup_middle by done. rewrite Hs. simpl. split_and!; [done| |done].
  by rewrite insert_app_r_alt, Nat.sub_diag by lia.
Qed.

(** ** The closed loop *)

(** The clean-up right after an insertion keeps what was inserted. *)
Lemma fresh_pending_live hs now later :
  (now <= later < now + from_secs 5)%Z -> pending_live later (mkPending hs now) = true.
Proof. intros. unfold pending_live, duration_since. simpl. apply Z.ltb_lt. lia. Qed.

Lemma fresh_peer_live c t now later :
  (now <= later < now + PEER_IDLE_TIMEOUT)%Z -> peer_live later (mkPeer c now t) = true.
Proof. intros. unfold peer_live, duration_since. simpl. apply Z.ltb_lt. lia. Qed.

(** Sealing the ready record does not depend on the generator. *)
Lemma seal_ready_any s o pt ct s' r :
  to_vec EPong = Ok pt -> seal s pt [] = (Ok ct, s') ->
  exists ready r', seal_envelope (data_channel_new s o m) EPong r
    = (Ok ready, data_channel_new s' o m, r').
Proof.
  intros Hp Hs. unfold seal_envelope. rewrite Hp. simpl. rewrite Hs.
  destruct (shape_out m _ r) as [ready r'] eqn:E. by exists ready, r'.
Qed.

(** What both ends agree on for a seed: the client's channel and the server's
    channel seal with the key the other opens with, the ready record is behind
    them, and every later record of the server will be taken. *)
Definition channels_agree (seed : bytes) (chc chs : DataChannel) : Prop :=
  let '(c2s, s2c) := derive_record_keys seed in
  sealer chc = sealer_new c2s /\ opener chs = opener_new c2s /\
  opener_for (opener chc) s2c /\ sealer_at (sealer chs) s2c 1 /\ ~ accepts (opener chc) 0 /\
  (forall n pt ct, 1 <= n -> sealed s2c n pt ct -> accepts (opener chc) n) /\
  mimic chc = m /\ mimic chs = m.

Lemma server_ready seed pt ct s' r :
  to_vec EPong = Ok pt ->
  seal (sealer_new (derive_record_keys seed).2) pt [] = (Ok ct, s') ->
  let chs := data_channel_new (sealer_new (derive_record_keys seed).2)
               (opener_new (derive_record_keys seed).1) m in
  exists ready chs' r' chc,
    seal_envelope chs EPong r = (Ok ready, chs', r') /\
    open_datagram (client_channel m seed) ready = (Ok (Some EPong), chc) /\
    channels_agree seed chc chs'.
Proof.
  intros Hpt Hct. cbv zeta. unfold client_channel, channels_agree.
  destruct (derive_record_keys seed) as [c2s s2c]. simpl in *.
  destruct (seal_ready_any _ (opener_new c2s) _ _ _ r Hpt Hct) as (ready & r' & Hseal).
  destruct (seal_envelope_carries (RL := RL) m
              (data_channel_new (sealer_new s2c) (opener_new c2s) m) EPong r ready _ r' s2c 0 eq_refl
              (sealer_new_at s2c) Hseal) as (Hcar & Hat & _).
  pose proof Hcar as (pt' & ct' & _ & Hsd & _).
  destruct (open_datagram_fresh (RL := RL) m (data_channel_new (sealer_new c2s) (opener_new s2c) m)
              s2c 0 EPong ready eq_refl (opener_new_for s2c) (opener_new_accepts _ _ _ _ Hsd) Hcar)
    as (o' & Ho & Hfor & Hna & Hkeep & _).
  exists ready, (data_channel_new s' (opener_new c2s) m), r',
    (with_opener o' (data_channel_new (sealer_new c2s) (opener_new s2c) m)).
  repeat split; try done. intros n pn cn Hn Hs. apply Hkeep; [lia|lia|].
  by eapply opener_new_accepts.
Qed.

Lemma unshape_shaped ty body r w r' : shape_hs ty body m r = (w, r') -> unshape_hs w m = Some (ty, body).
Proof. intros E. rewrite <-(unshape_shape_hs ty body m r DL). by rewrite E. Qed.

(** A first message without a cookie and one with the cookie it is answered
    with: the challenge, the second message, and half-open state. *)
Lemma server_takes_cookie am1 am2 d1 d2 m1 m2 src sv hr0 hr1 hr2 p1 w0 s0 w2 s2 :
  let c := cookie_make (cookie_secret sv) (src_bytes src) in
  unshape_hs d1 m = Some (Hs1, encode_msg1_framed m1 None) ->
  unshape_hs d2 m = Some (Hs1, encode_msg1_framed m1 (Some c)) ->
  (Z.of_nat (length m1) < 65536)%Z -> under_load load = true ->
  (map_len (peers sv) < MAX_PEERS)%Z -> (map_len (pending sv) < MAX_PENDING)%Z ->
  responder (am_entropy am2) server_priv = Ok hr0 -> read_message hr0 m1 = (Ok p1, hr1) ->
  write_message hr1 [] = (Ok m2, hr2) ->
  shape_hs Cookie c m (rng sv) = (w0, s0) -> shape_hs Hs2 m2 m s0 = (w2, s2) ->
  (am_now am2 <= am_cleanup am2 < am_now am2 + from_secs 5)%Z ->
  let sv2 := deliver am2 d2 src (deliver am1 d1 src sv) in
  sent sv2 = sent sv ++ [(src, w0); (src, w2)] /\
  pending sv2 !! src = Some (mkPending hr2 (am_now am2)).
Proof.
  intros c U1 U2 Hlen Hload Hpeers Hpend Hr X2 X3 E0 E4 Hclk. cbv zeta.
  pose proof (deliver_challenge am1 d1 m1 None src sv U1 Hlen Hload I Hpeers) as S1.
  fold c in S1. rewrite E0 in S1. set (sv1 := deliver am1 d1 src sv) in *.
  pose proof (deliver_hs1 am2 d2 m1 c src sv1 hr0 hr1 hr2 p1 m2 U2 Hlen (cookie_length _ _)) as S2.
  rewrite S1 in S2. simpl in S2. rewrite E4 in S2.
  specialize (S2 (cookie_verifies _ _) Hload). rewrite <-S1 in S2.
  pose proof (map_len_filter (fun kv => pending_live (am_cleanup am1) kv.2) (pending sv)).
  pose proof (map_len_filter (fun kv => peer_live (am_cleanup am1) kv.2) (peers sv)).
  rewrite (S2 ltac:(lia) ltac:(lia) Hr X2 X3). simpl. split.
  - rewrite S1. simpl. by rewrite <-app_assoc.
  - apply map_lookup_filter_Some. split; [apply lookup_insert_eq|].
    by apply Is_true_eq_left, fresh_pending_live.
Qed.

(** C8: a client that runs [client_udp_handshake] against a
    server under load, with a network that delivers each datagram of one to
    the other, connects: the server challenges it with a cookie, the client
    echoes it, the server keeps half-open state only then, completes the
    handshake on the third message and sends the ready record.  The client
    returns after exactly three datagrams; the server has a peer at the
    client's address, and the two channels agree on their keys. *)
Theorem udp_client_connects ents cpriv spub rng0 seed rng1 hi0 hr0 m1 m2 m3 hi3 hr3 key pt ct s'
    caddr saddr sv am1 am2 am3 rest out :
  fill_bytes rng0 32 = (seed, rng1) -> length seed = 32 ->
  initiator (ents 2) cpriv spub = Ok hi0 -> responder (am_entropy am2) server_priv = Ok hr0 ->
  xk_exchange hi0 hr0 seed m1 m2 m3 hi3 hr3 -> (Z.of_nat (length m1) < 65536)%Z ->
  remote_static hr3 = Some key -> authenticate gate key = Ok tt ->
  to_vec EPong = Ok pt -> seal (sealer_new (derive_record_keys seed).2) pt [] = (Ok ct, s') ->
  under_load load = true ->
  (map_len (peers sv) < MAX_PEERS)%Z -> (map_len (pending sv) < MAX_PENDING)%Z ->
  (am_now am2 <= am_cleanup am2 < am_now am2 + from_secs 5)%Z ->
  (am_now am3 <= am_cleanup am3 < am_now am3 + PEER_IDLE_TIMEOUT)%Z ->
  exists d1 d2 d3 w0 w2 ready chc rngc,
    let sv3 := deliver am3 d3 caddr (deliver am2 d2 caddr (deliver am1 d1 caddr sv)) in
    client_udp_handshake saddr m ents spub cpriv rng0
      (mkNet (Got saddr w0 :: Got saddr w2 :: Got saddr ready :: rest) [] out)
    = (Ready (Ok (chc, rngc)), mkNet rest [] (out ++ [(saddr, d1); (saddr, d2); (saddr, d3)])) /\
    sent sv3 = sent sv ++ [(caddr, w0); (caddr, w2); (caddr, ready)] /\
    exists p chs, peers sv3 !! caddr = Some p /\ chans sv3 !! channel p = Some chs /\
      channels_agree seed chc chs.
Proof.
  intros Hf Hseed Hi Hr (hi1 & hi2 & hr1 & hr2 & p1 & p2 & X1 & X2 & X3 & X4 & X5 & X6) Hlen
    Hkey Hgate Hpt Hct Hload Hpeers Hpend Hclk2 Hclk3.
  set (c := cookie_make (cookie_secret sv) (src_bytes caddr)).
  (* the client's three datagrams, the server's first two *)
  destruct (shape_hs Hs1 (encode_msg1_framed m1 None) m rng1) as [d1 r1] eqn:E1.
  destruct (shape_hs Hs1 (encode_msg1_framed m1 (Some c)) m r1) as [d2 r2] eqn:E2.
  destruct (shape_hs Hs3 m3 m r2) as [d3 r3] eqn:E3.
  destruct (shape_hs Cookie c m (rng sv)) as [w0 s0] eqn:E0.
  destruct (shape_hs Hs2 m2 m s0) as [w2 s2] eqn:E4.
  pose proof (unshape_shaped _ _ _ _ _ E1) as U1. pose proof (unshape_shaped _ _ _ _ _ E2) as U2.
  destruct (server_takes_cookie am1 am2 d1 d2 m1 m2 caddr sv hr0 hr1 hr2 p1 w0 s0 w2 s2
              U1 U2 Hlen Hload Hpeers Hpend Hr X2 X3 E0 E4 Hclk2) as [S1 S2].
  set (sv2 := deliver am2 d2 caddr (deliver am1 d1 caddr sv)) in *.
  destruct (server_ready seed pt ct s' (rng sv2) Hpt Hct)
    as (ready & chs & r' & chc & Hseal & Hopen & Hagree).
  destruct (deliver_hs3 am3 d3 m3 caddr sv2 (mkPending hr2 (am_now am2))
              (data_channel_new (sealer_new (derive_record_keys seed).2)
                 (opener_new (derive_record_keys seed).1) m) key hr3 ready chs r'
              (unshape_shaped _ _ _ _ _ E3)) as (T1 & T2 & T3); [done| |done|done|].
  { by apply complete_handshake_msg3_seed. }
  exists d1, d2, d3, w0, w2, ready, chc, r3. cbv zeta. fold sv2. split_and!.
  - pose proof (udp_client_run saddr m ents spub cpriv rng0 seed rng1 hi0 m1 m2 m3 w0 c c w2 ready EPong
                  chc rest out Hf Hi) as HC.
    rewrite E1, E2, E3 in HC.
    apply HC; [by exists hi1, p2, hi2, hi3|by eapply unshape_shaped| |by eapply unshape_shaped|done].
    apply decode_cookie_16, cookie_length.
  - by rewrite T1, S1, <-app_assoc.
  - eexists _, chs. split_and!; [| |done].
    + rewrite T3. apply map_lookup_filter_Some. split; [apply lookup_insert_eq|].
      by apply Is_true_eq_left, fresh_peer_live.
    + rewrite T2. simpl. by rewrite list_lookup_middle.
Qed.

End EndToEnd.

(** ** Concrete runs *)

Module EndToEndRuns.
Import Ref.

Definition spriv : bytes := str "server".
Definition cpriv : bytes := str "client".
Definition caddr : SocketAddr := V4 xcb x00 x71 x07 51820.
Definition saddr : SocketAddr := V4 xc0 x00 x02 x01 443.
Definition svc : RService := mkRService 0 [] x2a.
Definition seed : bytes := repeat x00 32.
Definition am : Ambient := mkAmbient 0 0 0 0.
Definition m1 : bytes := x01 :: pub_of spriv.
Definition m2 : bytes := [x02].
Definition m3 : bytes := x03 :: x07 :: pub_of cpriv ++ seed.

Lemma exchange :
  xk_exchange (mkRHandshake RInit cpriv (Some (pub_of spriv)) 0 : wire.(Handshake))
    (mkRHandshake RResp spriv None 0 : wire.(Handshake)) seed m1 m2 m3
    (mkRHandshake RInit cpriv (Some (pub_of spriv)) 3 : wire.(Handshake))
    (mkRHandshake RResp spriv (Some (pub_of cpriv)) 3 : wire.(Handshake)).
Proof. eexists _, _, _, _, _, _. split_and!; reflexivity. Qed.

Lemma udp_client_connects_witness :
  exists d1 d2 d3 w0 w2 ready chc rngc,
    let deliver := handle_dgram spriv allow_all always_under_load marked in
    let sv := serve_obfs_udp (str "k") 0 svc in
    let sv3 := deliver am d3 caddr (deliver am d2 caddr (deliver am d1 caddr sv)) in
    client_udp_handshake saddr marked (fun _ => 0) (pub_of spriv) cpriv 0
      (mkNet [Got saddr w0; Got saddr w2; Got saddr ready] [] [])
    = (Ready (Ok (chc, rngc)), mkNet [] [] ([] ++ [(saddr, d1); (saddr, d2); (saddr, d3)])) /\
    sent sv3 = sent sv ++ [(caddr, w0); (caddr, w2); (caddr, ready)] /\
    exists p chs, peers sv3 !! caddr = Some p /\ chans sv3 !! channel p = Some chs /\
      channels_agree (sealer_at := DataPlaneRuns.r_sealer_at) (sealed := DataPlaneRuns.r_sealed)
        (opener_for := DataPlaneRuns.r_opener_for) (accepts := DataPlaneRuns.r_accepts)
        marked seed chc chs.
Proof.
  refine (udp_client_connects (CL := UdpHandshakeRuns.r_cookie_laws)
            (RL := DataPlaneRuns.r_record_laws) spriv allow_all always_under_load marked
            (fun _ => 0) cpriv (pub_of spriv) 0 seed 1 _ _ m1 m2 m3 _ _ (pub_of cpriv) [x08]
            ((derive_record_keys seed).2 ++ [x00; x08]) (mkRSealer (derive_record_keys seed).2 1)
            caddr saddr (serve_obfs_udp (str "k") 0 svc) am am am [] []
            _ _ _ _ exchange _ _ _ _ _ _ _ _ _ _).
  all: try reflexivity; split; (reflexivity || discriminate).
Defined.

End EndToEndRuns.
