(* ===== verification/UdpSlowLink.v ===== *)
(** * The UDP handshake on a slow link

    [src/udp/handshake.rs] against [src/udp/server.rs] when the round trip is
    longer than [RETRANSMIT_INTERVAL].  The client sends message 1 again before
    message 2 can arrive; the server starts a fresh responder for the second
    copy and forgets the first; the client answers the first message 2.  The
    network here loses, duplicates and reorders nothing: it is only slow. *)

From S2P Require Import Prelude RustStd Externals Envelope Verifier UdpWire DataPlane.
From S2P Require Import UdpHandshake UdpConnect UdpServer Instances.

Section SlowLink.
Context {WA : WireApi} {CA : CoreApi} {SA : SerdeApi}.
Context {G L : Type} {TG : TransportGate G} {LG : LoadGate L}.
Context (server_priv : bytes) (gate : G) (load : L) (m : DatagramMimicry) {DL : DatagramLaws m}.
Context (caddr saddr : SocketAddr).

Abbreviation deliver := (handle_dgram server_priv gate load m).

(** The server handles the client's datagrams, in order. *)
Definition deliver_all (l : list (Ambient * bytes)) (sv : Server) : Server :=
  fold_left (fun sv x => deliver x.1 x.2 caddr sv) l sv.

(** The number of timeouts before the first message 2 comes in: the whole
    retransmission intervals in a round trip. *)
Context (late : nat).

(** A wait during which the messages 2 [ws] come in and which runs out. *)
Definition waited (ws : list bytes) : list NetEv := (Got saddr <$> ws) ++ [Elapsed].

(** One attempt as the client lives it: the waits for message 2 that run out,
    then the messages 2, which come in 250 ms apart as the copies of message 1
    were sent.  The first ends the loop; the next seven fall into the 2000 ms
    of the wait for the ready record, and two more into each of the 500 ms
    waits after the resends. *)
Definition slow_script (w2s : list bytes) : list NetEv :=
  repeat Elapsed late ++ waited (take 8 w2s) ++
  waited (take 2 (drop 8 w2s)) ++ waited (take 2 (drop 10 w2s)) ++ waited (drop 12 w2s).

(** ** The client *)

Lemma recv_elapsed rest out :
  recv_from_server saddr (mkNet (Elapsed :: rest) [] out) = (Ready (Ok None), mkNet rest [] out).
Proof. done. Qed.

(** The copies of message 1 the client sends before it has message 2. *)
Lemma msg1_loop_late n msg1 rng :
  exists ds rng', length ds = S n /\
    Forall (fun d => unshape_hs d m = Some (Hs1, encode_msg1_framed msg1 None)) ds /\
    forall tries w2 msg2 rest out,
      unshape_hs w2 m = Some (Hs2, msg2) ->
      msg1_loop saddr m (n + S tries) msg1 None rng
        (mkNet (repeat Elapsed n ++ Got saddr w2 :: rest) [] out)
      = (Ready (Ok (Some msg2, rng')), mkNet rest [] (out ++ (pair saddr <$> ds))).
Proof.
  revert rng. induction n as [|n IH]; intros rng;
    pose proof (unshape_shape_hs Hs1 (encode_msg1_framed msg1 None) m rng DL) as Hu;
    destruct (shape_hs Hs1 (encode_msg1_framed msg1 None) m rng) as [d rng1] eqn:E; simpl in Hu.
  - exists [d], rng1. split_and!; [done|by repeat constructor|]. intros tries w2 msg2 rest out H2.
    cbn [msg1_loop Nat.add repeat app]. rewrite E.
    erewrite io_bind_ok by (by apply io_map_err_ok, net_send_ok). cbv beta. simpl n_in. simpl n_out.
    erewrite io_bind_ok by (by apply io_map_err_ok, recv_got). cbv beta iota. by rewrite H2.
  - destruct (IH rng1) as (ds & rng' & Hlen & Hds & Hrun). exists (d :: ds), rng'.
    split_and!; [simpl; lia|by constructor|]. intros tries w2 msg2 rest out H2.
    cbn [msg1_loop Nat.add repeat app]. rewrite E.
    erewrite io_bind_ok by (by apply io_map_err_ok, net_send_ok). cbv beta. simpl n_in. simpl n_out.
    erewrite io_bind_ok by (by apply io_map_err_ok, recv_elapsed). cbv beta iota.
    rewrite (Hrun _ _ _ _ _ H2). by rewrite <-app_assoc.
Qed.

(** A handshake datagram is not a record. *)
Lemma open_handshake_dgram ch w ty body :
  mimic ch = m -> unshape_hs w m = Some (ty, body) -> ty <> Data -> open_datagram ch w = (Ok None, ch).
Proof.
  unfold unshape_hs, open_datagram. intros -> H Hty. destruct (shape_in m w) as [inner|]; [|done].
  by rewrite H, decide_True.
Qed.

Abbreviation messages2 := (Forall (fun w => exists body, unshape_hs w m = Some (Hs2, body))).

Lemma ready_evs_late ch ws rest :
  mimic ch = m -> messages2 ws ->
  ready_evs saddr ch (waited ws ++ rest) = (Ready false, ch, rest).
Proof.
  intros Hm. unfold waited. induction 1 as [|w ws [body Hw] _ IH]; [done|]. simpl.
  rewrite decide_True by done.
  by rewrite (open_handshake_dgram ch w Hs2 body Hm Hw ltac:(done)).
Qed.

Lemma resend_loop_late wss wire3 ch rest out :
  mimic ch = m -> Forall messages2 wss ->
  resend_loop saddr (length wss) wire3 ch (mkNet ((wss ≫= waited) ++ rest) [] out)
  = (Ready (Ok None), mkNet rest [] (out ++ repeat (saddr, wire3) (length wss))).
Proof.
  intros Hm Hw. revert out. induction Hw as [|ws wss Hws _ IH]; intros out; simpl; [by rewrite app_nil_r|].
  unfold io_bind, send_ignored, wait_ready. simpl. rewrite <-app_assoc, ready_evs_late by done. simpl.
  by rewrite IH, <-app_assoc.
Qed.

Lemma slow_attempt_client ent spub cpriv rng hs0 msg1 msg2 msg3 :
  initiator ent cpriv spub = Ok hs0 -> late < MAX_HS_TRIES ->
  initiator_run hs0 (fill_bytes rng 32).1 msg1 msg2 msg3 ->
  exists ds d3 rng', length ds = S late /\
    Forall (fun d => unshape_hs d m = Some (Hs1, encode_msg1_framed msg1 None)) ds /\
    unshape_hs d3 m = Some (Hs3, msg3) /\
    forall w2 ws rest out,
      unshape_hs w2 m = Some (Hs2, msg2) ->
      Forall (fun w => exists body, unshape_hs w m = Some (Hs2, body)) ws ->
      attempt saddr m ent spub cpriv rng (mkNet (slow_script (w2 :: ws) ++ rest) [] out)
      = (Ready (Ok (None, rng')), mkNet rest [] (out ++ (pair saddr <$> ds ++ repeat d3 4))).
Proof.
  intros Hi Hlate. destruct (fill_bytes rng 32) as [seed rng0] eqn:Hf. simpl.
  intros (hs1 & p & hs2 & hs3 & Hw1 & Hr2 & Hw3).
  destruct (msg1_loop_late late msg1 rng0) as (ds & rng2 & Hlen & Hds & Hloop).
  pose proof (unshape_shape_hs Hs3 msg3 m rng2 DL) as Hu.
  destruct (shape_hs Hs3 msg3 m rng2) as [d3 rng3] eqn:E3. exists ds, d3, rng3.
  split_and!; [done|done|done|]. intros w2 ws rest out H2 Hws.
  unfold attempt. rewrite Hf.
  erewrite io_bind_ok by (unfold io_of_res; by rewrite Hi).
  erewrite io_bind_ok by (by apply io_call_ok). cbv beta iota.
  specialize (Hloop (11 - late) w2 msg2
    (waited (take 7 ws) ++ ([take 2 (drop 7 ws); take 2 (drop 9 ws); drop 11 ws] ≫= waited) ++ rest) out H2).
  replace (late + S (11 - late)) with MAX_HS_TRIES in Hloop by (unfold MAX_HS_TRIES in *; lia).
  assert (slow_script (w2 :: ws) ++ rest = repeat Elapsed late ++ Got saddr w2 :: waited (take 7 ws) ++
            ([take 2 (drop 7 ws); take 2 (drop 9 ws); drop 11 ws] ≫= waited) ++ rest) as ->.
  { unfold slow_script. cbn [mbind list_bind]. rewrite app_nil_r, <-!app_assoc. done. }
  erewrite io_bind_ok by exact Hloop. cbv beta iota. rewrite Hr2, Hw3.
  unfold finish_attempt. rewrite E3.
  erewrite io_bind_ok by (by apply io_map_err_ok, net_send_ok). cbv beta. simpl n_in. simpl n_out.
  destruct (derive_record_keys seed) as [c2s s2c]. set (ch := data_channel_new _ _ m).
  erewrite io_bind_ok by (unfold wait_ready; simpl n_in; by rewrite (ready_evs_late ch) by (done || by apply Forall_take)).
  cbv beta iota.
  erewrite io_bind_ok by (apply (resend_loop_late [take 2 (drop 7 ws); take 2 (drop 9 ws); drop 11 ws] d3 ch rest);
    [done|repeat constructor; by auto using Forall_take, Forall_drop]). cbv beta iota.
  unfold io_ret. rewrite fmap_app. simpl. by rewrite <-!app_assoc.
Qed.

(** ** The server *)

(** Half-open handshakes other than the client's. *)
Definition others_pending (sv : Server) : Z := map_len (delete caddr (pending sv)).

Lemma pending_others sv : (map_len (pending sv) <= others_pending sv + 1)%Z.
Proof.
  unfold others_pending. destruct (decide (is_Some (pending sv !! caddr))) as [H|H].
  - rewrite map_len_delete by done. lia.
  - apply eq_None_not_Some in H. rewrite delete_id by done. lia.
Qed.

(** The server does not know the client and is under no pressure. *)
Record quiet (sv : Server) : Prop := {
  qt_unknown : peers sv !! caddr = None;
  qt_peers : (map_len (peers sv) < MAX_PEERS)%Z;
  qt_others : (others_pending sv + 1 < PENDING_SOFT_LIMIT)%Z;
}.

(** Steps that only drop peers and half-open handshakes of others. *)
Lemma quiet_shrinks sv sv' :
  quiet sv -> (forall p, peers sv' !! caddr = Some p -> peers sv !! caddr = Some p) ->
  (map_len (peers sv') <= map_len (peers sv))%Z -> (others_pending sv' <= others_pending sv)%Z ->
  quiet sv'.
Proof.
  intros [H1 H2 H3] HP HL HO. split; [|lia|lia].
  destruct (peers sv' !! caddr) as [p|] eqn:E; [|done]. specialize (HP p eq_refl). congruence.
Qed.

Lemma quiet_cleanup now sv : quiet sv -> quiet (cleanup now sv).
Proof.
  intros HQ. apply (quiet_shrinks sv); [done| | |]; simpl.
  - by intros p [? _]%map_lookup_filter_Some.
  - apply map_len_filter.
  - unfold others_pending. simpl. rewrite <-map_filter_delete. apply map_len_filter.
Qed.

Lemma deliver_hs1_open am d msg1 sv hs hs' hs'' p1 msg2 :
  unshape_hs d m = Some (Hs1, encode_msg1_framed msg1 None) ->
  (Z.of_nat (length msg1) < 65536)%Z -> under_load load = false -> quiet sv ->
  responder (am_entropy am) server_priv = Ok hs -> read_message hs msg1 = (Ok p1, hs') ->
  write_message hs' [] = (Ok msg2, hs'') ->
  let '(w2, r) := shape_hs Hs2 msg2 m (rng sv) in
  deliver am d caddr sv =
    cleanup (am_cleanup am) (send_to w2 caddr
      (set_pending (<[caddr := mkPending hs'' (am_now am)]> (pending sv)) (set_rng r sv))).
Proof.
  intros Hu Hlen Hl [_ Hp Ho] Hr Hm1 Hm2. pose proof (pending_others sv).
  rewrite handle_dgram_unshape, Hu. simpl. unfold on_hs1.
  rewrite (proj2 (Z.leb_gt _ (map_len (peers sv)))), Hl by done.
  rewrite (proj2 (Z.leb_gt _ (map_len (pending sv)))) by lia. simpl. unfold process_hs1.
  rewrite decode_encode_msg1, Hr, Hm1, Hm2 by done. simpl.
  destruct (shape_hs Hs2 msg2 m (rng sv)) as [w2 r]. simpl.
  by rewrite (proj2 (Z.leb_gt _ (map_len (pending sv)))) by (unfold PENDING_SOFT_LIMIT, MAX_PENDING in *; lia).
Qed.

(** A third message that the responder on record refuses, or none is on
    record: nothing is sent, and none is on record after it. *)
Lemma deliver_hs3_refused am d msg3 sv :
  unshape_hs d m = Some (Hs3, msg3) -> quiet sv ->
  (forall ph, pending sv !! caddr = Some ph -> is_ok (read_message (ph_responder ph) msg3).1 = false) ->
  let sv' := deliver am d caddr sv in
  sent sv' = sent sv /\ pending sv' !! caddr = None /\ quiet sv'.
Proof.
  intros Hu HQ Hno. cbv zeta. rewrite handle_dgram_unshape, Hu. simpl. unfold on_hs3.
  destruct (pending sv !! caddr) as [ph|] eqn:E; [|done]. specialize (Hno ph eq_refl).
  unfold complete_handshake_msg3.
  destruct (read_message (ph_responder ph) msg3) as [[p|e] hs']; [done|]. simpl. split_and!; [done| |].
  - by rewrite map_filter_delete, lookup_delete_eq.
  - apply (quiet_cleanup (am_cleanup am) (set_pending (delete caddr (pending sv)) sv)).
    apply (quiet_shrinks sv); [done|done|done|]. unfold others_pending. simpl. by rewrite delete_delete_eq.
Qed.

Lemma deliver_all_app l1 l2 sv : deliver_all (l1 ++ l2) sv = deliver_all l2 (deliver_all l1 sv).
Proof. unfold deliver_all. by rewrite fold_left_app. Qed.

(** All transmissions of it. *)
Lemma deliver_hs3s_refused ams d msg3 sv :
  unshape_hs d m = Some (Hs3, msg3) -> quiet sv ->
  (forall ph, pending sv !! caddr = Some ph -> is_ok (read_message (ph_responder ph) msg3).1 = false) ->
  let sv' := deliver_all ((fun am => (am, d)) <$> ams) sv in
  sent sv' = sent sv /\ quiet sv'.
Proof.
  intros Hu. cbv zeta. revert sv. induction ams as [|am ams IH]; intros sv HQ Hno; [done|].
  destruct (deliver_hs3_refused am d msg3 sv Hu HQ Hno) as (T & N & Q). cbv zeta in *.
  change (deliver_all _ sv) with (deliver_all ((fun am => (am, d)) <$> ams) (deliver am d caddr sv)).
  rewrite <-T. apply IH; [done|]. by rewrite N.
Qed.

(** A half-open handshake of the client does not disturb the quiet. *)
Lemma quiet_insert now hs w r sv :
  quiet sv ->
  quiet (cleanup now (send_to w caddr
           (set_pending (<[caddr := hs]> (pending sv)) (set_rng r sv)))).
Proof.
  intros HQ. apply quiet_cleanup, (quiet_shrinks sv); try done.
  unfold others_pending. simpl. by rewrite delete_insert_eq.
Qed.

(** ** The attempts *)

(** A responder that answers [msg1] with [msg2] and is then [hs2]. *)
Definition responds (ent : Entropy) (msg1 msg2 : bytes) (hs2 : Handshake) : Prop :=
  exists hs hs1 p, responder ent server_priv = Ok hs /\ read_message hs msg1 = (Ok p, hs1) /\
    write_message hs1 [] = (Ok msg2, hs2).

(** ... and refuses [msg3]. *)
Definition refuses (msg1 msg3 : bytes) (am : Ambient) : Prop :=
  exists msg2 hs2, responds (am_entropy am) msg1 msg2 hs2 /\ is_ok (read_message hs2 msg3).1 = false.

(** Noise's side of one attempt: every responder accepts the client's message
    1; the client's message 3 answers the first of them, and the later ones,
    whose ephemeral keys the client has not used, refuse it. *)
Definition crossed (ent : Entropy) (am : nat -> Ambient) (cpriv spub seed : bytes) : Prop :=
  exists hs0 msg1 msg2 msg3 hs2,
    initiator ent cpriv spub = Ok hs0 /\ (Z.of_nat (length msg1) < 65536)%Z /\
    initiator_run hs0 seed msg1 msg2 msg3 /\
    responds (am_entropy (am 0)) msg1 msg2 hs2 /\
    Forall (refuses msg1 msg3) (am <$> seq 1 late).

(** The later copies of message 1: each is answered, and the responder on
    record is then one that refuses message 3. *)
Lemma deliver_hs1s ams ds msg1 msg3 sv :
  Forall (fun d => unshape_hs d m = Some (Hs1, encode_msg1_framed msg1 None)) ds ->
  length ams = length ds -> Forall (refuses msg1 msg3) ams ->
  (Z.of_nat (length msg1) < 65536)%Z -> under_load load = false -> quiet sv ->
  exists ws,
    let sv' := deliver_all (zip ams ds) sv in
    length ws = length ds /\ sent sv' = sent sv ++ (pair caddr <$> ws) /\ quiet sv' /\
    Forall (fun w => exists body, unshape_hs w m = Some (Hs2, body)) ws /\
    (ams <> [] -> forall ph, pending sv' !! caddr = Some ph ->
       is_ok (read_message (ph_responder ph) msg3).1 = false).
Proof.
  intros Hds. revert ams sv. induction Hds as [|d ds Hd _ IH]; intros [|am ams] sv Hlen Hams Hm1 Hl HQ;
    try done.
  { exists []. simpl. by rewrite app_nil_r. }
  apply Forall_cons in Hams as [(msg2 & hs2 & (hs & hs1 & p & A1 & A2 & A3) & Hno) Hams].
  pose proof (deliver_hs1_open am d msg1 sv _ _ _ _ _ Hd Hm1 Hl HQ A1 A2 A3) as S1.
  pose proof (unshape_shape_hs Hs2 msg2 m (UdpServer.rng sv) DL) as Hw.
  destruct (shape_hs Hs2 msg2 m (UdpServer.rng sv)) as [w r]. simpl in Hw.
  destruct (IH ams (deliver am d caddr sv)) as (ws & Hlw & Hsent & HQ' & Hws & Hph);
    [by injection Hlen|done|done|done|rewrite S1; by apply quiet_insert|].
  change (deliver_all (zip (am :: ams) (d :: ds)) sv)
    with (deliver_all (zip ams ds) (deliver am d caddr sv)).
  exists (w :: ws). cbv zeta in *. split_and!; [simpl; lia| |done|constructor; eauto|].
  { rewrite Hsent, S1. simpl. by rewrite <-app_assoc. }
  intros _ ph. destruct ams as [|am' ams]; [|by apply Hph].
  destruct ds; [|done]. simpl. rewrite S1. simpl.
  intros [H%lookup_insert_Some _]%map_lookup_filter_Some. by destruct H as [[_ <-]|[? _]].
Qed.

Lemma slow_attempt (am : nat -> Ambient) ent cpriv spub rng sv :
  crossed ent am cpriv spub (fill_bytes rng 32).1 ->
  1 <= late < MAX_HS_TRIES -> under_load load = false -> quiet sv ->
  exists ds w2s rng',
    let sv' := deliver_all (zip (am <$> seq 0 (late + 5)) ds) sv in
    length ds = late + 5 /\ length w2s = S late /\ quiet sv' /\
    sent sv' = sent sv ++ (pair caddr <$> w2s) /\
    forall rest out,
      attempt saddr m ent spub cpriv rng (mkNet (slow_script w2s ++ rest) [] out)
      = (Ready (Ok (None, rng')), mkNet rest [] (out ++ (pair saddr <$> ds))).
Proof.
  intros (hs0 & msg1 & msg2 & msg3 & hs2 & Hi & Hm1 & Hrun & (hs & hs1 & p & A1 & A2 & A3) & Hlater) Hlate Hl HQ.
  destruct (slow_attempt_client ent spub cpriv rng hs0 msg1 msg2 msg3 Hi ltac:(lia) Hrun)
    as ([|d ds] & d3 & rng' & Hlen & Hds & Hd3 & HC); [done|].
  apply Forall_cons in Hds as [Hd Hds]. injection Hlen as Hlen.
  pose proof (deliver_hs1_open (am 0) d msg1 sv _ _ _ _ _ Hd Hm1 Hl HQ A1 A2 A3) as S1.
  pose proof (unshape_shape_hs Hs2 msg2 m (UdpServer.rng sv) DL) as Hw.
  destruct (shape_hs Hs2 msg2 m (UdpServer.rng sv)) as [w2 r]. simpl in Hw.
  set (sv1 := deliver (am 0) d caddr sv) in *.
  destruct (deliver_hs1s (am <$> seq 1 late) ds msg1 msg3 sv1 Hds) as (ws & Hlw & Hsent & Q2 & Hws & Hph);
    [by rewrite length_fmap, length_seq, Hlen|done|done|done|rewrite S1; by apply quiet_insert|].
  cbv zeta in *. set (sv2 := deliver_all _ sv1) in *.
  destruct (deliver_hs3s_refused (am <$> seq (S late) 4) d3 msg3 sv2 Hd3 Q2) as [T Q].
  { apply Hph. destruct late; [lia|done]. }
  assert (deliver_all (zip (am <$> seq 0 (late + 5)) ((d :: ds) ++ repeat d3 4)) sv
    = deliver_all ((fun am => (am, d3)) <$> (am <$> seq (S late) 4)) sv2) as Hall.
  { replace (late + 5) with (S (late + 4)) by lia. cbn [seq]. rewrite seq_app, fmap_cons, fmap_app.
    cbn [app zip_with]. rewrite zip_with_app by (by rewrite length_fmap, length_seq, Hlen).
    change (deliver_all (?x :: ?l) sv) with (deliver_all l sv1). rewrite deliver_all_app. done. }
  exists ((d :: ds) ++ repeat d3 4), (w2 :: ws), rng'. cbv zeta. rewrite Hall.
  split_and!; [rewrite length_app; simpl; lia|simpl; lia|done| |by intros; apply HC].
  rewrite T, Hsent, S1. simpl. by rewrite <-app_assoc.
Qed.

(** What the server draws during all attempts, the last [n] of them. *)
Fixpoint ambients (am : nat -> nat -> Ambient) (n : nat) : list Ambient :=
  match n with 0 => [] | S n => (am n <$> seq 0 (late + 5)) ++ ambients am n end.

(** The script of the attempts, from the messages 2 of each. *)
Definition slow_evs (ws : list (list bytes)) : list NetEv := ws ≫= slow_script.

Lemma slow_attempts n am ents cpriv spub rng sv :
  (forall k seed, crossed (ents k) (am k) cpriv spub seed) ->
  1 <= late < MAX_HS_TRIES -> under_load load = false -> quiet sv ->
  exists ds ws,
    let sv' := deliver_all (zip (ambients am n) ds) sv in
    length ds = n * (late + 5) /\ quiet sv' /\ sent sv' = sent sv ++ (pair caddr <$> concat ws) /\
    length ws = n /\
    forall rest out,
      attempts saddr m n ents spub cpriv rng (mkNet (slow_evs ws ++ rest) [] out)
      = (Ready (Err (HandshakeFailed (str "handshake exhausted all attempts"))),
         mkNet rest [] (out ++ (pair saddr <$> ds))).
Proof.
  intros Hx Hlate Hl. revert rng sv. induction n as [|n IH]; intros rng sv HQ.
  { exists [], []. simpl. split_and!; try done; [by rewrite app_nil_r|].
    intros rest out. by rewrite app_nil_r. }
  destruct (slow_attempt (am n) (ents n) cpriv spub rng sv (Hx n _) Hlate Hl HQ)
    as (ds1 & w2s & rng' & Hlen1 & _ & Q1 & T1 & HA).
  destruct (IH rng' _ Q1) as (ds2 & ws & Hlen2 & Q2 & T2 & Hws & HB).
  exists (ds1 ++ ds2), (w2s :: ws). cbv zeta in *. cbn [ambients].
  rewrite zip_with_app, deliver_all_app by (by rewrite Hlen1, length_fmap, length_seq).
  split_and!; [rewrite length_app; lia|done| |simpl; lia|].
  - rewrite T2, T1. simpl. by rewrite fmap_app, <-app_assoc.
  - intros rest out. cbn [attempts].
    change (slow_evs (w2s :: ws)) with (slow_script w2s ++ slow_evs ws).
    rewrite <-app_assoc. erewrite io_bind_ok by apply HA. cbv beta iota.
    rewrite HB, fmap_app. by rewrite <-app_assoc.
Qed.

(** C33: a client on a link whose round trip takes longer
    than the retransmission interval of 250 ms (and up to the 3 seconds after
    which it gives up waiting) never connects.  Every datagram of each side
    reaches the other, once and in order; but in each attempt the later copies
    of message 1, of which there are as many as whole intervals in the round
    trip, replace the responder that the first copy started, before message 3
    for the first arrives, and the server refuses message 3.  After three
    attempts the client returns [HandshakeFailed], and the server has no peer
    at its address and has sent nothing but the messages 2. *)
Theorem slow_link_never_connects am ents cpriv spub rng sv :
  (forall k seed, crossed (ents k) (am k) cpriv spub seed) ->
  1 <= late < MAX_HS_TRIES -> under_load load = false -> quiet sv ->
  exists ds ws,
    client_udp_handshake saddr m ents spub cpriv rng (mkNet (slow_evs ws) [] [])
    = (Ready (Err (HandshakeFailed (str "handshake exhausted all attempts"))),
       mkNet [] [] (pair saddr <$> ds)) /\
    length ds = 3 * (late + 5) /\ length ws = 3 /\
    let sv' := deliver_all (zip (ambients am 3) ds) sv in
    sent sv' = sent sv ++ (pair caddr <$> concat ws) /\ peers sv' !! caddr = None.
Proof.
  intros Hx Hlate Hl HQ. destruct (slow_attempts 3 am ents cpriv spub rng sv Hx Hlate Hl HQ)
    as (ds & ws & Hlen & [HU _ _] & T & Hws & HC).
  exists ds, ws. specialize (HC [] []). rewrite app_nil_r in HC. by split_and!.
Qed.

End SlowLink.

(** ** A concrete run *)

Module SlowLinkRuns.
Import Ref.

(** The reference wire with responders that draw an ephemeral key, which
    message 2 carries, message 3 is bound to, and the responder checks. *)
Record EHandshake : Type := mkEHandshake { eh_inner : RHandshake; eh_eph : byte }.

Definition eh_write (h : EHandshake) (payload : bytes) : Res bytes bytes * EHandshake :=
  match rh_write (eh_inner h) payload with
  | (Ok (t :: msg), h') =>
      (Ok (if decide (t = x01) then t :: msg else t :: eh_eph h :: msg), mkEHandshake h' (eh_eph h))
  | (r, h') => (r, mkEHandshake h' (eh_eph h))
  end.

Definition eh_read (h : EHandshake) (msg : bytes) : Res bytes bytes * EHandshake :=
  match rh_side (eh_inner h), msg with
  | RInit, x02 :: e :: msg =>
      let '(r, h') := rh_read (eh_inner h) (x02 :: msg) in (r, mkEHandshake h' e)
  | RResp, x03 :: e :: msg =>
      if decide (e = eh_eph h)
      then let '(r, h') := rh_read (eh_inner h) (x03 :: msg) in (r, mkEHandshake h' (eh_eph h))
      else (Err (str "decrypt"), h)
  | _, _ => let '(r, h') := rh_read (eh_inner h) msg in (r, mkEHandshake h' (eh_eph h))
  end.

Definition ewire : WireApi := {|
  WireError := bytes;
  wire_display := id;
  Rng := nat;
  Entropy := nat;
  fill_bytes := fun r n => (repeat (as_u8 (Z.of_nat r)) n, S r);
  Session := RSession;
  encrypt := rs_encrypt;
  decrypt := rs_decrypt;
  Handshake := EHandshake;
  initiator := fun _ priv peer => Ok (mkEHandshake (mkRHandshake RInit priv (Some peer) 0) x00);
  responder := fun e priv => Ok (mkEHandshake (mkRHandshake RResp priv None 0) (as_u8 (Z.of_nat e)));
  write_message := eh_write;
  read_message := eh_read;
  remote_static := fun h => if decide (rh_step (eh_inner h) = 3) then rh_peer (eh_inner h) else None;
  into_session := fun h =>
    if decide (rh_step (eh_inner h) = 3) then Ok (mkRSession 0 0) else Err (str "incomplete");
  RecordKey := bytes;
  record_key_from_bytes := id;
  RecordSealer := RSealer;
  sealer_new := fun k => mkRSealer k 0;
  seal := r_seal;
  RecordOpener := ROpener;
  opener_new := fun k => mkROpener k [];
  open := r_open;
  CookieSecret := bytes * option bytes;
  cookie_secret_new := fun k => (k, None);
  cookie_make := fun s src => r_cookie s.1 src;
  cookie_verify := fun s src c => bool_decide (c = r_cookie s.1 src);
  cookie_rotate := fun s k => (k, Some s.1);
  blake2s_mac := fun key data => take 32 (data ++ key ++ repeat x00 32);
|}.

Definition plain : DatagramMimicry (H := ewire) := {|
  shape_out := fun inner rng => (xc0 :: inner, rng);
  shape_in := fun d => match d with xc0 :: inner => Some inner | _ => None end;
|}.

Lemma plain_laws : DatagramLaws (H := ewire) plain.
Proof. done. Qed.

Definition spriv : bytes := str "server".
Definition cpriv : bytes := str "client".
Definition caddr : SocketAddr := V4 xcb x00 x71 x07 51820.
Definition saddr : SocketAddr := V4 xc0 x00 x02 x01 443.
Definition svc : RService := mkRService 0 [] x2a.
Definition start : Server (WA := ewire) := serve_obfs_udp (WA := ewire) (str "k") 0 svc.

(** A round trip between two and three intervals.  The responders of one
    attempt draw different ephemeral keys. *)
Definition am (_ j : nat) : Ambient (WA := ewire) := mkAmbient (WA := ewire) j 0 0 0.

(** The reference connects on a fast link: without the second copy the
    exchange completes. *)
Example ephemeral_exchange_completes :
  exists hi3 hr3,
    xk_exchange (H := ewire) (mkEHandshake (mkRHandshake RInit cpriv (Some (pub_of spriv)) 0) x00)
      (mkEHandshake (mkRHandshake RResp spriv None 0) x00) (repeat x00 32)
      (x01 :: pub_of spriv) [x02; x00] (x03 :: x00 :: x07 :: pub_of cpriv ++ repeat x00 32) hi3 hr3.
Proof. eexists _, _, _, _, _, _, _, _. split_and!; reflexivity. Qed.

Lemma slow_link_never_connects_witness :
  exists ds ws,
    client_udp_handshake (WA := ewire) saddr plain (fun _ => 0) (pub_of spriv) cpriv 0
      (mkNet (slow_evs saddr 2 ws) [] [])
    = (Ready (Err (HandshakeFailed (str "handshake exhausted all attempts"))),
       mkNet [] [] (pair saddr <$> ds)) /\
    length ds = 21 /\ length ws = 3 /\
    let sv' := deliver_all (WA := ewire) spriv allow_all always_open plain caddr
                 (zip (ambients 2 am 3) ds) start in
    sent sv' = sent start ++ (pair caddr <$> concat ws) /\ peers sv' !! caddr = None.
Proof.
  refine (slow_link_never_connects (WA := ewire) (DL := plain_laws) spriv allow_all always_open plain
            caddr saddr 2 am (fun _ => 0) cpriv (pub_of spriv) 0 start _ _ eq_refl _).
  - intros k seed.
    exists (mkEHandshake (mkRHandshake RInit cpriv (Some (pub_of spriv)) 0) x00), (x01 :: pub_of spriv),
      [x02; x00], (x03 :: x00 :: x07 :: pub_of cpriv ++ seed). eexists.
    split_and!; [reflexivity|reflexivity|do 4 eexists; split_and!; reflexivity|
                 do 3 eexists; split_and!; reflexivity|].
    repeat constructor; (do 2 eexists; split; [do 3 eexists; split_and!; reflexivity|reflexivity]).
  - unfold MAX_HS_TRIES. lia.
  - split; reflexivity.
Defined.

End SlowLinkRuns.
