(* ===== verification/CookieWindow.v ===== *)
(** * How long a cookie is good for

    The rotation task of [src/udp/server.rs] replaces the cookie secret on a
    timer while handshakes are under way.  Over a run of the server, a cookie
    is taken back in the epoch it was minted in and in the next one, and
    challenged again after that. *)

From S2P Require Import Prelude RustStd Externals Envelope Verifier UdpWire DataPlane.
From S2P Require Import UdpHandshake UdpServer UdpEndToEnd Instances.

(** [CookieSecret]: 16-byte cookies; the current and the previous secret
    verify theirs, and nothing else verifies. *)
Class CookieWindowLaws `{WireApi} : Prop := {
  window_length : forall s src, length (cookie_make s src) = 16;
  window_new : forall k src c,
    cookie_verify (cookie_secret_new k) src c = true <-> c = cookie_make (cookie_secret_new k) src;
  window_rotate : forall s k src c,
    cookie_verify (cookie_rotate s k) src c = true <->
    c = cookie_make (cookie_rotate s k) src \/ c = cookie_make s src;
}.

Section CookieWindow.
Context {WA : WireApi} {CA : CoreApi} {SA : SerdeApi} {WL : CookieWindowLaws}.
Context {G L : Type} {TG : TransportGate G} {LG : LoadGate L}.
Context (server_priv : bytes) (gate : G) (load : L) (m : DatagramMimicry) {DL : DatagramLaws m}.

Abbreviation step := (UdpServer.step server_priv gate load m).
Abbreviation run := (UdpServer.run server_priv gate load m).
Abbreviation deliver := (handle_dgram server_priv gate load m).

(** The seeds the rotation task drew in a run, until it was stopped. *)
Definition rotates (s : Step) (sv : Server) : list bytes :=
  match s with SRotate seed => if rotating sv then [seed] else [] | _ => [] end.

Fixpoint rotations (ss : list Step) (sv : Server) : list bytes :=
  match ss with
  | [] => []
  | s :: ss => rotates s sv ++ rotations ss (step s sv)
  end.

Definition rotated (seeds : list bytes) (s : CookieSecret) : CookieSecret :=
  fold_left cookie_rotate seeds s.

(** Only the rotation task touches the secret. *)
Lemma step_secret s sv : cookie_secret (step s sv) = rotated (rotates s sv) (cookie_secret sv).
Proof.
  destruct s as [am [[dgram src]|]|i|j r| |seed|]; simpl.
  - unfold recv_step. destruct (receiving sv); [|done].
    by pose proof (handle_dgram_control server_priv gate load m am dgram src sv) as [= _ _ ->].
  - unfold recv_step. by destruct (receiving sv).
  - unfold sealer_step. repeat case_match; simplify_eq; done.
  - unfold forward_step, ev_send. repeat case_match; simplify_eq; done.
  - unfold send_loop_step. by destruct (out_queue sv) as [|[]].
  - unfold rotate_step. by destruct (rotating sv).
  - done.
Qed.

Lemma run_secret ss sv : cookie_secret (run ss sv) = rotated (rotations ss sv) (cookie_secret sv).
Proof.
  revert sv. induction ss as [|s ss IH]; intros sv; [done|]. simpl.
  rewrite IH, step_secret. unfold rotated. by rewrite fold_left_app.
Qed.

(** Secrets a server can hold. *)
Inductive server_secret : CookieSecret -> Prop :=
| secret_new k : server_secret (cookie_secret_new k)
| secret_rotate s k : server_secret s -> server_secret (cookie_rotate s k).

Lemma rotated_secret seeds s : server_secret s -> server_secret (rotated seeds s).
Proof. revert s. induction seeds; intros s H; [done|]. apply IHseeds. by constructor. Qed.

Lemma own_cookie_verifies s src : server_secret s -> cookie_verify s src (cookie_make s src) = true.
Proof. destruct 1; [by apply window_new|]. apply window_rotate. by left. Qed.

Lemma old_cookie_verifies seeds s src :
  server_secret s -> length seeds <= 1 ->
  cookie_verify (rotated seeds s) src (cookie_make s src) = true.
Proof.
  intros Hs Hl. destruct seeds as [|k [|]]; simpl in Hl; [by apply own_cookie_verifies| |lia].
  apply window_rotate. by right.
Qed.

Lemma stale_cookie_refused seeds s src c :
  2 <= length seeds ->
  (forall n, 0 < n <= length seeds -> cookie_make (rotated (take n seeds) s) src <> c) ->
  cookie_verify (rotated seeds s) src c = false.
Proof.
  intros Hl Hno. destruct seeds as [|k seeds' _] using rev_ind; [simpl in Hl; lia|].
  rewrite length_app in *. simpl in *. unfold rotated. rewrite fold_left_app. simpl.
  apply not_true_is_false. intros [E|E]%window_rotate.
  - apply (Hno (length seeds' + 1)); [lia|]. rewrite take_ge by (rewrite length_app; simpl; lia).
    unfold rotated. by rewrite fold_left_app.
  - apply (Hno (length seeds')); [lia|]. by rewrite take_app_length.
Qed.

(** The rotation task ticks at the multiples of the interval: the number of
    ticks after [t1] up to [t2], in time since the task started. *)
Definition ticks (t1 t2 : Z) : Z := (t2 / COOKIE_ROTATE_INTERVAL - t1 / COOKIE_ROTATE_INTERVAL)%Z.

(** At most one within an interval, at least two within two. *)
Lemma ticks_window t1 t2 :
  (t1 <= t2)%Z ->
  (t2 - t1 <= COOKIE_ROTATE_INTERVAL -> ticks t1 t2 <= 1)%Z /\
  (2 * COOKIE_ROTATE_INTERVAL <= t2 - t1 -> 2 <= ticks t1 t2)%Z.
Proof.
  intros Ht. unfold ticks. change COOKIE_ROTATE_INTERVAL with 120000000000%Z.
  Z.div_mod_to_equations. lia.
Qed.

(** C10: a client under load is challenged at time [t1], in state
    [sv1] of a run from the start of the server, and its first message with the
    cookie of that challenge arrives at [t2], in the later state [sv2]; the
    secret was rotated in between at each tick of the 120-second timer.  Within
    120 seconds the server answers with message 2 and keeps the half-open
    handshake; after 240 seconds, if none of the later secrets makes the same
    cookie for the address by chance, it answers with a fresh cookie and keeps
    no state. *)
Theorem cookie_window ss1 ss2 t1 t2 seed rng0 svc src am msg1 hs hs' hs'' p1 msg2 d :
  let sv1 := run ss1 (serve_obfs_udp seed rng0 svc) in
  let sv2 := run ss2 sv1 in
  let seeds := rotations ss2 sv1 in
  let c := cookie_make (cookie_secret sv1) (src_bytes src) in
  (t1 <= t2)%Z -> Z.of_nat (length seeds) = ticks t1 t2 ->
  unshape_hs d m = Some (Hs1, encode_msg1_framed msg1 (Some c)) ->
  (Z.of_nat (length msg1) < 65536)%Z -> under_load load = true ->
  (map_len (peers sv2) < MAX_PEERS)%Z -> (map_len (pending sv2) < MAX_PENDING)%Z ->
  responder (am_entropy am) server_priv = Ok hs -> read_message hs msg1 = (Ok p1, hs') ->
  write_message hs' [] = (Ok msg2, hs'') ->
  (am_now am <= am_cleanup am < am_now am + from_secs 5)%Z ->
  let sv' := deliver am d src sv2 in
  ((t2 - t1 <= COOKIE_ROTATE_INTERVAL)%Z ->
   exists w, sent sv' = sent sv2 ++ [(src, w)] /\ unshape_hs w m = Some (Hs2, msg2) /\
     pending sv' !! src = Some (mkPending hs'' (am_now am))) /\
  ((2 * COOKIE_ROTATE_INTERVAL <= t2 - t1)%Z ->
   (forall n, 0 < n <= length seeds ->
      cookie_make (rotated (take n seeds) (cookie_secret sv1)) (src_bytes src) <> c) ->
   exists w, sent sv' = sent sv2 ++ [(src, w)] /\
     unshape_hs w m = Some (Cookie, cookie_make (cookie_secret sv2) (src_bytes src)) /\
     pending sv' ⊆ pending sv2).
Proof.
  intros sv1 sv2 seeds c Ht Hticks Hu Hlen Hl Hp Hpd Hr H1 H2 Hclk sv'.
  assert (server_secret (cookie_secret sv1)) as Hsec.
  { unfold sv1. rewrite run_secret. apply rotated_secret. simpl. constructor. }
  assert (cookie_secret sv2 = rotated seeds (cookie_secret sv1)) as Hsv2 by apply run_secret.
  assert (forall ty body r w r', shape_hs ty body m r = (w, r') -> unshape_hs w m = Some (ty, body))
    as Hun by (intros ty body r w r' E; rewrite <-(unshape_shape_hs ty body m r DL); by rewrite E).
  destruct (ticks_window t1 t2 Ht) as [Hone Htwo]. split.
  - intros Hk%Hone. assert (length seeds <= 1) as Hk' by lia.
    pose proof (deliver_hs1 server_priv gate load m am d msg1 c src sv2 hs hs' hs'' p1 msg2 Hu Hlen
      (window_length _ _)) as HD.
    rewrite Hsv2 in HD. specialize (HD (old_cookie_verifies _ _ _ Hsec Hk') Hl Hp Hpd Hr H1 H2).
    destruct (shape_hs Hs2 msg2 m (rng sv2)) as [w r] eqn:E. exists w. unfold sv'. rewrite HD. simpl.
    split_and!; [done|by eapply Hun|]. apply map_lookup_filter_Some. split; [apply lookup_insert_eq|].
    by apply Is_true_eq_left, fresh_pending_live.
  - intros Hk%Htwo Hno. assert (2 <= length seeds) as Hk' by lia.
    pose proof (deliver_challenge server_priv gate load m am d msg1 (Some c) src sv2 Hu Hlen Hl)
      as HD.
    specialize (HD (conj (window_length _ _)
      (eq_trans (f_equal (fun s => cookie_verify s _ c) Hsv2) (stale_cookie_refused _ _ _ _ Hk' Hno))) Hp).
    destruct (shape_hs Cookie _ m (rng sv2)) as [w r] eqn:E. exists w. unfold sv'. rewrite HD. simpl.
    split_and!; [done|by eapply Hun|]. apply map_filter_subseteq.
Qed.

End CookieWindow.

(** ** A concrete run *)

Module CookieWindowRuns.
Import Ref.

#[export] Instance r_window : CookieWindowLaws.
Proof.
  split; simpl.
  - intros s src. unfold r_cookie. rewrite length_take, !length_app, length_rev, repeat_length. lia.
  - intros k src c. by rewrite orb_false_r, bool_decide_eq_true.
  - intros s k src c. by rewrite orb_true_iff, !bool_decide_eq_true.
Qed.

Definition spriv : bytes := str "server".
Definition caddr : SocketAddr := V4 xcb x00 x71 x07 51820.
Definition svc : RService := mkRService 0 [] x2a.
Definition start : Server := serve_obfs_udp (str "k") 0 svc.
Definition am : Ambient := mkAmbient 0 0 0 0.
Definition cookie : bytes := cookie_make (cookie_secret start) (src_bytes caddr).
Definition hello : bytes :=
  xc0 :: encode_inner Hs1 (encode_msg1_framed (x01 :: pub_of spriv) (Some cookie)).

(** After one rotation the cookie is taken, after two it is not. *)
Lemma cookie_window_witness :
  let run1 := run spriv allow_all always_under_load marked [SRotate (str "a")] start in
  let run2 := run spriv allow_all always_under_load marked [SRotate (str "a"); SRotate (str "b")] start in
  let deliver := handle_dgram spriv allow_all always_under_load marked am hello caddr in
  (exists w, sent (deliver run1) = sent run1 ++ [(caddr, w)] /\ unshape_hs w marked = Some (Hs2, [x02]) /\
     pending (deliver run1) !! caddr = Some (mkPending (mkRHandshake RResp spriv None 2) 0)) /\
  (exists w, sent (deliver run2) = sent run2 ++ [(caddr, w)] /\
     unshape_hs w marked = Some (Cookie, cookie_make (cookie_secret run2) (src_bytes caddr)) /\
     pending (deliver run2) ⊆ pending run2).
Proof.
  split.
  - refine (proj1 (cookie_window spriv allow_all always_under_load marked [] [SRotate (str "a")] (from_secs 100)
      (from_secs 150) (str "k") 0 svc caddr am (x01 :: pub_of spriv) (mkRHandshake RResp spriv None 0)
      (mkRHandshake RResp spriv None 1) (mkRHandshake RResp spriv None 2) [] [x02] hello
      _ _ _ _ _ _ _ _ _ _ _) _); try reflexivity; try discriminate; try (split; (reflexivity || discriminate)).
  - refine (proj2 (cookie_window spriv allow_all always_under_load marked []
      [SRotate (str "a"); SRotate (str "b")] (from_secs 100) (from_secs 350)
      (str "k") 0 svc caddr am (x01 :: pub_of spriv) (mkRHandshake RResp spriv None 0)
      (mkRHandshake RResp spriv None 1) (mkRHandshake RResp spriv None 2) [] [x02] hello
      _ _ _ _ _ _ _ _ _ _ _) _ _); try reflexivity; try discriminate; try (split; (reflexivity || discriminate)).
    intros n Hn. change (0 < n <= 2) in Hn. assert (n = 1 \/ n = 2) as [->| ->] by lia; discriminate.
Defined.

End CookieWindowRuns.
