(* ===== verification/Server.v ===== *)
(** * The TCP server

    [src/server.rs]: one accepted connection from the handshake through the
    transport gate to the pump loop, and the subscription forwarders that feed
    its event queue.  One iteration of the loop is one [conn_turn]; a forwarder
    advances by [conn_forward]; the two interleave in any order. *)

From S2P Require Import Prelude RustStd Externals Envelope Stream Framing Duplex HandshakeIo Verifier.
From S2P Require Import Instances.

Section Server.
Context {WA : WireApi} {CA : CoreApi} {SA : SerdeApi} {S : Type} {IA : AsyncIo S}.

(** A forwarder task spawned by [handle_subscribe]. *)
Record ConnForwarder : Type := mkConnForwarder {
  cf_topic : Topic;
  cf_source : EventSource;
  cf_done : bool;
}.

(** Where the connection's task is: in its loop, blocked in a write that does
    not complete, or finished (the stream is then closed). *)
Inductive Status : Type := Running | Stalled | Ended.

#[global] Instance Status_eq_dec : EqDecision Status.
Proof. solve_decision. Defined.

(** The locals of [handle_connection] during its loop, the service, and the
    forwarders. *)
Record Conn : Type := mkConn {
  cn_stream : S;
  cn_session : Session;
  cn_buf : bytes;
  cn_rng : Rng;
  cn_service : Service;
  cn_events : list Envelope;   (** [event_tx] to [event_rx] *)
  cn_forwarders : list ConnForwarder;
  cn_status : Status;
}.

Definition cn_set_service (s : Service) (c : Conn) : Conn :=
  mkConn (cn_stream c) (cn_session c) (cn_buf c) (cn_rng c) s (cn_events c)
    (cn_forwarders c) (cn_status c).
Definition cn_set_events (q : list Envelope) (c : Conn) : Conn :=
  mkConn (cn_stream c) (cn_session c) (cn_buf c) (cn_rng c) (cn_service c) q
    (cn_forwarders c) (cn_status c).
Definition cn_set_forwarders (fs : list ConnForwarder) (c : Conn) : Conn :=
  mkConn (cn_stream c) (cn_session c) (cn_buf c) (cn_rng c) (cn_service c) (cn_events c)
    fs (cn_status c).
Definition cn_set_status (s : Status) (c : Conn) : Conn :=
  mkConn (cn_stream c) (cn_session c) (cn_buf c) (cn_rng c) (cn_service c) (cn_events c)
    (cn_forwarders c) s.

(** The jitter delay and the write that follows it; a failed write breaks out
    of the loop.  The delay draws from the generator. *)
Definition conn_send (profile : MimicryProfile) (env : Envelope) (c : Conn) : Conn :=
  let '(_, rng) := jitter profile (cn_rng c) in
  match send_frame env profile (cn_stream c, cn_session c, rng) with
  | (r, (stream', session', rng')) =>
      mkConn stream' session' (cn_buf c) rng' (cn_service c) (cn_events c) (cn_forwarders c)
        (match r with Ready (Ok _) => Running | Ready (Err _) => Ended | Pending => Stalled end)
  end.

(** [handle_subscribe]. *)
Definition handle_subscribe (topic : Topic) (c : Conn) : Conn :=
  match event_source (cn_service c) topic with
  | Some src => cn_set_forwarders (cn_forwarders c ++ [mkConnForwarder topic src false]) c
  | None =>
      cn_set_events
        (cn_events c ++
         [ESubscribeError topic
            (diagnostic_error METHOD_NOT_FOUND (str "no event source for topic"))]) c
  end.

(** The diagnostic a refused subscription is answered with. *)
Definition refusal (err : CoreError) : Diagnostic :=
  match core_auth err with
  | Some d => d
  | None => diagnostic_error FORBIDDEN (str "subscription denied")
  end.

(** The [match result] of the inbound branch, for a received envelope. *)
Definition on_inbound (profile : MimicryProfile) (env : Envelope) (c : Conn) : Conn :=
  match env with
  | EPing => conn_send profile EPong c
  | ERequest req =>
      let '(resp, service') := handle (cn_service c) req in
      conn_send profile (EResponse resp) (cn_set_service service' c)
  | ESubscribe topic _ capability =>
      match verify_topic (cn_service c) capability topic with
      | Err err => conn_send profile (ESubscribeError topic (refusal err)) c
      | Ok _ => handle_subscribe topic c
      end
  | EUnsubscribe _ => c
  | _ => c
  end.

(** One iteration of the loop: [select!] is biased towards the event queue. *)
Definition conn_turn (fuel : nat) (profile : MimicryProfile) (c : Conn) : Conn :=
  match cn_status c with
  | Running =>
      match cn_events c with
      | env :: q => conn_send profile env (cn_set_events q c)
      | [] =>
          match recv_frame fuel profile (cn_stream c, cn_session c, cn_buf c) with
          | (r, (stream', session', buf')) =>
              let c := mkConn stream' session' buf' (cn_rng c) (cn_service c) (cn_events c)
                         (cn_forwarders c) (cn_status c) in
              match r with
              | Pending => c
              | Ready (Err _) => cn_set_status Ended c
              | Ready (Ok env) => on_inbound profile env c
              end
          end
      end
  | _ => c
  end.

(** What a forwarder's broadcast receiver yields, and one turn of a forwarder:
    once the connection is gone, the queue's receiver is dropped and the send
    fails. *)
Inductive SourceRecv : Type :=
| SrcEvent (ev : Event)
| SrcLagged
| SrcClosed.

Definition conn_forward (j : nat) (r : SourceRecv) (c : Conn) : Conn :=
  match cn_forwarders c !! j with
  | None => c
  | Some f =>
      if cf_done f then c
      else
        let stop := cn_set_forwarders
                      (<[j := mkConnForwarder (cf_topic f) (cf_source f) true]> (cn_forwarders c)) c in
        match r with
        | SrcEvent ev =>
            if decide (event_topic ev = cf_topic f) then
              match cn_status c with
              | Ended => stop
              | _ => cn_set_events (cn_events c ++ [EEvent ev]) c
              end
            else c
        | SrcLagged => c
        | SrcClosed => stop
        end
  end.

(** [handle_connection] up to its loop: [None] where it returns.  [rng0] and
    [ent] are the handshake's randomness, [rng] the pump's generator. *)
Definition handle_connection {G : Type} {TG : TransportGate G} (fuel : nat) (rng0 : Rng)
    (ent : Entropy) (rng : Rng) (server_private : bytes) (service : Service) (gate : G)
    (profile : MimicryProfile) (stream : S) : Poll (option Conn) * S :=
  match server_handshake_in_place fuel rng0 ent server_private profile stream with
  | (Pending, stream) => (Pending, stream)
  | (Ready (Err _), stream) => (Ready None, stream)
  | (Ready (Ok (session, remote_key, leftover)), stream) =>
      match remote_key with
      | Some key =>
          match authenticate gate key with
          | Ok _ => (Ready (Some (mkConn stream session leftover rng service [] [] Running)), stream)
          | Err _ => (Ready None, stream)
          end
      | None => (Ready None, stream)
      end
  end.

(** The interleavings of a connection. *)
Inductive ConnStep : Type :=
| CTurn (fuel : nat)
| CForward (j : nat) (r : SourceRecv).

Definition conn_step (profile : MimicryProfile) (s : ConnStep) (c : Conn) : Conn :=
  match s with
  | CTurn fuel => conn_turn fuel profile c
  | CForward j r => conn_forward j r c
  end.

Definition conn_run (profile : MimicryProfile) (ss : list ConnStep) (c : Conn) : Conn :=
  fold_left (fun c s => conn_step profile s c) ss c.

(** ** The gate *)

(** The pump of a connection starts exactly when the
    handshake completed, it reported a static key of the client, and the
    transport gate accepts that key; the pump then starts on the handshake's
    session with the bytes read past message 3 as its buffer.  In every other
    case the connection is dropped, and nothing was written after the
    handshake. *)
Lemma tcp_gate_fails_closed {G : Type} {TG : TransportGate G} fuel rng0 ent rng priv svc (gate : G)
    profile (io io' : S) c :
  handle_connection fuel rng0 ent rng priv svc gate profile io = (Ready (Some c), io') <->
  exists session key leftover,
    server_handshake_in_place fuel rng0 ent priv profile io
      = (Ready (Ok (session, Some key, leftover)), io') /\
    authenticate gate key = Ok tt /\
    c = mkConn io' session leftover rng svc [] [] Running.
Proof.
  unfold handle_connection. split.
  - destruct (server_handshake_in_place fuel rng0 ent priv profile io)
      as [[[[[session [key|]] leftover]|]|] io1]; try done.
    destruct (authenticate gate key) as [[]|] eqn:E; [|done]. intros [= <- <-]. by eauto 10.
  - intros (session & key & leftover & -> & -> & ->). done.
Qed.

(** ** Who receives events *)

(** The next turn from [c] receives a subscription to [topic] that the service
    authorises. *)
Definition turn_grants (profile : MimicryProfile) (fuel : nat) (c : Conn) (topic : Topic) : Prop :=
  exists filter cap subject st,
    recv_frame fuel profile (cn_stream c, cn_session c, cn_buf c)
      = (Ready (Ok (ESubscribe topic filter cap)), st) /\
    verify_topic (cn_service c) cap topic = Ok subject.

Definition conn_subscribed (c : Conn) (topic : Topic) : Prop :=
  exists f, f ∈ cn_forwarders c /\ cf_topic f = topic.

Lemma conn_send_frame profile env c :
  cn_events (conn_send profile env c) = cn_events c /\
  cn_forwarders (conn_send profile env c) = cn_forwarders c.
Proof.
  unfold conn_send. destruct (jitter _ _) as [d r].
  by destruct (send_frame _ _ _) as [? [[] ?]].
Qed.

Lemma on_inbound_events profile env c :
  (forall topic, conn_subscribed (on_inbound profile env c) topic ->
     conn_subscribed c topic \/
     exists filter cap subject, env = ESubscribe topic filter cap /\
       verify_topic (cn_service c) cap topic = Ok subject) /\
  (forall ev, EEvent ev ∈ cn_events (on_inbound profile env c) -> EEvent ev ∈ cn_events c).
Proof.
  unfold conn_subscribed. destruct env as [req| | |tp flt cap| | | |]; simpl; try (by split; auto).
  - destruct (handle _ _) as [resp svc'].
    destruct (conn_send_frame profile (EResponse resp) (cn_set_service svc' c)) as [-> ->]. by split; auto.
  - destruct (verify_topic (cn_service c) cap tp) as [subject|err] eqn:Ev.
    + unfold handle_subscribe. destruct (event_source _ _) as [src|]; simpl.
      * split; [|by auto]. intros topic (f & [Hf|Hf]%elem_of_app & Ht); [by eauto|].
        apply list_elem_of_singleton in Hf as ->. simpl in Ht. subst. by eauto 10.
      * split; [by auto|]. intros ev [?|Hev]%elem_of_app; [done|].
        by apply list_elem_of_singleton in Hev.
    + destruct (conn_send_frame profile (ESubscribeError tp (refusal err)) c) as [-> ->]. by split; auto.
  - destruct (conn_send_frame profile EPong c) as [-> ->]. by split; auto.
Qed.

Lemma conn_step_events profile s c :
  (forall topic, conn_subscribed (conn_step profile s c) topic ->
     conn_subscribed c topic \/ exists fuel, s = CTurn fuel /\ turn_grants profile fuel c topic) /\
  (forall ev, EEvent ev ∈ cn_events (conn_step profile s c) ->
     EEvent ev ∈ cn_events c \/ conn_subscribed c (event_topic ev)).
Proof.
  destruct s as [fuel|j r]; simpl.
  - unfold conn_turn. destruct (cn_status c); [|by split; auto..].
    destruct (cn_events c) as [|env q] eqn:Eq.
    + destruct (recv_frame _ _ _) as [[[env|e]|] [[io' s'] buf']] eqn:Er; [|by split; auto..].
      edestruct on_inbound_events as [Hs Hq]. split; [|by intros ev ?%Hq; left].
      intros topic [?|(flt & cap & subject & -> & Hv)]%Hs; [by left|right].
      exists fuel. split; [done|]. by eexists flt, cap, subject, _.
    + destruct (conn_send_frame profile env (cn_set_events q c)) as [He Hf].
      unfold conn_subscribed at 1. rewrite He, Hf. simpl. split; [by auto|].
      intros ev Hin. left. by right.
  - unfold conn_forward. destruct (cn_forwarders c !! j) as [f|] eqn:Ej; [|by split; auto].
    assert (f ∈ cn_forwarders c) as Hf by (by eapply list_elem_of_lookup_2).
    destruct (cf_done f); [by split; auto|].
    set (stop := cn_set_forwarders _ c).
    assert ((forall topic, conn_subscribed stop topic -> conn_subscribed c topic)) as Hstop.
    { intros topic (x & Hx & Ht). apply list_elem_of_lookup in Hx as [k Hk]. simpl in Hk.
      apply list_lookup_insert_Some in Hk as [(_ & <- & _)|[_ Hk]].
      - by exists f.
      - exists x. split; [by eapply list_elem_of_lookup_2|done]. }
    destruct r as [ev| |]; [|by split; auto|by split; auto].
    case_decide as Et; [|by split; auto].
    destruct (cn_status c); [| |by split; auto]; (split; [by auto|]); simpl;
      intros ev' [?|Hev]%elem_of_app; [by left| |by left|];
      apply list_elem_of_singleton in Hev as [= ->]; right; by exists f.
Qed.

(** Some turn of the run [ss] received a subscription to [topic] that the
    service authorised. *)
Definition granted_before (profile : MimicryProfile) (ss : list ConnStep) (c0 : Conn)
    (topic : Topic) : Prop :=
  exists ss1 fuel ss2, ss = ss1 ++ CTurn fuel :: ss2 /\
    turn_grants profile fuel (conn_run profile ss1 c0) topic.

Lemma granted_before_snoc profile ss s c0 topic :
  granted_before profile ss c0 topic -> granted_before profile (ss ++ [s]) c0 topic.
Proof.
  intros (ss1 & fuel & ss2 & -> & H). exists ss1, fuel, (ss2 ++ [s]). by rewrite <-app_assoc.
Qed.

Lemma conn_run_snoc profile ss s c :
  conn_run profile (ss ++ [s]) c = conn_step profile s (conn_run profile ss c).
Proof. unfold conn_run. by rewrite fold_left_app. Qed.

Lemma conn_run_subscribed profile ss c0 topic :
  cn_forwarders c0 = [] -> conn_subscribed (conn_run profile ss c0) topic ->
  granted_before profile ss c0 topic.
Proof.
  intros H0. induction ss as [|s ss IH] using rev_ind.
  - intros (f & Hf & _). simpl in Hf. rewrite H0 in Hf. by apply not_elem_of_nil in Hf.
  - rewrite conn_run_snoc. intros [H|(fuel & -> & H)]%conn_step_events.
    + by apply granted_before_snoc, IH.
    + by exists ss, fuel, [].
Qed.

(** In any interleaving of the connection's turns and its
    forwarders, an event is queued for the client only if an earlier turn
    received a subscription to the event's topic that the service's verifier
    granted. *)
Lemma tcp_events_need_grant profile ss c0 ev :
  cn_forwarders c0 = [] -> cn_events c0 = [] ->
  EEvent ev ∈ cn_events (conn_run profile ss c0) ->
  granted_before profile ss c0 (event_topic ev).
Proof.
  intros Hf Hq. induction ss as [|s ss IH] using rev_ind.
  - simpl. rewrite Hq. intros H. by apply not_elem_of_nil in H.
  - rewrite conn_run_snoc. intros [H|H]%conn_step_events; apply granted_before_snoc; [by apply IH|].
    by apply conn_run_subscribed.
Qed.

(** ** The connection serves the service *)

(** The contract: what the client is sent back for one envelope, and the
    service afterwards. *)
Definition respond (svc : Service) (env : Envelope) : list Envelope * Service :=
  match env with
  | EPing => ([EPong], svc)
  | ERequest req => let '(resp, svc') := handle svc req in ([EResponse resp], svc')
  | ESubscribe topic _ cap =>
      match verify_topic svc cap topic with
      | Err err => ([ESubscribeError topic (refusal err)], svc)
      | Ok _ =>
          match event_source svc topic with
          | Some _ => ([], svc)
          | None => ([ESubscribeError topic
                        (diagnostic_error METHOD_NOT_FOUND (str "no event source for topic"))], svc)
          end
      end
  | _ => ([], svc)
  end.

Fixpoint respond_all (svc : Service) (envs : list Envelope) : list Envelope * Service :=
  match envs with
  | [] => ([], svc)
  | env :: envs =>
      let '(replies, svc1) := respond svc env in
      let '(rest, svc2) := respond_all svc1 envs in
      (replies ++ rest, svc2)
  end.

Context {AV : AsyncView S} {AL : AsyncIoLaws S}.
Context (p : MimicryProfile) {PL : ProfileLaws p}.
Context (half : Session -> Session -> Prop) {DX : DuplexLaws half} {JL : SerdeLaws}.

Abbreviation sendable := (Duplex.sendable p).
Abbreviation said := (Duplex.said (S := S) p half).

(** A turn that sends: the connection goes on, with the frame on the wire. *)
Lemma conn_send_ok env c :
  sendable env -> v_wr (view (cn_stream c)) = true ->
  exists rng w io' session' rng',
    send_frame env p (cn_stream c, cn_session c, rng) = (Ready (Ok tt), (io', session', rng')) /\
    view io' = emit w (view (cn_stream c)) /\
    conn_send p env c = mkConn io' session' (cn_buf c) rng' (cn_service c) (cn_events c)
                          (cn_forwarders c) Running.
Proof.
  intros He Hw. unfold conn_send. destruct (jitter p (cn_rng c)) as [d rng] eqn:Ej.
  destruct (send_frame_sendable p env (cn_stream c) (cn_session c) rng He Hw)
    as (w & io' & s' & rng' & Hs & Hv).
  exists rng, w, io', s', rng'. by rewrite Hs.
Qed.

(** From [c] to [c'] the connection has sent [replies] and received nothing;
    it is running and nothing waits to be sent. *)
Record served (replies : list Envelope) (svc : Service) (c c' : Conn) : Prop := {
  sv_status : cn_status c' = Running;
  sv_events : cn_events c' = [];
  sv_service : cn_service c' = svc;
  sv_buf : cn_buf c' = cn_buf c;
  sv_view : exists w, view (cn_stream c') = emit w (view (cn_stream c)) /\
    said replies (cn_session c) (cn_session c') w;
  sv_half : forall x, half x (cn_session c) -> half x (cn_session c');
}.

Lemma served_none svc c :
  cn_status c = Running -> cn_events c = [] -> cn_service c = svc -> served [] svc c c.
Proof.
  intros. split; try done. exists []. by rewrite emit_nil; split; [|apply said_nil].
Qed.

(** Sending one envelope, with the queue empty. *)
Lemma conn_send_served env c c0 :
  sendable env -> v_wr (view (cn_stream c)) = true -> cn_events c = [] ->
  cn_stream c = cn_stream c0 -> cn_session c = cn_session c0 -> cn_buf c = cn_buf c0 ->
  served [env] (cn_service c) c0 (conn_send p env c).
Proof.
  intros He Hw Hq E1 E2 E3.
  destruct (conn_send_ok env c He Hw) as (rng & w & io' & s' & rng' & Hs & Hv & ->).
  rewrite E1, E2 in *. split; simpl; try done.
  - exists w. split; [done|]. by eapply said_one.
  - intros x. by apply (send_frame_keeps_rx p half _ _ _ _ _ _ _ _ Hs).
Qed.

(** What the loop does with one received envelope, and at most one further
    turn, is what the contract says. *)
Lemma inbound_served fuel env c replies svc' :
  cn_status c = Running -> cn_events c = [] -> v_wr (view (cn_stream c)) = true ->
  respond (cn_service c) env = (replies, svc') -> Forall sendable replies ->
  exists k, k <= 1 /\
    served replies svc' c (conn_run p (repeat (CTurn fuel) k) (on_inbound p env c)).
Proof.
  intros Hr Hq Hw Hresp Hs.
  assert (forall e, replies = [e] -> sendable e) as Hone by (by intros e ->; inversion Hs).
  destruct env as [req| | |topic flt cap| | | |]; simpl in Hresp; simpl;
    try (injection Hresp as <- <-; exists 0; split; [lia|by apply served_none]).
  - destruct (handle (cn_service c) req) as [resp svc1]. injection Hresp as <- <-.
    exists 0. split; [lia|]. by apply (conn_send_served _ (cn_set_service svc1 c)); auto.
  - destruct (verify_topic (cn_service c) cap topic) as [subject|err].
    + unfold handle_subscribe. destruct (event_source (cn_service c) topic) as [src|].
      * injection Hresp as <- <-. exists 0. split; [lia|].
        split; simpl; try done. exists []. by rewrite emit_nil; split; [|apply said_nil].
      * injection Hresp as <- <-. exists 1. split; [lia|]. simpl. rewrite Hq. unfold conn_turn. simpl.
        rewrite Hr. by apply (conn_send_served _ (cn_set_events [] (cn_set_events _ c))); auto.
    + injection Hresp as <- <-. exists 0. split; [lia|]. by apply conn_send_served; auto.
  - injection Hresp as <- <-. exists 0. split; [lia|]. by apply conn_send_served; auto.
Qed.

(** One envelope of the client, from its arrival to its replies. *)
Lemma envelope_served fuel env c replies svc' cio csession crng cio' csession' crng' w rest :
  send_frame env p (cio, csession, crng) = (Ready (Ok tt), (cio', csession', crng')) ->
  view cio' = emit w (view cio) -> half csession (cn_session c) ->
  cn_status c = Running -> cn_events c = [] -> v_wr (view (cn_stream c)) = true ->
  cn_buf c ++ v_in (view (cn_stream c)) = w ++ rest -> length (v_in (view (cn_stream c))) < fuel ->
  respond (cn_service c) env = (replies, svc') -> Forall sendable replies ->
  exists k c1, k <= 2 /\
    let c' := conn_run p (repeat (CTurn fuel) k) c in
    served replies svc' c1 c' /\
    (forall x, half (cn_session c) x -> half (cn_session c1) x) /\
    half csession' (cn_session c1) /\
    (exists n, view (cn_stream c1) = consume n (view (cn_stream c))) /\
    cn_buf c1 ++ v_in (view (cn_stream c1)) = rest.
Proof.
  intros Hs Hv Hp Hr Hq Hw Hb Hf Hresp Hok.
  destruct (send_recv_frame p half env _ _ _ _ _ _ w rest fuel _ _ _ Hs Hv Hp Hb Hf)
    as (n & io1 & s1 & buf1 & Hrecv & Hp1 & Hk & Hrest).
  set (c1 := mkConn io1 s1 buf1 (cn_rng c) (cn_service c) (cn_events c) (cn_forwarders c)
               (cn_status c)).
  destruct (inbound_served fuel env c1 replies svc') as (k & Hk1 & Hserved); simpl; try done.
  { by rewrite Hk. }
  exists (Datatypes.S k), c1. split; [lia|]. split_and!;
    [|intros x; by apply (recv_frame_keeps_tx p half _ _ _ _ _ _ _ _ _ Hrecv)|done|by eexists|done].
  change (conn_run p (repeat (CTurn fuel) (Datatypes.S k)) c)
    with (conn_run p (repeat (CTurn fuel) k) (conn_turn fuel p c)).
  replace (conn_turn fuel p c) with (on_inbound p env c1); [done|].
  unfold conn_turn, c1. by rewrite Hr, Hq, Hrecv.
Qed.

Lemma conn_run_app ss1 ss2 c : conn_run p (ss1 ++ ss2) c = conn_run p ss2 (conn_run p ss1 c).
Proof. unfold conn_run. by rewrite fold_left_app. Qed.

(** Let a client send any sequence of envelopes
    over its session, in frames that the stream may cut into reads in any way.
    After at most two turns per envelope the connection has run the service on
    exactly these envelopes, in order, and has written frames that the client
    reads back, through the same duplex session, as exactly the contract's
    replies in order: a response per request, a pong per ping, a
    subscription error per refused or unknown topic, nothing else. *)
Lemma tcp_server_refines_service fuel envs c replies svc' cio csession crng cio' csession' crng'
    sent rest :
  send_all p envs (cio, csession, crng) = Some (cio', csession', crng') ->
  v_out (view cio') = v_out (view cio) ++ sent -> half csession (cn_session c) ->
  cn_status c = Running -> cn_events c = [] -> v_wr (view (cn_stream c)) = true ->
  cn_buf c ++ v_in (view (cn_stream c)) = sent ++ rest ->
  length (v_in (view (cn_stream c))) < fuel ->
  respond_all (cn_service c) envs = (replies, svc') -> Forall sendable replies ->
  exists k, k <= 2 * length envs /\
    let c' := conn_run p (repeat (CTurn fuel) k) c in
    cn_status c' = Running /\ cn_events c' = [] /\ cn_service c' = svc' /\
    half csession' (cn_session c') /\ cn_buf c' ++ v_in (view (cn_stream c')) = rest /\
    exists w, v_out (view (cn_stream c')) = v_out (view (cn_stream c)) ++ w /\
      said replies (cn_session c) (cn_session c') w.
Proof.
  revert c replies cio csession crng sent.
  induction envs as [|env envs IH];
    intros c replies cio csession crng sent Hsend Hout Hp Hr Hq Hw Hb Hf Hresp Hok.
  - simpl in Hsend, Hresp. simplify_eq. exists 0. split; [lia|]. simpl. split_and!; try done.
    + destruct sent; [done|]. apply (f_equal length) in Hout. rewrite length_app in Hout.
      simpl in Hout. lia.
    + exists []. by rewrite app_nil_r; split; [|apply said_nil].
  - simpl in Hsend, Hresp.
    destruct (send_frame env p (cio, csession, crng)) as [[[[]|]|] [[io1 cs1] r1]] eqn:E; [|done|done].
    destruct (respond (cn_service c) env) as [rep1 svc1] eqn:E1.
    destruct (respond_all svc1 envs) as [rep2 svc2] eqn:E2. injection Hresp as <- <-.
    apply Forall_app in Hok as [Hok1 Hok2].
    destruct (send_frame_sent _ _ _ _ _ _ _ _ E) as (_ & _ & w & _ & _ & _ & Hv).
    destruct (send_all_sent _ _ _ _ _ _ _ _ Hsend) as [sent' Hsent].
    rewrite Hsent, Hv in Hout. simpl in Hout. rewrite <-app_assoc in Hout.
    apply app_inv_head in Hout as <-. rewrite <-app_assoc in Hb.
    destruct (envelope_served fuel env c rep1 svc1 _ _ _ _ _ _ w (sent' ++ rest) E Hv Hp Hr Hq Hw Hb Hf E1 Hok1)
      as (k1 & c1 & Hk1 & Hserved & Htx & Hp1 & (n & Hn) & Hb1).
    set (c2 := conn_run p (repeat (CTurn fuel) k1) c) in *. cbv zeta in Hserved.
    destruct Hserved as [S1 S2 S3 S4 (w1 & Sv & Ssaid) S6].
    assert (v_in (view (cn_stream c2)) = v_in (view (cn_stream c1))) as Hin by (by rewrite Sv).
    destruct (IH c2 rep2 io1 cs1 r1 sent' Hsend Hsent) as (k2 & Hk2 & T1 & T2 & T3 & T4 & T5 & w2 & T6 & T7);
      [by apply S6|done|done|by rewrite Sv, Hn|by rewrite S4, Hin| |by rewrite S3|done|].
    { rewrite Hin, Hn. simpl. rewrite length_drop. lia. }
    exists (k1 + k2). simpl. split; [lia|]. rewrite repeat_app, conn_run_app. fold c2.
    split_and!; try done. exists (w1 ++ w2). split.
    + rewrite T6, Sv, Hn. simpl. by rewrite <-app_assoc.
    + eapply said_after; [exact Htx|]. by eapply said_app.
Qed.

End Server.
Arguments Conn {_ _} S.

(** ** Concrete runs *)

Module ServerRuns.
Import Ref.

Definition svc : RService := mkRService 0 [str "news"] x2a.
Definition r1 : core.(Request) := str "r1".
Definition resp1 : core.(Response) := (str "r1", x00).
Definition news : core.(Event) := (str "news", x21).

(** A connection right after its handshake, with what its client sends. *)
Definition conn (chunks : list bytes) : Conn Script :=
  mkConn (mkScript chunks FinWait [] None) (mkRSession 0 0) [] 0 svc [] [] Running.

Definition idle : Script := mkScript [] FinWait [] None.

(** A ping and a request, cut into reads inside the frames. *)
Definition ping_request : bytes :=
  [x00; x00; x00; x02; x00; x07; x00; x00; x00; x04; x01; x01; x72; x31].
Definition talk : Conn Script := conn [take 5 ping_request; drop 5 ping_request].

Lemma tcp_server_refines_service_example :
  exists k, k <= 4 /\
    let c' := conn_run vanilla (repeat (CTurn 50) k) talk in
    cn_status c' = Running /\ cn_events c' = [] /\
    cn_service c' = mkRService 1 [str "news"] x2a /\
    half (mkRSession 2 0) (cn_session c') /\ cn_buf c' ++ v_in (view (cn_stream c')) = [] /\
    exists w, v_out (view (cn_stream c')) = v_out (view (cn_stream talk)) ++ w /\
      said (S := Script) vanilla half [EPong; EResponse resp1] (cn_session talk) (cn_session c') w.
Proof.
  refine (tcp_server_refines_service vanilla half 50 [EPing; ERequest r1] talk
            [EPong; EResponse resp1] (mkRService 1 [str "news"] x2a) idle (mkRSession 0 0) 0
            (mkScript [] FinWait ping_request None) (mkRSession 2 0) 0 ping_request []
            _ _ _ _ _ _ _ _ _ _); try reflexivity.
  - vm_compute. lia.
  - apply List.Forall_cons; [|apply List.Forall_cons; [|apply List.Forall_nil]];
      (eexists; split; [reflexivity|]; intros session rng; eexists _, _, _, _; split; reflexivity).
Defined.

(** A granted subscription, then an event. *)
Definition subscribing : Conn Script :=
  conn [[x00; x00; x00; x09; x00; x04; x00; x01; x2a; x6e; x65; x77; x73]].

Lemma tcp_events_need_grant_example :
  granted_before vanilla [CTurn 50; CForward 0 (SrcEvent news)] subscribing (str "news").
Proof.
  refine (tcp_events_need_grant vanilla [CTurn 50; CForward 0 (SrcEvent news)] subscribing news _ _ _).
  - reflexivity.
  - reflexivity.
  - left.
Defined.

End ServerRuns.
