(* ===== verification/TcpServer.v ===== *)
(** * The TCP server as a whole

    [src/server.rs], [serve_obfs]: the accept loop, one task per accepted
    connection, and the service they share.  The tasks interleave in any
    order; what they do with the service is compared with a single atomic
    service object that takes one envelope at a time.  [Service::handle] is one
    step: how handlers that run at the same time interleave is the service's
    own affair. *)

From S2P Require Import Prelude RustStd Externals Envelope Stream Framing Duplex HandshakeIo Verifier.
From S2P Require Import Server Instances.

Section TcpServer.
Context {WA : WireApi} {CA : CoreApi} {SA : SerdeApi} {S : Type} {IA : AsyncIo S}.
Context {G : Type} {TG : TransportGate G}.

(** [ObfsServeHandle]; its [_stop] sender is [ts_handle] below, alive until
    the handle is dropped. *)
Record ObfsServeHandle : Type := mkObfsServeHandle { sh_local_addr : SocketAddr }.

(** [ObfsServeHandle::local_addr]. *)
Definition local_addr (h : ObfsServeHandle) : SocketAddr := sh_local_addr h.

(** A task running [handle_connection]: not started, waiting for a peer that
    does not go on with the handshake, in its loop, or returned. *)
Inductive Task : Type :=
| Spawned (stream : S)
| Handshaking (stream : S)
| Serving (c : Conn S)
| Returned (stream : S).

(** The listener task, the connection tasks and the service behind the [Arc]
    each of them holds. *)
Record TcpServer : Type := mkTcpServer {
  ts_handle : bool;
  ts_accepting : bool;
  ts_tasks : list Task;
  ts_service : Service;
}.

(** [serve_obfs]; [bound] is what [TcpListener::bind] returns and [addr] what
    [local_addr] of the listener does. *)
Definition serve_obfs (bound : Res IoError unit) (addr : Res IoError SocketAddr) (service : Service)
    : Res ObfsError (ObfsServeHandle * TcpServer) :=
  match bound with
  | Err e => Err (Io e)
  | Ok _ =>
      match addr with
      | Err e => Err (Io e)
      | Ok local_addr => Ok (mkObfsServeHandle local_addr, mkTcpServer true true [] service)
      end
  end.

(** What the [select!] of the accept loop completes with.  [stop_rx.recv()]
    completes once the handle is dropped. *)
Inductive AcceptEvent : Type :=
| Accepted (stream : S)
| AcceptError
| StopSignal.

Definition accept_step (e : AcceptEvent) (sv : TcpServer) : TcpServer :=
  let stop := mkTcpServer (ts_handle sv) false (ts_tasks sv) (ts_service sv) in
  if ts_accepting sv then
    match e with
    | Accepted stream =>
        mkTcpServer (ts_handle sv) true (ts_tasks sv ++ [Spawned stream]) (ts_service sv)
    | AcceptError => stop
    | StopSignal => if ts_handle sv then sv else stop
    end
  else sv.

(** The [i]-th task starts: [handle_connection] up to its loop, with the
    randomness it draws. *)
Definition task_handshake (fuel : nat) (rng0 : Rng) (ent : Entropy) (rng : Rng)
    (server_private : bytes) (gate : G) (profile : MimicryProfile) (svc : Service) (t : Task) : Task :=
  match t with
  | Spawned stream =>
      match handle_connection fuel rng0 ent rng server_private svc gate profile stream with
      | (Pending, stream) => Handshaking stream
      | (Ready None, stream) => Returned stream
      | (Ready (Some c), _) => Serving c
      end
  | _ => t
  end.

(** One step of the [i]-th task's loop, or of one of its forwarders, on the
    shared service. *)
Definition serve_step (profile : MimicryProfile) (i : nat) (s : ConnStep) (sv : TcpServer) : TcpServer :=
  match ts_tasks sv !! i with
  | Some (Serving c) =>
      let c' := conn_step profile s (cn_set_service (ts_service sv) c) in
      mkTcpServer (ts_handle sv) (ts_accepting sv) (<[i := Serving c']> (ts_tasks sv)) (cn_service c')
  | _ => sv
  end.

(** The interleavings of the server. *)
Inductive TsStep : Type :=
| TsAccept (e : AcceptEvent)
| TsDrop
| TsHandshake (i fuel : nat) (rng0 : Rng) (ent : Entropy) (rng : Rng)
| TsConn (i : nat) (s : ConnStep).

Definition ts_step (server_private : bytes) (gate : G) (profile : MimicryProfile) (s : TsStep)
    (sv : TcpServer) : TcpServer :=
  match s with
  | TsAccept e => accept_step e sv
  | TsDrop => mkTcpServer false (ts_accepting sv) (ts_tasks sv) (ts_service sv)
  | TsHandshake i fuel rng0 ent rng =>
      mkTcpServer (ts_handle sv) (ts_accepting sv)
        (alter (task_handshake fuel rng0 ent rng server_private gate profile (ts_service sv)) i
           (ts_tasks sv))
        (ts_service sv)
  | TsConn i s => serve_step profile i s sv
  end.

Definition ts_run (server_private : bytes) (gate : G) (profile : MimicryProfile) (ss : list TsStep)
    (sv : TcpServer) : TcpServer :=
  fold_left (fun sv s => ts_step server_private gate profile s sv) ss sv.

(** ** The atomic service

    A history lists what reached the service and the outgoing lines, in order:
    an envelope taken from connection [i], or an event a forwarder pushed for
    it. *)
Inductive Item : Type :=
| Took (i : nat) (env : Envelope)
| Pushed (i : nat) (ev : Event).

(** The service after a history. *)
Definition item_service (svc : Service) (x : Item) : Service :=
  match x with Took _ env => (respond svc env).2 | Pushed _ _ => svc end.

Definition service_after (svc : Service) (h : list Item) : Service := fold_left item_service h svc.

(** What connection [i] is sent for an item: the contract's replies to its own
    envelopes, and its events. *)
Definition item_line (i : nat) (svc : Service) (x : Item) : list Envelope :=
  match x with
  | Took j env => if decide (j = i) then (respond svc env).1 else []
  | Pushed j ev => if decide (j = i) then [EEvent ev] else []
  end.

Fixpoint line (i : nat) (svc : Service) (h : list Item) : list Envelope :=
  match h with
  | [] => []
  | x :: h => item_line i svc x ++ line i (item_service svc x) h
  end.

(** The envelopes taken from connection [i], and the events pushed for it. *)
Definition took (i : nat) (h : list Item) : list Envelope :=
  omap (fun x => match x with Took j env => if decide (j = i) then Some env else None
                             | Pushed _ _ => None end) h.

Definition pushed (i : nat) (h : list Item) : list Event :=
  omap (fun x => match x with Pushed j ev => if decide (j = i) then Some ev else None
                             | Took _ _ => None end) h.

(** What a step of a connection does, read off the code's branches: the
    envelope its turn receives, or the event its forwarder pushes. *)
Definition conn_item (profile : MimicryProfile) (i : nat) (s : ConnStep) (c : Conn S) : list Item :=
  match s with
  | CTurn fuel =>
      match cn_status c, cn_events c with
      | Running, [] =>
          match recv_frame fuel profile (cn_stream c, cn_session c, cn_buf c) with
          | (Ready (Ok env), _) => [Took i env]
          | _ => []
          end
      | _, _ => []
      end
  | CForward j (SrcEvent ev) =>
      match cn_forwarders c !! j, cn_status c with
      | Some f, (Running | Stalled) =>
          if cf_done f then []
          else if decide (event_topic ev = cf_topic f) then [Pushed i ev] else []
      | _, _ => []
      end
  | CForward _ _ => []
  end.

Definition ts_item (profile : MimicryProfile) (s : TsStep) (sv : TcpServer) : list Item :=
  match s with
  | TsConn i s =>
      match ts_tasks sv !! i with Some (Serving c) => conn_item profile i s c | _ => [] end
  | _ => []
  end.

Fixpoint ts_history (server_private : bytes) (gate : G) (profile : MimicryProfile)
    (ss : list TsStep) (sv : TcpServer) : list Item :=
  match ss with
  | [] => []
  | s :: ss =>
      ts_item profile s sv ++
      ts_history server_private gate profile ss (ts_step server_private gate profile s sv)
  end.

Lemma service_after_app svc h1 h2 :
  service_after svc (h1 ++ h2) = service_after (service_after svc h1) h2.
Proof. unfold service_after. by rewrite fold_left_app. Qed.

Lemma line_app i svc h1 h2 :
  line i svc (h1 ++ h2) = line i svc h1 ++ line i (service_after svc h1) h2.
Proof.
  revert svc. induction h1 as [|x h1 IH]; intros svc; [done|]. simpl. by rewrite IH, app_assoc.
Qed.

Lemma took_app i h1 h2 : took i (h1 ++ h2) = took i h1 ++ took i h2.
Proof. apply omap_app. Qed.

Lemma pushed_app i h1 h2 : pushed i (h1 ++ h2) = pushed i h1 ++ pushed i h2.
Proof. apply omap_app. Qed.

(** ** One step of a connection *)

Context {AV : AsyncView S} {AL : AsyncIoLaws S}.
Context (p : MimicryProfile) {PL : ProfileLaws p}.
Context (half : Session -> Session -> Prop) {DX : DuplexLaws half} {JL : SerdeLaws}.

Abbreviation sendable := (Duplex.sendable p).
Abbreviation said := (Duplex.said (S := S) p half).
Abbreviation spoken := (Duplex.spoken (S := S) p half).

(** From [c] to [c'] the connection wrote [out] and read at most input. *)
Record advanced (out : list Envelope) (c c' : Conn S) : Prop := {
  ad_out : exists w, v_out (view (cn_stream c')) = v_out (view (cn_stream c)) ++ w /\
    spoken out (cn_session c) (cn_session c') w;
  ad_len : length (v_in (view (cn_stream c'))) <= length (v_in (view (cn_stream c)));
  ad_wr : v_wr (view (cn_stream c')) = v_wr (view (cn_stream c));
}.

(** It wrote [out], and what its client sends next is read as before. *)
Record wrote (out : list Envelope) (c c' : Conn S) : Prop := {
  wr_advanced : advanced out c c';
  wr_input : cn_buf c' ++ v_in (view (cn_stream c')) = cn_buf c ++ v_in (view (cn_stream c));
  wr_half : forall x, half x (cn_session c) -> half x (cn_session c');
}.

Lemma advanced_none c c' :
  cn_stream c' = cn_stream c -> cn_session c' = cn_session c -> advanced [] c c'.
Proof.
  intros E1 E2. split; rewrite ?E1, ?E2; try done.
  exists []. rewrite app_nil_r. by split; [|apply spoken_end].
Qed.

Lemma advanced_trans out1 out2 c1 c2 c3 :
  advanced out1 c1 c2 -> advanced out2 c2 c3 -> advanced (out1 ++ out2) c1 c3.
Proof.
  intros [(w1 & V1 & S1) L1 W1] [(w2 & V2 & S2) L2 W2]. split; [|lia|congruence].
  exists (w1 ++ w2). rewrite V2, V1, app_assoc. split; [done|]. by eapply spoken_app.
Qed.

Lemma wrote_none c c' :
  cn_stream c' = cn_stream c -> cn_session c' = cn_session c -> cn_buf c' = cn_buf c ->
  wrote [] c c'.
Proof. intros E1 E2 E3. split; [by apply advanced_none|by rewrite E1, E3|by rewrite E2]. Qed.

Lemma conn_send_service env c : cn_service (conn_send p env c) = cn_service c.
Proof.
  unfold conn_send. destruct (jitter _ _) as [d r].
  by destruct (send_frame _ _ _) as [? [[] ?]].
Qed.

Lemma conn_send_wrote env c :
  cn_status (conn_send p env c) = Running -> wrote [env] c (conn_send p env c).
Proof.
  unfold conn_send. destruct (jitter p (cn_rng c)) as [d rng].
  destruct (send_frame env p _) as [[[[]|e]|] [[io' s'] rng']] eqn:E; simpl; try done. intros _.
  destruct (send_frame_sent _ _ _ _ _ _ _ _ E) as (pt & ct & w & _ & _ & _ & Hv).
  split; [split| |]; simpl; rewrite ?Hv; try done.
  - exists w. split; [done|]. by eapply spoken_one, said_one.
  - intros x. by apply (send_frame_keeps_rx p half _ _ _ _ _ _ _ _ E).
Qed.

(** What the loop does with one envelope: the service and the outgoing line
    move as the contract says. *)
Lemma on_inbound_line env c :
  cn_service (on_inbound p env c) = (respond (cn_service c) env).2 /\
  (cn_status c = Running -> cn_status (on_inbound p env c) = Running -> cn_events c = [] ->
   exists out, wrote out c (on_inbound p env c) /\
     out ++ cn_events (on_inbound p env c) = (respond (cn_service c) env).1).
Proof.
  assert (forall e c', cn_events c = [] -> cn_events c' = cn_events c -> cn_stream c' = cn_stream c ->
            cn_session c' = cn_session c -> cn_buf c' = cn_buf c ->
            cn_status (conn_send p e c') = Running ->
            exists out, wrote out c (conn_send p e c') /\ out ++ cn_events (conn_send p e c') = [e])
    as Hsend.
  { intros e c' Hq E0 E1 E2 E3 Hr. exists [e]. destruct (conn_send_frame p e c') as [-> _].
    rewrite E0, Hq. split; [|done]. destruct (conn_send_wrote e c' Hr) as [[A1 A2 A3] A4 A5].
    rewrite ?E1, ?E2, ?E3 in *. by split. }
  assert (forall c', cn_stream c' = cn_stream c -> cn_session c' = cn_session c -> cn_buf c' = cn_buf c ->
            exists out, wrote out c c' /\ out ++ cn_events c' = cn_events c') as Hstay.
  { intros c' ???. exists []. by split; [apply wrote_none|]. }
  destruct env as [req| | |topic flt cap| | | |]; simpl;
    try (split; [done|]; intros _ _ <-; by apply Hstay).
  - destruct (handle (cn_service c) req) as [resp svc'] eqn:Eh. rewrite conn_send_service.
    split; [done|]. intros _ Hr Hq. by apply Hsend.
  - destruct (verify_topic (cn_service c) cap topic) as [subject|err].
    + unfold handle_subscribe. destruct (event_source (cn_service c) topic) as [src|]; simpl;
        (split; [done|]); intros _ _ Hq.
      * rewrite <-Hq. by apply (Hstay (cn_set_forwarders _ c)).
      * rewrite Hq. simpl. by apply (Hstay (cn_set_events [_] c)).
    + rewrite conn_send_service. split; [done|]. intros _ Hr Hq. by apply Hsend.
  - rewrite conn_send_service. split; [done|]. intros _ Hr Hq. by apply Hsend.
Qed.

(** Receiving only consumes input and leaves the sending half alone. *)
Lemma recv_frame_advanced fuel c r io' session' buf' rng svc q fs st :
  recv_frame fuel p (cn_stream c, cn_session c, cn_buf c) = (r, (io', session', buf')) ->
  advanced [] c (mkConn io' session' buf' rng svc q fs st).
Proof.
  intros Hr. destruct (recv_frame_consumes p _ _ _ _ _ _ _ _ Hr) as [k Hk].
  split; simpl; rewrite ?Hk; [|simpl; rewrite length_drop; lia|done].
  exists []. rewrite app_nil_r. split; [done|]. apply spoken_end. intros x.
  by apply (recv_frame_keeps_tx p half _ _ _ _ _ _ _ _ _ Hr).
Qed.

(** A forwarder touches the queue only. *)
Lemma conn_forward_line i j r c :
  let c' := conn_forward j r c in
  cn_stream c' = cn_stream c /\ cn_session c' = cn_session c /\ cn_buf c' = cn_buf c /\
  cn_service c' = cn_service c /\ cn_status c' = cn_status c /\
  service_after (cn_service c) (conn_item p i (CForward j r) c) = cn_service c /\
  cn_events c' = cn_events c ++ line i (cn_service c) (conn_item p i (CForward j r) c).
Proof.
  unfold conn_forward. simpl. destruct r as [ev| |]; simpl; rewrite ?app_nil_r;
    destruct (cn_forwarders c !! j) as [f|]; simpl; rewrite ?app_nil_r; try done;
    destruct (cf_done f); simpl; try done;
    destruct (cn_status c) eqn:Est; simpl; rewrite ?app_nil_r; try done;
    case_decide; simpl; rewrite ?app_nil_r; try done; by rewrite decide_True.
Qed.

(** One turn moves the service along the history and adds to the outgoing
    line: what is on the wire and what is still queued grow together by the
    replies to the envelope taken. *)
Lemma conn_turn_line i fuel c :
  cn_service (conn_turn fuel p c) = service_after (cn_service c) (conn_item p i (CTurn fuel) c) /\
  (cn_status (conn_turn fuel p c) = Running -> cn_status c = Running /\
   exists out, advanced out c (conn_turn fuel p c) /\
     out ++ cn_events (conn_turn fuel p c)
       = cn_events c ++ line i (cn_service c) (conn_item p i (CTurn fuel) c)).
Proof.
  unfold conn_turn. simpl. destruct (cn_status c) eqn:Est; [|by split; [|rewrite Est]..].
  destruct (cn_events c) as [|env q] eqn:Eq; simpl.
  - destruct (recv_frame fuel p _) as [[[env|e]|] [[io1 s1] buf1]] eqn:Er; simpl; [|done|].
    + set (c1 := mkConn io1 s1 buf1 _ _ _ _ _).
      destruct (on_inbound_line env c1) as [Hs Hl]. split; [done|]. intros Hr. split; [done|].
      destruct (Hl eq_refl Hr eq_refl) as (out & [HA _ _] & Hline).
      exists out. rewrite Hline, app_nil_r, decide_True by done. split; [|done].
      by apply (advanced_trans [] _ _ c1); [eapply recv_frame_advanced|].
    + split; [done|]. intros _. split; [done|]. exists []. by split; [eapply recv_frame_advanced|].
  - rewrite conn_send_service. split; [done|]. intros Hr. split; [done|].
    destruct (conn_send_wrote env (cn_set_events q c) Hr) as [[A1 A2 A3] _ _].
    destruct (conn_send_frame p env (cn_set_events q c)) as [-> _]. exists [env].
    by rewrite app_nil_r.
Qed.

Lemma conn_step_line i s c :
  cn_service (conn_step p s c) = service_after (cn_service c) (conn_item p i s c) /\
  (cn_status (conn_step p s c) = Running -> cn_status c = Running /\
   exists out, advanced out c (conn_step p s c) /\
     out ++ cn_events (conn_step p s c)
       = cn_events c ++ line i (cn_service c) (conn_item p i s c)).
Proof.
  destruct s as [fuel|j r]; [apply conn_turn_line|].
  destruct (conn_forward_line i j r c) as (E1 & E2 & _ & E4 & E5 & E6 & E7).
  cbn [conn_step]. rewrite E4, E5, E6, E7. split; [done|]. intros Hr. split; [done|].
  exists []. by split; [apply advanced_none|].
Qed.

(** ** What the client sends *)

(** The bytes [input] are frames that a client paired with [session] writes
    for [envs], and then [rest]. *)
Definition feeds (envs : list Envelope) (rest : bytes) (session : Session) (input : bytes) : Prop :=
  exists (cio : S) csession crng cio' csession' crng' sent,
    send_all p envs (cio, csession, crng) = Some (cio', csession', crng') /\
    v_out (view cio') = v_out (view cio) ++ sent /\
    half csession session /\ input = sent ++ rest.

Definition conn_input (c : Conn S) : bytes := cn_buf c ++ v_in (view (cn_stream c)).

Lemma feeds_cons env envs rest session input :
  feeds (env :: envs) rest session input ->
  exists (cio : S) csession crng cio1 csession1 crng1 w sent,
    send_frame env p (cio, csession, crng) = (Ready (Ok tt), (cio1, csession1, crng1)) /\
    view cio1 = emit w (view cio) /\ half csession session /\ input = w ++ (sent ++ rest) /\
    forall session', half csession1 session' -> feeds envs rest session' (sent ++ rest).
Proof.
  intros (cio & cs & cr & cio' & cs' & cr' & sent & Hs & Ho & Hh & ->). simpl in Hs.
  destruct (send_frame env p (cio, cs, cr)) as [[[[]|]|] [[io1 cs1] r1]] eqn:E; [|done|done].
  destruct (send_frame_sent _ _ _ _ _ _ _ _ E) as (_ & _ & w & _ & _ & _ & Hv).
  destruct (send_all_sent _ _ _ _ _ _ _ _ Hs) as [sent' Hsent].
  rewrite Hsent, Hv in Ho. simpl in Ho. rewrite <-app_assoc in Ho. apply app_inv_head in Ho as <-.
  exists cio, cs, cr, io1, cs1, r1, w, sent'. rewrite app_assoc. split_and!; try done.
  intros session' Hh'. by exists io1, cs1, r1, cio', cs', cr', sent'.
Qed.

(** A receive that waits keeps the text; one that returns has read the next
    envelope; with fuel for the input that is left, it returns. *)
Lemma feeds_recv env envs rest fuel io session buf r io' session' buf' :
  feeds (env :: envs) rest session (buf ++ v_in (view io)) ->
  recv_frame fuel p (io, session, buf) = (r, (io', session', buf')) ->
  (r = Ready (Ok env) /\ feeds envs rest session' (buf' ++ v_in (view io'))) \/
  (r = Pending /\ ~ length (v_in (view io)) < fuel).
Proof.
  intros HF Hr.
  destruct (feeds_cons _ _ _ _ _ HF) as (cio & cs & cr & io1 & cs1 & r1 & w & sent & Hs & Hv & Hh & Hin & Hnext).
  destruct (said_recv p half _ _ _ _ _ _ _ _ _ _ _ _ _ (said_one p half _ _ _ _ _ _ _ _ Hs Hv) Hh Hin Hr)
    as [(-> & Hp1 & Hrest)|?]; [left|by right].
  rewrite Hrest. split; [done|]. by apply Hnext.
Qed.

(** A step of a connection and its client's next envelope. *)
Lemma conn_step_input i s c env envs rest :
  cn_status c = Running -> feeds (env :: envs) rest (cn_session c) (conn_input c) ->
  let c' := conn_step p s c in
  (took i (conn_item p i s c) = [] /\
   (cn_status c' = Running -> feeds (env :: envs) rest (cn_session c') (conn_input c'))) \/
  (took i (conn_item p i s c) = [env] /\
   (cn_status c' = Running -> feeds envs rest (cn_session c') (conn_input c'))).
Proof.
  intros Hr HF. assert (forall envs' x y, wrote x y (conn_step p s c) ->
    feeds envs' rest (cn_session y) (conn_input y) ->
    feeds envs' rest (cn_session (conn_step p s c)) (conn_input (conn_step p s c))) as Hmove.
  { intros envs' x y HW (cio & cs & cr & cio' & cs' & cr' & sent & H1 & H2 & H3 & H4).
    exists cio, cs, cr, cio', cs', cr', sent. split_and!; [done|done|by apply HW|].
    unfold conn_input in *. by rewrite (wr_input _ _ _ HW). }
  destruct s as [fuel|j r]; cbn zeta; cbn [conn_step] in *.
  - unfold conn_turn in *. simpl. rewrite Hr in *. destruct (cn_events c) as [|e q] eqn:Eq.
    + destruct (recv_frame fuel p _) as [o [[io1 s1] buf1]] eqn:Er.
      destruct (feeds_recv _ _ _ _ _ _ _ _ _ _ _ HF Er) as [[-> HF1]|[-> _]]; [right|left]; simpl.
      * rewrite decide_True by done. split; [done|]. intros Hr'.
        set (c1 := mkConn io1 s1 buf1 _ _ _ _ _) in *.
        destruct (on_inbound_line env c1) as [_ Hl].
        destruct (Hl eq_refl Hr' eq_refl) as (out & HW & _). by eapply Hmove.
      * destruct (recv_frame_waits p _ _ _ _ _ _ _ Er) as (-> & Hb & _). split; [done|]. intros _.
        unfold conn_input. simpl. by rewrite Hb.
    + left. split; [done|]. intros Hr'. eapply Hmove; [by apply conn_send_wrote|done].
  - left. destruct (conn_forward_line i j r c) as (E1 & E2 & E3 & _).
    unfold conn_input in *. rewrite E1, E2, E3. split; [|done].
    simpl. destruct r; [|done|done]. destruct (cn_forwarders c !! j) as [f|]; [|done]. rewrite Hr.
    destruct (cf_done f); [done|]. by case_decide.
Qed.

Lemma conn_item_stopped i fuel c : cn_status c <> Running -> took i (conn_item p i (CTurn fuel) c) = [].
Proof. simpl. by destruct (cn_status c). Qed.

Lemma conn_item_other i j s svc c :
  i <> j -> took i (conn_item p j s c) = [] /\ pushed i (conn_item p j s c) = [] /\
            line i svc (conn_item p j s c) = [].
Proof.
  intros Hn. assert (conn_item p j s c = [] \/ (exists env, conn_item p j s c = [Took j env]) \/
                     (exists ev, conn_item p j s c = [Pushed j ev])) as [->|[[env ->]|[ev ->]]].
  { destruct s as [fuel|k [ev| |]]; simpl; [|..]; auto.
    - destruct (cn_status c), (cn_events c); auto.
      destruct (recv_frame _ _ _) as [[[]|] ?]; eauto.
    - destruct (cn_forwarders c !! k) as [f|]; [|auto]. destruct (cn_status c), (cf_done f); auto;
        case_decide; eauto. }
  all: simpl; by rewrite ?decide_False by done.
Qed.

(** ** The server's steps *)

Context (server_private : bytes) (gate : G).
Abbreviation step := (ts_step server_private gate p).
Abbreviation run := (ts_run server_private gate p).
Abbreviation history := (ts_history server_private gate p).

Lemma conn_item_service i s svc c : conn_item p i s (cn_set_service svc c) = conn_item p i s c.
Proof. done. Qed.

(** The shared service is the atomic object, run on the history. *)
Lemma ts_step_service s sv : ts_service (step s sv) = service_after (ts_service sv) (ts_item p s sv).
Proof.
  destruct s as [e| |i fuel rng0 ent rng|i s]; simpl; try done.
  - unfold accept_step. by destruct (ts_accepting sv), e, (ts_handle sv).
  - unfold serve_step. destruct (ts_tasks sv !! i) as [[| |c|]|]; try done. cbn [ts_service].
    destruct (conn_step_line i s (cn_set_service (ts_service sv) c)) as [-> _].
    by rewrite conn_item_service.
Qed.

(** The [i]-th connection moves by its own steps only. *)
Lemma ts_step_task s sv i c :
  ts_tasks sv !! i = Some (Serving c) ->
  (exists s', s = TsConn i s' /\ ts_item p s sv = conn_item p i s' c /\
     ts_tasks (step s sv) !! i
       = Some (Serving (conn_step p s' (cn_set_service (ts_service sv) c)))) \/
  ((forall s', s <> TsConn i s') /\ ts_tasks (step s sv) !! i = Some (Serving c) /\
   took i (ts_item p s sv) = [] /\ pushed i (ts_item p s sv) = [] /\
   line i (ts_service sv) (ts_item p s sv) = []).
Proof.
  intros Hi. destruct s as [e| |j fuel rng0 ent rng|j s]; simpl; [right..|].
  - split_and!; try done. unfold accept_step.
    destruct (ts_accepting sv), e, (ts_handle sv); simpl; try done; by apply lookup_app_l_Some.
  - done.
  - split_and!; try done. destruct (decide (i = j)) as [->|Hn].
    + by rewrite list_lookup_alter_eq, Hi.
    + by rewrite list_lookup_alter_ne.
  - unfold serve_step. destruct (decide (i = j)) as [->|Hn]; [left|right].
    + exists s. rewrite Hi. simpl. split_and!; try done. apply list_lookup_insert_eq.
      by eapply lookup_lt_Some.
    + split; [congruence|]. destruct (ts_tasks sv !! j) as [[| |d|]|] eqn:Ej; simpl; try done.
      rewrite list_lookup_insert_ne by done. split; [done|]. by apply conn_item_other.
Qed.

Lemma ts_run_service ss sv : ts_service (run ss sv) = service_after (ts_service sv) (history ss sv).
Proof.
  revert sv. induction ss as [|s ss IH]; intros sv; [done|]. simpl.
  rewrite IH, ts_step_service. by rewrite service_after_app.
Qed.

(** Along a run, the [i]-th connection's outgoing line is the line of the
    history. *)
Lemma ts_run_line ss sv i c0 :
  ts_tasks sv !! i = Some (Serving c0) ->
  exists c, ts_tasks (run ss sv) !! i = Some (Serving c) /\
    (cn_status c = Running -> cn_status c0 = Running /\
     exists out, advanced out c0 c /\
       out ++ cn_events c = cn_events c0 ++ line i (ts_service sv) (history ss sv)).
Proof.
  revert sv c0. induction ss as [|s ss IH]; intros sv c0 Hi.
  { exists c0. simpl. split; [done|]. intros Hr. split; [done|]. exists [].
    rewrite app_nil_r. by split; [apply advanced_none|]. }
  simpl. rewrite line_app, <-ts_step_service.
  destruct (ts_step_task s sv i c0 Hi) as [(s' & -> & -> & H1)|(_ & H1 & _ & _ & ->)].
  - destruct (IH _ _ H1) as (c & Hc & HR). exists c. split; [done|]. intros [Hr1 (out2 & A2 & L2)]%HR.
    destruct (conn_step_line i s' (cn_set_service (ts_service sv) c0)) as [_ Hl].
    destruct (Hl Hr1) as [Hr0 (out1 & A1 & L1)]. split; [done|].
    exists (out1 ++ out2). split.
    { apply (advanced_trans [] _ _ (cn_set_service (ts_service sv) c0)); [by apply advanced_none|].
      by eapply advanced_trans. }
    rewrite <-app_assoc, L2, app_assoc, L1. by rewrite <-app_assoc.
  - by apply IH.
Qed.

Lemma ts_run_stopped ss sv i c0 :
  ts_tasks sv !! i = Some (Serving c0) -> cn_status c0 <> Running -> took i (history ss sv) = [].
Proof.
  revert sv c0. induction ss as [|s ss IH]; intros sv c0 Hi Hn; [done|]. simpl. rewrite took_app.
  destruct (ts_step_task s sv i c0 Hi) as [(s' & -> & -> & H1)|(_ & H1 & -> & _ & _)]; [|by eapply IH].
  rewrite (IH _ _ H1), app_nil_r.
  - destruct s' as [fuel|j [ev| |]]; [by apply conn_item_stopped| |done|done]. simpl.
    destruct (cn_forwarders c0 !! j) as [f|]; [|done]. destruct (cn_status c0), (cf_done f); try done;
      by case_decide.
  - intros Hr. destruct (conn_step_line i s' (cn_set_service (ts_service sv) c0)) as [_ Hl].
    by destruct (Hl Hr) as [? _].
Qed.

(** What is taken from a connection is what its client sent, in order. *)
Lemma ts_run_input ss sv i c0 envs rest :
  ts_tasks sv !! i = Some (Serving c0) -> feeds envs rest (cn_session c0) (conn_input c0) ->
  took i (history ss sv) `prefix_of` envs \/ envs `prefix_of` took i (history ss sv).
Proof.
  revert sv c0 envs. induction ss as [|s ss IH]; intros sv c0 envs Hi HF; [left; apply prefix_nil|].
  destruct envs as [|env envs]; [right; apply prefix_nil|].
  destruct (decide (cn_status c0 = Running)) as [Hr|Hn]; cycle 1.
  { rewrite (ts_run_stopped _ _ _ _ Hi Hn). left. apply prefix_nil. }
  simpl. rewrite took_app.
  destruct (ts_step_task s sv i c0 Hi) as [(s' & -> & -> & H1)|(_ & H1 & -> & _ & _)]; [|by eapply IH].
  set (c1 := conn_step p s' _) in *.
  assert (forall envs', (cn_status c1 = Running -> feeds envs' rest (cn_session c1) (conn_input c1)) ->
    took i (history ss (step (TsConn i s') sv)) `prefix_of` envs' \/
    envs' `prefix_of` took i (history ss (step (TsConn i s') sv))) as Hnext.
  { intros envs' HF1. destruct (decide (cn_status c1 = Running)) as [Hr1|Hn1].
    - by eapply IH; [|apply HF1].
    - rewrite (ts_run_stopped _ _ _ _ H1 Hn1). left. apply prefix_nil. }
  destruct (conn_step_input i s' (cn_set_service (ts_service sv) c0) env envs rest Hr HF)
    as [[E HF1]|[E HF1]]; rewrite conn_item_service in E; rewrite E; simpl; [by apply Hnext|].
  destruct (Hnext _ HF1); [left|right]; by apply prefix_cons.
Qed.

(** C3: any interleaving of the accept loop, the handshakes,
    the loops of all connections and their forwarders acts on the shared
    service like one atomic object that takes one envelope at a time: the
    service ends as the contract leaves it after the envelopes of the run's
    history, whichever connections they came from.  For each connection in its
    loop, the history has its client's envelopes in the order they were sent,
    none skipped, repeated or altered, and, while the connection runs, the
    frames it has written are read back by the client as the contract's
    replies to them at their points in the history and the events pushed for
    the connection, in that order, less what is still queued. *)
Theorem tcp_server_linearizes ss sv0 i c0 envs rest :
  ts_tasks sv0 !! i = Some (Serving c0) -> feeds envs rest (cn_session c0) (conn_input c0) ->
  let sv := run ss sv0 in
  let h := history ss sv0 in
  ts_service sv = service_after (ts_service sv0) h /\
  (took i h `prefix_of` envs \/ envs `prefix_of` took i h) /\
  exists c, ts_tasks sv !! i = Some (Serving c) /\
    (cn_status c = Running ->
     exists out w, v_out (view (cn_stream c)) = v_out (view (cn_stream c0)) ++ w /\
       said out (cn_session c0) (cn_session c) w /\
       out ++ cn_events c = cn_events c0 ++ line i (ts_service sv0) h).
Proof.
  intros Hi HF. cbv zeta. split_and!; [apply ts_run_service|by eapply ts_run_input|].
  destruct (ts_run_line ss sv0 i c0 Hi) as (c & Hc & HR). exists c. split; [done|].
  intros [_ (out & [(w & ? & ?) _ _] & ?)]%HR. exists out, w. split_and!; [done|by apply spoken_said|done].
Qed.

(** ** Progress *)

(** The turns of the [i]-th connection's loop in a run. *)
Definition is_turn (i : nat) (s : TsStep) : bool :=
  match s with TsConn j (CTurn _) => bool_decide (j = i) | _ => false end.

Definition turns (i : nat) (ss : list TsStep) : nat := length (filter (is_turn i) ss).

(** Each of them runs long enough for [len] bytes of input. *)
Definition fueled (i len : nat) (s : TsStep) : Prop :=
  match s with TsConn j (CTurn fuel) => j = i -> len < fuel | _ => True end.

Lemma respond_short svc env : length (respond svc env).1 <= 1.
Proof.
  destruct env; simpl; try lia; [destruct (handle _ _); simpl; lia|].
  destruct (verify_topic _ _ _); [destruct (event_source _ _)|]; simpl; lia.
Qed.

Lemma conn_send_running env c :
  sendable env -> v_wr (view (cn_stream c)) = true -> cn_status (conn_send p env c) = Running.
Proof.
  intros He Hw. by destruct (conn_send_ok p env c He Hw) as (? & ? & ? & ? & ? & _ & _ & ->).
Qed.

Lemma on_inbound_running env c :
  cn_status c = Running -> v_wr (view (cn_stream c)) = true ->
  Forall sendable (respond (cn_service c) env).1 -> cn_status (on_inbound p env c) = Running.
Proof.
  intros Hr Hw Hs. destruct env as [req| | |topic flt cap| | | |]; simpl in *; try done.
  - destruct (handle (cn_service c) req). apply conn_send_running; [by inversion Hs|done].
  - destruct (verify_topic (cn_service c) cap topic).
    + unfold handle_subscribe. by destruct (event_source (cn_service c) topic).
    + apply conn_send_running; [by inversion Hs|done].
  - apply conn_send_running; [by inversion Hs|done].
Qed.

(** A turn of a running connection whose client has more to say sends the head
    of the queue, or takes the next envelope and queues at most one reply. *)
Lemma conn_turn_progress i fuel c env envs rest :
  cn_status c = Running -> v_wr (view (cn_stream c)) = true ->
  feeds (env :: envs) rest (cn_session c) (conn_input c) ->
  length (v_in (view (cn_stream c))) < fuel ->
  Forall sendable (cn_events c ++ line i (cn_service c) (conn_item p i (CTurn fuel) c)) ->
  let c' := conn_turn fuel p c in
  cn_status c' = Running /\
  ((exists e, cn_events c = e :: cn_events c' /\ conn_item p i (CTurn fuel) c = []) \/
   (cn_events c = [] /\ length (cn_events c') <= 1 /\ conn_item p i (CTurn fuel) c = [Took i env])).
Proof.
  intros Hr Hw HF Hlt Hs. cbv zeta. unfold conn_turn. simpl in *. rewrite Hr in *.
  destruct (cn_events c) as [|e q] eqn:Eq.
  - destruct (recv_frame fuel p _) as [o [[io1 s1] buf1]] eqn:Er.
    pose proof (recv_frame_advanced _ _ _ _ _ _ (cn_rng c) (cn_service c) [] (cn_forwarders c) Running Er)
      as [_ _ Hw1].
    destruct (feeds_recv _ _ _ _ _ _ _ _ _ _ _ HF Er) as [[-> _]|[_ []]]; [|done].
    set (c1 := mkConn io1 s1 buf1 _ _ _ _ _) in *. simpl in Hs.
    rewrite decide_True, app_nil_r in Hs by done.
    assert (cn_status (on_inbound p env c1) = Running) as Hr1.
    { by apply on_inbound_running; [|rewrite Hw1|]. }
    split; [done|]. right. split_and!; [done| |done].
    destruct (on_inbound_line env c1) as [_ Hl]. destruct (Hl eq_refl Hr1 eq_refl) as (out & _ & Hline).
    pose proof (respond_short (cn_service c1) env) as Hlen. rewrite <-Hline, length_app in Hlen. lia.
  - split.
    + apply conn_send_running; [by inversion Hs|done].
    + left. exists e. by destruct (conn_send_frame p e (cn_set_events q c)) as [-> _].
Qed.

(** Each turn lowers twice the envelopes left plus the queue, which only an
    event pushed raises. *)
Lemma conn_step_progress i s c env envs rest :
  cn_status c = Running -> v_wr (view (cn_stream c)) = true ->
  feeds (env :: envs) rest (cn_session c) (conn_input c) ->
  fueled i (length (v_in (view (cn_stream c)))) (TsConn i s) ->
  Forall sendable (cn_events c ++ line i (cn_service c) (conn_item p i s c)) ->
  let c' := conn_step p s c in
  cn_status c' = Running /\
  exists envs', took i (conn_item p i s c) ++ envs' = env :: envs /\
    feeds envs' rest (cn_session c') (conn_input c') /\
    2 * length envs' + length (cn_events c') + (if is_turn i (TsConn i s) then 1 else 0)
      <= 2 * length (env :: envs) + length (cn_events c) + length (pushed i (conn_item p i s c)).
Proof.
  intros Hr Hw HF Hlt Hs. pose proof (conn_step_input i s c env envs rest Hr HF) as Hin.
  destruct s as [fuel|j r]; cbn zeta in *; cbn [conn_step fueled] in *.
  - destruct (conn_turn_progress i fuel c env envs rest Hr Hw HF (Hlt eq_refl) Hs) as [Hr' Hcase].
    split; [done|]. cbn [is_turn]. rewrite bool_decide_true by done.
    destruct Hcase as [(e & Ee & Eit)|(Ee & Hlen & Eit)]; rewrite Eit in *; simpl in Hin;
      [|rewrite decide_True in Hin by done]; destruct Hin as [[E HF']|[E HF']]; try done.
    + exists (env :: envs). split_and!; [done|by apply HF'|]. rewrite Ee. simpl. lia.
    + exists envs. simpl. rewrite decide_True by done. split_and!; [done|by apply HF'|]. simpl. lia.
  - destruct (conn_forward_line i j r c) as (_ & _ & _ & _ & E5 & _ & E7). rewrite E5 in *.
    split; [done|]. assert (took i (conn_item p i (CForward j r) c) = [] /\
      length (line i (cn_service c) (conn_item p i (CForward j r) c))
        = length (pushed i (conn_item p i (CForward j r) c))) as [Et El].
    { simpl. destruct r; try done. destruct (cn_forwarders c !! j) as [f|]; [|done]. rewrite Hr.
      destruct (cf_done f); [done|]. case_decide; [|done]. unfold pushed. simpl. by destruct (decide (i = i)). }
    exists (env :: envs). rewrite Et in *. destruct Hin as [[_ HF']|[? _]]; [|done].
    rewrite E7, length_app, El. split_and!; [done|by apply HF'|]. simpl. lia.
Qed.

Lemma ts_run_progress ss sv i c0 envs rest :
  ts_tasks sv !! i = Some (Serving c0) -> cn_status c0 = Running ->
  v_wr (view (cn_stream c0)) = true -> feeds envs rest (cn_session c0) (conn_input c0) ->
  Forall (fueled i (length (v_in (view (cn_stream c0))))) ss ->
  Forall sendable (cn_events c0 ++ line i (ts_service sv) (history ss sv)) ->
  envs `prefix_of` took i (history ss sv) \/
  turns i ss < 2 * length envs + length (cn_events c0) + length (pushed i (history ss sv)).
Proof.
  revert sv c0 envs. induction ss as [|s ss IH]; intros sv c0 envs Hi Hr Hw HF Hfuel Hs;
    (destruct envs as [|env envs]; [left; apply prefix_nil|]).
  { right. unfold turns. simpl. lia. }
  simpl in Hs |- *. rewrite line_app, <-ts_step_service, app_assoc in Hs.
  rewrite took_app, pushed_app, length_app. apply Forall_cons in Hfuel as [Hf Hfuel].
  destruct (ts_step_task s sv i c0 Hi) as [(s' & -> & Eit & H1)|(Hn & H1 & -> & -> & El)]; cycle 1.
  { rewrite El, app_nil_r in Hs. simpl.
    destruct (IH _ _ (env :: envs) H1 Hr Hw HF Hfuel Hs) as [|Hlt]; [by left|].
    right. unfold turns in *. rewrite filter_cons_False; [done|].
    destruct s as [| | |j [fuel|]]; simpl; try tauto.
    case_bool_decide; [subst; by edestruct Hn|tauto]. }
  rewrite Eit in *. set (c := cn_set_service (ts_service sv) c0) in *.
  apply Forall_app in Hs as [Hs0 Hs2].
  destruct (conn_step_progress i s' c env envs rest Hr Hw HF Hf Hs0) as (Hr1 & envs' & Et & HF1 & Hpot).
  destruct (conn_step_line i s' c) as [_ Hl]. destruct (Hl Hr1) as [_ (out & [_ Hlen Hw1] & Hline)].
  change (conn_item p i s' c) with (conn_item p i s' c0) in *. simpl in Hw1, Hlen, Hline, Hpot.
  destruct (IH _ _ envs' H1 Hr1 (eq_trans Hw1 Hw) HF1) as [Hpre|Hlt].
  - eapply Forall_impl; [exact Hfuel|]. intros [| | |j [fuel|]]; simpl; try done. intros Hx ->. specialize (Hx eq_refl). lia.
  - rewrite <-Hline in Hs0. apply Forall_app in Hs0 as [_ Hs1]. by apply Forall_app.
  - left. rewrite <-Et. by apply prefix_app.
  - right. unfold turns in *. rewrite filter_cons. simpl. destruct s' as [fuel|]; simpl in *; [|lia].
    rewrite bool_decide_true in * by done. simpl in *. lia.
Qed.

(** C12: whatever the other connections, their clients and the
    forwarders do, a connection with a live client whose replies and events
    fit a frame has taken all the envelopes its client sent once its loop has
    run two turns for each of them and one for each event pushed to it. *)
Theorem tcp_server_serves_all ss sv0 i c0 envs rest :
  ts_tasks sv0 !! i = Some (Serving c0) -> cn_status c0 = Running -> cn_events c0 = [] ->
  v_wr (view (cn_stream c0)) = true -> feeds envs rest (cn_session c0) (conn_input c0) ->
  Forall (fueled i (length (v_in (view (cn_stream c0))))) ss ->
  Forall sendable (line i (ts_service sv0) (history ss sv0)) ->
  2 * length envs + length (pushed i (history ss sv0)) <= turns i ss ->
  envs `prefix_of` took i (history ss sv0).
Proof.
  intros Hi Hr Hq Hw HF Hf Hs Ht.
  destruct (ts_run_progress ss sv0 i c0 envs rest Hi Hr Hw HF Hf) as [|Hlt]; [by rewrite Hq|done|].
  rewrite Hq in Hlt. simpl in Hlt. lia.
Qed.

(** ** Who reaches the service *)

(** Before the run [ss] ended, the [i]-th task completed its handshake with a
    client whose static key the gate accepts. *)
Definition admitted (i : nat) (ss : list TsStep) (sv0 : TcpServer) : Prop :=
  exists ss1 fuel rng0 ent rng ss2 stream session key leftover stream',
    ss = ss1 ++ TsHandshake i fuel rng0 ent rng :: ss2 /\
    ts_tasks (run ss1 sv0) !! i = Some (Spawned stream) /\
    server_handshake_in_place fuel rng0 ent server_private p stream
      = (Ready (Ok (session, Some key, leftover)), stream') /\
    authenticate gate key = Ok tt.

Lemma admitted_snoc i ss s sv0 : admitted i ss sv0 -> admitted i (ss ++ [s]) sv0.
Proof.
  intros (ss1 & fuel & rng0 & ent & rng & ss2 & H). destruct H as (io & se & key & lo & io' & -> & H).
  exists ss1, fuel, rng0, ent, rng, (ss2 ++ [s]), io, se, key, lo, io'. by rewrite <-app_assoc.
Qed.

Lemma ts_run_snoc ss s sv : run (ss ++ [s]) sv = step s (run ss sv).
Proof. unfold ts_run. by rewrite fold_left_app. Qed.

Lemma ts_history_snoc ss s sv : history (ss ++ [s]) sv = history ss sv ++ ts_item p s (run ss sv).
Proof.
  revert sv. induction ss as [|s' ss IH]; intros sv; simpl; [by rewrite app_nil_r|].
  by rewrite IH, app_assoc.
Qed.

Lemma serving_admitted ss sv0 i c :
  ts_tasks sv0 = [] -> ts_tasks (run ss sv0) !! i = Some (Serving c) -> admitted i ss sv0.
Proof.
  intros H0. revert c. induction ss as [|s ss IH] using rev_ind; intros c; [by simpl; rewrite H0|].
  rewrite ts_run_snoc. destruct s as [e| |j fuel rng0 ent rng|j s]; simpl.
  - intros H. apply admitted_snoc. unfold accept_step in H. destruct (ts_accepting _); [|by eapply IH].
    destruct e, (ts_handle _); simpl in H; try (by eapply IH);
      apply lookup_app_Some in H as [H|[_ H]]; try (by eapply IH); by apply list_lookup_singleton_Some in H as [_ ?].
  - intros H. by eapply admitted_snoc, IH.
  - rewrite list_lookup_alter. case_decide as E; [|intros H; by eapply admitted_snoc, IH]. subst j.
    intros (t & Hi & Ht)%fmap_Some. destruct t as [io|io|c0|io]; simpl in Ht; try done;
      [|by eapply admitted_snoc, IH].
    destruct (handle_connection _ _ _ _ _ _ _ _ io) as [[[c1|]|] io'] eqn:Eh; simplify_eq.
    apply tcp_gate_fails_closed in Eh as (se & key & lo & Hh & Ha & _).
    by exists ss, fuel, rng0, ent, rng, [], io, se, key, lo, io'.
  - unfold serve_step. destruct (ts_tasks (run ss sv0) !! j) as [[| |d|]|] eqn:Ej; simpl;
      try (intros H; by eapply admitted_snoc, IH).
    intros [(<- & _)|[_ H]]%list_lookup_insert_Some; by eapply admitted_snoc, IH.
Qed.

(** C13: from the start of the server, in any
    interleaving, an envelope reaches the service or an event reaches a
    connection's queue only through a task whose handshake completed and whose
    client's static key the transport gate accepted, earlier in the run. *)
Theorem tcp_service_needs_admission ss bound addr svc h sv0 i x :
  serve_obfs bound addr svc = Ok (h, sv0) ->
  x ∈ history ss sv0 -> (exists env, x = Took i env) \/ (exists ev, x = Pushed i ev) ->
  admitted i ss sv0.
Proof.
  intros Hstart Hx Hi. assert (ts_tasks sv0 = []) as H0.
  { unfold serve_obfs in Hstart. by destruct bound, addr; simplify_eq. }
  induction ss as [|s ss IH] using rev_ind; [by apply not_elem_of_nil in Hx|].
  rewrite ts_history_snoc in Hx. apply elem_of_app in Hx as [Hx|Hx]; [by apply admitted_snoc, IH|].
  destruct s as [| | |j s]; simpl in Hx; try (by apply not_elem_of_nil in Hx).
  destruct (ts_tasks (run ss sv0) !! j) as [[| |c|]|] eqn:Ej; try (by apply not_elem_of_nil in Hx).
  destruct (decide (i = j)) as [->|Hn]; [by eapply admitted_snoc, serving_admitted|].
  destruct (conn_item_other i j s svc c Hn) as (Ht & Hp & _). exfalso.
  destruct Hi as [[env ->]|[ev ->]].
  - assert (env ∈ took i (conn_item p j s c)) as H; [|rewrite Ht in H; by apply not_elem_of_nil in H].
    apply list_elem_of_omap. eexists. split; [exact Hx|]. simpl. by rewrite decide_True.
  - assert (ev ∈ pushed i (conn_item p j s c)) as H; [|rewrite Hp in H; by apply not_elem_of_nil in H].
    apply list_elem_of_omap. eexists. split; [exact Hx|]. simpl. by rewrite decide_True.
Qed.

(** ** Stopping *)

(** Dropping the handle and the listener task noticing it end the accepting,
    whatever follows; the tasks already spawned go on. *)
Lemma stopped_listener ss sv :
  let sv' := run (TsDrop :: TsAccept StopSignal :: ss) sv in
  ts_accepting sv' = false /\ length (ts_tasks sv') = length (ts_tasks sv) /\
  history (TsDrop :: TsAccept StopSignal :: ss) sv
    = history ss (run [TsDrop; TsAccept StopSignal] sv).
Proof.
  cbv zeta. change (run (TsDrop :: TsAccept StopSignal :: ss) sv)
    with (run ss (run [TsDrop; TsAccept StopSignal] sv)).
  set (sv1 := run [TsDrop; TsAccept StopSignal] sv).
  assert (ts_accepting sv1 = false /\ length (ts_tasks sv1) = length (ts_tasks sv)) as [H1 H2].
  { unfold sv1. simpl. unfold accept_step. simpl. by destruct (ts_accepting sv) eqn:E. }
  rewrite <-H2. assert (forall sv, ts_accepting sv = false ->
    ts_accepting (run ss sv) = false /\ length (ts_tasks (run ss sv)) = length (ts_tasks sv)) as Hrun.
  { clear. induction ss as [|s ss IH]; intros sv H; [done|]. simpl.
    assert (ts_accepting (step s sv) = false /\
            length (ts_tasks (step s sv)) = length (ts_tasks sv)) as [H' <-]; [|by apply IH].
    destruct s as [e| |j fuel rng0 ent rng|j s]; simpl.
    - unfold accept_step. by rewrite H.
    - done.
    - by rewrite length_alter.
    - unfold serve_step. destruct (ts_tasks sv !! j) as [[| |d|]|]; simpl; rewrite ?length_insert; done. }
  destruct (Hrun sv1 H1) as [-> ->]. done.
Qed.

End TcpServer.
Arguments Task {_ _} S.
Arguments TcpServer {_ _} S.
Arguments TsStep {_ _} S.
Arguments Item {_}.

(** ** Concrete runs *)

Module TcpServerRuns.
Import Ref ServerRuns.

Definition gate : KeyAllowList := key_allow_list_new [pub_of HandshakeRuns.cpriv].
Definition spriv : bytes := HandshakeRuns.spriv.

(** Two clients: one pings and then sends [r1], the other sends [r2]. *)
Definition request_r2 : bytes := [x00; x00; x00; x04; x00; x01; x72; x32].
Definition other : Conn Script := conn [request_r2].
Definition both : TcpServer Script := mkTcpServer true true [Serving talk; Serving other] svc.

(** The second client's request is handled between the first's two envelopes. *)
Definition mixed : list (TsStep Script) :=
  [TsConn 0 (CTurn 50); TsConn 1 (CTurn 50); TsConn 0 (CTurn 50); TsConn 0 (CTurn 50);
   TsConn 0 (CTurn 50)].

Lemma talk_feeds :
  feeds vanilla half [EPing; ERequest r1] [] (cn_session talk) (conn_input talk).
Proof.
  exists idle, (mkRSession 0 0), 0, (mkScript [] FinWait ping_request None), (mkRSession 2 0), 0,
    ping_request. split_and!; reflexivity.
Qed.

Example mixed_history :
  ts_history spriv gate vanilla mixed both = [Took 0 EPing; Took 1 (ERequest (str "r2")); Took 0 (ERequest r1)].
Proof. reflexivity. Qed.

Lemma tcp_server_linearizes_witness :
  let sv := ts_run spriv gate vanilla mixed both in
  let h := ts_history spriv gate vanilla mixed both in
  ts_service sv = service_after svc h /\
  (took 0 h `prefix_of` [EPing; ERequest r1] \/ [EPing; ERequest r1] `prefix_of` took 0 h) /\
  exists c, ts_tasks sv !! 0 = Some (Serving c) /\
    (cn_status c = Running ->
     exists out w, v_out (view (cn_stream c)) = v_out (view (cn_stream talk)) ++ w /\
       said (S := Script) vanilla half out (cn_session talk) (cn_session c) w /\
       out ++ cn_events c = [EPong; EResponse (str "r1", x01)]).
Proof.
  exact (tcp_server_linearizes vanilla half spriv gate mixed both 0 talk [EPing; ERequest r1] []
           eq_refl talk_feeds).
Defined.

Lemma tcp_server_serves_all_witness :
  [EPing; ERequest r1] `prefix_of` took 0 (ts_history spriv gate vanilla mixed both).
Proof.
  refine (tcp_server_serves_all vanilla half spriv gate mixed both 0 talk [EPing; ERequest r1] []
            eq_refl eq_refl eq_refl eq_refl talk_feeds _ _ _).
  - repeat constructor; simpl; intros _; vm_compute; lia.
  - change (line 0 (ts_service both) (ts_history spriv gate vanilla mixed both))
      with [EPong; EResponse (str "r1", x01) : Envelope].
    repeat constructor; (eexists; split; [reflexivity|]; intros session rng;
      eexists _, _, _, _; split; reflexivity).
  - vm_compute. lia.
Defined.

(** From the start: a client is accepted, shakes hands and pings. *)
Definition hello : Script :=
  mkScript [x00 :: x00 :: x00 :: x08 :: HandshakeRuns.m1;
            x00 :: x00 :: x00 :: x09 :: HandshakeRuns.m3; ping_request] FinWait [] None.
Definition session_run : list (TsStep Script) :=
  [TsAccept (Accepted hello); TsHandshake 0 50 0 0 0; TsConn 0 (CTurn 50)].
Definition addr : SocketAddr := V4 x7f x00 x00 x01 443.
Definition started : TcpServer Script := mkTcpServer true true [] svc.

Lemma tcp_service_needs_admission_witness :
  admitted vanilla spriv gate 0 session_run started.
Proof.
  refine (tcp_service_needs_admission vanilla spriv gate session_run (Ok tt) (Ok addr) svc
            (mkObfsServeHandle addr) started 0 (Took 0 EPing) eq_refl _ _).
  - left.
  - left. by exists EPing.
Defined.

End TcpServerRuns.
