(* ===== verification/UdpService.v ===== *)
(** * What the UDP server runs on its service

    [src/udp/server.rs] over whole runs: every envelope that reaches the
    service is a record sealed under the key of an authenticated handshake,
    and no record reaches it twice, whatever datagrams arrive from whatever
    addresses and however the server's tasks interleave. *)

From S2P Require Import Prelude RustStd Externals Envelope Verifier UdpWire DataPlane Framing Server.
From S2P Require Import UdpHandshake Instances UdpServer UdpServerRuns.

(** [RecordOpener::open] authenticates: what it opens was sealed under its
    key, with a number it still takes, and a refusal leaves it as it was. *)
Class OpenAuth `{WireApi} (sealed : RecordKey -> nat -> bytes -> bytes -> Prop)
    (opener_for : RecordOpener -> RecordKey -> Prop)
    (accepts : RecordOpener -> nat -> Prop) : Prop := {
  open_authentic : forall o k ct pt o',
    opener_for o k -> open o ct [] = (Ok pt, o') -> exists n, sealed k n pt ct /\ accepts o n;
  open_refused : forall o k ct e o', opener_for o k -> open o ct [] = (Err e, o') -> o' = o;
}.

Section UdpService.
Context {WA : WireApi} {CA : CoreApi} {SA : SerdeApi}.
Context {window : nat} {sealer_at : RecordSealer -> RecordKey -> nat -> Prop}
  {sealed : RecordKey -> nat -> bytes -> bytes -> Prop}
  {opener_for : RecordOpener -> RecordKey -> Prop} {accepts : RecordOpener -> nat -> Prop}
  {RL : RecordLaws window sealer_at sealed opener_for accepts}
  {OA : OpenAuth sealed opener_for accepts}.
Context {G L : Type} {TG : TransportGate G} {LG : LoadGate L}.
Context (server_priv : bytes) (gate : G) (load : L) (m : DatagramMimicry).

Abbreviation step := (UdpServer.step server_priv gate load m).
Abbreviation run := (UdpServer.run server_priv gate load m).

(** An envelope handed to the data branch's [match]: the channel it came in
    on and the record it was sealed in. *)
Record Exec : Type := mkExec { ex_chan : nat; ex_env : Envelope; ex_record : bytes }.

Definition opened_dgram (dgram : bytes) (src : SocketAddr) (sv : Server) : list Exec :=
  match unshape_hs dgram m with
  | Some (Data, record) =>
      match peers sv !! src with
      | Some p =>
          match chans sv !! channel p with
          | Some ch =>
              match open_datagram ch dgram with
              | (Ok (Some env), _) => [mkExec (channel p) env record]
              | _ => []
              end
          | None => []
          end
      | None => []
      end
  | _ => []
  end.

Definition opened (s : Step) (sv : Server) : list Exec :=
  match s with
  | SRecv _ (Some (dgram, src)) => if receiving sv then opened_dgram dgram src sv else []
  | _ => []
  end.

Fixpoint executions (ss : list Step) (sv : Server) : list Exec :=
  match ss with
  | [] => []
  | s :: ss => opened s sv ++ executions ss (step s sv)
  end.

(** The service under the contract of [Server.respond], which both transports
    serve. *)
Definition served_by (svc : Service) (h : list Exec) : Service :=
  fold_left (fun svc e => (respond svc (ex_env e)).2) h svc.

(** ** The service *)

Lemma seal_and_send_service c env dst sv : service (seal_and_send c env dst sv) = service sv.
Proof. apply seal_and_send_frame. Qed.

Lemma on_envelope_service env c t src sv :
  service (on_envelope env c t src sv) = (respond (service sv) env).2.
Proof.
  destruct env; simpl; rewrite ?seal_and_send_service; try done.
  - destruct (handle _ _). by rewrite seal_and_send_service.
  - unfold on_subscribe. repeat case_match; simplify_eq; done.
Qed.

Lemma finish_service am f : service (finish am f) = service (flow_sv f).
Proof. by destruct f. Qed.

Lemma handle_dgram_service am dgram src sv :
  service (handle_dgram server_priv gate load m am dgram src sv)
    = served_by (service sv) (opened_dgram dgram src sv).
Proof.
  rewrite handle_dgram_unshape. unfold opened_dgram.
  destruct (unshape_hs dgram m) as [[ty record]|]; [|done]. rewrite finish_service.
  destruct ty; simpl; try done.
  - unfold on_hs1. repeat case_match; simplify_eq; done.
  - unfold on_hs3. destruct (pending sv !! src) as [ph|]; [|done].
    destruct (complete_handshake_msg3 _ _ _) as [[[ch k]|] hs']; [|done].
    destruct (authenticate gate k); [|done]. simpl. by rewrite seal_and_send_service.
  - unfold on_data. destruct (peers sv !! src) as [p|]; [|done]. simpl.
    destruct (chans sv !! channel p) as [ch|]; [|done].
    destruct (open_datagram ch dgram) as [[[env|]|] ch']; [|done..]. simpl.
    by rewrite on_envelope_service.
Qed.

Lemma step_service s sv : service (step s sv) = served_by (service sv) (opened s sv).
Proof.
  destruct s as [am [[dgram src]|]|i|j r| |seed|]; simpl.
  - unfold recv_step. destruct (receiving sv); [|done]. apply handle_dgram_service.
  - unfold recv_step. by destruct (receiving sv).
  - unfold sealer_step. repeat case_match; simplify_eq; done.
  - unfold forward_step, ev_send. repeat case_match; simplify_eq; done.
  - unfold send_loop_step. by destruct (out_queue sv) as [|[]].
  - unfold rotate_step. by destruct (rotating sv).
  - done.
Qed.

Lemma run_service ss sv : service (run ss sv) = served_by (service sv) (executions ss sv).
Proof.
  revert sv. induction ss as [|s ss IH]; intros sv; [done|]. simpl.
  rewrite IH, step_service. unfold served_by. by rewrite fold_left_app.
Qed.

(** ** The openers *)

(** The receiving ends of the channels; sealing does not touch them. *)
Definition openers (sv : Server) : list (RecordOpener * DatagramMimicry) :=
  (fun ch => (opener ch, mimic ch)) <$> chans sv.

Lemma openers_insert sv c ch ch' :
  chans sv !! c = Some ch -> opener ch' = opener ch -> mimic ch' = mimic ch ->
  (fun ch => (opener ch, mimic ch)) <$> <[c := ch']> (chans sv) = openers sv.
Proof.
  intros Hc Eo Em. unfold openers. rewrite list_fmap_insert. apply list_insert_id.
  rewrite list_lookup_fmap, Hc. simpl. by rewrite Eo, Em.
Qed.

Lemma seal_and_send_openers c env dst sv : openers (seal_and_send c env dst sv) = openers sv.
Proof.
  unfold seal_and_send. destruct (chans sv !! c) as [ch|] eqn:E; [|done].
  pose proof (seal_envelope_keeps_opener ch env (rng sv)) as [Eo Em].
  destruct (seal_envelope ch env (rng sv)) as [[[wire|e] ch'] r]; by apply (openers_insert _ _ ch).
Qed.

Lemma on_envelope_openers env c t src sv : openers (on_envelope env c t src sv) = openers sv.
Proof.
  destruct env; simpl; rewrite ?seal_and_send_openers; try done.
  - destruct (handle _ _). by rewrite seal_and_send_openers.
  - unfold on_subscribe. repeat case_match; simplify_eq; done.
Qed.

Lemma sealer_step_openers i sv : openers (sealer_step i sv) = openers sv.
Proof.
  unfold sealer_step. destruct (tasks sv !! i) as [t|]; [|done]. destruct (st_done t); [done|].
  destruct (st_queue t) as [|env q]; [by destruct (has_sender i sv)|].
  destruct (chans sv !! st_chan t) as [ch|] eqn:E; [|done].
  pose proof (seal_envelope_keeps_opener ch env (st_rng t)) as [Eo Em].
  destruct (seal_envelope ch env (st_rng t)) as [[[wire|e] ch'] r]; by apply (openers_insert _ _ ch).
Qed.

(** [k] is the client-to-server key of a handshake that [s] completes, with a
    client the gate accepts. *)
Definition completes_with (s : Step) (sv : Server) (k : RecordKey) : Prop :=
  exists am dgram src body ph payload hs' key,
    s = SRecv am (Some (dgram, src)) /\ unshape_hs dgram m = Some (Hs3, body) /\
    pending sv !! src = Some ph /\ read_message (ph_responder ph) body = (Ok payload, hs') /\
    32 <= length payload /\ remote_static hs' = Some key /\ authenticate gate key = Ok tt /\
    k = (derive_record_keys (take 32 payload)).1.

(** What a step does to the openers: nothing; a new one at the end of a
    handshake; or one of them was given a record, and when that yields an
    envelope, it is the one executed. *)
Inductive opener_move (s : Step) (sv : Server) : list (RecordOpener * DatagramMimicry) -> Prop :=
| om_same : opened s sv = [] -> opener_move s sv (openers sv)
| om_new k : opened s sv = [] -> completes_with s sv k ->
    opener_move s sv (openers sv ++ [(opener_new k, m)])
| om_tried c o record r o' : openers sv !! c = Some (o, m) -> open o record [] = (r, o') ->
    (opened s sv = [] \/
     exists pt env, r = Ok pt /\ from_slice pt = Ok env /\ opened s sv = [mkExec c env record]) ->
    opener_move s sv (<[c := (o', m)]> (openers sv)).

Lemma move_same s sv sv' :
  openers sv' = openers sv -> opened s sv = [] -> opener_move s sv (openers sv').
Proof. intros -> ?. by apply om_same. Qed.

Lemma finish_openers am f : openers (finish am f) = openers (flow_sv f).
Proof. by destruct f. Qed.

Lemma hs3_openers am dgram src sv body :
  receiving sv = true -> unshape_hs dgram m = Some (Hs3, body) ->
  opener_move (SRecv am (Some (dgram, src))) sv (openers (flow_sv (on_hs3 gate m am body src sv))).
Proof.
  intros Hr Hu. assert (opened (SRecv am (Some (dgram, src))) sv = []) as E.
  { simpl. rewrite Hr. unfold opened_dgram. by rewrite Hu. }
  unfold on_hs3. destruct (pending sv !! src) as [ph|] eqn:Ep; [|by apply move_same].
  destruct (complete_handshake_msg3 (ph_responder ph) body m) as [[[ch key]|e] hs'] eqn:Ec;
    [|by apply move_same].
  destruct (authenticate gate key) as [[]|] eqn:Ea; [|by apply move_same]. simpl.
  apply msg3_channels_match in Ec as (payload & Hm & Hlen & Hk & Hch).
  match goal with |- opener_move _ _ (openers ?x) =>
    assert (openers x = openers sv ++ [(opener ch, mimic ch)]) as -> end.
  { etrans; [apply (seal_and_send_openers (length (chans sv)) EPong src)|].
    unfold openers. simpl. by rewrite fmap_app. }
  destruct (derive_record_keys (take 32 payload)) as [c2s s2c] eqn:Ed. subst ch.
  apply (om_new _ _ c2s); [done|].
  exists am, dgram, src, body, ph, payload, hs', key. by rewrite Ed.
Qed.

Lemma data_openers am dgram src sv record :
  receiving sv = true -> unshape_hs dgram m = Some (Data, record) ->
  (forall c o mm, openers sv !! c = Some (o, mm) -> mm = m) ->
  opener_move (SRecv am (Some (dgram, src))) sv (openers (flow_sv (on_data am dgram src sv))).
Proof.
  intros Hr Hu Hmm. assert (opened (SRecv am (Some (dgram, src))) sv = opened_dgram dgram src sv) as E
    by (simpl; by rewrite Hr).
  unfold opened_dgram in E. rewrite Hu in E.
  unfold on_data. destruct (peers sv !! src) as [p|]; [|by apply move_same]. simpl.
  destruct (chans sv !! channel p) as [ch|] eqn:Ec; [|by apply move_same].
  assert (openers sv !! channel p = Some (opener ch, mimic ch)) as Ho
    by (unfold openers; by rewrite list_lookup_fmap, Ec).
  pose proof (Hmm _ _ _ Ho) as Em. rewrite Em in Ho.
  assert (exists o' r, open (opener ch) record [] = (r, o') /\
    (open_datagram ch dgram).2 = with_opener o' ch /\
    forall env, (open_datagram ch dgram).1 = Ok (Some env) ->
      exists pt, r = Ok pt /\ from_slice pt = Ok env) as (o' & r & Hop & H2 & H1).
  { unfold open_datagram, unshape_hs in *. rewrite Em.
    destruct (shape_in m dgram) as [inner|]; [|done]. rewrite Hu, decide_False by auto.
    destruct (open (opener ch) record []) as [[pt|e] o'] eqn:Eo; [|by eexists _, _].
    eexists _, _. split; [done|].
    destruct (from_slice pt) as [env|] eqn:Ef; simpl; (split; [done|]); [|done].
    intros env' [= <-]. by exists pt. }
  assert (forall sv', openers sv' = openers (set_chans (<[channel p := with_opener o' ch]> (chans sv)) sv) ->
    openers sv' = <[channel p := (o', m)]> (openers sv)) as Hins.
  { intros sv' ->. unfold openers. simpl. rewrite list_fmap_insert. simpl. by rewrite Em. }
  destruct (open_datagram ch dgram) as [[[env|]|e] ch']; simpl in *; subst ch'.
  - destruct (H1 env eq_refl) as (pt & -> & Hf).
    rewrite (Hins (on_envelope _ _ _ _ _)) by (by rewrite on_envelope_openers).
    by eapply om_tried; [done|done|right; exists pt, env].
  - rewrite (Hins (set_chans _ _)) by done. by eapply om_tried; [done|done|left].
  - rewrite (Hins (set_chans _ _)) by done. by eapply om_tried; [done|done|left].
Qed.

Lemma step_openers s sv :
  (forall c o mm, openers sv !! c = Some (o, mm) -> mm = m) ->
  opener_move s sv (openers (step s sv)).
Proof.
  intros Hmm. destruct s as [am [[dgram src]|]|i|j r| |seed|]; simpl.
  - unfold recv_step. destruct (receiving sv) eqn:Er; [|apply move_same; simpl; by rewrite ?Er].
    rewrite handle_dgram_unshape.
    destruct (unshape_hs dgram m) as [[ty body]|] eqn:Eu; cycle 1.
    { apply move_same; [done|]. simpl. rewrite Er. unfold opened_dgram. by rewrite Eu. }
    rewrite finish_openers. destruct ty; simpl; [| | by apply hs3_openers| |by eapply data_openers];
      (apply move_same; [|simpl; rewrite Er; unfold opened_dgram; by rewrite Eu]); try done.
    unfold on_hs1. repeat case_match; simplify_eq; done.
  - apply move_same; [|done]. unfold recv_step. by destruct (receiving sv).
  - apply move_same; [apply sealer_step_openers|done].
  - apply move_same; [|done]. unfold forward_step, ev_send. repeat case_match; simplify_eq; done.
  - apply move_same; [|done]. unfold send_loop_step. by destruct (out_queue sv) as [|[]].
  - apply move_same; [|done]. unfold rotate_step. by destruct (rotating sv).
  - by apply move_same.
Qed.

(** ** Every record at most once *)

(** The executions [h] are, in order, the records numbered [ns] of the
    channels' keys, none of them twice, and the openers take none of them
    again. *)
Definition is_record (keys : list RecordKey) (e : Exec) (n : nat) : Prop :=
  exists k pt, keys !! ex_chan e = Some k /\ sealed k n pt (ex_record e) /\
    from_slice pt = Ok (ex_env e).

Definition numbers (h : list Exec) (ns : list nat) : list (nat * nat) := zip (ex_chan <$> h) ns.

Record accounted (sv : Server) (h : list Exec) (keys : list RecordKey) (ns : list nat) : Prop := {
  ac_keys : Forall2 (fun x k => opener_for x.1 k /\ x.2 = m) (openers sv) keys;
  ac_records : Forall2 (is_record keys) h ns;
  ac_nodup : NoDup (numbers h ns);
  ac_used : forall c n o mm,
    (c, n) ∈ numbers h ns -> openers sv !! c = Some (o, mm) -> ~ accepts o n;
}.

Lemma numbers_snoc h ns e n :
  length h = length ns -> numbers (h ++ [e]) (ns ++ [n]) = numbers h ns ++ [(ex_chan e, n)].
Proof.
  intros Hl. unfold numbers. rewrite fmap_app, zip_with_app by (by rewrite length_fmap). done.
Qed.

Lemma numbers_chan keys h ns c n :
  Forall2 (is_record keys) h ns -> (c, n) ∈ numbers h ns -> c < length keys.
Proof.
  unfold numbers. induction 1 as [|e n' h ns (k & pt & Hk & _) _ IH]; simpl.
  - by intros ?%not_elem_of_nil.
  - intros [[= -> _]|H]%elem_of_cons; [by eapply lookup_lt_Some|by apply IH].
Qed.

(** A new channel. *)
Lemma accounted_new sv sv' h keys ns k :
  accounted sv h keys ns -> openers sv' = openers sv ++ [(opener_new k, m)] ->
  accounted sv' h (keys ++ [k]) ns.
Proof.
  intros [HK HR HN HU] E. pose proof (Forall2_length _ _ _ HK) as Hlen. split; rewrite ?E; [| |done|].
  - apply Forall2_app; [done|]. repeat constructor. apply opener_new_for.
  - eapply Forall2_impl; [exact HR|]. intros e n (k' & pt & Hk & ?). exists k', pt.
    split; [|done]. by apply lookup_app_l_Some.
  - intros c n o mm Hin. rewrite lookup_app_l; [by apply HU|].
    rewrite Hlen. by eapply numbers_chan.
Qed.

(** An opener that was given a record. *)
Lemma accounted_tried sv sv' h keys ns c o record r o' :
  accounted sv h keys ns -> openers sv !! c = Some (o, m) -> open o record [] = (r, o') ->
  openers sv' = <[c := (o', m)]> (openers sv) ->
  accounted sv' h keys ns /\
  (forall pt env, r = Ok pt -> from_slice pt = Ok env ->
     exists n, accounted sv' (h ++ [mkExec c env record]) keys (ns ++ [n])).
Proof.
  intros [HK HR HN HU] Hc Hop E.
  destruct (Forall2_lookup_l _ _ _ _ _ HK Hc) as (k & Hk & Ho & _). simpl in Ho.
  assert (opener_for o' k /\ (forall n, ~ accepts o n -> ~ accepts o' n) /\
    (forall pt, r = Ok pt -> exists n, sealed k n pt record /\ accepts o n /\ ~ accepts o' n))
    as (Ho' & Hmono & Hok).
  { destruct r as [pt|e].
    - destruct (open_authentic _ _ _ _ _ Ho Hop) as (n & Hs & Ha).
      destruct (open_fresh _ _ _ _ _ Ho Ha Hs) as (o1 & Hop1 & H1 & H2 & _ & H4).
      rewrite Hop in Hop1. injection Hop1 as <-. split_and!; [done|done|]. intros pt' [= <-]. by exists n.
    - rewrite (open_refused _ _ _ _ _ Ho Hop). by split_and!. }
  assert (accounted sv' h keys ns) as HA.
  { split; [|done|done|]; rewrite E.
    - rewrite <-(list_insert_id keys c k Hk). by apply Forall2_insert.
    - intros c' n o1 mm Hin. rewrite list_lookup_insert. case_decide as Hd; [|by apply HU].
      destruct Hd as [<- _]. intros [= <- _]. by eapply Hmono, HU. }
  split; [done|]. intros pt env -> Hf. destruct (Hok pt eq_refl) as (n & Hs & Ha & Hna). exists n.
  destruct HA as [HK' _ _ HU']. pose proof (Forall2_length _ _ _ HR) as Hlen. split; [done| | |].
  - apply Forall2_app; [done|]. repeat constructor. by exists k, pt.
  - rewrite numbers_snoc by done. apply NoDup_app. split_and!; [done| |apply NoDup_singleton].
    intros x Hx ->%list_elem_of_singleton. by eapply (HU c n).
  - rewrite numbers_snoc by done. intros c' n' o1 mm [Hin|Hin]%elem_of_app Hc'; [by eapply HU'|].
    apply list_elem_of_singleton in Hin as [= -> ->]. rewrite E in Hc'.
    rewrite list_lookup_insert_eq in Hc' by (by eapply lookup_lt_Some). by injection Hc' as <- _.
Qed.

(** The keys stem from handshakes of the run. *)
Definition completed_in (ss : list Step) (sv0 : Server) (k : RecordKey) : Prop :=
  exists ss1 s ss2, ss = ss1 ++ s :: ss2 /\ completes_with s (run ss1 sv0) k.

Lemma completed_in_snoc ss s sv0 k : completed_in ss sv0 k -> completed_in (ss ++ [s]) sv0 k.
Proof.
  intros (ss1 & s' & ss2 & -> & H). exists ss1, s', (ss2 ++ [s]). by rewrite <-app_assoc.
Qed.

Lemma executions_snoc ss s sv : executions (ss ++ [s]) sv = executions ss sv ++ opened s (run ss sv).
Proof.
  revert sv. induction ss as [|s' ss IH]; intros sv; simpl; [by rewrite app_nil_r|].
  by rewrite IH, app_assoc.
Qed.

Lemma run_accounted ss sv0 :
  chans sv0 = [] ->
  exists keys ns, accounted (run ss sv0) (executions ss sv0) keys ns /\
    Forall (completed_in ss sv0) keys.
Proof.
  intros H0. induction ss as [|s ss (keys & ns & HA & HC)] using rev_ind.
  { exists [], []. split; [|done]. split; unfold openers; simpl; rewrite ?H0; try done; constructor. }
  rewrite executions_snoc, run_snoc.
  assert (forall x, completed_in ss sv0 x -> completed_in (ss ++ [s]) sv0 x) as Hsnoc
    by (intros; by apply completed_in_snoc).
  pose proof (Forall_impl _ _ _ HC Hsnoc) as HC'.
  assert (forall c o mm, openers (run ss sv0) !! c = Some (o, mm) -> mm = m) as Hmm.
  { intros c o mm Hc. by destruct (Forall2_lookup_l _ _ _ _ _ (ac_keys _ _ _ _ HA) Hc) as (k & _ & _ & ?). }
  pose proof (step_openers s (run ss sv0) Hmm) as HM.
  remember (openers (step s (run ss sv0))) as os eqn:Eos. destruct HM as [E|k E Hk|c o record r o' Hc Hop E].
  - exists keys, ns. rewrite E, app_nil_r. split; [|done]. destruct HA as [HK HR HN HU].
    split; rewrite <-?Eos; done.
  - exists (keys ++ [k]), ns. rewrite E, app_nil_r. split; [by eapply accounted_new|].
    apply Forall_app. split; [done|]. repeat constructor. by exists ss, s, [].
  - destruct (accounted_tried _ (step s (run ss sv0)) _ _ _ _ _ _ _ _ HA Hc Hop (eq_sym Eos)) as [H1 H2].
    destruct E as [E|(pt & env & Hr & Hf & E)]; rewrite E, ?app_nil_r; [by exists keys, ns|].
    destruct (H2 pt env Hr Hf) as [n Hn]. by exists keys, (ns ++ [n]).
Qed.

(** C11: from the start of the server, under any
    datagrams from any addresses (lost, repeated, reordered, forged) and any
    interleaving of its tasks, the service ends as the contract leaves it after
    the envelopes the server executed, and each of these is the content of a
    record that was sealed under the client-to-server key of a handshake of
    the run with a client the gate accepted, each record of each channel being
    executed at most once. *)
Theorem udp_service_runs_records_once ss seed rng0 svc :
  let sv0 := serve_obfs_udp seed rng0 svc in
  let h := executions ss sv0 in
  service (run ss sv0) = served_by svc h /\
  exists keys ns, Forall2 (is_record keys) h ns /\ NoDup (numbers h ns) /\
    Forall (completed_in ss sv0) keys.
Proof.
  cbv zeta. split; [by rewrite run_service|].
  destruct (run_accounted ss (serve_obfs_udp seed rng0 svc) eq_refl) as (keys & ns & [_ HR HN _] & HC).
  by exists keys, ns.
Qed.

End UdpService.

(** ** A concrete run *)

Module UdpServiceRuns.
Import Ref UdpServerRuns.

#[export] Instance r_open_auth : OpenAuth (DataPlaneRuns.r_sealed : RecordKey -> nat -> bytes -> bytes -> Prop)
  (DataPlaneRuns.r_opener_for : RecordOpener -> RecordKey -> Prop) DataPlaneRuns.r_accepts.
Proof.
  split.
  - intros o k ct pt o' <-. simpl. unfold r_open. case_decide as E; [|done].
    destruct (drop (length (ro_key o)) ct) as [|c rest] eqn:Ed; [done|].
    case_decide as Hc; [done|]. intros [= <- _]. exists (Z.to_nat (byte_Z c)).
    pose proof (byte_Z_range c). split.
    + split; [lia|]. rewrite Z2Nat.id, as_u8_byte_Z by lia. rewrite <-Ed. rewrite <-E at 1. by rewrite take_drop.
    + split; [lia|]. by rewrite Z2Nat.id, as_u8_byte_Z by lia.
  - intros o k ct e o' _. simpl. unfold r_open. repeat case_match; by intros [= _ <-].
Qed.

(** A request, its copy, and the same bytes from another address. *)
Definition replayed : list Step :=
  joins 0 ++ [SRecv (at_sec 1) (Some (data 1 (ERequest r1), cl 0));
              SRecv (at_sec 1) (Some (data 1 (ERequest r1), cl 0));
              SRecv (at_sec 1) (Some (data 1 (ERequest r1), cl 1))].

Example replayed_once :
  executions spriv allow_all always_open marked replayed start
    = [mkExec 0 (ERequest r1) (c2s ++ as_u8 1 :: env_out (ERequest r1))].
Proof. reflexivity. Qed.

Lemma udp_service_runs_records_once_witness :
  let h := executions spriv allow_all always_open marked replayed start in
  service (srun replayed start) = served_by svc h /\
  exists keys ns,
    Forall2 (is_record (sealed := DataPlaneRuns.r_sealed) keys) h ns /\ NoDup (numbers h ns) /\
    Forall (completed_in spriv allow_all always_open marked replayed start) keys.
Proof.
  exact (udp_service_runs_records_once (RL := DataPlaneRuns.r_record_laws) (OA := r_open_auth)
           spriv allow_all always_open marked replayed (str "k") 0 svc).
Defined.

End UdpServiceRuns.
