(* ===== verification/PendingMap.v ===== *)
(** * Pending requests

    The [PendingMap] both clients share with their pump tasks: request ids to
    the senders of oneshot channels.  A slot is one oneshot channel; the map
    holds slot numbers.  Inserting over an entry, removing one and draining
    the map drop the senders concerned, which the waiting receivers see as an
    error. *)

From S2P Require Import Prelude RustStd Externals.

Section PendingMap.
Context {CA : CoreApi}.

(** A oneshot channel, seen by its receiver. *)
Inductive SlotState : Type :=
| Waiting
| Delivered (resp : Response)
| Dropped.

(** [sl_id] is the id under which the sender was inserted. *)
Record Slot : Type := mkSlot { sl_id : bytes; sl_state : SlotState }.

Record Mux : Type := mkMux {
  mx_map : gmap bytes nat;
  mx_slots : list Slot;
}.

Definition mux_new : Mux := mkMux empty [].

(** Dropping a sender, and sending on it. *)
Definition drop_sender (s : Slot) : Slot :=
  match sl_state s with Waiting => mkSlot (sl_id s) Dropped | _ => s end.
Definition deliver (resp : Response) (s : Slot) : Slot :=
  match sl_state s with Waiting => mkSlot (sl_id s) (Delivered resp) | _ => s end.

(** [let (tx, rx) = oneshot::channel(); pending.insert(id, tx)]: the number of
    the new slot. *)
Definition mux_insert (id : bytes) (mx : Mux) : nat * Mux :=
  let n := length (mx_slots mx) in
  let slots := match mx_map mx !! id with
               | Some old => alter drop_sender old (mx_slots mx)
               | None => mx_slots mx
               end in
  (n, mkMux (<[id := n]> (mx_map mx)) (slots ++ [mkSlot id Waiting])).

(** [pending.remove(&id);]. *)
Definition mux_remove (id : bytes) (mx : Mux) : Mux :=
  match mx_map mx !! id with
  | Some n => mkMux (delete id (mx_map mx)) (alter drop_sender n (mx_slots mx))
  | None => mx
  end.

(** [let tx = pending.remove(&key); if let Some(tx) = tx { let _ = tx.send(resp); }]. *)
Definition mux_resolve (resp : Response) (mx : Mux) : Mux :=
  match mx_map mx !! response_id resp with
  | Some n => mkMux (delete (response_id resp) (mx_map mx)) (alter (deliver resp) n (mx_slots mx))
  | None => mx
  end.

(** [map.drain()], and the drop of what it returned. *)
Definition mux_drain (mx : Mux) : Mux :=
  mkMux empty
    (imap (fun n s => if existsb (fun kv => kv.2 =? n) (map_to_list (mx_map mx))
                      then drop_sender s else s) (mx_slots mx)).

(** ** Well-formedness *)

(** The map and the waiting slots correspond: an entry refers to a waiting slot
    made for its id, and every waiting slot is the entry of its id.  A response
    sits only in a slot of its own id. *)
Record mux_wf (mx : Mux) : Prop := {
  mw_entry : forall id n, mx_map mx !! id = Some n -> mx_slots mx !! n = Some (mkSlot id Waiting);
  mw_waiting : forall n id, mx_slots mx !! n = Some (mkSlot id Waiting) -> mx_map mx !! id = Some n;
  mw_delivered : forall n id resp, mx_slots mx !! n = Some (mkSlot id (Delivered resp)) ->
    response_id resp = id;
}.

Lemma mux_new_wf : mux_wf mux_new.
Proof. split; intros *; simpl; by rewrite ?lookup_empty, ?lookup_nil. Qed.

(** Looking up a slot after one was changed. *)
Lemma lookup_alter_slot (f : Slot -> Slot) n (slots : list Slot) k x :
  alter f n slots !! k = Some x <->
  (k <> n /\ slots !! k = Some x) \/ (k = n /\ exists y, slots !! n = Some y /\ x = f y).
Proof.
  rewrite list_lookup_alter. case_decide as E.
  - subst k. destruct (slots !! n) as [y|]; simpl.
    + split; [intros [= <-]; right; by eauto|].
      intros [[? _]|[_ (y' & [= <-] & ->)]]; [done|done].
    + split; [done|]. intros [[? _]|[_ (y' & ? & _)]]; done.
  - split; [by left|]. by intros [[_ ?]|[-> _]].
Qed.

(** Taking the entry of [id] out of the map and settling its slot. *)
Lemma settle_wf mx id n (f : Slot -> Slot) :
  mux_wf mx -> mx_map mx !! id = Some n ->
  (f (mkSlot id Waiting) = mkSlot id Dropped \/
   exists resp, response_id resp = id /\ f (mkSlot id Waiting) = mkSlot id (Delivered resp)) ->
  mux_wf (mkMux (delete id (mx_map mx)) (alter f n (mx_slots mx))).
Proof.
  intros [He Hw Hd] Hid Hf. pose proof (He _ _ Hid) as Hn.
  split; simpl; intros *.
  - intros [Hne Hm]%lookup_delete_Some. apply lookup_alter_slot. left.
    split; [|by apply He]. intros ->. apply He in Hm. congruence.
  - intros [[Hne Hk]|[-> (y & Hy & Ey)]]%lookup_alter_slot.
    + apply Hw in Hk. rewrite lookup_delete_ne; [done|]. intros ->. congruence.
    + rewrite Hn in Hy. injection Hy as <-. destruct Hf as [Hf|(resp & _ & Hf)]; congruence.
  - intros [[Hne Hk]|[-> (y & Hy & Ey)]]%lookup_alter_slot; [by eapply Hd|].
    rewrite Hn in Hy. injection Hy as <-. destruct Hf as [Hf|(resp' & Hr & Hf)]; congruence.
Qed.

Lemma mux_remove_wf id mx : mux_wf mx -> mux_wf (mux_remove id mx).
Proof.
  intros HW. unfold mux_remove. destruct (mx_map mx !! id) as [n|] eqn:E; [|done].
  apply settle_wf; [done|done|by left].
Qed.

Lemma mux_resolve_wf resp mx : mux_wf mx -> mux_wf (mux_resolve resp mx).
Proof.
  intros HW. unfold mux_resolve. destruct (mx_map mx !! response_id resp) as [n|] eqn:E; [|done].
  apply settle_wf; [done|done|right]. by exists resp.
Qed.

(** Inserting is removing the old entry, if any, and adding a fresh slot. *)
Lemma mux_insert_remove id mx :
  mux_insert id mx =
  (length (mx_slots mx),
   mkMux (<[id := length (mx_slots mx)]> (mx_map (mux_remove id mx)))
     (mx_slots (mux_remove id mx) ++ [mkSlot id Waiting])).
Proof.
  unfold mux_insert, mux_remove. destruct (mx_map mx !! id) as [n|] eqn:E; simpl; [|done].
  by rewrite insert_delete_eq.
Qed.

Lemma mux_remove_length id mx : length (mx_slots (mux_remove id mx)) = length (mx_slots mx).
Proof. unfold mux_remove. destruct (mx_map mx !! id); [|done]. simpl. by rewrite length_alter. Qed.

Lemma mux_remove_lookup id mx : mx_map (mux_remove id mx) !! id = None.
Proof.
  unfold mux_remove. destruct (mx_map mx !! id) eqn:E; [|done]. simpl. apply lookup_delete_eq.
Qed.

Lemma mux_insert_wf id mx : mux_wf mx -> mux_wf (mux_insert id mx).2.
Proof.
  intros HW%(mux_remove_wf id). rewrite mux_insert_remove. simpl.
  pose proof (mux_remove_lookup id mx) as Hnone. rewrite <-(mux_remove_length id mx).
  destruct HW as [He Hw Hd]. split; simpl; intros *.
  - intros [[<- <-]|[Hne Hm]]%lookup_insert_Some; [by rewrite list_lookup_middle|].
    apply lookup_app_l_Some. by apply He.
  - intros [Hk|[Hk Hs]]%lookup_app_Some.
    + apply Hw in Hk. rewrite lookup_insert_ne; [done|]. intros ->. congruence.
    + apply list_lookup_singleton_Some in Hs as [? [= <-]]. rewrite lookup_insert_eq. f_equal. lia.
  - intros [Hk|[Hk Hs]]%lookup_app_Some; [by eapply Hd|].
    by apply list_lookup_singleton_Some in Hs as [? ?].
Qed.

(** Draining settles every waiting slot as dropped and leaves the others. *)
Lemma mux_drain_slots mx n :
  mux_wf mx -> mx_slots (mux_drain mx) !! n = drop_sender <$> mx_slots mx !! n.
Proof.
  intros [He Hw Hd]. simpl. rewrite list_lookup_imap.
  destruct (mx_slots mx !! n) as [[id st]|] eqn:E; [|done]. simpl.
  destruct (existsb _ _) eqn:Ex; [done|]. f_equal.
  destruct st; [|done..]. exfalso. apply not_true_iff_false in Ex. apply Ex.
  apply existsb_exists. exists (id, n). split; [|by apply Nat.eqb_refl].
  by apply list_elem_of_In, elem_of_map_to_list, Hw.
Qed.

Lemma drop_sender_not_waiting s : sl_state (drop_sender s) <> Waiting.
Proof. unfold drop_sender. by destruct (sl_state s) eqn:E; simpl; rewrite ?E. Qed.

Lemma mux_drain_wf mx : mux_wf mx -> mux_wf (mux_drain mx).
Proof.
  intros HW. split; intros *.
  - simpl. by rewrite lookup_empty.
  - rewrite mux_drain_slots by done. intros (s & Hs & E)%fmap_Some.
    exfalso. apply (drop_sender_not_waiting s). by rewrite <-E.
  - rewrite mux_drain_slots by done. intros ([id' st] & Hs & E)%fmap_Some.
    destruct st; unfold drop_sender in E; simpl in E; simplify_eq. by eapply mw_delivered.
Qed.

(** ** Settled slots *)

(** An operation settles waiting slots and never changes a settled one or the
    id of a slot. *)
Definition settles (mx mx' : Mux) : Prop := forall n s,
  mx_slots mx !! n = Some s ->
  exists s', mx_slots mx' !! n = Some s' /\ sl_id s' = sl_id s /\
    (sl_state s <> Waiting -> s' = s).

Lemma settles_refl mx : settles mx mx.
Proof. intros n s Hs. by exists s. Qed.

Lemma settles_alter m f n mx :
  (forall s, sl_id (f s) = sl_id s /\ (sl_state s <> Waiting -> f s = s)) ->
  settles mx (mkMux m (alter f n (mx_slots mx))).
Proof.
  intros Hf k s Hs. simpl. destruct (decide (k = n)) as [->|Hne].
  - exists (f s). rewrite list_lookup_alter_eq, Hs. by destruct (Hf s).
  - exists s. by rewrite list_lookup_alter_ne.
Qed.

Lemma drop_sender_settles s :
  sl_id (drop_sender s) = sl_id s /\ (sl_state s <> Waiting -> drop_sender s = s).
Proof. unfold drop_sender. by destruct s as [id []]. Qed.

Lemma deliver_settles resp s :
  sl_id (deliver resp s) = sl_id s /\ (sl_state s <> Waiting -> deliver resp s = s).
Proof. unfold deliver. by destruct s as [id []]. Qed.

Lemma mux_remove_settles id mx : settles mx (mux_remove id mx).
Proof.
  unfold mux_remove. destruct (mx_map mx !! id); [|apply settles_refl].
  apply settles_alter, drop_sender_settles.
Qed.

Lemma mux_resolve_settles resp mx : settles mx (mux_resolve resp mx).
Proof.
  unfold mux_resolve. destruct (mx_map mx !! response_id resp); [|apply settles_refl].
  apply settles_alter, deliver_settles.
Qed.

Lemma mux_insert_settles id mx : settles mx (mux_insert id mx).2.
Proof.
  intros n s Hs. rewrite mux_insert_remove. simpl.
  destruct (mux_remove_settles id mx n s Hs) as (s' & Hs' & ?). exists s'.
  split; [|done]. by apply lookup_app_l_Some.
Qed.

Lemma mux_drain_settles mx : mux_wf mx -> settles mx (mux_drain mx).
Proof.
  intros HW n s Hs. exists (drop_sender s). rewrite mux_drain_slots, Hs by done.
  by destruct (drop_sender_settles s).
Qed.

(** The slot [mux_insert] returns. *)
Lemma mux_insert_slot id mx :
  mx_slots (mux_insert id mx).2 !! (mux_insert id mx).1 = Some (mkSlot id Waiting).
Proof.
  rewrite mux_insert_remove. simpl. rewrite <-(mux_remove_length id mx). by apply list_lookup_middle.
Qed.

End PendingMap.

#[export] Hint Resolve mux_new_wf mux_insert_wf mux_remove_wf mux_resolve_wf mux_drain_wf
  settles_refl mux_insert_settles mux_remove_settles mux_resolve_settles mux_drain_settles : obfs.
