(* ===== verification/EventStream.v ===== *)
(** * The raw event stream of a subscription

    The stream [raw] in [subscribe] in [src/client.rs] and [src/udp/client.rs], which is
    the same in both: a receiver of the transport's broadcast channel, wrapped
    in a stream that skips over lag and ends with [Disconnected].  The channel
    is tokio's, an interface with laws.  [TopicStream] has the stream that is
    made of it with [dedup_by_seq], and which the subscriber reads. *)

From stdpp Require Import sorting.
From S2P Require Import Prelude RustStd Externals.

(** [broadcast::channel::<Event>(256)]. *)
Definition EVENT_CAPACITY : nat := 256.

(** [broadcast::error::RecvError]. *)
Inductive RecvError : Type :=
| Lagged (skipped : nat)
| RecvClosed.

(** [broadcast::Receiver::recv], polled once: [sent] is everything broadcast so
    far, [senders] whether a sender is left, [next] the receiver's position. *)
Class BroadcastApi `{CoreApi} : Type :=
  bc_recv : forall (sent : list Event) (senders : bool) (next : nat),
    Poll (Res RecvError Event) * nat.

(** A receiver that is more than the capacity behind is told so, and moved to
    the oldest event kept; otherwise it gets the next event, or waits for it
    until every sender has been dropped. *)
Class BroadcastLaws `{BroadcastApi} : Prop := {
  bc_recv_lagged : forall sent senders next,
    next < length sent - EVENT_CAPACITY ->
    exists skipped, bc_recv sent senders next
      = (Ready (Err (Lagged skipped)), length sent - EVENT_CAPACITY);
  bc_recv_at : forall sent senders next,
    length sent - EVENT_CAPACITY <= next ->
    bc_recv sent senders next =
      match sent !! next with
      | Some ev => (Ready (Ok ev), S next)
      | None => if senders then (Pending, next) else (Ready (Err RecvClosed), next)
      end;
}.

Section EventStream.
Context {CA : CoreApi} {BA : BroadcastApi}.

(** The generator behind the stream: its receiver, and whether it has left its
    loop. *)
Record RawStream : Type := mkRawStream { rs_next : nat; rs_done : bool }.

(** [self.events.subscribe()]: a receiver sees what is sent from now on. *)
Definition events_subscribe (sent : list Event) : RawStream := mkRawStream (length sent) false.

(** The loop up to its next [yield]; a lagged receiver goes round again. *)
Fixpoint raw_loop (fuel : nat) (sent : list Event) (senders : bool) (next : nat)
    : Poll (option (Res CoreError Event)) * RawStream :=
  match fuel with
  | 0 => (Pending, mkRawStream next false)
  | S fuel =>
      match bc_recv sent senders next with
      | (Pending, next) => (Pending, mkRawStream next false)
      | (Ready (Ok ev), next) => (Ready (Some (Ok ev)), mkRawStream next false)
      | (Ready (Err (Lagged _)), next) => raw_loop fuel sent senders next
      | (Ready (Err RecvClosed), next) =>
          (Ready (Some (Err core_disconnected)), mkRawStream next true)
      end
  end.

(** One poll of the stream.  A receiver that was just told that it lagged does
    not lag, so that the loop goes round at most twice. *)
Definition raw_poll (sent : list Event) (senders : bool) (rs : RawStream)
    : Poll (option (Res CoreError Event)) * RawStream :=
  if rs_done rs then (Ready None, rs) else raw_loop 2 sent senders (rs_next rs).

(** ** One poll *)

Context {BL : BroadcastLaws}.

(** The position from which a receiver reads: where it is, or the oldest event
    kept if it lags. *)
Definition catch_up (sent : list Event) (next : nat) : nat :=
  next `max` (length sent - EVENT_CAPACITY).

Lemma raw_loop_enough fuel sent senders next :
  raw_loop (S (S fuel)) sent senders next =
    let next := catch_up sent next in
    match sent !! next with
    | Some ev => (Ready (Some (Ok ev)), mkRawStream (S next) false)
    | None =>
        if senders then (Pending, mkRawStream next false)
        else (Ready (Some (Err core_disconnected)), mkRawStream next true)
    end.
Proof.
  unfold catch_up. destruct (decide (length sent - EVENT_CAPACITY <= next)) as [H|H].
  - rewrite Nat.max_l by lia. simpl. rewrite bc_recv_at by lia.
    by destruct (sent !! next), senders.
  - rewrite Nat.max_r by lia. simpl.
    destruct (bc_recv_lagged sent senders next) as (skipped & ->); [lia|]. rewrite bc_recv_at by lia. by destruct (sent !! _), senders.
Qed.

Lemma raw_poll_fuel fuel sent senders rs :
  rs_done rs = false -> 2 <= fuel ->
  raw_poll sent senders rs = raw_loop fuel sent senders (rs_next rs).
Proof.
  intros Hd Hf. destruct fuel as [|[|fuel]]; [lia|lia|]. unfold raw_poll.
  by rewrite Hd, !raw_loop_enough.
Qed.

(** ** A subscription among the steps of its transport *)

Context {St Step : Type} (step : Step -> St -> St).
Context (events : St -> list Event) (senders : St -> bool).

(** The transport takes a step, or the subscriber polls its stream. *)
Inductive SubStep : Type :=
| SubMove (s : Step)
| SubPoll.

(** The transport, the stream, and what the stream has yielded. *)
Record Subscription : Type := mkSubscription {
  su_state : St; su_stream : RawStream; su_yielded : list (Res CoreError Event) }.

(** The subscription right after [subscribe] has made its receiver. *)
Definition attach (st : St) : Subscription :=
  mkSubscription st (events_subscribe (events st)) [].

Definition sub_step (s : SubStep) (u : Subscription) : Subscription :=
  match s with
  | SubMove s => mkSubscription (step s (su_state u)) (su_stream u) (su_yielded u)
  | SubPoll =>
      let '(r, rs) := raw_poll (events (su_state u)) (senders (su_state u)) (su_stream u) in
      mkSubscription (su_state u) rs
        (su_yielded u ++ match r with Ready (Some x) => [x] | _ => [] end)
  end.

Definition sub_run (ss : list SubStep) (u : Subscription) : Subscription :=
  fold_left (fun u s => sub_step s u) ss u.

Lemma sub_run_snoc ss s u : sub_run (ss ++ [s]) u = sub_step s (sub_run ss u).
Proof. unfold sub_run. by rewrite fold_left_app. Qed.

(** The transport's own steps among them. *)
Definition sub_moves (ss : list SubStep) : list Step :=
  omap (fun s => match s with SubMove s => Some s | SubPoll => None end) ss.

Lemma sub_run_state ss u :
  su_state (sub_run ss u) = fold_left (fun st s => step s st) (sub_moves ss) (su_state u).
Proof.
  revert u. induction ss as [|s ss IH]; intros u; [done|]. simpl. rewrite IH.
  destruct s as [s|]; simpl; [done|]. by destruct (raw_poll _ _ _).
Qed.

(** [kept] are the positions, from [start] on and in increasing order, of the
    events the stream has yielded, and every position it has passed without
    yielding it was overtaken by a whole buffer of later events; [Disconnected]
    ends the stream when no sender is left, and not before. *)
Record faithful (start : nat) (u : Subscription) (kept : list nat) : Prop := {
  fa_increasing : Sorted lt kept;
  fa_range : forall j, j ∈ kept -> start <= j < rs_next (su_stream u);
  fa_next : start <= rs_next (su_stream u) <= length (events (su_state u));
  fa_yielded : exists evs,
    mapM (fun j => events (su_state u) !! j) kept = Some evs /\
    su_yielded u = (Ok <$> evs) ++
      (if rs_done (su_stream u) then [Err core_disconnected] else []);
  fa_passed : forall j, start <= j < rs_next (su_stream u) ->
    j ∈ kept \/ j + EVENT_CAPACITY < length (events (su_state u));
  fa_done : rs_done (su_stream u) = true -> senders (su_state u) = false;
}.

Lemma faithful_attach st : faithful (length (events st)) (attach st) [].
Proof.
  split; simpl; [constructor|by intros j ?%not_elem_of_nil|lia|by exists []|lia|done].
Qed.

Lemma mapM_lookup_prefix (l l' : list Event) (js : list nat) evs :
  l `prefix_of` l' -> mapM (fun j => l !! j) js = Some evs -> mapM (fun j => l' !! j) js = Some evs.
Proof.
  intros Hp H%mapM_Some. apply mapM_Some. eapply Forall2_impl; [exact H|].
  intros j ev Hj. exact (prefix_lookup_Some l l' j ev Hj Hp).
Qed.

Lemma sorted_snoc (l : list nat) x :
  Sorted lt l -> (forall j, j ∈ l -> j < x) -> Sorted lt (l ++ [x]).
Proof.
  intros Hs. induction Hs as [|a l Hs IH Hd]; intros Hx; simpl; [repeat constructor|].
  constructor; [apply IH; intros j ?; apply Hx; by right|].
  destruct Hd as [|b l]; simpl; constructor; [apply Hx; by left|done].
Qed.

Lemma faithful_move start u kept s :
  events (su_state u) `prefix_of` events (step s (su_state u)) ->
  (senders (su_state u) = false -> senders (step s (su_state u)) = false) ->
  faithful start u kept -> faithful start (sub_step (SubMove s) u) kept.
Proof.
  intros Hp Hcl [H1 H2 H3 (evs & H4 & H5) H6 H7]. pose proof (prefix_length _ _ Hp).
  split; simpl; [done|done|lia| | |by intros ?%H7%Hcl].
  - exists evs. split; [by eapply mapM_lookup_prefix|done].
  - intros j Hj. destruct (H6 j Hj); [by left|right; lia].
Qed.

(** The receiver's position only moves over what is yielded or overtaken. *)
Lemma faithful_poll start u kept :
  faithful start u kept -> exists kept', faithful start (sub_step SubPoll u) kept'.
Proof.
  intros HF. pose proof HF as [H1 H2 H3 (evs & H4 & H5) H6 _]. simpl. unfold raw_poll.
  destruct (rs_done (su_stream u)) eqn:Ed.
  { exists kept. rewrite app_nil_r. by destruct u. }
  rewrite raw_loop_enough. cbv zeta. set (sent := events (su_state u)) in *.
  set (next := catch_up sent (rs_next (su_stream u))).
  assert (rs_next (su_stream u) <= next <= length sent) as Hn by (unfold next, catch_up; lia).
  assert (forall j, start <= j < next -> j ∈ kept \/ j + EVENT_CAPACITY < length sent) as Hpass.
  { intros j Hj. destruct (decide (j < rs_next (su_stream u))); [apply H6; lia|].
    right. unfold next, catch_up in Hj. lia. }
  destruct (sent !! next) as [ev|] eqn:E.
  - exists (kept ++ [next]). pose proof (lookup_lt_Some _ _ _ E).
    assert (forall j, j ∈ kept -> start <= j < next) as Hlt by (intros j Hj%H2; lia).
    split; simpl; [apply sorted_snoc; [done|intros j Hj%Hlt; lia]| |fold sent; lia| | |done].
    + intros j [Hj%Hlt|Hj%list_elem_of_singleton]%elem_of_app; lia.
    + exists (evs ++ [ev]). fold sent. split.
      * rewrite mapM_Some in *. apply Forall2_app; [done|]. by constructor.
      * by rewrite H5, fmap_app, !app_nil_r.
    + intros j Hj. rewrite elem_of_app, list_elem_of_singleton.
      destruct (decide (j = next)) as [|Hne]; [by left; right|].
      destruct (Hpass j) as [?|?]; [lia|by left; left|by right].
  - destruct (senders (su_state u)) eqn:Es; exists kept; split; simpl; try done;
      try (fold sent; lia); try (intros j Hj%H2; lia);
      exists evs; by rewrite H5, ?app_nil_r.
Qed.

Context (grows : forall s st, events st `prefix_of` events (step s st)).
Context (closes : forall s st, senders st = false -> senders (step s st) = false).

Lemma sub_run_faithful ss st :
  exists kept, faithful (length (events st)) (sub_run ss (attach st)) kept.
Proof.
  induction ss as [|s ss (kept & IH)] using rev_ind; [by exists []; apply faithful_attach|].
  rewrite sub_run_snoc. destruct s as [s|]; [|by eapply faithful_poll].
  exists kept. apply faithful_move; auto.
Qed.

(** A poll finds a stream that is not overtaken waiting only when it has
    nothing left to yield and a sender is left. *)
Lemma raw_poll_stays sent open rs rs' :
  rs_next rs <= length sent -> raw_poll sent open rs = (Pending, rs') ->
  length sent - EVENT_CAPACITY <= rs_next rs ->
  rs_done rs = false /\ open = true /\ rs_next rs = length sent.
Proof.
  intros Hn. unfold raw_poll. destruct (rs_done rs); [done|]. rewrite raw_loop_enough. cbv zeta.
  destruct (sent !! catch_up sent (rs_next rs)) eqn:E; [done|]. destruct open; [|done].
  intros [= <-] Hc. apply lookup_ge_None in E. unfold catch_up in *. split_and!; [done|done|lia].
Qed.

Lemma Forall2_lookup_seq (l evs : list Event) start :
  start <= length l ->
  Forall2 (fun j ev => l !! j = Some ev) (seq start (length l - start)) evs ->
  evs = drop start l.
Proof.
  intros Hs H. apply list_eq. intros i. rewrite lookup_drop.
  pose proof (Forall2_length _ _ _ H) as Hl. rewrite length_seq in Hl.
  destruct (decide (i < length l - start)).
  - destruct (lookup_lt_is_Some_2 evs i) as [ev Hev]; [lia|].
    destruct (Forall2_lookup_r _ _ _ _ _ H Hev) as (j & Hj & Hlj).
    apply lookup_seq in Hj as [-> _]. by rewrite Hev, Hlj.
  - rewrite !lookup_ge_None_2 by lia. done.
Qed.

Lemma seq_strongly_sorted start n : StronglySorted lt (seq start n).
Proof.
  revert start. induction n as [|n IH]; intros start; simpl; constructor; [done|].
  apply Forall_forall. intros j ?%elem_of_seq. lia.
Qed.

Lemma strongly_sorted_nodup (l : list nat) : StronglySorted lt l -> NoDup l.
Proof.
  induction 1 as [|a l _ IH Ha]; constructor; [|done].
  rewrite Forall_forall in Ha. intros ?%Ha. lia.
Qed.

(** A stream that waits and was never overtaken has yielded everything. *)
Lemma faithful_caught_up start u kept :
  faithful start u kept -> length (events (su_state u)) <= start + EVENT_CAPACITY ->
  rs_next (su_stream u) = length (events (su_state u)) ->
  kept = seq start (length (events (su_state u)) - start).
Proof.
  intros [H1 H2 H3 _ H6 _] Hlen Hn.
  assert (AntiSymm eq lt) as Hanti by (intros x y ??; lia).
  assert (Transitive lt) as Htr by (intros x y z; lia).
  apply Sorted_StronglySorted in H1; [|done].
  apply (StronglySorted_unique lt); [done|apply seq_strongly_sorted|].
  apply NoDup_Permutation; [by apply strongly_sorted_nodup|apply NoDup_seq|].
  intros j. rewrite elem_of_seq. split; [intros Hj%H2; lia|].
  intros Hj. destruct (H6 j); [lia|done|lia].
Qed.

Lemma faithful_yields start u kept :
  faithful start u kept -> length (events (su_state u)) <= start + EVENT_CAPACITY ->
  rs_next (su_stream u) = length (events (su_state u)) -> rs_done (su_stream u) = false ->
  su_yielded u = Ok <$> drop start (events (su_state u)).
Proof.
  intros HF Hlen Hnext Hd. pose proof (fa_next _ _ _ HF) as Hn.
  pose proof (faithful_caught_up _ _ _ HF Hlen Hnext) as ->.
  destruct (fa_yielded _ _ _ HF) as (evs & Hevs & ->). rewrite Hd, app_nil_r. f_equal.
  apply mapM_Some, Forall2_lookup_seq in Hevs; [done|lia].
Qed.

(** What a subscriber can rely on, [start] being the number of events that had
    been broadcast when its receiver was made. *)
Record event_contract (start : nat) (u : Subscription) : Prop := {
  ec_faithful : exists kept, faithful start u kept;
  ec_complete : forall rs,
    length (events (su_state u)) <= start + EVENT_CAPACITY ->
    raw_poll (events (su_state u)) (senders (su_state u)) (su_stream u) = (Pending, rs) ->
    su_yielded u = Ok <$> drop start (events (su_state u));
}.

Lemma sub_run_contract ss st :
  event_contract (length (events st)) (sub_run ss (attach st)).
Proof.
  destruct (sub_run_faithful ss st) as (kept & HF). set (u := sub_run ss (attach st)) in *.
  split; [by exists kept|]. intros rs Hlen Hpoll. pose proof (fa_next _ _ _ HF) as Hn.
  destruct (raw_poll_stays _ _ _ _ (proj2 Hn) Hpoll) as (Hd & _ & Hnext); [lia|].
  by eapply faithful_yields.
Qed.

(** ** Polls that catch up *)

(** With a sender left, a poll moves on to the next event, if there is one. *)
Lemma poll_advances u :
  rs_done (su_stream u) = false -> senders (su_state u) = true ->
  let u' := sub_step SubPoll u in
  su_state u' = su_state u /\ rs_done (su_stream u') = false /\
  (length (events (su_state u)) <= rs_next (su_stream u') \/
   rs_next (su_stream u) < rs_next (su_stream u')).
Proof.
  intros Hd Hs. simpl. unfold raw_poll. rewrite Hd, raw_loop_enough. cbv zeta.
  destruct (events (su_state u) !! _) eqn:E; simpl.
  - split_and!; [done|done|]. right. unfold catch_up. lia.
  - rewrite Hs. simpl. split_and!; [done|done|]. left. by apply lookup_ge_None.
Qed.

Lemma polls_catch_up k u start kept :
  faithful start u kept -> rs_done (su_stream u) = false -> senders (su_state u) = true ->
  length (events (su_state u)) <= rs_next (su_stream u) + k ->
  let u' := sub_run (repeat SubPoll k) u in
  su_state u' = su_state u /\ rs_done (su_stream u') = false /\
  rs_next (su_stream u') = length (events (su_state u)) /\ exists kept', faithful start u' kept'.
Proof.
  revert u kept. induction k as [|k IH]; intros u kept HF Hd Hs Hk; cbv zeta.
  { simpl. pose proof (fa_next _ _ _ HF). split_and!; [done|done|lia|by exists kept]. }
  destruct (faithful_poll _ _ _ HF) as (kept1 & HF1).
  destruct (poll_advances u Hd Hs) as (E1 & E2 & E3).
  change (sub_run (repeat SubPoll (S k)) u) with (sub_run (repeat SubPoll k) (sub_step SubPoll u)).
  rewrite <-E1. apply (IH _ kept1); [done|done|by rewrite E1|rewrite E1; lia].
Qed.

(** A subscriber whose transport still has a sender, and which was not overtaken,
    has everything broadcast since its start after as many polls. *)
Lemma sub_run_delivers ss st k :
  let u := sub_run ss (attach st) in
  let start := length (events st) in
  senders (su_state u) = true -> length (events (su_state u)) <= start + EVENT_CAPACITY ->
  length (events (su_state u)) <= start + k ->
  su_yielded (sub_run (ss ++ repeat SubPoll k) (attach st)) = Ok <$> drop start (events (su_state u)).
Proof.
  cbv zeta. intros Hs Hcap Hk. destruct (sub_run_faithful ss st) as (kept & HF).
  unfold sub_run at 1. rewrite fold_left_app. change (fold_left _ ss _) with (sub_run ss (attach st)).
  set (u := sub_run ss (attach st)) in *.
  change (fold_left _ (repeat SubPoll k) u) with (sub_run (repeat SubPoll k) u).
  assert (rs_done (su_stream u) = false) as Hd.
  { apply not_true_is_false. intros Hd%(fa_done _ _ _ HF). congruence. }
  pose proof (fa_next _ _ _ HF).
  destruct (polls_catch_up k u _ _ HF Hd Hs) as (E1 & E2 & E3 & kept' & HF'); [lia|].
  rewrite <-E1. eapply faithful_yields; [done|rewrite E1; done|by rewrite E1|done].
Qed.

End EventStream.

(** ** A channel that meets the laws *)

Module RefBroadcast.

#[export] Instance broadcast `{CoreApi} : BroadcastApi := fun sent senders next =>
  let oldest := length sent - EVENT_CAPACITY in
  if decide (next < oldest) then (Ready (Err (Lagged (oldest - next))), oldest)
  else
    match sent !! next with
    | Some ev => (Ready (Ok ev), S next)
    | None => if senders then (Pending, next) else (Ready (Err RecvClosed), next)
    end.

#[export] Instance broadcast_laws `{CoreApi} : BroadcastLaws.
Proof.
  split; intros sent senders next Hn; unfold bc_recv, broadcast.
  - rewrite decide_True by lia. by eexists.
  - by rewrite decide_False by lia.
Qed.

End RefBroadcast.
