(* ===== verification/TopicStream.v ===== *)
(** * The stream a subscriber reads

    The last statements of [subscribe] in [src/client.rs] and
    [src/udp/client.rs]: the raw stream of [EventStream] is passed through
    [dedup_by_seq(raw, topic)], which "filters and deduplicates" it.  The
    combinator is vaiexia-core's, an interface with laws; the poll loop around
    it, the subscription among the steps of its transport, and what a
    subscriber can rely on are here.  Every theorem about a subscriber's stream
    is about this one. *)

From stdpp Require Import sorting.
From S2P Require Import Prelude RustStd Externals Instances EventStream.

(** [transport::dedup::dedup_by_seq]: for every item of the stream it wraps,
    whether the item is passed on.  [event_seq] is [Event::seq]. *)
Class DedupApi `{CoreApi} : Type := {
  event_seq : Event -> Z;
  Dedup : Type;
  dedup_by_seq : Topic -> Dedup;
  dedup_next : Dedup -> Res CoreError Event -> bool * Dedup;
}.

(** The wrapper after it has been handed [evs]. *)
Definition dedup_after `{DedupApi} (topic : Topic) (evs : list Event) : Dedup :=
  fold_left (fun d ev => (dedup_next d (Ok ev)).2) evs (dedup_by_seq topic).

(** It passes on events of its topic only, and none whose sequence number it
    was handed before; it does pass on an event whose number is higher than
    all of them, and errors.  What it does with a number that is new but not
    the highest is left open. *)
Class DedupLaws `{DedupApi} : Prop := {
  dedup_topic : forall topic evs ev,
    event_topic ev <> topic -> (dedup_next (dedup_after topic evs) (Ok ev)).1 = false;
  dedup_repeat : forall topic evs ev ev',
    ev' ∈ evs -> event_topic ev' = topic -> event_seq ev' = event_seq ev ->
    (dedup_next (dedup_after topic evs) (Ok ev)).1 = false;
  dedup_higher : forall topic evs ev,
    event_topic ev = topic ->
    (forall ev', ev' ∈ evs -> event_topic ev' = topic -> (event_seq ev' < event_seq ev)%Z) ->
    (dedup_next (dedup_after topic evs) (Ok ev)).1 = true;
  dedup_error : forall d e, (dedup_next d (Err e)).1 = true;
}.

Section TopicStream.
Context {CA : CoreApi} {BA : BroadcastApi} {DA : DedupApi}.

(** The stream that [subscribe] returns. *)
Record TopicStream : Type := mkTopicStream { to_raw : RawStream; to_dedup : Dedup }.

Definition topic_subscribe (sent : list Event) (topic : Topic) : TopicStream :=
  mkTopicStream (events_subscribe sent) (dedup_by_seq topic).

(** One poll: items of the raw stream are taken until one is passed on. *)
Fixpoint topic_loop (fuel : nat) (sent : list Event) (senders : bool) (ts : TopicStream)
    : Poll (option (Res CoreError Event)) * TopicStream :=
  match fuel with
  | 0 => (Pending, ts)
  | S fuel =>
      match raw_poll sent senders (to_raw ts) with
      | (Pending, rs) => (Pending, mkTopicStream rs (to_dedup ts))
      | (Ready None, rs) => (Ready None, mkTopicStream rs (to_dedup ts))
      | (Ready (Some x), rs) =>
          let '(passed, dd) := dedup_next (to_dedup ts) x in
          if passed : bool then (Ready (Some x), mkTopicStream rs dd)
          else topic_loop fuel sent senders (mkTopicStream rs dd)
      end
  end.

(** Every turn of the loop but the last moves past an event. *)
Definition topic_poll (sent : list Event) (senders : bool) (ts : TopicStream)
    : Poll (option (Res CoreError Event)) * TopicStream :=
  topic_loop (S (length sent)) sent senders ts.

(** ** A subscriber among the steps of its transport *)

Context {St Step : Type} (step : Step -> St -> St).
Context (events : St -> list Event) (senders : St -> bool).

Record Subscriber : Type := mkSubscriber {
  tu_state : St; tu_stream : TopicStream; tu_yielded : list (Res CoreError Event) }.

(** [subscribe], from its receiver on. *)
Definition topic_attach (topic : Topic) (st : St) : Subscriber :=
  mkSubscriber st (topic_subscribe (events st) topic) [].

Definition topic_step (s : SubStep (Step := Step)) (u : Subscriber) : Subscriber :=
  match s with
  | SubMove s => mkSubscriber (step s (tu_state u)) (tu_stream u) (tu_yielded u)
  | SubPoll =>
      let '(r, ts) := topic_poll (events (tu_state u)) (senders (tu_state u)) (tu_stream u) in
      mkSubscriber (tu_state u) ts
        (tu_yielded u ++ match r with Ready (Some x) => [x] | _ => [] end)
  end.

Definition topic_run (ss : list (SubStep (Step := Step))) (u : Subscriber) : Subscriber :=
  fold_left (fun u s => topic_step s u) ss u.

Lemma topic_run_snoc ss s u : topic_run (ss ++ [s]) u = topic_step s (topic_run ss u).
Proof. unfold topic_run. by rewrite fold_left_app. Qed.

Lemma topic_run_state ss u :
  tu_state (topic_run ss u) = fold_left (fun st s => step s st) (sub_moves ss) (tu_state u).
Proof.
  revert u. induction ss as [|s ss IH]; intros u; [done|]. simpl. rewrite IH.
  destruct s as [s|]; simpl; [done|]. by destruct (topic_poll _ _ _).
Qed.

(** ** The raw stream underneath *)

(** What the wrapper, in state [d], makes of the items it is handed. *)
Fixpoint passed_on (d : Dedup) (xs : list (Res CoreError Event)) : list (Res CoreError Event) :=
  match xs with
  | [] => []
  | x :: xs =>
      let '(p, d) := dedup_next d x in
      (if p : bool then [x] else []) ++ passed_on d xs
  end.

Definition dedup_state (d : Dedup) (xs : list (Res CoreError Event)) : Dedup :=
  fold_left (fun d x => (dedup_next d x).2) xs d.

Lemma passed_on_app d xs ys :
  passed_on d (xs ++ ys) = passed_on d xs ++ passed_on (dedup_state d xs) ys.
Proof.
  revert d. induction xs as [|x xs IH]; intros d; [done|]. simpl.
  destruct (dedup_next d x) as [p d']. simpl. by rewrite IH, app_assoc.
Qed.

Lemma dedup_state_app d xs ys : dedup_state d (xs ++ ys) = dedup_state (dedup_state d xs) ys.
Proof. unfold dedup_state. apply fold_left_app. Qed.

Lemma dedup_state_events topic evs : dedup_state (dedup_by_seq topic) (Ok <$> evs) = dedup_after topic evs.
Proof.
  unfold dedup_after, dedup_state. generalize (dedup_by_seq topic).
  induction evs as [|ev evs IH]; intros d; [done|]. simpl. apply IH.
Qed.

(** The subscriber [u] reads, through the wrapper, the raw subscription [w]. *)
Record reads (topic : Topic) (w : Subscription (St := St)) (u : Subscriber) : Prop := {
  re_state : su_state w = tu_state u;
  re_raw : su_stream w = to_raw (tu_stream u);
  re_dedup : to_dedup (tu_stream u) = dedup_state (dedup_by_seq topic) (su_yielded w);
  re_yielded : tu_yielded u = passed_on (dedup_by_seq topic) (su_yielded w);
}.

(** A poll of the subscriber is a number of polls of the raw stream. *)
Lemma topic_loop_reads fuel topic (w : Subscription) (u : Subscriber) :
  reads topic w u ->
  let '(r, ts) := topic_loop fuel (events (tu_state u)) (senders (tu_state u)) (tu_stream u) in
  exists k, reads topic (sub_run step events senders (repeat SubPoll k) w)
    (mkSubscriber (tu_state u) ts (tu_yielded u ++ match r with Ready (Some x) => [x] | _ => [] end)).
Proof.
  revert w u. induction fuel as [|fuel IH]; intros w u HR.
  { exists 0. simpl. destruct HR, u. split; simpl in *; try done. by rewrite app_nil_r. }
  pose proof HR as [E1 E2 E3 E4]. cbn [topic_loop].
  destruct (raw_poll (events (tu_state u)) (senders (tu_state u)) (to_raw (tu_stream u)))
    as [r rs] eqn:Er.
  assert (sub_run step events senders (repeat SubPoll 1) w
          = mkSubscription (tu_state u) rs
              (su_yielded w ++ match r with Ready (Some x) => [x] | _ => [] end)) as Hone.
  { simpl. by rewrite E1, E2, Er. }
  destruct r as [[x|]|].
  - destruct (dedup_next (to_dedup (tu_stream u)) x) as [p dd] eqn:Ed.
    assert (reads topic (sub_run step events senders (repeat SubPoll 1) w)
              (mkSubscriber (tu_state u) (mkTopicStream rs dd)
                 (tu_yielded u ++ if p then [x] else []))) as HR1.
    { rewrite Hone. split; simpl; [done|done| |].
      - rewrite dedup_state_app, <-E3. simpl. by rewrite Ed.
      - rewrite passed_on_app, <-E3, E4. simpl. rewrite Ed. by rewrite app_nil_r. }
    destruct p; [by exists 1|]. rewrite app_nil_r in HR1.
    specialize (IH _ _ HR1). cbn [tu_state tu_stream tu_yielded] in IH.
    destruct (topic_loop fuel _ _ _) as [r ts]. destruct IH as [k IH]. exists (S k).
    exact IH.
  - exists 1. rewrite Hone. split; simpl; try done; by rewrite ?app_nil_r.
  - exists 1. rewrite Hone. split; simpl; try done; by rewrite ?app_nil_r.
Qed.

Lemma sub_run_app ss ss' (w : Subscription) :
  sub_run step events senders (ss ++ ss') w
  = sub_run step events senders ss' (sub_run step events senders ss w).
Proof. unfold sub_run. apply fold_left_app. Qed.

(** Every run of a subscriber is a run of the raw stream, seen through the
    wrapper. *)
Lemma topic_run_reads ss topic st :
  exists ss', reads topic (sub_run step events senders ss' (attach events st))
                (topic_run ss (topic_attach topic st)).
Proof.
  induction ss as [|s ss (ss' & IH)] using rev_ind; [by exists []|].
  rewrite topic_run_snoc. destruct s as [s|]; simpl.
  - exists (ss' ++ [SubMove s]). rewrite sub_run_app. destruct IH as [E1 E2 E3 E4].
    split; simpl; try done. by rewrite E1.
  - pose proof (topic_loop_reads (S (length (events (tu_state (topic_run ss (topic_attach topic st))))))
                  topic _ _ IH) as H. unfold topic_poll.
    destruct (topic_loop _ _ _ _) as [r ts]. destruct H as [k H].
    exists (ss' ++ repeat SubPoll k). by rewrite sub_run_app.
Qed.

(** ** What is passed on *)

Context {BL : BroadcastLaws} {DL : DedupLaws}.

Abbreviation on_topic topic := (fun ev : Event => event_topic ev = topic).

Lemma dedup_after_snoc topic evs ev :
  (dedup_next (dedup_after topic evs) (Ok ev)).2 = dedup_after topic (evs ++ [ev]).
Proof. unfold dedup_after. by rewrite fold_left_app. Qed.

(** An event passed on is of the topic and its number is new; one of the topic
    that is held back has a number that is not the highest. *)
Lemma dedup_passed topic pre ev d :
  dedup_next (dedup_after topic pre) (Ok ev) = (true, d) ->
  event_topic ev = topic /\
  forall ev', ev' ∈ pre -> event_topic ev' = topic -> event_seq ev' <> event_seq ev.
Proof.
  intros Ed. split.
  - destruct (decide (event_topic ev = topic)) as [|Hne]; [done|].
    pose proof (dedup_topic topic pre ev Hne). by rewrite Ed in *.
  - intros ev' Hin Ht Hs. pose proof (dedup_repeat topic pre ev ev' Hin Ht Hs). by rewrite Ed in *.
Qed.

Lemma dedup_held topic pre ev d :
  dedup_next (dedup_after topic pre) (Ok ev) = (false, d) -> event_topic ev = topic ->
  exists ev', ev' ∈ pre /\ event_topic ev' = topic /\ (event_seq ev <= event_seq ev')%Z.
Proof.
  intros Ed Htop.
  destruct (decide (Exists (fun ev' => event_topic ev' = topic /\ (event_seq ev <= event_seq ev')%Z) pre))
    as [(ev' & Hin & H1 & H2)%Exists_exists|Hno]; [by exists ev'|].
  exfalso. rewrite <-Forall_Exists_neg, Forall_forall in Hno.
  pose proof (dedup_higher topic pre ev Htop) as Hh. rewrite Ed in Hh.
  discriminate Hh. intros ev' Hin Ht'. specialize (Hno ev' Hin). apply Z.nle_gt. naive_solver.
Qed.

(** The events passed on, by their positions in [l]. *)
Lemma passed_positions topic (l : list Event) pre js evs :
  StronglySorted lt js -> mapM (fun j => l !! j) js = Some evs ->
  exists given gevs, given `sublist_of` js /\ mapM (fun j => l !! j) given = Some gevs /\
    passed_on (dedup_after topic pre) (Ok <$> evs) = Ok <$> gevs /\
    Forall (on_topic topic) gevs /\ NoDup (event_seq <$> gevs) /\
    (forall ev ev', ev ∈ gevs -> ev' ∈ pre -> event_topic ev' = topic -> event_seq ev' <> event_seq ev) /\
    (forall j ev, j ∈ js -> l !! j = Some ev -> event_topic ev = topic ->
       j ∈ given \/
       exists ev', event_topic ev' = topic /\ (event_seq ev <= event_seq ev')%Z /\
         (ev' ∈ pre \/ exists j', j' ∈ js /\ j' < j /\ l !! j' = Some ev')).
Proof.
  intros Hs. revert pre evs. induction Hs as [|j0 js Hs IH Hj0]; intros pre evs Hm.
  { injection Hm as <-. exists [], []. split_and!; try done; try constructor; set_solver. }
  rewrite mapM_Some in Hm. apply Forall2_cons_inv_l in Hm as (ev0 & evs' & He & Hm & ->).
  rewrite <-mapM_Some in Hm. rewrite Forall_forall in Hj0.
  destruct (IH (pre ++ [ev0]) evs' Hm) as (given & gevs & Hsub & Hg & Hp & Ht & Hnd & Hfresh & Hskip).
  rewrite fmap_cons. cbn [passed_on].
  destruct (dedup_next (dedup_after topic pre) (Ok ev0)) as [b d] eqn:Ed.
  pose proof (dedup_after_snoc topic pre ev0) as Hd. rewrite Ed in Hd. simpl in Hd. subst d. rewrite Hp.
  assert (forall j ev, j ∈ js -> l !! j = Some ev -> event_topic ev = topic ->
            j ∈ given \/ exists ev', event_topic ev' = topic /\ (event_seq ev <= event_seq ev')%Z /\
              (ev' ∈ pre \/ exists j', j' ∈ j0 :: js /\ j' < j /\ l !! j' = Some ev')) as Hskip'.
  { intros j ev Hj Hl Htop. destruct (Hskip j ev Hj Hl Htop) as [?|(ev' & H1 & H2 & H3)]; [by left|].
    right. exists ev'. split_and!; [done|done|].
    destruct H3 as [[?| ->%list_elem_of_singleton]%elem_of_app|(j' & ? & ? & ?)].
    - by left.
    - right. exists j0. split_and!; [left|by apply Hj0|done].
    - right. exists j'. split_and!; [by right|done|done]. }
  destruct b.
  - destruct (dedup_passed _ _ _ _ Ed) as [Htop0 Hnew].
    exists (j0 :: given), (ev0 :: gevs). split_and!; [by constructor| |done|by constructor| | |].
    + rewrite mapM_Some in *. by constructor.
    + simpl. constructor; [|done]. intros (ev & Hseq & Hin)%list_elem_of_fmap.
      by apply (Hfresh ev ev0 Hin); [set_solver|..].
    + intros ev ev' [->|Hin]%elem_of_cons Hpre Htop'; [by apply Hnew|].
      apply Hfresh; [done|set_solver|done].
    + intros j ev [->|Hj]%elem_of_cons Hl Htop; [by left; left|].
      destruct (Hskip' j ev Hj Hl Htop) as [?|?]; [by left; right|by right].
  - exists given, gevs. split_and!; [by constructor|done|done|done|done| |].
    + intros ev ev' Hin Hpre. apply Hfresh; [done|set_solver].
    + intros j ev [->|Hj]%elem_of_cons Hl Htop; [|by apply Hskip'].
      rewrite He in Hl. injection Hl as <-. right.
      destruct (dedup_held _ _ _ _ Ed Htop) as (ev' & Hin & H1 & H2).
      exists ev'. split_and!; [done|done|by left].
Qed.

(** With increasing numbers nothing of the topic is held back. *)
Lemma passed_increasing topic pre evs :
  StronglySorted Z.lt (event_seq <$> filter (on_topic topic) (pre ++ evs)) ->
  passed_on (dedup_after topic pre) (Ok <$> evs) = Ok <$> filter (on_topic topic) evs.
Proof.
  revert pre. induction evs as [|ev evs IH]; intros pre Hs; [done|].
  rewrite fmap_cons. cbn [passed_on].
  destruct (dedup_next (dedup_after topic pre) (Ok ev)) as [b d] eqn:Ed.
  pose proof (dedup_after_snoc topic pre ev) as Hd. rewrite Ed in Hd. simpl in Hd. subst d.
  rewrite IH by (by rewrite <-app_assoc).
  destruct (decide (event_topic ev = topic)) as [Ht|Ht].
  - rewrite filter_cons_True by done. simpl. pose proof (dedup_higher topic pre ev Ht) as Hh.
    rewrite Ed in Hh. simpl in Hh. rewrite Hh; [done|]. intros ev' Hin Ht'.
    rewrite filter_app, fmap_app, filter_cons_True in Hs by done.
    apply StronglySorted_app in Hs as (Hlt & _ & _).
    apply Hlt; [|left]. apply list_elem_of_fmap. exists ev'. split; [done|].
    by apply list_elem_of_filter.
  - rewrite filter_cons_False by done. pose proof (dedup_topic topic pre ev Ht) as Hh.
    rewrite Ed in Hh. simpl in Hh. by rewrite Hh.
Qed.

(** ** One poll *)

(** A poll that leaves the subscriber waiting has taken everything; any other
    has moved on. *)
Lemma topic_loop_moves fuel sent open ts r ts' :
  rs_done (to_raw ts) = false -> rs_next (to_raw ts) <= length sent ->
  length sent - rs_next (to_raw ts) < fuel ->
  topic_loop fuel sent open ts = (r, ts') ->
  (r = Pending -> open = true /\ rs_done (to_raw ts') = false /\ rs_next (to_raw ts') = length sent) /\
  (open = true -> rs_done (to_raw ts') = false /\ rs_next (to_raw ts') <= length sent /\
     (r = Pending \/ rs_next (to_raw ts) < rs_next (to_raw ts'))).
Proof.
  revert ts. induction fuel as [|fuel IH]; intros ts Hd Hn Hf; [lia|]. cbn [topic_loop].
  unfold raw_poll. rewrite Hd, raw_loop_enough. cbv zeta.
  set (next := catch_up sent (rs_next (to_raw ts))).
  assert (rs_next (to_raw ts) <= next <= length sent) as Hnext by (unfold next, catch_up; lia).
  destruct (sent !! next) as [ev|] eqn:E.
  - apply lookup_lt_Some in E.
    destruct (dedup_next (to_dedup ts) (Ok ev)) as [[] dd]; [intros [= <- <-]; simpl; split; [done|]|].
    { intros _. split_and!; [done|lia|right; lia]. }
    intros H. destruct (IH _ (eq_refl : rs_done (to_raw (mkTopicStream (mkRawStream (S next) false) dd)) = false)
                          ltac:(simpl; lia) ltac:(simpl; lia) H) as [H1 H2].
    split; [done|]. intros Ho. destruct (H2 Ho) as (? & ? & [?|?]); split_and!; try done; [by left|].
    right. simpl in *. lia.
  - apply lookup_ge_None in E. destruct open.
    + intros [= <- <-]. simpl. split; [intros _; split_and!; [done|done|lia]|].
      intros _. split_and!; [done|lia|by left].
    + pose proof (dedup_error (to_dedup ts) core_disconnected) as He.
      destruct (dedup_next (to_dedup ts) (Err core_disconnected)) as [b dd]. simpl in He. subst b.
      by intros [= <- <-].
Qed.

(** ** What a subscriber can rely on *)

Context (grows : forall s st, events st `prefix_of` events (step s st)).
Context (closes : forall s st, senders st = false -> senders (step s st) = false).

(** [start] is the number of events broadcast when the receiver was made.  The
    events given are those at the positions [given], in order, then
    [Disconnected] if the stream has ended; they are of the topic, and no two
    have the same number.  An event of the topic that was passed over was
    overtaken by a whole buffer of later ones, or came after one of the topic
    whose number is not lower.  A stream that waits, was not overtaken and whose
    topic's numbers increase has given every event of the topic. *)
Record topic_contract (topic : Topic) (start : nat) (u : Subscriber) : Prop := {
  tc_given : exists given evs,
    Sorted lt given /\
    (forall j, j ∈ given -> start <= j) /\
    mapM (fun j => events (tu_state u) !! j) given = Some evs /\
    tu_yielded u = (Ok <$> evs) ++
      (if rs_done (to_raw (tu_stream u)) then [Err core_disconnected] else []) /\
    Forall (on_topic topic) evs /\ NoDup (event_seq <$> evs) /\
    (forall j ev, start <= j < rs_next (to_raw (tu_stream u)) ->
       events (tu_state u) !! j = Some ev -> event_topic ev = topic ->
       j ∈ given \/ j + EVENT_CAPACITY < length (events (tu_state u)) \/
       exists j' ev', start <= j' < j /\ events (tu_state u) !! j' = Some ev' /\
         event_topic ev' = topic /\ (event_seq ev <= event_seq ev')%Z);
  tc_ends : rs_done (to_raw (tu_stream u)) = true -> senders (tu_state u) = false;
  tc_complete : forall ts,
    length (events (tu_state u)) <= start + EVENT_CAPACITY ->
    topic_poll (events (tu_state u)) (senders (tu_state u)) (tu_stream u) = (Pending, ts) ->
    StronglySorted Z.lt (event_seq <$> filter (on_topic topic) (drop start (events (tu_state u)))) ->
    tu_yielded u = Ok <$> filter (on_topic topic) (drop start (events (tu_state u)));
}.

Lemma sublist_sorted (l k : list nat) : l `sublist_of` k -> StronglySorted lt k -> StronglySorted lt l.
Proof.
  intros Hs Hk. induction Hs as [|x l k Hs IH|x l k Hs IH]; [constructor| |];
    apply StronglySorted_inv in Hk as [Hk Hx]; [|by apply IH].
  constructor; [by apply IH|]. rewrite Forall_forall in *. intros y Hy. apply Hx. by eapply elem_of_sublist.
Qed.

Lemma passed_on_done topic evs (b : bool) :
  passed_on (dedup_by_seq topic) ((Ok <$> evs) ++ if b then [Err core_disconnected] else [])
  = passed_on (dedup_after topic []) (Ok <$> evs) ++ if b then [Err core_disconnected] else [].
Proof.
  rewrite passed_on_app. f_equal. destruct b; [|done]. cbn [passed_on].
  pose proof (dedup_error (dedup_state (dedup_by_seq topic) (Ok <$> evs)) core_disconnected) as He.
  destruct (dedup_next _ (Err core_disconnected)) as [p d]. simpl in He. by subst p.
Qed.

(** A subscriber that has caught up with a channel that was not overtaken. *)
Lemma reads_caught_up topic start w u kept :
  reads topic w u -> faithful events senders start w kept ->
  length (events (tu_state u)) <= start + EVENT_CAPACITY ->
  rs_next (to_raw (tu_stream u)) = length (events (tu_state u)) ->
  rs_done (to_raw (tu_stream u)) = false ->
  StronglySorted Z.lt (event_seq <$> filter (on_topic topic) (drop start (events (tu_state u)))) ->
  tu_yielded u = Ok <$> filter (on_topic topic) (drop start (events (tu_state u))).
Proof.
  intros [E1 E2 _ E4] HF Hcap Hn Hd Hs. rewrite E4, <-E1 in *. rewrite <-E2 in *.
  rewrite (faithful_yields _ _ _ _ _ HF Hcap Hn Hd).
  by apply (passed_increasing topic []).
Qed.

Lemma reads_poll topic w u :
  reads topic w u ->
  exists k, reads topic (sub_run step events senders (repeat SubPoll k) w) (topic_step SubPoll u).
Proof.
  intros HR. pose proof (topic_loop_reads (S (length (events (tu_state u)))) topic w u HR) as H.
  simpl. unfold topic_poll. by destruct (topic_loop _ _ _ _) as [r ts].
Qed.

Lemma faithful_polls k start w kept :
  faithful events senders start w kept ->
  exists kept', faithful events senders start (sub_run step events senders (repeat SubPoll k) w) kept'.
Proof.
  revert w kept. induction k as [|k IH]; intros w kept HF; [by exists kept|].
  destruct (faithful_poll step events senders _ _ _ HF) as (kept1 & HF1).
  apply (IH _ _ HF1).
Qed.

Lemma topic_run_contract ss topic st :
  topic_contract topic (length (events st)) (topic_run ss (topic_attach topic st)).
Proof.
  destruct (topic_run_reads ss topic st) as (ss' & HR).
  destruct (sub_run_faithful step events senders grows closes ss' st) as (kept & HF).
  set (u := topic_run ss (topic_attach topic st)) in *.
  set (w := sub_run step events senders ss' (attach events st)) in *.
  pose proof HR as [E1 E2 _ E4]. pose proof HF as [H1 H2 H3 (evs & H4 & H5) H6 H7].
  rewrite E1, E2 in *. split.
  - assert (Transitive lt) as Htr by (intros x y z; lia).
    apply Sorted_StronglySorted in H1; [|done].
    destruct (passed_positions topic (events (tu_state u)) [] kept evs H1 H4)
      as (given & gevs & Hsub & Hg & Hp & Ht & Hnd & _ & Hskip).
    exists given, gevs. split_and!; [| |done| |done|done|].
    + by apply StronglySorted_Sorted, (sublist_sorted _ kept).
    + intros j Hj. apply (H2 j). by eapply elem_of_sublist.
    + rewrite E4, H5, passed_on_done. by rewrite Hp.
    + intros j ev Hj Hl Htop. destruct (H6 j Hj) as [Hk|Hov]; [|by right; left].
      destruct (Hskip j ev Hk Hl Htop) as [?|(ev' & Ht' & Hseq & [Hno|(j' & Hj' & Hlt & Hl')])].
      * by left.
      * by apply not_elem_of_nil in Hno.
      * right. right. exists j', ev'. specialize (H2 j' Hj'). split_and!; [lia|lia|done|done|done].
  - exact H7.
  - intros ts Hcap Hpoll Hs.
    destruct (rs_done (to_raw (tu_stream u))) eqn:Hd.
    { exfalso. unfold topic_poll in Hpoll. cbn [topic_loop] in Hpoll. unfold raw_poll in Hpoll.
      by rewrite Hd in Hpoll. }
    pose proof Hpoll as Hm. unfold topic_poll in Hm.
    apply topic_loop_moves in Hm as [Hm _]; [|done|lia|lia].
    destruct (Hm eq_refl) as (_ & Hd' & Hn').
    destruct (reads_poll topic w u HR) as (k & HR'). destruct (faithful_polls k _ _ _ HF) as (kept' & HF').
    pose proof (reads_caught_up topic _ _ _ _ HR' HF') as HC. simpl in HC. rewrite Hpoll in HC.
    simpl in HC. rewrite app_nil_r in HC. by apply HC.
Qed.

(** ** Polls that catch up *)

Lemma topic_polls_catch_up k u :
  rs_done (to_raw (tu_stream u)) = false -> senders (tu_state u) = true ->
  rs_next (to_raw (tu_stream u)) <= length (events (tu_state u)) <= rs_next (to_raw (tu_stream u)) + k ->
  let u' := topic_run (repeat SubPoll k) u in
  tu_state u' = tu_state u /\ rs_done (to_raw (tu_stream u')) = false /\
  rs_next (to_raw (tu_stream u')) = length (events (tu_state u)).
Proof.
  revert u. induction k as [|k IH]; intros u Hd Hs Hk; cbv zeta.
  { simpl. split_and!; [done|done|lia]. }
  change (topic_run (repeat SubPoll (S k)) u) with (topic_run (repeat SubPoll k) (topic_step SubPoll u)).
  destruct (topic_poll (events (tu_state u)) (senders (tu_state u)) (tu_stream u)) as [r ts] eqn:E.
  assert (topic_step SubPoll u = mkSubscriber (tu_state u) ts
            (tu_yielded u ++ match r with Ready (Some x) => [x] | _ => [] end)) as -> by (simpl; by rewrite E).
  unfold topic_poll in E. apply topic_loop_moves in E as [Hp Hm]; [|done|lia|lia].
  destruct (Hm Hs) as (Hd' & Hle & Hmv).
  apply (IH (mkSubscriber _ ts _)); [done|done|]. simpl. split; [done|].
  destruct Hmv as [->|?]; [|lia]. destruct (Hp eq_refl) as (_ & _ & ->). lia.
Qed.

(** A subscriber whose transport still has a sender, and which was not
    overtaken, has been given every event of its topic broadcast since its
    start, after as many polls as there were events, if the topic's numbers
    increase. *)
Lemma topic_run_delivers ss topic st k :
  let u := topic_run ss (topic_attach topic st) in
  let start := length (events st) in
  senders (tu_state u) = true -> length (events (tu_state u)) <= start + EVENT_CAPACITY ->
  length (events (tu_state u)) <= start + k ->
  StronglySorted Z.lt (event_seq <$> filter (on_topic topic) (drop start (events (tu_state u)))) ->
  tu_yielded (topic_run (ss ++ repeat SubPoll k) (topic_attach topic st))
    = Ok <$> filter (on_topic topic) (drop start (events (tu_state u))).
Proof.
  cbv zeta. intros Hs Hcap Hk Hseq.
  destruct (topic_run_reads ss topic st) as (ss0 & HR0).
  destruct (sub_run_faithful step events senders grows closes ss0 st) as (kept0 & HF0).
  destruct (topic_run_reads (ss ++ repeat SubPoll k) topic st) as (ss1 & HR1).
  destruct (sub_run_faithful step events senders grows closes ss1 st) as (kept1 & HF1).
  assert (topic_run (ss ++ repeat SubPoll k) (topic_attach topic st)
          = topic_run (repeat SubPoll k) (topic_run ss (topic_attach topic st))) as Happ
    by (unfold topic_run; apply fold_left_app).
  rewrite Happ in *. set (u := topic_run ss (topic_attach topic st)) in *.
  pose proof HR0 as [E1 E2 _ _]. pose proof (fa_next _ _ _ _ _ HF0) as Hn. rewrite E1, E2 in Hn.
  assert (rs_done (to_raw (tu_stream u)) = false) as Hd.
  { apply not_true_is_false. rewrite <-E2. intros Hd%(fa_done _ _ _ _ _ HF0). rewrite E1 in Hd. congruence. }
  destruct (topic_polls_catch_up k u Hd Hs) as (F1 & F2 & F3); [lia|].
  rewrite <-F1 in *. eapply reads_caught_up; [exact HR1|exact HF1|done|done|done|done].
Qed.

End TopicStream.

(** ** A wrapper that meets the laws *)

Module RefDedup.
Import Ref.

(** The topic and the numbers seen; an event's number is its payload byte. *)
#[export] Instance dedup : DedupApi (H := core) := {|
  event_seq := fun ev : core.(Event) => byte_Z ev.2;
  Dedup := bytes * list Z;
  dedup_by_seq := fun topic : core.(Topic) => (topic, []);
  dedup_next := fun d x =>
    match x with
    | Err _ => (true, d)
    | Ok ev =>
        if decide (ev.1 = d.1 /\ byte_Z ev.2 ∉ d.2) then (true, (d.1, byte_Z ev.2 :: d.2)) else (false, d)
    end;
|}.

Lemma dedup_after_seen (topic : core.(Topic)) (evs : list core.(Event)) :
  (dedup_after topic evs).1 = topic /\
  forall z, z ∈ (dedup_after topic evs).2 <-> exists ev, ev ∈ evs /\ ev.1 = topic /\ byte_Z ev.2 = z.
Proof.
  induction evs as [|ev evs IH] using rev_ind; [split; [done|set_solver]|].
  rewrite <-(dedup_after_snoc topic evs ev). destruct IH as [IH1 IH2].
  destruct (dedup_after topic evs) as [t seen]. simpl in IH1, IH2 |- *. subst t.
  assert (forall z, (exists ev0, ev0 ∈ evs ++ [ev] /\ ev0.1 = topic /\ byte_Z ev0.2 = z) <->
            z ∈ seen \/ (ev.1 = topic /\ byte_Z ev.2 = z)) as Hz.
  { intros z. rewrite IH2. split.
    - intros (e & [He| ->%list_elem_of_singleton]%elem_of_app & ?); [left; by exists e|by right].
    - intros [(e & He & ?)|?]; [exists e|exists ev]; rewrite elem_of_app, list_elem_of_singleton; naive_solver. }
  case_decide as Hc; simpl; (split; [done|]); intros z; rewrite Hz.
  - rewrite elem_of_cons. naive_solver.
  - split; [by left|]. intros [?|[H1 <-]]; [done|]. destruct (decide (byte_Z ev.2 ∈ seen)); [done|].
    by exfalso; apply Hc.
Qed.

#[export] Instance dedup_laws : DedupLaws.
Proof.
  split.
  - intros topic evs ev Hne. destruct (dedup_after_seen topic evs) as [H1 _].
    destruct (dedup_after topic evs) as [t seen]. simpl in *. subst t.
    case_decide as Hc; [|done]. by destruct Hc.
  - intros topic evs ev ev' Hin Ht Hs. destruct (dedup_after_seen topic evs) as [H1 H2].
    destruct (dedup_after topic evs) as [t seen]. simpl in *.
    case_decide as Hc; [|done]. destruct Hc as [_ Hn]. exfalso. apply Hn, H2. by exists ev'.
  - intros topic evs ev Ht Hlt. destruct (dedup_after_seen topic evs) as [H1 H2].
    destruct (dedup_after topic evs) as [t seen]. simpl in *. subst t.
    case_decide as Hc; [done|]. exfalso. apply Hc. split; [done|]. intros (ev' & Hin & Ht' & Hs)%H2.
    specialize (Hlt ev' Hin Ht'). lia.
  - done.
Qed.

End RefDedup.
