(* ===== verification/Client.v ===== *)
(** * The TCP client

    [src/client.rs]: the pump task with its four closing statements, and the
    calls of the transport handle ([request], [subscribe], [state]), which run
    concurrently with it and share the pending map, the outbound queue and the
    connection state.  Each statement that touches shared state is a step of
    its own, so the interleavings of the source are the sequences of steps. *)

From S2P Require Import Prelude RustStd Externals Envelope Stream Framing Duplex PendingMap.
From S2P Require Import EventStream HandshakeIo ProxyDial Instances.

Section Client.
Context {WA : WireApi} {CA : CoreApi} {SA : SerdeApi} {S : Type} {IA : AsyncIo S}.

(** [ConnectionState]. *)
Inductive ConnectionState : Type := Connected | Down.

(** Where the pump is: in its loop, blocked in a write that does not complete,
    after the loop, after marking the state, after draining, returned (its
    locals, the receiver of the outbound queue among them, dropped). *)
Inductive Phase : Type := Looping | Stalled | Broken | Marked | Drained | Returned.

#[export] Instance phase_eq_dec : EqDecision Phase.
Proof. solve_decision. Defined.

(** A call of [request]: inserted into the map and not yet sent, awaiting its
    oneshot, or returned. *)
Inductive CallStage : Type :=
| Inserted
| Awaiting
| Finished (r : Res CoreError Response).

Record Call : Type := mkCall { ca_req : Request; ca_slot : nat; ca_stage : CallStage }.

Record Client : Type := mkClient {
  cl_stream : S;
  cl_session : Session;
  cl_buf : bytes;
  cl_rng : Rng;
  cl_outbound : list Envelope;
  cl_phase : Phase;
  cl_state : ConnectionState;
  cl_mux : Mux;
  cl_events : list Event;         (** broadcast so far *)
  cl_calls : list Call;
  cl_handle : bool;               (** the [ObfsTransport] has not been dropped *)
}.

Definition cl_set_phase (ph : Phase) (c : Client) : Client :=
  mkClient (cl_stream c) (cl_session c) (cl_buf c) (cl_rng c) (cl_outbound c) ph (cl_state c)
    (cl_mux c) (cl_events c) (cl_calls c) (cl_handle c).
Definition cl_set_mux (mx : Mux) (c : Client) : Client :=
  mkClient (cl_stream c) (cl_session c) (cl_buf c) (cl_rng c) (cl_outbound c) (cl_phase c)
    (cl_state c) mx (cl_events c) (cl_calls c) (cl_handle c).
Definition cl_set_outbound (q : list Envelope) (c : Client) : Client :=
  mkClient (cl_stream c) (cl_session c) (cl_buf c) (cl_rng c) q (cl_phase c) (cl_state c)
    (cl_mux c) (cl_events c) (cl_calls c) (cl_handle c).
Definition cl_set_events (evs : list Event) (c : Client) : Client :=
  mkClient (cl_stream c) (cl_session c) (cl_buf c) (cl_rng c) (cl_outbound c) (cl_phase c)
    (cl_state c) (cl_mux c) evs (cl_calls c) (cl_handle c).
Definition cl_set_calls (calls : list Call) (c : Client) : Client :=
  mkClient (cl_stream c) (cl_session c) (cl_buf c) (cl_rng c) (cl_outbound c) (cl_phase c)
    (cl_state c) (cl_mux c) (cl_events c) calls (cl_handle c).
Definition cl_set_state (s : ConnectionState) (c : Client) : Client :=
  mkClient (cl_stream c) (cl_session c) (cl_buf c) (cl_rng c) (cl_outbound c) (cl_phase c) s
    (cl_mux c) (cl_events c) (cl_calls c) (cl_handle c).

(** [Connection::state] of [ObfsTransport]. *)
Definition state (c : Client) : ConnectionState := cl_state c.

(** What [connect] hands to the pump after the handshake; [rng] is the pump's
    generator. *)
Definition connected (stream : S) (session : Session) (leftover : bytes) (rng : Rng) : Client :=
  mkClient stream session leftover rng [] Looping Connected mux_new [] [] true.

(** [connect]: through the proxies when there are any, then the handshake.
    [tcp_connect] is [TcpStream::connect]. *)
Definition connect (tcp_connect : bytes -> Poll (Res IoError S)) (fuel : nat) (rng0 : Rng)
    (ent : Entropy) (rng : Rng) (addr local_private server_public : bytes)
    (profile : MimicryProfile) (proxy : option ProxyConfig) : Poll (Res ObfsError Client) :=
  let dialled :=
    match proxy with
    | Some proxy_cfg =>
        match parse_addr addr with
        | Ok (host, port) => dial tcp_connect proxy_cfg host port
        | Err e => Ready (Err e)
        end
    | None =>
        match tcp_connect addr with
        | Ready r => Ready (res_map_err Io r)
        | Pending => Pending
        end
    end in
  match dialled with
  | Ready (Ok stream) =>
      match client_handshake_in_place fuel rng0 ent local_private server_public profile stream with
      | (Ready (Ok (session, leftover)), stream) =>
          Ready (Ok (connected stream session leftover rng))
      | (Ready (Err e), _) => Ready (Err e)
      | (Pending, _) => Pending
      end
  | Ready (Err e) => Ready (Err e)
  | Pending => Pending
  end.

(** ** The pump *)

(** The jitter delay and a write; [lost] is the phase after a failed one. *)
Definition client_send (profile : MimicryProfile) (env : Envelope) (lost : Phase) (c : Client)
    : Client :=
  let '(_, rng) := jitter profile (cl_rng c) in
  match send_frame env profile (cl_stream c, cl_session c, rng) with
  | (r, (stream', session', rng')) =>
      mkClient stream' session' (cl_buf c) rng' (cl_outbound c)
        (match r with Ready (Ok _) => Looping | Ready (Err _) => lost | Pending => Stalled end)
        (cl_state c) (cl_mux c) (cl_events c) (cl_calls c) (cl_handle c)
  end.

(** The [match result] of the inbound branch, for a received envelope. *)
Definition client_inbound (profile : MimicryProfile) (env : Envelope) (c : Client) : Client :=
  match env with
  | EResponse resp => cl_set_mux (mux_resolve resp (cl_mux c)) c
  | EEvent ev => cl_set_events (cl_events c ++ [ev]) c
  | EPing => client_send profile EPong Looping c
  | EPong => c
  | _ => c
  end.

(** One iteration of the loop, biased towards the outbound queue.  An empty
    queue, closed or not, leaves the inbound branch. *)
Definition pump_turn (fuel : nat) (profile : MimicryProfile) (c : Client) : Client :=
  match cl_outbound c with
  | env :: q => client_send profile env Broken (cl_set_outbound q c)
  | [] =>
      match recv_frame fuel profile (cl_stream c, cl_session c, cl_buf c) with
      | (r, (stream', session', buf')) =>
          let c := mkClient stream' session' buf' (cl_rng c) (cl_outbound c) (cl_phase c)
                     (cl_state c) (cl_mux c) (cl_events c) (cl_calls c) (cl_handle c) in
          match r with
          | Pending => c
          | Ready (Err _) => cl_set_phase Broken c
          | Ready (Ok env) => client_inbound profile env c
          end
      end
  end.

(** The next statement of the pump. *)
Definition pump_step (fuel : nat) (profile : MimicryProfile) (c : Client) : Client :=
  match cl_phase c with
  | Looping => pump_turn fuel profile c
  | Broken => cl_set_phase Marked (cl_set_state Down c)
  | Marked => cl_set_phase Drained (cl_set_mux (mux_drain (cl_mux c)) c)
  | Drained => cl_set_phase Returned (cl_set_outbound [] c)
  | Stalled | Returned => c
  end.

(** ** The transport handle *)

(** [self.tx.send(env)]: fails once the receiver is gone. *)
Definition tx_send (env : Envelope) (c : Client) : bool * Client :=
  match cl_phase c with
  | Returned => (false, c)
  | _ => (true, cl_set_outbound (cl_outbound c ++ [env]) c)
  end.

(** [request] up to the insertion. *)
Definition call_new (req : Request) (c : Client) : Client :=
  let '(n, mx) := mux_insert (request_id req) (cl_mux c) in
  cl_set_calls (cl_calls c ++ [mkCall req n Inserted]) (cl_set_mux mx c).

Definition set_stage (i : nat) (st : CallStage) (c : Client) : Client :=
  cl_set_calls (alter (fun ca => mkCall (ca_req ca) (ca_slot ca) st) i (cl_calls c)) c.

(** [request] from the send to the await. *)
Definition call_send (i : nat) (c : Client) : Client :=
  match cl_calls c !! i with
  | Some (mkCall req _ Inserted) =>
      let '(ok, c) := tx_send (ERequest req) c in
      if ok : bool then set_stage i Awaiting c
      else set_stage i (Finished (Err core_disconnected))
             (cl_set_mux (mux_remove (request_id req) (cl_mux c)) c)
  | _ => c
  end.

(** Polling [rx.await.map_err(|_| CoreError::Disconnected)]. *)
Definition call_poll (i : nat) (c : Client) : Client :=
  match cl_calls c !! i with
  | Some (mkCall _ n Awaiting) =>
      match sl_state <$> mx_slots (cl_mux c) !! n with
      | Some (Delivered resp) => set_stage i (Finished (Ok resp)) c
      | Some Dropped => set_stage i (Finished (Err core_disconnected)) c
      | _ => c
      end
  | _ => c
  end.

(** [subscribe] up to the receiver: the control message.  The receiver is made
    by a statement of its own, [attach] of [EventStream]. *)
Definition subscribe (capability : option Capability) (topic : Topic) (c : Client)
    : Res CoreError unit * Client :=
  let '(ok, c) := tx_send (ESubscribe topic None capability) c in
  if ok : bool then (Ok tt, c) else (Err core_disconnected, c).

(** The broadcast channel has a sender left: the handle's, or the pump's. *)
Definition cl_senders (c : Client) : bool :=
  cl_handle c || match cl_phase c with Returned => false | _ => true end.

(** Dropping the handle: no call is in flight then. *)
Definition call_done (ca : Call) : bool :=
  match ca_stage ca with Finished _ => true | _ => false end.
Definition drop_handle (c : Client) : Client :=
  if forallb call_done (cl_calls c) then
    mkClient (cl_stream c) (cl_session c) (cl_buf c) (cl_rng c) (cl_outbound c) (cl_phase c)
      (cl_state c) (cl_mux c) (cl_events c) (cl_calls c) false
  else c.

(** ** Interleavings *)

Inductive ClStep : Type :=
| ClPump (fuel : nat)
| ClNew (req : Request)
| ClSend (i : nat)
| ClPoll (i : nat)
| ClSubscribe (capability : option Capability) (topic : Topic)
| ClDropHandle.

Definition cl_step (profile : MimicryProfile) (s : ClStep) (c : Client) : Client :=
  match s with
  | ClPump fuel => pump_step fuel profile c
  | ClNew req => if cl_handle c then call_new req c else c
  | ClSend i => call_send i c
  | ClPoll i => call_poll i c
  | ClSubscribe cap topic => if cl_handle c then (subscribe cap topic c).2 else c
  | ClDropHandle => drop_handle c
  end.

Definition cl_run (profile : MimicryProfile) (ss : list ClStep) (c : Client) : Client :=
  fold_left (fun c s => cl_step profile s c) ss c.

Inductive cl_reachable (profile : MimicryProfile) : Client -> Prop :=
| cl_reach_init stream session leftover rng :
    cl_reachable profile (connected stream session leftover rng)
| cl_reach_step s c : cl_reachable profile c -> cl_reachable profile (cl_step profile s c).

(** ** Responses reach the request with their id *)

(** A call belongs to a slot of its own id; what it returned came from there. *)
Record call_ok (mx : Mux) (ca : Call) : Prop := {
  co_slot : exists s, mx_slots mx !! ca_slot ca = Some s /\ sl_id s = request_id (ca_req ca);
  co_result : forall resp, ca_stage ca = Finished (Ok resp) ->
    response_id resp = request_id (ca_req ca);
}.

Record cl_wf (c : Client) : Prop := {
  cw_mux : mux_wf (cl_mux c);
  cw_calls : forall i ca, cl_calls c !! i = Some ca -> call_ok (cl_mux c) ca;
}.

Hint Resolve cw_mux : obfs.

Lemma call_ok_settles mx mx' ca : settles mx mx' -> call_ok mx ca -> call_ok mx' ca.
Proof.
  intros Hs [(s & Hn & Hid) Hr]. split; [|done].
  destruct (Hs _ _ Hn) as (s' & Hn' & Hid' & _). exists s'. split; [done|congruence].
Qed.

(** A step that touches no call and only settles slots. *)
Lemma cl_wf_settles c c' :
  cl_wf c -> mux_wf (cl_mux c') -> settles (cl_mux c) (cl_mux c') -> cl_calls c' = cl_calls c ->
  cl_wf c'.
Proof.
  intros [_ Hc] Hm Hs Ec. split; [done|]. intros i ca. rewrite Ec. intros H.
  eapply call_ok_settles; [done|by eapply Hc].
Qed.

Lemma cl_wf_same c c' :
  cl_wf c -> cl_mux c' = cl_mux c -> cl_calls c' = cl_calls c -> cl_wf c'.
Proof.
  intros HW Em Ec. apply (cl_wf_settles c); rewrite ?Em; [done|apply HW|apply settles_refl|done].
Qed.

Lemma set_stage_wf i st c :
  cl_wf c ->
  (forall ca resp, cl_calls c !! i = Some ca -> st = Finished (Ok resp) ->
     response_id resp = request_id (ca_req ca)) ->
  cl_wf (set_stage i st c).
Proof.
  intros [Hm Hc] Hst. split; [done|]. simpl. intros j ca. rewrite list_lookup_alter.
  case_decide as E; [subst j|by apply Hc].
  intros (ca0 & H0 & ->)%fmap_Some. destruct (Hc _ _ H0) as [Hs _]. split; [done|]. simpl.
  intros resp ->. by eapply Hst.
Qed.

Lemma client_send_frame profile env lost c :
  cl_mux (client_send profile env lost c) = cl_mux c /\
  cl_calls (client_send profile env lost c) = cl_calls c.
Proof.
  unfold client_send. destruct (jitter _ _). by destruct (send_frame _ _ _) as [? [[] ?]].
Qed.

Lemma pump_step_wf fuel profile c : cl_wf c -> cl_wf (pump_step fuel profile c).
Proof.
  intros HW. unfold pump_step. destruct (cl_phase c); try done.
  - unfold pump_turn. destruct (cl_outbound c) as [|env q].
    + destruct (recv_frame _ _ _) as [[[env|e]|] [[io' s'] buf']]; try by apply (cl_wf_same c).
      destruct env; simpl; try by apply (cl_wf_same c).
      * apply (cl_wf_settles c); simpl; eauto with obfs.
      * edestruct client_send_frame as [Em Ec]. apply (cl_wf_same c); [done|by rewrite Em|by rewrite Ec].
    + destruct (client_send_frame profile env Broken (cl_set_outbound q c)) as [Em Ec].
      by apply (cl_wf_same c).
  - by apply (cl_wf_same c).
  - apply (cl_wf_settles c); simpl; eauto with obfs.
  - by apply (cl_wf_same c).
Qed.

Lemma call_new_wf req c : cl_wf c -> cl_wf (call_new req c).
Proof.
  intros [Hm Hc]. unfold call_new.
  pose proof (mux_insert_wf (request_id req) _ Hm) as Hm'.
  pose proof (mux_insert_settles (request_id req) (cl_mux c)) as Hs.
  pose proof (mux_insert_slot (request_id req) (cl_mux c)) as Hn.
  destruct (mux_insert (request_id req) (cl_mux c)) as [n mx]. simpl in *.
  split; [done|]. simpl. intros i ca [H|[_ H]]%lookup_app_Some.
  - eapply call_ok_settles; [done|by eapply Hc].
  - apply list_lookup_singleton_Some in H as [_ <-]. split; [by eexists|done].
Qed.

Lemma call_send_wf i c : cl_wf c -> cl_wf (call_send i c).
Proof.
  intros HW. unfold call_send. destruct (cl_calls c !! i) as [[req n []]|]; try done.
  unfold tx_send. destruct (cl_phase c); simpl;
    (apply set_stage_wf; [|done]); try by apply (cl_wf_same c).
  apply (cl_wf_settles c); simpl; eauto with obfs.
Qed.

Lemma call_poll_wf i c : cl_wf c -> cl_wf (call_poll i c).
Proof.
  intros HW. unfold call_poll. destruct (cl_calls c !! i) as [[req n []]|] eqn:Ei; try done.
  destruct (mx_slots (cl_mux c) !! n) as [[id st]|] eqn:En; simpl; [|done].
  destruct st as [|resp|]; try done; apply set_stage_wf; try done.
  intros ca resp' Hca [= <-]. rewrite Ei in Hca. injection Hca as <-. simpl.
  destruct (cw_calls c HW _ _ Ei) as [(s & Hs & Hid) _]. simpl in Hs, Hid.
  rewrite En in Hs. injection Hs as <-. rewrite <-Hid. simpl.
  by eapply mw_delivered; [apply HW|].
Qed.

Lemma cl_step_wf profile s c : cl_wf c -> cl_wf (cl_step profile s c).
Proof.
  intros HW. destruct s; simpl; auto using pump_step_wf, call_send_wf, call_poll_wf.
  - destruct (cl_handle c); auto using call_new_wf.
  - destruct (cl_handle c); [|done]. unfold subscribe, tx_send.
    destruct (cl_phase c); simpl; by apply (cl_wf_same c).
  - unfold drop_handle. destruct (forallb _ _); by apply (cl_wf_same c).
Qed.

Lemma cl_reachable_wf profile c : cl_reachable profile c -> cl_wf c.
Proof.
  induction 1; [|by apply cl_step_wf]. split; [apply mux_new_wf|]. intros i ca H. done.
Qed.

(** C17: however calls, pump and disconnection
    interleave, and however many requests are in flight, with equal ids or
    not, a [request] call returns a response only if that response carries the
    id of its own request. *)
Theorem responses_match_requests profile c i ca resp :
  cl_reachable profile c -> cl_calls c !! i = Some ca -> ca_stage ca = Finished (Ok resp) ->
  response_id resp = request_id (ca_req ca).
Proof. intros HW%cl_reachable_wf Hi. by apply (cw_calls c HW i ca Hi). Qed.

(** ** Disconnection *)

Lemma set_stage_calls i st c : cl_calls (set_stage i st c) !! i =
  (fun ca => mkCall (ca_req ca) (ca_slot ca) st) <$> cl_calls c !! i.
Proof. simpl. apply list_lookup_alter_eq. Qed.

(** C31: when the pump has left its loop, its next two
    statements set the state to [Down] and fail every request that was waiting:
    each awaiting call, polled, returns what was already delivered to it or
    [Disconnected]; none is left waiting. *)
Theorem disconnect_fails_pending profile c f1 f2 :
  cl_reachable profile c -> cl_phase c = Broken ->
  let c' := cl_run profile [ClPump f1; ClPump f2] c in
  state c' = Down /\
  forall i ca, cl_calls c !! i = Some ca -> ca_stage ca = Awaiting ->
    exists r, cl_calls (call_poll i c') !! i = Some (mkCall (ca_req ca) (ca_slot ca) (Finished r)) /\
      (r = Err core_disconnected \/
       exists resp id, r = Ok resp /\
         mx_slots (cl_mux c) !! ca_slot ca = Some (mkSlot id (Delivered resp))).
Proof.
  intros HW%cl_reachable_wf Hph. unfold cl_run. simpl. unfold pump_step. rewrite Hph. simpl.
  split; [done|]. intros i ca Hi Hst.
  destruct (cw_calls c HW i ca Hi) as [(s & Hs & _) _].
  unfold call_poll. simpl. rewrite Hi. destruct ca as [req n st]. simpl in *. subst st.
  change (imap _ _) with (mx_slots (mux_drain (cl_mux c))).
  rewrite mux_drain_slots, Hs by apply HW. simpl. destruct s as [id st]. unfold drop_sender. simpl.
  destruct st as [|resp|]; simpl; rewrite list_lookup_alter_eq, Hi; simpl.
  - eexists. split; [done|]. by left.
  - eexists. split; [done|]. right. by exists resp, id.
  - eexists. split; [done|]. by left.
Qed.

(** ** A request that races with the end of the pump *)

(** Call [i] waits on a slot nobody will settle: the pump has returned, the
    sender sits in the map, and no other call shares its id. *)
Record stuck (i : nat) (req : Request) (n : nat) (c : Client) : Prop := {
  st_phase : cl_phase c = Returned;
  st_mux : mux_wf (cl_mux c);
  st_call : cl_calls c !! i = Some (mkCall req n Awaiting);
  st_slot : mx_slots (cl_mux c) !! n = Some (mkSlot (request_id req) Waiting);
  st_other : forall j ca, j <> i -> cl_calls c !! j = Some ca ->
    request_id (ca_req ca) <> request_id req;
}.

Definition other_id (req : Request) (s : ClStep) : Prop :=
  match s with ClNew req' => request_id req' <> request_id req | _ => True end.

(** An operation on another id leaves a waiting slot waiting. *)
Lemma alter_other_slot mx id id' n k f :
  mux_wf mx -> mx_map mx !! id' = Some k -> id' <> id ->
  mx_slots mx !! n = Some (mkSlot id Waiting) ->
  alter f k (mx_slots mx) !! n = Some (mkSlot id Waiting).
Proof.
  intros HW Hk Hne Hn. rewrite list_lookup_alter_ne; [done|]. intros ->.
  apply (mw_entry mx HW) in Hk. congruence.
Qed.

Lemma mux_remove_other mx id id' n :
  mux_wf mx -> id' <> id -> mx_slots mx !! n = Some (mkSlot id Waiting) ->
  mx_slots (mux_remove id' mx) !! n = Some (mkSlot id Waiting).
Proof.
  intros HW Hne Hn. unfold mux_remove. destruct (mx_map mx !! id') as [k|] eqn:E; [|done].
  simpl. by eapply alter_other_slot.
Qed.

Lemma set_stage_stuck i req n j st c :
  j <> i -> stuck i req n c -> stuck i req n (set_stage j st c).
Proof.
  intros Hne [H1 H2 H3 H4 H5]. split; simpl; try done.
  - by rewrite list_lookup_alter_ne.
  - intros k ca Hk. rewrite list_lookup_alter. case_decide; [|by apply H5].
    intros (ca0 & H0 & ->)%fmap_Some. simpl. subst k. by eapply H5.
Qed.

Lemma call_send_stuck i req n j c : stuck i req n c -> stuck i req n (call_send j c).
Proof.
  intros HS. unfold call_send. destruct (cl_calls c !! j) as [[req' n' []]|] eqn:Ej; try done.
  assert (j <> i) as Hne by (intros ->; rewrite (st_call _ _ _ _ HS) in Ej; done).
  unfold tx_send. rewrite (st_phase _ _ _ _ HS). simpl. apply set_stage_stuck; [done|].
  pose proof (st_other _ _ _ _ HS _ _ Hne Ej) as Hid. simpl in Hid.
  destruct HS as [H1 H2 H3 H4 H5]. split; simpl; try done; [by apply mux_remove_wf|].
  by apply mux_remove_other.
Qed.

Lemma call_poll_stuck i req n j c : stuck i req n c -> stuck i req n (call_poll j c).
Proof.
  intros HS. unfold call_poll. destruct (cl_calls c !! j) as [[req' n' []]|] eqn:Ej; try done.
  destruct (decide (j = i)) as [->|Hne].
  - rewrite (st_call _ _ _ _ HS) in Ej. injection Ej as <- <-.
    by rewrite (st_slot _ _ _ _ HS).
  - destruct (sl_state <$> _) as [[]|]; try done; by apply set_stage_stuck.
Qed.

Lemma call_new_stuck i req n req' c :
  request_id req' <> request_id req -> stuck i req n c -> stuck i req n (call_new req' c).
Proof.
  intros Hid [H1 H2 H3 H4 H5]. unfold call_new. rewrite mux_insert_remove.
  pose proof (mux_insert_wf (request_id req') _ H2) as Hw. rewrite mux_insert_remove in Hw.
  split; simpl; try done.
  - by apply lookup_app_l_Some.
  - by apply lookup_app_l_Some, mux_remove_other.
  - intros j ca Hj [H|[_ H]]%lookup_app_Some; [by eapply H5|].
    by apply list_lookup_singleton_Some in H as [_ <-].
Qed.

Lemma cl_step_stuck profile i req n s c :
  other_id req s -> stuck i req n c -> stuck i req n (cl_step profile s c).
Proof.
  intros Ho HS. destruct s as [f|req'|j|j|cap topic|]; simpl.
  - unfold pump_step. by rewrite (st_phase _ _ _ _ HS).
  - destruct (cl_handle c); [by apply call_new_stuck|done].
  - by apply call_send_stuck.
  - by apply call_poll_stuck.
  - destruct (cl_handle c); [|done]. unfold subscribe, tx_send. by rewrite (st_phase _ _ _ _ HS).
  - unfold drop_handle. destruct (forallb _ _); [|done]. by destruct HS.
Qed.

(** C34: a [request] that inserts its entry and queues its
    envelope between the pump's drain and the pump's return waits for ever: the
    send succeeds, the entry was not there to be drained, and nobody is left to
    settle it.  Whatever the other calls do afterwards (none of them with the
    same id), it never returns. *)
Theorem request_can_hang profile c req f ss :
  cl_reachable profile c -> cl_phase c = Drained -> cl_handle c = true ->
  (forall j ca, cl_calls c !! j = Some ca -> request_id (ca_req ca) <> request_id req) ->
  Forall (other_id req) ss ->
  let i := length (cl_calls c) in
  exists n,
    cl_calls (cl_run profile ([ClNew req; ClSend i; ClPump f] ++ ss) c) !! i
      = Some (mkCall req n Awaiting).
Proof.
  intros HW%cl_reachable_wf Hph Hh Hid Hss. cbv zeta. unfold cl_run. rewrite fold_left_app.
  set (c1 := fold_left _ [_; _; _] c).
  assert (exists n, stuck (length (cl_calls c)) req n c1) as [n HS].
  { exists (length (mx_slots (cl_mux c))). subst c1. cbn [fold_left cl_step]. rewrite Hh.
    unfold call_new. rewrite mux_insert_remove.
    pose proof (mux_insert_wf (request_id req) _ (cw_mux c HW)) as Hw.
    pose proof (mux_insert_slot (request_id req) (cl_mux c)) as Hn.
    rewrite mux_insert_remove in Hw, Hn. simpl in Hw, Hn.
    unfold call_send. simpl. rewrite list_lookup_middle by done. unfold tx_send. simpl. rewrite Hph.
    unfold pump_step. simpl. rewrite Hph. split; simpl; try done.
    - rewrite list_lookup_alter_eq, list_lookup_middle by done. done.
    - intros j ca Hj. rewrite list_lookup_alter_ne by done.
      intros [H|[Hlt H]]%lookup_app_Some; [by eapply Hid|].
      apply list_lookup_singleton_Some in H as [Hz _]. lia. }
  exists n. clearbody c1. apply (st_call _ _ n). revert c1 HS.
  induction Hss as [|s ss Hs _ IH]; intros c1 HS; [done|]. simpl. apply IH.
  by apply cl_step_stuck.
Qed.

(** ** Event streams *)

Lemma cl_step_events profile s c : cl_events c `prefix_of` cl_events (cl_step profile s c).
Proof.
  assert (forall env lost c, cl_events (client_send profile env lost c) = cl_events c) as Hsend.
  { intros env lost c'. unfold client_send. destruct (jitter _ _).
    by destruct (send_frame _ _ _) as [? [[] ?]]. }
  destruct s as [fuel|req|i|i|cap topic|]; simpl.
  - unfold pump_step. destruct (cl_phase c); try done. unfold pump_turn.
    destruct (cl_outbound c); [|by rewrite Hsend].
    destruct (recv_frame _ _ _) as [[[env|]|] [[io' s'] buf']]; try done.
    destruct env; try done; simpl; [by apply prefix_app_r|by rewrite Hsend].
  - destruct (cl_handle c); [|done]. unfold call_new. by destruct (mux_insert _ _).
  - unfold call_send. destruct (cl_calls c !! i) as [[req n []]|]; try done.
    unfold tx_send. by destruct (cl_phase c).
  - unfold call_poll. destruct (cl_calls c !! i) as [[req n []]|]; try done.
    by destruct (sl_state <$> _) as [[]|].
  - destruct (cl_handle c); [|done]. unfold subscribe, tx_send. by destruct (cl_phase c).
  - unfold drop_handle. by destruct (forallb _ _).
Qed.

Lemma cl_step_senders profile s c :
  cl_senders c = false -> cl_senders (cl_step profile s c) = false.
Proof.
  unfold cl_senders. intros [Hh Hp]%orb_false_iff.
  assert (cl_phase c = Returned) as Hr by (by destruct (cl_phase c)).
  destruct s as [fuel|req|i|i|cap topic|]; simpl.
  - unfold pump_step. by rewrite Hr, Hh.
  - rewrite Hh. by rewrite Hh, Hr.
  - unfold call_send. destruct (cl_calls c !! i) as [[req n []]|]; try by rewrite Hh, Hr.
    unfold tx_send. rewrite Hr. simpl. by rewrite Hh, Hr.
  - unfold call_poll. destruct (cl_calls c !! i) as [[req n []]|]; try by rewrite Hh, Hr.
    destruct (sl_state <$> _) as [[]|]; simpl; by rewrite Hh, Hr.
  - rewrite Hh. by rewrite Hh, Hr.
  - unfold drop_handle. destruct (forallb _ _); simpl; by rewrite ?Hh, Hr.
Qed.

(** After the pump has returned, a step that does not drop the handle
    broadcasts nothing and keeps the sender of the handle. *)
Record orphaned (n : nat) (c : Client) : Prop := {
  or_phase : cl_phase c = Returned;
  or_state : cl_state c = Down;
  or_handle : cl_handle c = true;
  or_events : length (cl_events c) = n;
}.

Lemma cl_step_orphaned profile n s c :
  s <> ClDropHandle -> orphaned n c -> orphaned n (cl_step profile s c).
Proof.
  intros Hs [H1 H2 H3 H4]. destruct s as [fuel|req|i|i|cap topic|]; simpl.
  - unfold pump_step. by rewrite H1.
  - rewrite H3. unfold call_new. by destruct (mux_insert _ _).
  - unfold call_send. destruct (cl_calls c !! i) as [[req n' []]|]; try done.
    unfold tx_send. by rewrite H1.
  - unfold call_poll. destruct (cl_calls c !! i) as [[req n' []]|]; try done.
    by destruct (sl_state <$> _) as [[]|].
  - rewrite H3. unfold subscribe, tx_send. by rewrite H1.
  - done.
Qed.

Context {BA : BroadcastApi} {BL : BroadcastLaws}.

(** C38: a subscriber that has read every event
    of a connection which then went down learns nothing of it: as long as the
    transport handle is kept, which holds a sender of the broadcast channel,
    its stream neither yields [Disconnected] nor ends, however often it is
    polled and whatever else happens, although the state is [Down] and the
    pump has returned. *)
Theorem event_stream_outlives_connection profile ss (u : Subscription (St := Client)) :
  cl_phase (su_state u) = Returned -> cl_state (su_state u) = Down ->
  cl_handle (su_state u) = true ->
  su_stream u = mkRawStream (length (cl_events (su_state u))) false ->
  Forall (fun s => s <> SubMove ClDropHandle) ss ->
  let u' := sub_run (cl_step profile) cl_events cl_senders ss u in
  su_yielded u' = su_yielded u /\ cl_state (su_state u') = Down /\
  raw_poll (cl_events (su_state u')) (cl_senders (su_state u')) (su_stream u')
    = (Pending, su_stream u').
Proof.
  intros H1 H2 H3 Hrs Hss.
  remember (length (cl_events (su_state u))) as n eqn:Hn.
  assert (orphaned n (su_state u)) as HO by done. clear H1 H2 H3 Hn. revert u Hrs HO.
  assert (forall u, su_stream u = mkRawStream n false -> orphaned n (su_state u) ->
    raw_poll (cl_events (su_state u)) (cl_senders (su_state u)) (su_stream u)
      = (Pending, su_stream u)) as Hpoll.
  { intros u -> [H1 _ H3 H4]. unfold raw_poll, cl_senders. rewrite H3. cbn [rs_done rs_next orb].
    rewrite raw_loop_enough. unfold catch_up. rewrite Nat.max_l by lia. cbv zeta.
    by rewrite lookup_ge_None_2 by lia. }
  induction Hss as [|s ss Hs _ IH]; intros u Hrs HO; cbv zeta.
  - split_and!; [done|by apply HO|by apply Hpoll].
  - destruct s as [s|]; simpl.
    + apply (IH (mkSubscription _ _ _)); [done|]. simpl.
      apply cl_step_orphaned; [by intros ->|done].
    + rewrite (Hpoll u Hrs HO), app_nil_r. by apply (IH (mkSubscription _ _ _)).
Qed.

(** ** The pump without a handle *)

Context {AV : AsyncView S} {AL : AsyncIoLaws S}.

(** C37: dropping the transport closes the outbound queue but
    does not end the pump: with the queue empty, no complete frame in the buffer
    and a peer that stays silent, the pump goes on waiting for inbound frames through any number of
    iterations, and the connection stays up. *)
Theorem pump_outlives_handle profile c fuel k :
  cl_phase c = Looping -> cl_outbound c = [] -> cl_handle c = false -> cl_state c = Connected ->
  frame_in profile (cl_buf c) = (NeedMore, cl_buf c) ->
  v_in (view (cl_stream c)) = [] -> v_fin (view (cl_stream c)) = FinWait ->
  let c' := cl_run profile (repeat (ClPump fuel) k) c in
  cl_phase c' = Looping /\ cl_state c' = Connected.
Proof.
  revert c. induction k as [|k IH]; intros c Hph Hq Hh Hst Hf Hin Hfin; [done|].
  change (cl_run profile (repeat (ClPump fuel) (Datatypes.S k)) c)
    with (cl_run profile (repeat (ClPump fuel) k) (pump_step fuel profile c)).
  unfold pump_step. rewrite Hph. unfold pump_turn. rewrite Hq.
  destruct fuel as [|fuel]; simpl; [by apply IH|].
  destruct (read_none 4096 (cl_stream c) ltac:(lia) Hin) as (io' & Hr & Hv).
  rewrite Hf, Hr, Hfin. simpl. apply IH; simpl; rewrite ?Hv; done.
Qed.

(** ** A request and its response *)

Context (p : MimicryProfile) {PL : ProfileLaws p}.
Context (half : Session -> Session -> Prop) {DX : DuplexLaws half} {JL : SerdeLaws}.

(** The pump sends the next queued envelope. *)
Lemma pump_sends fuel c env q :
  cl_phase c = Looping -> cl_outbound c = env :: q -> Duplex.sendable p env ->
  v_wr (view (cl_stream c)) = true ->
  exists w io' session' rng',
    view io' = emit w (view (cl_stream c)) /\
    said (S := S) p half [env] (cl_session c) session' w /\
    (forall x, half x (cl_session c) -> half x session') /\
    pump_step fuel p c = mkClient io' session' (cl_buf c) rng' q Looping (cl_state c) (cl_mux c)
                           (cl_events c) (cl_calls c) (cl_handle c).
Proof.
  intros Hph Hq He Hw. unfold pump_step, pump_turn. rewrite Hph, Hq.
  unfold client_send. simpl. destruct (jitter p (cl_rng c)) as [d rng].
  destruct (send_frame_sendable p env (cl_stream c) (cl_session c) rng He Hw)
    as (w & io' & s' & rng' & Hs & Hv).
  exists w, io', s', rng'. split_and!; [done|by eapply said_one| |by rewrite Hs].
  intros x. by apply (send_frame_keeps_rx p half _ _ _ _ _ _ _ _ Hs).
Qed.

(** The pump receives the response of the entry [n] under its id. *)
Lemma pump_receives fuel c resp n sio ssession srng sio' ssession' srng' w rest :
  cl_phase c = Looping -> cl_outbound c = [] ->
  send_frame (EResponse resp) p (sio, ssession, srng) = (Ready (Ok tt), (sio', ssession', srng')) ->
  view sio' = emit w (view sio) -> half ssession (cl_session c) ->
  cl_buf c ++ v_in (view (cl_stream c)) = w ++ rest -> length (v_in (view (cl_stream c))) < fuel ->
  mx_map (cl_mux c) !! response_id resp = Some n ->
  mx_slots (cl_mux c) !! n = Some (mkSlot (response_id resp) Waiting) ->
  let c' := pump_step fuel p c in
  mx_slots (cl_mux c') !! n = Some (mkSlot (response_id resp) (Delivered resp)) /\
  cl_calls c' = cl_calls c /\ cl_phase c' = Looping /\ half ssession' (cl_session c') /\
  v_out (view (cl_stream c')) = v_out (view (cl_stream c)) /\
  cl_buf c' ++ v_in (view (cl_stream c')) = rest.
Proof.
  intros Hph Hq Hs Hv Hp Hb Hf Hn Hsl. cbv zeta. unfold pump_step, pump_turn. rewrite Hph, Hq.
  destruct (send_recv_frame p half _ _ _ _ _ _ _ w rest fuel _ _ _ Hs Hv Hp Hb Hf)
    as (k & io1 & s1 & buf1 & Hr & Hp1 & Hk & Hrest).
  rewrite Hr. simpl. unfold mux_resolve. rewrite Hn. simpl.
  rewrite list_lookup_alter_eq, Hsl, Hk. by rewrite Hk in Hrest.
Qed.

(** A [request] call whose peer answers with a
    response of the same id returns that response: the call queues the
    request, the pump's next turn writes it in a frame the peer reads back as
    that request, the turn after receives the response however it is cut into
    reads, and the call returns it. *)
Lemma request_returns_response fuel c req resp sio ssession srng sio' ssession' srng' w rest :
  cl_reachable p c -> cl_handle c = true -> cl_phase c = Looping -> cl_outbound c = [] ->
  v_wr (view (cl_stream c)) = true -> Duplex.sendable p (ERequest req) ->
  response_id resp = request_id req ->
  send_frame (EResponse resp) p (sio, ssession, srng) = (Ready (Ok tt), (sio', ssession', srng')) ->
  view sio' = emit w (view sio) -> half ssession (cl_session c) ->
  cl_buf c ++ v_in (view (cl_stream c)) = w ++ rest -> length (v_in (view (cl_stream c))) < fuel ->
  let i := length (cl_calls c) in
  let c' := cl_run p [ClNew req; ClSend i; ClPump fuel; ClPump fuel; ClPoll i] c in
  exists n wq,
    cl_calls c' !! i = Some (mkCall req n (Finished (Ok resp))) /\
    v_out (view (cl_stream c')) = v_out (view (cl_stream c)) ++ wq /\
    (exists session1, said (S := S) p half [ERequest req] (cl_session c) session1 wq) /\
    cl_phase c' = Looping /\ half ssession' (cl_session c') /\
    cl_buf c' ++ v_in (view (cl_stream c')) = rest.
Proof.
  intros HW%cl_reachable_wf Hh Hph Hq Hw He Hid Hs Hv Hp Hb Hf. cbv zeta.
  unfold cl_run. cbn [fold_left cl_step]. rewrite Hh. unfold call_new.
  pose proof (mux_insert_wf (request_id req) _ (cw_mux c HW)) as HM.
  pose proof (mux_insert_slot (request_id req) (cl_mux c)) as Hn.
  destruct (mux_insert (request_id req) (cl_mux c)) as [n mx]. simpl in HM, Hn.
  unfold call_send. simpl. rewrite list_lookup_middle by done. unfold tx_send. simpl.
  rewrite Hph. simpl.
  set (c2 := set_stage _ _ _).
  destruct (pump_sends fuel c2 (ERequest req) []) as (wq & io' & s' & rng' & Hv1 & Hsaid & Hrx & E1);
    [done|simpl; by rewrite Hq|done|done|].
  rewrite E1. set (c3 := mkClient io' _ _ _ _ _ _ _ _ _ _).
  destruct (pump_receives fuel c3 resp n sio ssession srng sio' ssession' srng' w rest)
    as (R1 & R2 & R3 & R4 & R5 & R6);
    [done|done|done|done|by apply Hrx|simpl; by rewrite Hv1|simpl; by rewrite Hv1
    |simpl; rewrite Hid; by apply (mw_waiting _ HM)|simpl; by rewrite Hid|].
  set (c4 := pump_step fuel p c3) in *.
  assert (cl_calls c4 !! length (cl_calls c) = Some (mkCall req n Awaiting)) as Hcall.
  { rewrite R2. simpl. by rewrite list_lookup_alter_eq, list_lookup_middle. }
  unfold call_poll. rewrite Hcall, R1. simpl.
  exists n, wq. rewrite list_lookup_alter_eq, Hcall.
  split_and!; [done| |by exists s'|done|done|done].
  rewrite R5. simpl. by rewrite Hv1.
Qed.

End Client.
Arguments Client {_ _} S.

(** ** Concrete runs *)

Module ClientRuns.
Import Ref RefBroadcast.

Definition r1 : core.(Request) := str "r1".
Definition resp1 : core.(Response) := (str "r1", x00).
Definition idle : Script := mkScript [] FinWait [] None.

(** A client whose peer answers the request "r1", in two reads. *)
Definition answer : bytes := [x00; x00; x00; x05; x00; x02; x00; x72; x31].
Definition fresh (chunks : list bytes) (f : Fin) : Client Script :=
  connected (mkScript chunks f [] None) (mkRSession 0 0) [] 0.
Definition talking : Client Script := fresh [take 3 answer; drop 3 answer] FinWait.

Definition whole_call : list ClStep := [ClNew r1; ClSend 0; ClPump 20; ClPump 20; ClPoll 0].

Lemma cl_run_reachable ss c : cl_reachable vanilla c -> cl_reachable vanilla (cl_run vanilla ss c).
Proof.
  revert c. induction ss as [|s ss IH]; intros c HR; [done|]. apply (IH (cl_step vanilla s c)).
  by constructor.
Qed.

Lemma fresh_reachable chunks f : cl_reachable vanilla (fresh chunks f).
Proof. constructor. Qed.

Lemma responses_match_requests_witness : response_id resp1 = request_id r1.
Proof.
  refine (responses_match_requests vanilla (cl_run vanilla whole_call talking) 0
            (mkCall r1 0 (Finished (Ok resp1))) resp1 _ _ _).
  - apply cl_run_reachable, fresh_reachable.
  - reflexivity.
  - reflexivity.
Defined.

Lemma sendable_r1 : Duplex.sendable vanilla (ERequest r1).
Proof.
  eexists. split; [reflexivity|]. intros session rng. eexists _, _, _, _. split; reflexivity.
Qed.

Lemma request_returns_response_example :
  exists n wq,
    cl_calls (cl_run vanilla whole_call talking) !! 0 = Some (mkCall r1 n (Finished (Ok resp1))) /\
    v_out (view (cl_stream (cl_run vanilla whole_call talking))) = [] ++ wq /\
    (exists session1, said (S := Script) vanilla half [ERequest r1] (mkRSession 0 0) session1 wq) /\
    cl_phase (cl_run vanilla whole_call talking) = Looping /\
    half (mkRSession 1 0) (cl_session (cl_run vanilla whole_call talking)) /\
    cl_buf (cl_run vanilla whole_call talking) ++
      v_in (view (cl_stream (cl_run vanilla whole_call talking))) = [].
Proof.
  refine (request_returns_response vanilla half 20 talking r1 resp1 idle (mkRSession 0 0) 0
            (mkScript [] FinWait answer None) (mkRSession 1 0) 0 answer [] _ _ _ _ _ _ _ _ _ _ _ _);
    try reflexivity.
  - apply fresh_reachable.
  - apply sendable_r1.
  - vm_compute. lia.
Defined.

(** The peer hangs up while the request is pending. *)
Definition cut_off : Client Script := cl_run vanilla [ClNew r1; ClSend 0; ClPump 20; ClPump 20] (fresh [] FinEof).

Lemma disconnect_fails_pending_witness :
  state (cl_run vanilla [ClPump 0; ClPump 0] cut_off) = Down.
Proof.
  refine (proj1 (disconnect_fails_pending vanilla cut_off 0 0 _ _)).
  - apply cl_run_reachable, fresh_reachable.
  - reflexivity.
Defined.

(** The same, with a request that starts after the drain. *)
Definition drained : Client Script :=
  cl_run vanilla [ClPump 20; ClPump 0; ClPump 0] (fresh [] FinEof).

Lemma request_can_hang_witness :
  exists n,
    cl_calls (cl_run vanilla ([ClNew r1; ClSend 0; ClPump 0] ++ [ClPoll 0; ClPump 9; ClPoll 0]) drained)
      !! 0 = Some (mkCall r1 n Awaiting).
Proof.
  refine (request_can_hang vanilla drained r1 0 [ClPoll 0; ClPump 9; ClPoll 0] _ _ _ _ _).
  - apply cl_run_reachable, fresh_reachable.
  - reflexivity.
  - reflexivity.
  - intros j ca H. discriminate H.
  - repeat constructor.
Defined.

(** A subscriber of a connection whose peer hangs up. *)
Definition hung_up : Subscription :=
  sub_run (cl_step vanilla) cl_events cl_senders
    [SubMove (ClPump 20); SubMove (ClPump 0); SubMove (ClPump 0); SubMove (ClPump 0)]
    (attach cl_events (fresh [] FinEof)).

Lemma event_stream_outlives_connection_witness :
  let u' := sub_run (cl_step vanilla) cl_events cl_senders
              [SubPoll; SubMove (ClNew r1); SubPoll] hung_up in
  su_yielded u' = [] /\ cl_state (su_state u') = Down /\
  raw_poll (cl_events (su_state u')) (cl_senders (su_state u')) (su_stream u')
    = (Pending, su_stream u').
Proof.
  refine (event_stream_outlives_connection vanilla [SubPoll; SubMove (ClNew r1); SubPoll] hung_up
            _ _ _ _ _); try reflexivity.
  repeat (apply List.Forall_cons; [discriminate|]). apply List.Forall_nil.
Defined.

(** The handle is dropped on a silent connection. *)
Lemma pump_outlives_handle_witness :
  cl_phase (cl_run vanilla (repeat (ClPump 20) 3) (cl_run vanilla [ClDropHandle] (fresh [] FinWait)))
    = Looping /\
  cl_state (cl_run vanilla (repeat (ClPump 20) 3) (cl_run vanilla [ClDropHandle] (fresh [] FinWait)))
    = Connected.
Proof.
  refine (pump_outlives_handle vanilla (cl_run vanilla [ClDropHandle] (fresh [] FinWait)) 20 3
            _ _ _ _ _ _ _); reflexivity.
Defined.

End ClientRuns.
