(* ===== verification/UdpClient.v ===== *)
(** * The UDP client

    [src/udp/client.rs]: the pump, the retransmitting [request], [subscribe]
    and [connect_udp].  As in [Client], each statement that touches shared
    state is a step; here a call that is still waiting when its turn comes has
    run into its retransmission timeout. *)

From S2P Require Import Prelude RustStd Externals Envelope UdpWire DataPlane PendingMap.
From S2P Require Import Stream EventStream TopicStream UdpHandshake UdpConnect Client Instances.

Definition MAX_REQUEST_RETRIES : nat := 10.

Section UdpClient.
Context {WA : WireApi} {CA : CoreApi} {SA : SerdeApi}.

(** A call of [request], in iteration [uc_retry] of its loop. *)
Inductive UcStage : Type :=
| UcLoop                                   (** at the head of the loop *)
| UcInserted                               (** its sender is in the map *)
| UcAwaiting                               (** sent, under the timeout *)
| UcFinished (r : Res CoreError Response).

Record UdpCall : Type := mkUdpCall {
  uc_req : Request; uc_slot : nat; uc_retry : nat; uc_stage : UcStage }.

Record UdpClient : Type := mkUdpClient {
  ul_chan : DataChannel;
  ul_rng : Rng;
  ul_outbound : list Envelope;
  ul_phase : Phase;
  ul_state : ConnectionState;
  ul_mux : Mux;
  ul_events : list Event;
  ul_calls : list UdpCall;
  ul_sent : list (SocketAddr * bytes);
}.

Definition ul_set_mux (mx : Mux) (c : UdpClient) : UdpClient :=
  mkUdpClient (ul_chan c) (ul_rng c) (ul_outbound c) (ul_phase c) (ul_state c) mx (ul_events c)
    (ul_calls c) (ul_sent c).
Definition ul_set_phase (ph : Phase) (c : UdpClient) : UdpClient :=
  mkUdpClient (ul_chan c) (ul_rng c) (ul_outbound c) ph (ul_state c) (ul_mux c) (ul_events c)
    (ul_calls c) (ul_sent c).
Definition ul_set_state (s : ConnectionState) (c : UdpClient) : UdpClient :=
  mkUdpClient (ul_chan c) (ul_rng c) (ul_outbound c) (ul_phase c) s (ul_mux c) (ul_events c)
    (ul_calls c) (ul_sent c).
Definition ul_set_outbound (q : list Envelope) (c : UdpClient) : UdpClient :=
  mkUdpClient (ul_chan c) (ul_rng c) q (ul_phase c) (ul_state c) (ul_mux c) (ul_events c)
    (ul_calls c) (ul_sent c).
Definition ul_set_calls (calls : list UdpCall) (c : UdpClient) : UdpClient :=
  mkUdpClient (ul_chan c) (ul_rng c) (ul_outbound c) (ul_phase c) (ul_state c) (ul_mux c)
    (ul_events c) calls (ul_sent c).
Definition ul_set_events (evs : list Event) (c : UdpClient) : UdpClient :=
  mkUdpClient (ul_chan c) (ul_rng c) (ul_outbound c) (ul_phase c) (ul_state c) (ul_mux c) evs
    (ul_calls c) (ul_sent c).
Definition ul_set_chan (ch : DataChannel) (c : UdpClient) : UdpClient :=
  mkUdpClient ch (ul_rng c) (ul_outbound c) (ul_phase c) (ul_state c) (ul_mux c) (ul_events c)
    (ul_calls c) (ul_sent c).

(** The state [connect_udp] starts the pump in. *)
Definition udp_connected (ch : DataChannel) (rng : Rng) : UdpClient :=
  mkUdpClient ch rng [] Looping Connected mux_new [] [] [].

(** [Connection::state] of [UdpObfsTransport]. *)
Definition udp_state (c : UdpClient) : ConnectionState := ul_state c.

(** [connect_udp] after name resolution ([resolved] is the first address of
    [lookup_host], [bound] the outcome of binding the socket). *)
Definition connect_udp (resolved : Res IoError (option SocketAddr)) (bound : Res IoError unit)
    (ents : nat -> Entropy) (rng rng' : Rng) (server_pub client_private : bytes)
    (profile : DatagramMimicry) (n : Net) : Poll (Res ObfsError UdpClient) * Net :=
  match resolved with
  | Err e => (Ready (Err (Io e)), n)
  | Ok None => (Ready (Err (Io (mkIoError NotFound (str "addr not resolved")))), n)
  | Ok (Some server_addr) =>
      match bound with
      | Err e => (Ready (Err (Io e)), n)
      | Ok _ =>
          match client_udp_handshake server_addr profile ents server_pub client_private rng n with
          | (Ready (Ok (channel, _)), n) => (Ready (Ok (udp_connected channel rng')), n)
          | (Ready (Err e), n) => (Ready (Err e), n)
          | (Pending, n) => (Pending, n)
          end
      end
  end.

Section Handle.
Context (server_addr : SocketAddr).

(** [if let Ok(wire) = channel.seal_envelope(&env, &mut rng) { sock.send_to(..) }]. *)
Definition ul_send (env : Envelope) (c : UdpClient) : UdpClient :=
  match seal_envelope (ul_chan c) env (ul_rng c) with
  | (r, ch', rng') =>
      mkUdpClient ch' rng' (ul_outbound c) (ul_phase c) (ul_state c) (ul_mux c) (ul_events c)
        (ul_calls c)
        (match r with Ok wire => ul_sent c ++ [(server_addr, wire)] | Err _ => ul_sent c end)
  end.

(** One iteration of [udp_pump]; [inbound] is what the socket yields if it is
    asked. *)
Definition udp_pump_turn (inbound : Res IoError bytes) (c : UdpClient) : UdpClient :=
  match ul_outbound c with
  | env :: q => ul_send env (ul_set_outbound q c)
  | [] =>
      match inbound with
      | Err _ => ul_set_phase Broken c
      | Ok dgram =>
          let '(r, ch') := open_datagram (ul_chan c) dgram in
          let c := ul_set_chan ch' c in
          match r with
          | Ok (Some (EResponse resp)) => ul_set_mux (mux_resolve resp (ul_mux c)) c
          | Ok (Some (EEvent ev)) => ul_set_events (ul_events c ++ [ev]) c
          | Ok (Some EPing) => ul_send EPong c
          | Ok (Some EPong) => c
          | Ok (Some _) | Ok None => c
          | Err _ => ul_set_phase Broken c
          end
      end
  end.

Definition udp_pump_step (inbound : Res IoError bytes) (c : UdpClient) : UdpClient :=
  match ul_phase c with
  | Looping => udp_pump_turn inbound c
  | Broken => ul_set_phase Marked (ul_set_state Down c)
  | Marked => ul_set_phase Drained (ul_set_mux (mux_drain (ul_mux c)) c)
  | Drained => ul_set_phase Returned (ul_set_outbound [] c)
  | Stalled | Returned => c
  end.

(** [self.outbound_tx.send(env)]. *)
Definition ul_tx_send (env : Envelope) (c : UdpClient) : bool * UdpClient :=
  match ul_phase c with
  | Returned => (false, c)
  | _ => (true, ul_set_outbound (ul_outbound c ++ [env]) c)
  end.

Definition ul_update (i : nat) (ca : UdpCall) (c : UdpClient) : UdpClient :=
  ul_set_calls (<[i := ca]> (ul_calls c)) c.

(** The next statement of call [i]: insert, send, or the end of the [timeout]
    around the oneshot. *)
Definition call_step (i : nat) (c : UdpClient) : UdpClient :=
  match ul_calls c !! i with
  | Some (mkUdpCall req n retry UcLoop) =>
      let '(n', mx) := mux_insert (request_id req) (ul_mux c) in
      ul_update i (mkUdpCall req n' retry UcInserted) (ul_set_mux mx c)
  | Some (mkUdpCall req n retry UcInserted) =>
      let '(ok, c) := ul_tx_send (ERequest req) c in
      if ok : bool then ul_update i (mkUdpCall req n retry UcAwaiting) c
      else ul_update i (mkUdpCall req n retry (UcFinished (Err core_disconnected)))
             (ul_set_mux (mux_remove (request_id req) (ul_mux c)) c)
  | Some (mkUdpCall req n retry UcAwaiting) =>
      match sl_state <$> mx_slots (ul_mux c) !! n with
      | Some (Delivered resp) => ul_update i (mkUdpCall req n retry (UcFinished (Ok resp))) c
      | Some Dropped => ul_update i (mkUdpCall req n retry (UcFinished (Err core_disconnected))) c
      | _ =>
          let c := ul_set_mux (mux_remove (request_id req) (ul_mux c)) c in
          if decide (retry = MAX_REQUEST_RETRIES)
          then ul_update i (mkUdpCall req n retry (UcFinished (Err core_timeout))) c
          else ul_update i (mkUdpCall req n (S retry) UcLoop) c
      end
  | _ => c
  end.

(** [subscribe] up to the receiver, as in the TCP client. *)
Definition udp_subscribe (capability : option Capability) (topic : Topic) (c : UdpClient)
    : Res CoreError unit * UdpClient :=
  let '(ok, c) := ul_tx_send (ESubscribe topic None capability) c in
  if ok : bool then (Ok tt, c) else (Err core_disconnected, c).

(** ** Interleavings *)

Inductive UcStep : Type :=
| UcPump (inbound : Res IoError bytes)
| UcNew (req : Request)
| UcCall (i : nat)
| UcSubscribe (capability : option Capability) (topic : Topic).

Definition uc_step (s : UcStep) (c : UdpClient) : UdpClient :=
  match s with
  | UcPump inbound => udp_pump_step inbound c
  | UcNew req => ul_set_calls (ul_calls c ++ [mkUdpCall req 0 0 UcLoop]) c
  | UcCall i => call_step i c
  | UcSubscribe cap topic => (udp_subscribe cap topic c).2
  end.

Definition uc_run (ss : list UcStep) (c : UdpClient) : UdpClient :=
  fold_left (fun c s => uc_step s c) ss c.

Inductive uc_reachable : UdpClient -> Prop :=
| uc_reach_init ch rng : uc_reachable (udp_connected ch rng)
| uc_reach_step s c : uc_reachable c -> uc_reachable (uc_step s c).

(** ** Responses reach the request with their id *)

(** While it is inserted or awaiting, a call refers to a slot of its own id. *)
Record uc_ok (mx : Mux) (ca : UdpCall) : Prop := {
  uo_slot : (uc_stage ca = UcInserted \/ uc_stage ca = UcAwaiting) ->
    exists s, mx_slots mx !! uc_slot ca = Some s /\ sl_id s = request_id (uc_req ca);
  uo_result : forall resp, uc_stage ca = UcFinished (Ok resp) ->
    response_id resp = request_id (uc_req ca);
  uo_retry : uc_retry ca <= MAX_REQUEST_RETRIES;
}.

Record ul_wf (c : UdpClient) : Prop := {
  uw_mux : mux_wf (ul_mux c);
  uw_calls : forall i ca, ul_calls c !! i = Some ca -> uc_ok (ul_mux c) ca;
}.

Hint Resolve uw_mux : obfs.

Lemma ul_wf_settles c c' :
  ul_wf c -> mux_wf (ul_mux c') -> settles (ul_mux c) (ul_mux c') -> ul_calls c' = ul_calls c ->
  ul_wf c'.
Proof.
  intros [_ Hc] Hm Hs Ec. split; [done|]. intros i ca. rewrite Ec. intros H.
  destruct (Hc _ _ H) as [Hsl Hr Ht]. split; [|done|done]. intros Hst.
  destruct (Hsl Hst) as (s & Hn & Hid). destruct (Hs _ _ Hn) as (s' & Hn' & Hid' & _).
  exists s'. split; [done|congruence].
Qed.

Lemma ul_wf_same c c' :
  ul_wf c -> ul_mux c' = ul_mux c -> ul_calls c' = ul_calls c -> ul_wf c'.
Proof.
  intros HW Em Ec. apply (ul_wf_settles c); rewrite ?Em; [done|apply HW|apply settles_refl|done].
Qed.

Lemma ul_update_wf i ca c : ul_wf c -> uc_ok (ul_mux c) ca -> ul_wf (ul_update i ca c).
Proof.
  intros [Hm Hc] Hca. split; [done|]. simpl. intros j x.
  rewrite list_lookup_insert_Some. intros [(_ & <- & _)|[_ H]]; [done|by eapply Hc].
Qed.

Lemma ul_send_frame env c :
  ul_mux (ul_send env c) = ul_mux c /\ ul_calls (ul_send env c) = ul_calls c /\
  ul_phase (ul_send env c) = ul_phase c.
Proof. unfold ul_send. by destruct (seal_envelope _ _ _) as [[]]. Qed.

Lemma udp_pump_step_wf inbound c : ul_wf c -> ul_wf (udp_pump_step inbound c).
Proof.
  intros HW. unfold udp_pump_step. destruct (ul_phase c); try done.
  - unfold udp_pump_turn. destruct (ul_outbound c) as [|env q].
    + destruct inbound as [dgram|e]; [|by apply (ul_wf_same c)].
      destruct (open_datagram _ _) as [[[env|]|] ch']; try by apply (ul_wf_same c).
      destruct env; simpl; try by apply (ul_wf_same c).
      * apply (ul_wf_settles c); simpl; eauto with obfs.
      * destruct (ul_send_frame EPong (ul_set_chan ch' c)) as (Em & Ec & _).
        by apply (ul_wf_same c).
    + destruct (ul_send_frame env (ul_set_outbound q c)) as (Em & Ec & _). by apply (ul_wf_same c).
  - by apply (ul_wf_same c).
  - apply (ul_wf_settles c); simpl; eauto with obfs.
  - by apply (ul_wf_same c).
Qed.

Lemma ul_remove_wf id c : ul_wf c -> ul_wf (ul_set_mux (mux_remove id (ul_mux c)) c).
Proof.
  intros HW. apply (ul_wf_settles c); simpl; eauto with obfs.
Qed.

Lemma call_step_wf i c : ul_wf c -> ul_wf (call_step i c).
Proof.
  intros HW. unfold call_step. destruct (ul_calls c !! i) as [[req n retry st]|] eqn:Ei; [|done].
  destruct (uw_calls c HW _ _ Ei) as [Hsl Hres Hret]. simpl in Hsl, Hres, Hret. destruct st as [| | |r]; [| | |done].
  - pose proof (mux_insert_wf (request_id req) _ (uw_mux c HW)) as Hm.
    pose proof (mux_insert_settles (request_id req) (ul_mux c)) as Hs.
    pose proof (mux_insert_slot (request_id req) (ul_mux c)) as Hn.
    destruct (mux_insert (request_id req) (ul_mux c)) as [n' mx]. simpl in *.
    apply ul_update_wf; [apply (ul_wf_settles c); [exact HW|exact Hm|exact Hs|done]|]. split; simpl; [|done|done].
    intros _. by eexists.
  - unfold ul_tx_send. destruct (ul_phase c); simpl; apply ul_update_wf;
      try (by apply (ul_wf_same c)); try (by apply ul_remove_wf); split; simpl; auto; try done.
    by intros [|].
  - destruct (mx_slots (ul_mux c) !! n) as [[id sst]|] eqn:En; simpl.
    + destruct (Hsl (or_intror eq_refl)) as (s & Hs & Hid). simpl in Hs. injection Hs as <-.
      simpl in Hid. destruct sst as [|resp|].
      * case_decide as Er; apply ul_update_wf; try (by apply ul_remove_wf);
          split; simpl; try done; try (by intros [|]). unfold MAX_REQUEST_RETRIES in *. lia.
      * apply ul_update_wf; [done|]. split; simpl; [by intros [|]| |done].
        intros resp' [= <-]. rewrite <-Hid. by eapply mw_delivered; [apply HW|].
      * apply ul_update_wf; [done|]. split; simpl; [by intros [|]|done|done].
    + case_decide as Er; apply ul_update_wf; try (by apply ul_remove_wf);
        split; simpl; try done; try (by intros [|]). unfold MAX_REQUEST_RETRIES in *. lia.
Qed.

Lemma uc_step_wf s c : ul_wf c -> ul_wf (uc_step s c).
Proof.
  intros HW. destruct s as [inb|req|i|cap topic]; simpl; auto using udp_pump_step_wf, call_step_wf.
  - destruct HW as [Hm Hc]. split; [done|]. simpl. intros i ca [H|[_ H]]%lookup_app_Some; [by eapply Hc|].
    apply list_lookup_singleton_Some in H as [_ <-].
    split; simpl; [by intros [|]|done|unfold MAX_REQUEST_RETRIES; lia].
  - unfold udp_subscribe, ul_tx_send. destruct (ul_phase c); simpl; by apply (ul_wf_same c).
Qed.

Lemma uc_reachable_wf c : uc_reachable c -> ul_wf c.
Proof.
  induction 1; [|by apply uc_step_wf]. split; [apply mux_new_wf|]. intros i ca H. done.
Qed.

(** The same routing guarantee for the UDP
    client: under loss, duplication, retransmission and any interleaving, a
    call returns only a response with the id of its own request, and it never
    goes beyond its tenth retry. *)
Lemma udp_responses_match_requests c i ca :
  uc_reachable c -> ul_calls c !! i = Some ca ->
  uc_retry ca <= 10 /\
  forall resp, uc_stage ca = UcFinished (Ok resp) -> response_id resp = request_id (uc_req ca).
Proof. intros HW%uc_reachable_wf Hi. by destruct (uw_calls c HW i ca Hi). Qed.

(** ** Every request returns *)

(** What is left of a call: statements of its loop still to be executed. *)
Definition remaining (ca : UdpCall) : nat :=
  match uc_stage ca with
  | UcLoop => 3 * (11 - uc_retry ca)
  | UcInserted => 3 * (11 - uc_retry ca) - 1
  | UcAwaiting => 3 * (11 - uc_retry ca) - 2
  | UcFinished _ => 0
  end.

Lemma lookup_update_eq i ca c :
  is_Some (ul_calls c !! i) -> ul_calls (ul_update i ca c) !! i = Some ca.
Proof. intros Hi. simpl. apply list_lookup_insert_eq. by apply lookup_lt_is_Some. Qed.

(** A statement of the call's own brings it closer to its end ... *)
Lemma call_step_progress i c ca :
  ul_wf c -> ul_calls c !! i = Some ca ->
  exists ca', ul_calls (call_step i c) !! i = Some ca' /\ uc_req ca' = uc_req ca /\
    remaining ca' <= remaining ca - 1.
Proof.
  intros HW Hi. pose proof (uo_retry _ _ (uw_calls c HW _ _ Hi)) as Hret.
  unfold MAX_REQUEST_RETRIES in Hret. unfold call_step. rewrite Hi.
  destruct ca as [req n retry st]. simpl in Hret.
  assert (is_Some (ul_calls c !! i)) as Hs by (by rewrite Hi).
  destruct st as [| | |r].
  - destruct (mux_insert _ _) as [n' mx]. eexists. rewrite lookup_update_eq by done.
    split_and!; [done|done|]. unfold remaining. simpl. lia.
  - unfold ul_tx_send. destruct (ul_phase c); simpl; eexists;
      rewrite list_lookup_insert_eq by (by apply lookup_lt_is_Some);
      (split_and!; [done|done|]); unfold remaining; simpl; lia.
  - destruct (sl_state <$> _) as [[|resp|]|]; [case_decide as Er| | |case_decide as Er];
      eexists; rewrite lookup_update_eq by done; (split_and!; [done|done|]);
      unfold remaining, MAX_REQUEST_RETRIES in *; simpl; lia.
  - exists (mkUdpCall req n retry (UcFinished r)). by split_and!.
Qed.

(** ... and no other step touches it. *)
Lemma uc_step_other i s c ca :
  s <> UcCall i -> ul_calls c !! i = Some ca -> ul_calls (uc_step s c) !! i = Some ca.
Proof.
  intros Hs Hi. destruct s as [inb|req|j|cap topic]; simpl.
  - unfold udp_pump_step, udp_pump_turn. destruct (ul_phase c); try done.
    destruct (ul_outbound c) as [|env q]; [|by destruct (ul_send_frame env (ul_set_outbound q c)) as (_ & -> & _)].
    destruct inb as [dgram|e]; [|done].
    destruct (open_datagram _ _) as [[[env|]|] ch']; try done. destruct env; try done.
    by destruct (ul_send_frame EPong (ul_set_chan ch' c)) as (_ & -> & _).
  - by apply lookup_app_l_Some.
  - assert (j <> i) as Hne by congruence. unfold call_step.
    destruct (ul_calls c !! j) as [[req n retry []]|]; try done.
    + destruct (mux_insert _ _). simpl. by rewrite list_lookup_insert_ne.
    + unfold ul_tx_send. destruct (ul_phase c); simpl; by rewrite list_lookup_insert_ne.
    + destruct (sl_state <$> _) as [[]|]; [case_decide| | |case_decide]; simpl;
        by rewrite list_lookup_insert_ne.
  - unfold udp_subscribe, ul_tx_send. by destruct (ul_phase c).
Qed.

(** How often call [i] gets a turn in a run. *)
Definition own (i : nat) (s : UcStep) : bool :=
  match s with UcCall j => bool_decide (j = i) | _ => false end.

Fixpoint turns_of (i : nat) (ss : list UcStep) : nat :=
  match ss with
  | [] => 0
  | s :: ss => if own i s then S (turns_of i ss) else turns_of i ss
  end.

Lemma run_remaining i ss c ca :
  ul_wf c -> ul_calls c !! i = Some ca ->
  exists ca', ul_calls (uc_run ss c) !! i = Some ca' /\ uc_req ca' = uc_req ca /\
    remaining ca' <= remaining ca - turns_of i ss.
Proof.
  revert c ca. induction ss as [|s ss IH]; intros c ca HW Hi.
  { exists ca. simpl. split_and!; [done|done|lia]. }
  change (uc_run (s :: ss) c) with (uc_run ss (uc_step s c)).
  simpl turns_of. destruct (own i s) eqn:Es.
  - assert (s = UcCall i) as ->.
    { destruct s as [| |j|]; try done. by apply bool_decide_eq_true in Es as ->. }
    destruct (call_step_progress i c ca HW Hi) as (ca1 & H1 & E1 & L1).
    destruct (IH _ _ (uc_step_wf (UcCall i) c HW) H1) as (ca2 & H2 & E2 & L2).
    exists ca2. split_and!; [done|congruence|lia].
  - apply IH; [by apply uc_step_wf|]. apply uc_step_other; [|done].
    intros ->. simpl in Es. by rewrite bool_decide_true in Es.
Qed.

Lemma uc_run_wf ss c : ul_wf c -> ul_wf (uc_run ss c).
Proof.
  revert c. induction ss as [|s ss IH]; intros c HW; [done|]. apply (IH (uc_step s c)).
  by apply uc_step_wf.
Qed.

(** C20: every [request] over UDP returns: whatever the
    network, the pump and the other calls do, a call has finished after 33
    statements of its own (insert, send and wait, at most eleven times), with a
    response to its own request, [Disconnected] or [Timeout]. *)
Theorem udp_request_returns c i ca ss :
  uc_reachable c -> ul_calls c !! i = Some ca -> 33 <= turns_of i ss ->
  exists n retry r,
    ul_calls (uc_run ss c) !! i = Some (mkUdpCall (uc_req ca) n retry (UcFinished r)) /\
    forall resp, r = Ok resp -> response_id resp = request_id (uc_req ca).
Proof.
  intros HW%uc_reachable_wf Hi Ht.
  destruct (run_remaining i ss c ca HW Hi) as (ca' & H & E & L).
  assert (remaining ca <= 33) by (unfold remaining; destruct (uc_stage ca); lia).
  destruct (uw_calls _ (uc_run_wf ss c HW) _ _ H) as [_ Hres Hr].
  unfold MAX_REQUEST_RETRIES in Hr.
  replace (remaining ca - turns_of i ss) with 0 in L by lia.
  destruct ca' as [req n retry st]. simpl in *. subst req.
  unfold remaining in L. simpl in L. destruct st as [| | |r]; [lia|lia|lia|].
  exists n, retry, r. split; [done|]. intros resp ->. by apply Hres.
Qed.

(** ** The pump survives datagrams *)

(** No datagram, forged, replayed or garbled,
    ends the pump of a client: after any number of them it is still in its
    loop and the connection is up; only an error of the socket ends it. *)
Lemma udp_pump_survives_datagrams c (dgrams : list bytes) :
  ul_phase c = Looping -> ul_state c = Connected ->
  let c' := uc_run (map (fun d => UcPump (Ok d)) dgrams) c in
  ul_phase c' = Looping /\ ul_state c' = Connected.
Proof.
  cbv zeta. revert c. induction dgrams as [|d dgrams IH]; intros c Hp Hs; [done|].
  change (uc_run (map (fun d => UcPump (Ok d)) (d :: dgrams)) c)
    with (uc_run (map (fun d => UcPump (Ok d)) dgrams) (udp_pump_step (Ok d) c)).
  unfold udp_pump_step, udp_pump_turn. rewrite Hp.
  assert (forall env x, ul_phase x = Looping -> ul_state x = Connected ->
    ul_phase (ul_send env x) = Looping /\ ul_state (ul_send env x) = Connected) as Hsend.
  { intros env x. unfold ul_send. by destruct (seal_envelope _ _ _) as [[]]. }
  destruct (ul_outbound c) as [|env q]; [|by apply IH; apply Hsend].
  destruct (open_datagram_ok (ul_chan c) d) as (r & ch' & ->).
  destruct r as [env|]; [|by apply IH].
  destruct env; try (by apply IH). by apply IH; apply Hsend.
Qed.

(** ** Event streams *)

Lemma uc_step_events s c : ul_events c `prefix_of` ul_events (uc_step s c).
Proof.
  assert (forall env c, ul_events (ul_send env c) = ul_events c) as Hsend.
  { intros env c'. unfold ul_send. by destruct (seal_envelope _ _ _) as [[]]. }
  destruct s as [inb|req|i|cap topic]; simpl.
  - unfold udp_pump_step. destruct (ul_phase c); try done. unfold udp_pump_turn.
    destruct (ul_outbound c); [|by rewrite Hsend]. destruct inb as [dgram|]; [|done].
    destruct (open_datagram _ _) as [[[env|]|] ch']; try done.
    destruct env; try done; simpl; [by apply prefix_app_r|by rewrite Hsend].
  - done.
  - unfold call_step. destruct (ul_calls c !! i) as [[req n retry []]|]; try done.
    + unfold ul_tx_send. by destruct (ul_phase c).
    + destruct (sl_state <$> _) as [[]|]; try done; by case_decide.
  - unfold udp_subscribe, ul_tx_send. by destruct (ul_phase c).
Qed.

(** C21: however the steps of a transport, TCP or UDP, and the polls of a
    subscriber interleave, the stream that [subscribe] returns (the broadcast
    receiver behind [dedup_by_seq]) gives events of the subscriber's topic that
    were broadcast after its receiver was made, in the order of their arrival,
    and no sequence number twice.  An event of the topic that it passes over was
    overtaken by more than 256 later ones, or arrived after an event of the
    topic whose number is not lower.  [Disconnected] comes last, and only when
    no sender is left.  A stream that waits after at most 256 events, the
    topic's numbers increasing, has given every event of the topic.  (A UDP
    handle, which holds a sender, is kept throughout.) *)
Theorem event_streams_faithful {BA : BroadcastApi} {BL : BroadcastLaws} {DA : DedupApi} {DL : DedupLaws}
    {S : Type} {IA : AsyncIo S} profile topic (c : Client S) ss (d : UdpClient) ss' :
  topic_contract cl_events cl_senders topic (length (cl_events c))
    (topic_run (cl_step profile) cl_events cl_senders ss (topic_attach cl_events topic c)) /\
  topic_contract ul_events (fun _ => true) topic (length (ul_events d))
    (topic_run uc_step ul_events (fun _ => true) ss' (topic_attach ul_events topic d)).
Proof.
  split; apply topic_run_contract; try done.
  - intros s st. apply cl_step_events.
  - intros s st. apply cl_step_senders.
  - intros s st. apply uc_step_events.
Qed.

End Handle.
End UdpClient.

(** ** Concrete runs *)

Module UdpClientRuns.
Import Ref RefBroadcast RefDedup.

Definition saddr : SocketAddr := V4 xc0 x00 x02 x01 443.
Definition r1 : core.(Request) := str "r1".
Definition resp1 : core.(Response) := (str "r1", x00).
Definition start : UdpClient :=
  udp_connected (data_channel_new (mkRSealer [x61] 0) (mkROpener [x62] []) marked) 0.

(** The datagram of the server's answer. *)
Definition answer : bytes := xc0 :: encode_inner Data ([x62] ++ x00 :: env_out (EResponse resp1)).

(** The first transmission is lost, the second answered. *)
Definition lossy_call : list UcStep :=
  [UcNew r1; UcCall 0; UcCall 0; UcPump (Ok []); UcCall 0;
   UcCall 0; UcCall 0; UcPump (Ok []); UcPump (Ok answer); UcCall 0].

Lemma uc_run_reachable ss c : uc_reachable saddr c -> uc_reachable saddr (uc_run saddr ss c).
Proof.
  revert c. induction ss as [|s ss IH]; intros c HR; [done|]. apply (IH (uc_step saddr s c)).
  by constructor.
Qed.

Lemma lossy_call_returns :
  ul_calls (uc_run saddr lossy_call start) !! 0 = Some (mkUdpCall r1 1 1 (UcFinished (Ok resp1))).
Proof. reflexivity. Qed.

Lemma udp_responses_match_requests_example :
  1 <= 10 /\ forall resp, UcFinished (Ok resp1) = UcFinished (Ok resp) ->
    response_id resp = request_id r1.
Proof.
  refine (udp_responses_match_requests saddr (uc_run saddr lossy_call start) 0
            (mkUdpCall r1 1 1 (UcFinished (Ok resp1))) _ _).
  - apply uc_run_reachable. constructor.
  - reflexivity.
Defined.

Lemma udp_request_returns_witness :
  exists n retry r,
    ul_calls (uc_run saddr (repeat (UcCall 0) 33) (uc_run saddr [UcNew r1] start)) !! 0
      = Some (mkUdpCall r1 n retry (UcFinished r)) /\
    forall resp, r = Ok resp -> response_id resp = request_id r1.
Proof.
  refine (udp_request_returns saddr (uc_run saddr [UcNew r1] start) 0 (mkUdpCall r1 0 0 UcLoop)
            (repeat (UcCall 0) 33) _ _ _).
  - apply uc_run_reachable. constructor.
  - reflexivity.
  - vm_compute. lia.
Defined.

(** Junk, a forged record and a replay. *)
Lemma udp_pump_survives_datagrams_example :
  ul_phase (uc_run saddr (map (fun d => UcPump (Ok d)) [[]; [xc0; x05; x7a]; answer; answer]) start)
    = Looping /\
  ul_state (uc_run saddr (map (fun d => UcPump (Ok d)) [[]; [xc0; x05; x7a]; answer; answer]) start)
    = Connected.
Proof.
  refine (udp_pump_survives_datagrams saddr start [[]; [xc0; x05; x7a]; answer; answer] _ _);
    reflexivity.
Defined.

(** An event of another topic, and one of the subscriber's, arrive on a TCP and
    on a UDP subscription; the second datagram is delivered twice. *)
Definition news : core.(Event) := (str "news", x21).
Definition chat : core.(Event) := (str "chat", x21).
Definition event_frame (n : byte) (ev : core.(Event)) : bytes :=
  let record := n :: env_out (EEvent ev) in
  x00 :: x00 :: x00 :: as_u8 (Z.of_nat (length record)) :: record.
Definition tcp_start : Client Script :=
  ClientRuns.fresh [event_frame x00 chat; event_frame x01 news] FinWait.
Definition event_dgram (n : byte) (ev : core.(Event)) : bytes :=
  xc0 :: encode_inner Data ([x62] ++ n :: env_out (EEvent ev)).

Definition tcp_steps : list SubStep :=
  [SubPoll; SubMove (ClPump 20); SubPoll; SubMove (ClPump 20); SubPoll].
Definition udp_steps : list SubStep :=
  [SubMove (UcPump (Ok (event_dgram x00 chat))); SubMove (UcPump (Ok (event_dgram x01 news)));
   SubMove (UcPump (Ok (event_dgram x01 news))); SubPoll; SubPoll].

Example both_broadcast :
  cl_events (tu_state (topic_run (cl_step vanilla) cl_events cl_senders tcp_steps
                         (topic_attach cl_events (str "news") tcp_start))) = [chat; news] /\
  ul_events (tu_state (topic_run (uc_step saddr) ul_events (fun _ => true) udp_steps
                         (topic_attach ul_events (str "news") start))) = [chat; news].
Proof. split; reflexivity. Qed.

Lemma event_streams_faithful_witness :
  tu_yielded (topic_run (cl_step vanilla) cl_events cl_senders tcp_steps
                (topic_attach cl_events (str "news") tcp_start)) = [Ok news] /\
  tu_yielded (topic_run (uc_step saddr) ul_events (fun _ => true) udp_steps
                (topic_attach ul_events (str "news") start)) = [Ok news].
Proof.
  pose proof (event_streams_faithful saddr vanilla (str "news") tcp_start tcp_steps start udp_steps) as [H1 H2].
  split.
  - refine (tc_complete _ _ _ _ _ H1 (mkTopicStream (mkRawStream 2 false) (str "news", [33%Z])) _ _ _);
      [vm_compute; lia|reflexivity|repeat constructor].
  - refine (tc_complete _ _ _ _ _ H2 (mkTopicStream (mkRawStream 2 false) (str "news", [33%Z])) _ _ _);
      [vm_compute; lia|reflexivity|repeat constructor].
Defined.

End UdpClientRuns.
