(* ===== verification/UdpSession.v ===== *)
(** * Requests over UDP, through loss and forgery

    The client of [UdpClient] and the server of [UdpServer] after their
    handshake, joined by a network that may lose any request and any response
    and in which others send forged and replayed datagrams to either end.
    A call of [request] transmits at most eleven times; what the service and
    the caller see of it is compared with a specification that knows nothing of
    datagrams, records or retransmission: delivery at least once. *)

From S2P Require Import Prelude RustStd Externals Envelope Verifier UdpWire DataPlane PendingMap.
From S2P Require Import UdpHandshake UdpConnect UdpServer UdpEndToEnd Client UdpClient Instances.

(** What becomes of one transmission of a request. *)
Inductive Fate : Type :=
| RequestLost
| ResponseLost
| Answered.

Section UdpSession.
Context {WA : WireApi} {CA : CoreApi} {SA : SerdeApi} {JL : SerdeLaws}.

(** One transmission of a request: its fate, the surroundings of the server
    when it arrives there, and the datagrams that others send meanwhile, to the
    server (from any address) and to the client. *)
Record Attempt : Type := mkAttempt {
  at_fate : Fate;
  at_ambient : Ambient;
  at_server : list (Ambient * (bytes * SocketAddr));
  at_client : list bytes;
}.

(** ** The specification *)

(** What a call returns and what it leaves of the service: the service runs
    once for each transmission that reaches it, the caller gets the first
    response that reaches it, and gives up when none does. *)
Fixpoint call_spec (req : Request) (fates : list Fate) (svc : Service)
    : Res CoreError Response * Service :=
  match fates with
  | [] => (Err core_timeout, svc)
  | RequestLost :: fates => call_spec req fates svc
  | ResponseLost :: fates => call_spec req fates (handle svc req).2
  | Answered :: _ => let '(resp, svc') := handle svc req in (Ok resp, svc')
  end.

Fixpoint calls_spec (calls : list (Request * list Attempt)) (svc : Service)
    : list (Request * UcStage) * Service :=
  match calls with
  | [] => ([], svc)
  | (req, attempts) :: calls =>
      let '(r, svc1) := call_spec req (at_fate <$> attempts) svc in
      let '(rs, svc2) := calls_spec calls svc1 in
      ((req, UcFinished r) :: rs, svc2)
  end.

(** ** The two ends and the network *)

Context {G L : Type} {TG : TransportGate G} {LG : LoadGate L}.
Context (server_priv : bytes) (gate : G) (load : L) (m : DatagramMimicry) {DL : DatagramLaws m}.
Context (caddr saddr : SocketAddr).

Record World : Type := mkWorld { w_client : UdpClient; w_server : Server }.

(** Datagrams of others, delivered one after the other. *)
Definition server_receives (ds : list (Ambient * (bytes * SocketAddr))) (sv : Server) : Server :=
  fold_left (fun sv d => handle_dgram server_priv gate load m d.1 d.2.1 d.2.2 sv) ds sv.

Definition client_receives (ds : list bytes) (c : UdpClient) : UdpClient :=
  fold_left (fun c d => uc_step saddr (UcPump (Ok d)) c) ds c.

(** The client's part of an iteration: the call inserts its sender and queues
    the request, and the pump transmits it. *)
Definition transmit (i : nat) (c : UdpClient) : UdpClient :=
  uc_run saddr [UcCall i; UcCall i; UcPump (Ok [])] c.

(** One iteration of the loop of call [i]: the request is transmitted, the
    network does as the attempt says, and the call sees the end of its timeout. *)
Definition udp_round (a : Attempt) (i : nat) (w : World) : World :=
  let c := transmit i (w_client w) in
  let requests := drop (length (ul_sent (w_client w))) (ul_sent c) in
  let c := client_receives (at_client a) c in
  let sv0 := server_receives (at_server a) (w_server w) in
  let sv :=
    match at_fate a with
    | RequestLost => sv0
    | _ => server_receives ((fun d => (at_ambient a, (d.2, caddr))) <$> requests) sv0
    end in
  let responses := drop (length (sent sv0)) (sent sv) in
  let c :=
    match at_fate a with
    | Answered => client_receives (snd <$> responses) c
    | _ => c
    end in
  mkWorld (uc_step saddr (UcCall i) c) sv.

Fixpoint call_run (i : nat) (attempts : list Attempt) (w : World) : World :=
  match attempts with
  | [] => w
  | a :: attempts =>
      let w := udp_round a i w in
      match at_fate a with Answered => w | _ => call_run i attempts w end
  end.

(** Calls made one after the other. *)
Definition new_call (req : Request) (w : World) : World :=
  mkWorld (uc_step saddr (UcNew req) (w_client w)) (w_server w).

Fixpoint calls_run (calls : list (Request * list Attempt)) (w : World) : World :=
  match calls with
  | [] => w
  | (req, attempts) :: calls =>
      let i := length (ul_calls (w_client w)) in
      calls_run calls (call_run i attempts (new_call req w))
  end.

(** *** Datagrams without the keys

    A channel refuses a datagram it cannot open: it is not a data datagram, its
    record is not authentic, or it is a replay. *)
Definition refuses (ch : DataChannel) (d : bytes) : Prop := open_datagram ch d = (Ok None, ch).

(** What the sender of a datagram to the server lacks: it completes no
    handshake the gate accepts, and no peer at its address has a channel that
    opens it.  It may be a first message, a third message, anything with a
    forged source; and it comes before the session's peer has idled away. *)
Definition forged (am : Ambient) (d : bytes) (src : SocketAddr) (sv : Server) : Prop :=
  (forall key, ~ admits gate m sv d src key) /\
  (forall p ch, peers sv !! src = Some p -> chans sv !! channel p = Some ch -> refuses ch d) /\
  (forall p, peers sv !! caddr = Some p -> peer_live (am_cleanup am) p = true).

Fixpoint all_forged (ds : list (Ambient * (bytes * SocketAddr))) (sv : Server) : Prop :=
  match ds with
  | [] => True
  | (am, (d, src)) :: ds =>
      forged am d src sv /\ all_forged ds (handle_dgram server_priv gate load m am d src sv)
  end.

(** The datagrams of others in an attempt, a call and a session. *)
Definition attempt_forged (a : Attempt) (i : nat) (w : World) : Prop :=
  all_forged (at_server a) (w_server w) /\
  Forall (refuses (ul_chan (transmit i (w_client w)))) (at_client a).

Fixpoint call_forged (i : nat) (attempts : list Attempt) (w : World) : Prop :=
  match attempts with
  | [] => True
  | a :: attempts =>
      attempt_forged a i w /\
      match at_fate a with Answered => True | _ => call_forged i attempts (udp_round a i w) end
  end.

Fixpoint calls_forged (calls : list (Request * list Attempt)) (w : World) : Prop :=
  match calls with
  | [] => True
  | (req, attempts) :: calls =>
      let i := length (ul_calls (w_client w)) in
      call_forged i attempts (new_call req w) /\
      calls_forged calls (call_run i attempts (new_call req w))
  end.

Definition outcomes (c : UdpClient) : list (Request * UcStage) :=
  (fun ca => (uc_req ca, uc_stage ca)) <$> ul_calls c.

(** ** The link *)

Context {window : nat} {sealer_at : RecordSealer -> RecordKey -> nat -> Prop}
  {sealed : RecordKey -> nat -> bytes -> bytes -> Prop}
  {opener_for : RecordOpener -> RecordKey -> Prop} {accepts : RecordOpener -> nat -> Prop}
  {RL : RecordLaws window sealer_at sealed opener_for accepts}.
Context (c2s s2c : RecordKey).

Abbreviation carries := (DataPlane.carries (sealed := sealed) m).

(** A key seals its records up to number [limit]. *)
Context (limit : nat).

Definition sealable (env : Envelope) : Prop :=
  exists pt, to_vec env = Ok pt /\
    forall s key n, n < limit -> sealer_at s key n -> exists ct s', seal s pt [] = (Ok ct, s').

(** The channel of one end: its next record is number [n] of key [tx], and it
    takes every record of key [rx] from number [k] on. *)
Record endpoint (tx rx : RecordKey) (n k : nat) (ch : DataChannel) : Prop := {
  ep_mimic : mimic ch = m;
  ep_sealer : sealer_at (sealer ch) tx n;
  ep_opener : opener_for (opener ch) rx;
  ep_takes : forall j pt ct, k <= j -> sealed rx j pt ct -> accepts (opener ch) j;
}.

Lemma endpoint_skip tx rx n k ch : endpoint tx rx n k ch -> endpoint tx rx n (S k) ch.
Proof. intros [H1 H2 H3 H4]. split; try done. intros j pt ct Hj. apply H4. lia. Qed.

Lemma endpoint_seals tx rx n k ch env rng :
  endpoint tx rx n k ch -> n < limit -> sealable env ->
  exists d ch' rng', seal_envelope ch env rng = (Ok d, ch', rng') /\
    carries tx n env d /\ endpoint tx rx (S n) k ch'.
Proof.
  intros [H1 H2 H3 H4] Hn (pt & Hpt & Hs). destruct (Hs (sealer ch) tx n Hn H2) as (ct & s' & Hseal).
  assert (exists d rng', seal_envelope ch env rng = (Ok d, with_sealer s' ch, rng')) as (d & rng' & E).
  { unfold seal_envelope. rewrite Hpt, Hseal. destruct (shape_out _ _ _) as [d rng']. by eauto. }
  destruct (seal_envelope_carries (RL := RL) m ch env rng d _ rng' tx n H1 H2 E) as (Hc & Hat & Hm).
  exists d, (with_sealer s' ch), rng'. by split_and!.
Qed.

Lemma endpoint_opens tx rx n k ch env d :
  endpoint tx rx n k ch -> carries rx k env d ->
  exists ch', open_datagram ch d = (Ok (Some env), ch') /\ endpoint tx rx n (S k) ch'.
Proof.
  intros [H1 H2 H3 H4] Hc. pose proof Hc as (pt & ct & _ & Hs & _).
  destruct (open_datagram_fresh (RL := RL) m ch rx k env d H1 H3 (H4 _ _ _ (le_n k) Hs) Hc)
    as (o' & Ho & Hfor & _ & Hkeep & _).
  exists (with_opener o' ch). split; [done|]. split; [done|done|done|].
  intros j pj cj Hj Hsj. simpl. apply Hkeep; [lia|lia|]. eapply H4; [|done]. lia.
Qed.

(** The client between two transmissions, and the server's side of it: [n]
    requests have been transmitted and [k] records sent back. *)
Record client_ok (n k : nat) (c : UdpClient) : Prop := {
  co_wf : ul_wf c;
  co_phase : ul_phase c = Looping;
  co_outbound : ul_outbound c = [];
  co_chan : endpoint c2s s2c n k (ul_chan c);
}.

Record server_ok (n k : nat) (sv : Server) : Prop := {
  so_peer : exists p ch, peers sv !! caddr = Some p /\ chans sv !! channel p = Some ch /\
    endpoint s2c c2s k n ch;
}.

(** The call [i] is at the head of its loop, in iteration [retry]. *)
Definition looping (i : nat) (req : Request) (retry : nat) (c : UdpClient) : Prop :=
  exists n, ul_calls c !! i = Some (mkUdpCall req n retry UcLoop).

(** It has transmitted and waits on a slot that the map knows under its id. *)
Definition waiting (i : nat) (req : Request) (retry : nat) (c : UdpClient) : Prop :=
  exists n, ul_calls c !! i = Some (mkUdpCall req n retry UcAwaiting) /\
    mx_slots (ul_mux c) !! n = Some (mkSlot (request_id req) Waiting).

(** All calls but [i] are as they were. *)
Definition others (i : nat) (c c' : UdpClient) : Prop :=
  length (ul_calls c') = length (ul_calls c) /\
  forall j, j <> i -> ul_calls c' !! j = ul_calls c !! j.

Lemma others_trans i c1 c2 c3 : others i c1 c2 -> others i c2 c3 -> others i c1 c3.
Proof. intros [L1 H1] [L2 H2]. split; [congruence|]. intros j Hj. by rewrite H2, H1. Qed.

Lemma others_insert i ca c c' :
  ul_calls c' = <[i := ca]> (ul_calls c) -> others i c c'.
Proof.
  intros E. split; [by rewrite E, length_insert|]. intros j Hj. by rewrite E, list_lookup_insert_ne.
Qed.

(** The client's half of a transmission, step by step. *)
Lemma transmit_eq i req retry c slot d ch' rng' :
  ul_phase c = Looping -> ul_outbound c = [] ->
  ul_calls c !! i = Some (mkUdpCall req slot retry UcLoop) ->
  seal_envelope (ul_chan c) (ERequest req) (ul_rng c) = (Ok d, ch', rng') ->
  let '(slot', mx) := mux_insert (request_id req) (ul_mux c) in
  uc_run saddr [UcCall i; UcCall i; UcPump (Ok [])] c
    = mkUdpClient ch' rng' [] Looping (ul_state c) mx (ul_events c)
        (<[i := mkUdpCall req slot' retry UcAwaiting]> (ul_calls c)) (ul_sent c ++ [(saddr, d)]).
Proof.
  intros Hp Hq Hi Hs. pose proof (lookup_lt_Some _ _ _ Hi) as Hlt.
  destruct (mux_insert (request_id req) (ul_mux c)) as [slot' mx] eqn:Em.
  unfold uc_run. cbn [fold_left uc_step].
  unfold call_step at 2. rewrite Hi, Em. unfold ul_update at 1. simpl.
  unfold call_step. simpl. rewrite list_lookup_insert_eq by done.
  unfold ul_tx_send. simpl. rewrite Hp, Hq. simpl. unfold ul_update. simpl.
  rewrite list_insert_insert_eq.
  unfold udp_pump_step. simpl. rewrite Hp. unfold udp_pump_turn, ul_send. simpl. by rewrite Hs, Hp.
Qed.

Lemma request_sent n k i req retry c :
  client_ok n k c -> looping i req retry c -> n < limit -> sealable (ERequest req) ->
  let c' := uc_run saddr [UcCall i; UcCall i; UcPump (Ok [])] c in
  client_ok (S n) k c' /\ waiting i req retry c' /\ others i c c' /\
  exists d, ul_sent c' = ul_sent c ++ [(saddr, d)] /\ carries c2s n (ERequest req) d.
Proof.
  intros [HW Hp Hq Hch] (slot & Hi) Hlim Hs. cbv zeta.
  destruct (endpoint_seals _ _ _ _ _ _ (ul_rng c) Hch Hlim Hs) as (d & ch' & rng' & Hseal & Hd & Hch').
  pose proof (uc_run_wf saddr [UcCall i; UcCall i; UcPump (Ok [])] c HW) as HW'.
  pose proof (transmit_eq i req retry c slot d ch' rng' Hp Hq Hi Hseal) as E.
  pose proof (mux_insert_slot (request_id req) (ul_mux c)) as Hn.
  destruct (mux_insert (request_id req) (ul_mux c)) as [slot' mx]. simpl in Hn. rewrite E in *.
  pose proof (lookup_lt_Some _ _ _ Hi). split_and!.
  - by split.
  - exists slot'. simpl. by rewrite list_lookup_insert_eq.
  - by eapply others_insert.
  - by exists d.
Qed.

(** The timeout of a call that got no answer. *)
Lemma call_timed_out n k i req retry c :
  client_ok n k c -> waiting i req retry c ->
  let c' := uc_step saddr (UcCall i) c in
  client_ok n k c' /\ others i c c' /\ ul_sent c' = ul_sent c /\
  if decide (retry = MAX_REQUEST_RETRIES)
  then exists slot, ul_calls c' !! i = Some (mkUdpCall req slot retry (UcFinished (Err core_timeout)))
  else looping i req (S retry) c'.
Proof.
  intros [HW Hp Hq Hch] (slot & Hi & Hsl). cbv zeta.
  pose proof (uc_step_wf saddr (UcCall i) c HW) as HW'. revert HW'.
  pose proof (lookup_lt_Some _ _ _ Hi). simpl. unfold call_step, looping. rewrite Hi, Hsl. simpl.
  case_decide; intros HW'; (split_and!; [by split|by eapply others_insert|done|]); simpl;
    rewrite list_lookup_insert_eq by done; by eexists.
Qed.

(** A response that arrives in time. *)
Lemma response_taken n k i req retry resp d c :
  client_ok n k c -> waiting i req retry c -> carries s2c k (EResponse resp) d ->
  response_id resp = request_id req ->
  let c' := uc_step saddr (UcCall i) (uc_step saddr (UcPump (Ok d)) c) in
  client_ok n (S k) c' /\ others i c c' /\ ul_sent c' = ul_sent c /\
  exists slot, ul_calls c' !! i = Some (mkUdpCall req slot retry (UcFinished (Ok resp))).
Proof.
  intros [HW Hp Hq Hch] (slot & Hi & Hsl) Hd Hid. cbv zeta.
  destruct (endpoint_opens _ _ _ _ _ _ _ Hch Hd) as (ch' & Hop & Hch').
  assert (uc_step saddr (UcPump (Ok d)) c
    = ul_set_mux (mux_resolve resp (ul_mux c)) (ul_set_chan ch' c)) as E.
  { simpl. unfold udp_pump_step. rewrite Hp. unfold udp_pump_turn. by rewrite Hq, Hop. }
  pose proof (uc_step_wf saddr (UcCall i) _ (uc_step_wf saddr (UcPump (Ok d)) c HW)) as HW'. revert HW'.
  rewrite E. simpl. unfold call_step. simpl. rewrite Hi.
  unfold mux_resolve. rewrite Hid, (mw_waiting _ (uw_mux _ HW) _ _ Hsl). simpl.
  rewrite list_lookup_alter_eq, Hsl. simpl. intros HW'. pose proof (lookup_lt_Some _ _ _ Hi).
  split_and!; [by split|by eapply others_insert|done|]. exists slot. by apply list_lookup_insert_eq.
Qed.

(** The server's half: the service runs and the response goes out. *)
Lemma request_served n k am req resp svc' d sv :
  server_ok n k sv -> carries c2s n (ERequest req) d ->
  handle (service sv) req = (resp, svc') -> k < limit -> sealable (EResponse resp) ->
  (am_now am <= am_cleanup am < am_now am + PEER_IDLE_TIMEOUT)%Z ->
  let sv' := handle_dgram server_priv gate load m am d caddr sv in
  server_ok (S n) (S k) sv' /\ service sv' = svc' /\
  exists w, sent sv' = sent sv ++ [(caddr, w)] /\ carries s2c k (EResponse resp) w.
Proof.
  intros [(p & ch & Hpe & Hc & Hep)] Hd Hh Hlim Hs Hclk. cbv zeta.
  assert (exists ct, unshape_hs d m = Some (Data, ct)) as [ct Hu].
  { destruct Hd as (pt & ct & _ & _ & E). exists ct. unfold unshape_hs.
    by rewrite E, decode_encode_inner. }
  destruct (endpoint_opens _ _ _ _ _ _ _ Hep Hd) as (ch1 & Hop & Hep1).
  destruct (endpoint_seals _ _ _ _ _ _ (rng sv) Hep1 Hlim Hs) as (w & ch2 & r & Hseal & Hw & Hep2).
  rewrite handle_dgram_unshape, Hu. simpl.
  rewrite (on_data_opens _ _ _ _ _ _ _ _ Hpe Hc Hop). simpl. rewrite Hh.
  pose proof (lookup_lt_Some _ _ _ Hc) as Hlt. unfold seal_and_send. simpl.
  rewrite list_lookup_insert_eq by done. rewrite Hseal. simpl. split_and!; [|done|by exists w].
  split. exists (mkPeer (channel p) (am_now am) (outbound_tx p)), ch2. simpl. split_and!; [| |done].
  - apply map_lookup_filter_Some. split; [apply lookup_insert_eq|].
    by apply Is_true_eq_left, fresh_peer_live.
  - rewrite list_lookup_insert_eq by (by rewrite length_insert). done.
Qed.

(** [sv'] has the sessions of [sv] and its service: it may differ in the
    half-open handshakes, in when peers were last seen, and in other peers that
    were evicted. *)
Record undisturbed (sv sv' : Server) : Prop := {
  ud_service : service sv' = service sv;
  ud_chans : chans sv' = chans sv;
  ud_tasks : tasks sv' = tasks sv;
  ud_forwarders : forwarders sv' = forwarders sv;
  ud_peer : forall p, peers sv !! caddr = Some p ->
    exists p', peers sv' !! caddr = Some p' /\ same_session p p';
}.

Lemma undisturbed_finish am sv f :
  (forall p, peers sv !! caddr = Some p -> peer_live (am_cleanup am) p = true) ->
  service (flow_sv f) = service sv -> chans (flow_sv f) = chans sv -> tasks (flow_sv f) = tasks sv ->
  forwarders (flow_sv f) = forwarders sv -> peers (flow_sv f) = peers sv ->
  undisturbed sv (finish am f).
Proof.
  intros Hlive H1 H2 H3 H4 H5. destruct f; simpl in *; split; try done; simpl; intros p Hp;
    exists p; (split; [|done]); rewrite H5; [done|].
  apply map_lookup_filter_Some. split; [done|]. by apply Is_true_eq_left, Hlive.
Qed.

Lemma forged_data am d src sv :
  (forall p ch, peers sv !! src = Some p -> chans sv !! channel p = Some ch -> refuses ch d) ->
  exists sv', on_data am d src sv = Return sv' /\ undisturbed sv sv'.
Proof.
  intros Hno. unfold on_data. destruct (peers sv !! src) as [p|] eqn:Ep; cycle 1.
  { exists sv. split; [done|]. split; try done. intros p Hp. by exists p. }
  assert (forall p0, peers sv !! caddr = Some p0 -> exists p',
    <[src := mkPeer (channel p) (am_now am) (outbound_tx p)]> (peers sv) !! caddr = Some p' /\
    same_session p0 p') as Hpeer.
  { intros p0 H0. destruct (decide (src = caddr)) as [->|Hne].
    - rewrite lookup_insert_eq. simplify_eq. by eexists.
    - rewrite lookup_insert_ne by done. by exists p0. }
  simpl. destruct (chans sv !! channel p) as [ch|] eqn:Ech; [|by eexists].
  rewrite (Hno p ch eq_refl Ech). eexists. split; [done|]. split; try done.
  simpl. by apply list_insert_id.
Qed.

(** A forged datagram disturbs no session. *)
Lemma forged_harmless am d src sv :
  forged am d src sv -> undisturbed sv (handle_dgram server_priv gate load m am d src sv).
Proof.
  intros (Hna & Hno & Hlive). rewrite handle_dgram_unshape.
  destruct (unshape_hs d m) as [[ty body]|] eqn:Hu.
  2: { split; try done. intros p Hp. by exists p. }
  destruct ty; try (by apply undisturbed_finish).
  - destruct (on_hs1_frame server_priv load m am body src sv) as (H1 & H2 & H3 & H4).
    apply undisturbed_finish; try done.
    unfold branch, on_hs1. destruct (_ <=? map_len (peers sv))%Z; [done|].
    destruct (if _ : bool then _ else _) as [[[[]|]|] rng']; try done. by destruct (_ && _).
  - unfold branch, on_hs3. destruct (pending sv !! src) as [ph|] eqn:Eph; [|by apply undisturbed_finish].
    destruct (complete_handshake_msg3 _ _ _) as [[[ch key]|] hs'] eqn:Ec; [|by apply undisturbed_finish].
    destruct (authenticate gate key) as [[]|] eqn:Eg; [|by apply undisturbed_finish].
    exfalso. apply (Hna key). by exists body, ph, ch, hs'.
  - destruct (forged_data am d src sv Hno) as (sv' & E & HU). simpl. by rewrite E.
Qed.

Lemma all_forged_harmless ds n k sv :
  all_forged ds sv -> server_ok n k sv ->
  server_ok n k (server_receives ds sv) /\ service (server_receives ds sv) = service sv.
Proof.
  revert sv. induction ds as [|[am [d src]] ds IH]; intros sv; [done|].
  cbn [all_forged server_receives fold_left fst snd]. intros [Hf Hfs] [(p & ch & Hp & Hc & He)].
  destruct (forged_harmless am d src sv Hf) as [H1 H2 _ _ H5].
  destruct (H5 p Hp) as (p' & Hp' & [Hch _]).
  rewrite <-H1. apply IH; [done|]. split. exists p', ch. by rewrite H2, <-Hch.
Qed.

(** Neither does the client notice what its channel refuses. *)
Lemma refused_unnoticed ds c :
  ul_phase c = Looping -> ul_outbound c = [] -> Forall (refuses (ul_chan c)) ds ->
  client_receives ds c = c.
Proof.
  intros Hp Hq Hds. induction Hds as [|d ds Hd _ IH]; [done|]. unfold client_receives.
  cbn [fold_left uc_step]. unfold udp_pump_step. rewrite Hp. unfold udp_pump_turn. rewrite Hq, Hd.
  assert (ul_set_chan (ul_chan c) c = c) as -> by (by destruct c). exact IH.
Qed.

(** A replay is refused: the record of a datagram the channel has opened. *)
Lemma replay_refused tx rx n k ch env d :
  endpoint tx rx n k ch -> carries rx k env d -> refuses (open_datagram ch d).2 d.
Proof.
  intros [H1 H2 H3 H4] Hc. pose proof Hc as (pt & ct & _ & Hs & _).
  destruct (open_datagram_fresh (RL := RL) m ch rx k env d H1 H3 (H4 _ _ _ (le_n k) Hs) Hc)
    as (o' & Ho & Hfor & Hgone & _).
  rewrite Ho. simpl. by eapply (open_datagram_stale (RL := RL) m (with_opener o' ch) rx k env).
Qed.

Lemma server_ok_skip n k sv : server_ok n k sv -> server_ok (S n) k sv.
Proof.
  intros [(p & ch & Hp & Hc & He)]. split. exists p, ch. split_and!; [done|done|]. by apply endpoint_skip.
Qed.

Lemma client_ok_skip n k c : client_ok n k c -> client_ok n (S k) c.
Proof. intros [H1 H2 H3 H4]. split; try done. by apply endpoint_skip. Qed.

Definition linked (n k : nat) (w : World) : Prop :=
  client_ok n k (w_client w) /\ server_ok n k (w_server w).

(** What the theorems ask of the service: its response to [req] carries the id
    of the request and can be sealed. *)
Definition answers (req : Request) : Prop :=
  sealable (ERequest req) /\
  forall svc, sealable (EResponse (handle svc req).1) /\
    response_id (handle svc req).1 = request_id req.

(** The clean-up runs soon after the clock was read. *)
Definition timely (a : Attempt) : Prop :=
  (am_now (at_ambient a) <= am_cleanup (at_ambient a) < am_now (at_ambient a) + PEER_IDLE_TIMEOUT)%Z.

(** One attempt: the link holds again; the service has run unless the request
    was lost, and the call is over if it was answered or out of retries. *)
Lemma udp_round_ok a n k i req retry w :
  linked n k w -> looping i req retry (w_client w) -> n < limit -> k < limit ->
  answers req -> timely a -> attempt_forged a i w ->
  let w' := udp_round a i w in
  let '(resp, svc') := handle (service (w_server w)) req in
  (exists n' k', n' <= S n /\ k' <= S k /\ linked n' k' w') /\
  others i (w_client w) (w_client w') /\
  service (w_server w') = (match at_fate a with RequestLost => service (w_server w) | _ => svc' end) /\
  match at_fate a with
  | Answered => exists slot, ul_calls (w_client w') !! i
      = Some (mkUdpCall req slot retry (UcFinished (Ok resp)))
  | _ =>
      if decide (retry = MAX_REQUEST_RETRIES)
      then exists slot, ul_calls (w_client w') !! i
        = Some (mkUdpCall req slot retry (UcFinished (Err core_timeout)))
      else looping i req (S retry) (w_client w')
  end.
Proof.
  intros [Hc Hs] Hl Hn Hk [Hreq Hans] Hclk [Hfs Hfc]. cbv zeta.
  destruct (all_forged_harmless _ _ _ _ Hfs Hs) as [Hs0 Hsv0].
  destruct (Hans (service (w_server w))) as [Hresp Hid].
  destruct (handle (service (w_server w)) req) as [resp svc'] eqn:Hh. simpl in Hresp, Hid.
  destruct (request_sent _ _ _ _ _ _ Hc Hl Hn Hreq) as (Hc1 & Hw1 & Ho1 & d & Hd & Hcar).
  unfold udp_round. fold (transmit i (w_client w)) in *. set (c1 := transmit i (w_client w)) in *.
  rewrite (refused_unnoticed _ c1 (co_phase _ _ _ Hc1) (co_outbound _ _ _ Hc1) Hfc).
  set (sv0 := server_receives (at_server a) (w_server w)) in *.
  rewrite <-Hsv0 in Hh |- *. rewrite Hd, drop_app_length.
  destruct (request_served n k (at_ambient a) req resp svc' d sv0 Hs0 Hcar Hh Hk Hresp Hclk)
    as (Hs' & Hsvc & x & Hx & Hxc).
  cbn [fmap list_fmap snd]. unfold server_receives, client_receives. cbn [fold_left fst snd].
  destruct (at_fate a); cbn [w_client w_server].
  - destruct (call_timed_out _ _ _ _ _ _ Hc1 Hw1) as (Hc2 & Ho2 & _ & Hend).
    split_and!; [|by eapply others_trans|done|done].
    exists (S n), k. split_and!; [lia|lia|]. by split; [|apply server_ok_skip].
  - destruct (call_timed_out _ _ _ _ _ _ Hc1 Hw1) as (Hc2 & Ho2 & _ & Hend).
    split_and!; [|by eapply others_trans|done|done].
    exists (S n), (S k). split_and!; [lia|lia|]. split; [by apply client_ok_skip|done].
  - rewrite Hx, drop_app_length. cbn [fmap list_fmap fold_left snd].
    destruct (response_taken _ _ _ _ _ _ _ _ Hc1 Hw1 Hxc Hid) as (Hc2 & Ho2 & _ & Hend).
    split_and!; [|by eapply others_trans|done|done]. exists (S n), (S k). by split_and!.
Qed.

Lemma call_run_ok n k i req retry atts w :
  linked n k w -> looping i req retry (w_client w) ->
  n + length atts <= limit -> k + length atts <= limit -> answers req ->
  Forall timely atts -> call_forged i atts w -> retry + length atts = 11 -> atts <> [] ->
  let w' := call_run i atts w in
  let '(r, svc') := call_spec req (at_fate <$> atts) (service (w_server w)) in
  (exists n' k', n' <= n + length atts /\ k' <= k + length atts /\ linked n' k' w') /\
  others i (w_client w) (w_client w') /\ service (w_server w') = svc' /\
  exists slot retry', ul_calls (w_client w') !! i = Some (mkUdpCall req slot retry' (UcFinished r)).
Proof.
  intros HL Hloop Hn Hk Hans Ht. revert n k retry w HL Hloop Hn Hk.
  induction Ht as [|a atts Hf Ht IH]; intros n k retry w HL Hloop Hn Hk Hfg Hlen Hne; [done|].
  cbn [call_run call_forged fmap list_fmap length] in *. destruct Hfg as [Hfa Hfg].
  pose proof (udp_round_ok a n k i req retry w HL Hloop ltac:(lia) ltac:(lia) Hans Hf Hfa) as H. cbv zeta in H.
  set (w1 := udp_round a i w) in *.
  destruct (handle (service (w_server w)) req) as [resp svc'] eqn:Hh.
  destruct H as ((n1 & k1 & Hn1 & Hk1 & HL1) & Ho1 & Hsvc & Hend).
  assert (at_fate a = Answered \/ at_fate a <> Answered) as [Ea|Hna] by (destruct (at_fate a); auto).
  { rewrite Ea in *. cbn [call_spec]. rewrite Hh. destruct Hend as (slot & Hend).
    split_and!; [|done|done|by exists slot, retry]. exists n1, k1. split_and!; [lia|lia|done]. }
  assert (call_spec req (at_fate a :: (at_fate <$> atts)) (service (w_server w))
          = call_spec req (at_fate <$> atts) (service (w_server w1))) as ->.
  { rewrite Hsvc. destruct (at_fate a); [done| |done]. cbn [call_spec]. by rewrite Hh. }
  assert (match at_fate a with Answered => w1 | _ => call_run i atts w1 end = call_run i atts w1) as ->
    by (by destruct (at_fate a)).
  destruct (decide (retry = MAX_REQUEST_RETRIES)) as [Hr|Hr].
  - unfold MAX_REQUEST_RETRIES in Hr. destruct atts; [|simpl in Hlen; lia]. simpl.
    assert (exists slot, ul_calls (w_client w1) !! i
      = Some (mkUdpCall req slot retry (UcFinished (Err core_timeout)))) as (slot & Hend')
      by (by destruct (at_fate a)).
    split_and!; [|done|done|by exists slot, retry]. exists n1, k1. split_and!; solve [lia|done].
  - assert (call_forged i atts w1 /\ looping i req (S retry) (w_client w1)) as [Hfg1 Hl1]
      by (by destruct (at_fate a)).
    assert (atts <> []) as Hfs.
    { intros ->. unfold MAX_REQUEST_RETRIES in Hr. simpl in Hlen. lia. }
    pose proof (IH n1 k1 (S retry) w1 HL1 Hl1 ltac:(lia) ltac:(lia) Hfg1 ltac:(lia) Hfs) as H.
    cbv zeta in H. destruct (call_spec req (at_fate <$> atts) _) as [r svc2].
    destruct H as ((n2 & k2 & Hn2 & Hk2 & HL2) & Ho2 & ? & ?).
    split_and!; [|by eapply others_trans|done|done]. exists n2, k2. split_and!; [lia|lia|done].
Qed.

Lemma outcomes_call i c c' ca :
  length (ul_calls c) = i -> length (ul_calls c') = S i ->
  (forall j, j <> i -> ul_calls c' !! j = ul_calls c !! j) -> ul_calls c' !! i = Some ca ->
  outcomes c' = outcomes c ++ [(uc_req ca, uc_stage ca)].
Proof.
  intros Hi Hl Ho Hc. unfold outcomes.
  assert (ul_calls c' = ul_calls c ++ [ca]) as ->; [|by rewrite fmap_app].
  apply list_eq. intros j. destruct (decide (j = i)) as [->|Hj].
  - by rewrite Hc, list_lookup_middle.
  - rewrite Ho by done. destruct (decide (j < i)).
    + by rewrite lookup_app_l by lia.
    + rewrite lookup_app_r by lia. rewrite !lookup_ge_None_2; [done|simpl; lia|lia].
Qed.

(** The calls a session is made of. *)
Definition call_ok (call : Request * list Attempt) : Prop :=
  answers call.1 /\ Forall timely call.2 /\ length call.2 = 11.

Lemma calls_run_ok n k calls w :
  linked n k w -> Forall call_ok calls -> calls_forged calls w ->
  n + 11 * length calls <= limit -> k + 11 * length calls <= limit ->
  let w' := calls_run calls w in
  let '(results, svc') := calls_spec calls (service (w_server w)) in
  outcomes (w_client w') = outcomes (w_client w) ++ results /\
  service (w_server w') = svc' /\ exists n' k', linked n' k' w'.
Proof.
  intros HL Hall. revert n k w HL.
  induction Hall as [|[req atts] calls (Hans & Ht & Hlen) _ IH]; intros n k w HL Hfg Hn Hk;
    cbn [calls_run calls_spec calls_forged length] in *.
  - rewrite app_nil_r. split_and!; [done|done|by exists n, k].
  - set (i := length (ul_calls (w_client w))) in *.
    set (w0 := new_call req w) in *. destruct Hfg as [Hfg Hfgs].
    assert (linked n k w0) as HL0.
    { destruct HL as [[H1 H2 H3 H4] HS]. split; [|done]. split; try done. by apply uc_step_wf. }
    assert (looping i req 0 (w_client w0)) as Hl0.
    { exists 0. simpl. by apply list_lookup_middle. }
    simpl in Hans, Ht, Hlen.
    pose proof (call_run_ok n k i req 0 atts w0 HL0 Hl0 ltac:(lia) ltac:(lia) Hans Ht Hfg Hlen) as H. cbv zeta in H.
    change (w_server w0) with (w_server w) in H.
    destruct (call_spec req (at_fate <$> atts) (service (w_server w))) as [r svc1].
    destruct H as ((n1 & k1 & Hn1 & Hk1 & HL1) & [Ho1 Ho2] & Hsvc & slot & retry & Hc); [by destruct atts|].
    specialize (IH _ _ _ HL1 Hfgs ltac:(lia) ltac:(lia)). cbv zeta in IH. rewrite Hsvc in IH.
    destruct (calls_spec calls svc1) as [rs svc2]. destruct IH as (IHo & IHs & IHl).
    split_and!; [|done|done]. rewrite IHo.
    rewrite (outcomes_call i (w_client w) _ (mkUdpCall req slot retry (UcFinished r)) eq_refl); [|..|exact Hc].
    + by rewrite <-app_assoc.
    + rewrite Ho1. simpl. rewrite length_app. simpl. unfold i. lia.
    + intros j Hj. rewrite Ho2 by done. simpl. unfold i in Hj.
      destruct (decide (j < length (ul_calls (w_client w)))); [by rewrite lookup_app_l|].
      rewrite lookup_app_r by lia. rewrite !lookup_ge_None_2; [done|lia|simpl; lia].
Qed.

(** The two ends are linked once the handshake is done. *)
Lemma handshake_links seed chc chs sv p crng :
  derive_record_keys seed = (c2s, s2c) ->
  channels_agree (sealer_at := sealer_at) (sealed := sealed) (opener_for := opener_for)
    (accepts := accepts) m seed chc chs ->
  peers sv !! caddr = Some p -> chans sv !! channel p = Some chs ->
  linked 0 1 (mkWorld (udp_connected chc crng) sv).
Proof.
  unfold channels_agree. intros ->. intros (H1 & H2 & H3 & H4 & _ & H5 & H6 & H7) Hp Hc. split.
  - split; simpl; [|done|done|].
    + split; [apply mux_new_wf|]. by intros i ca H.
    + split; [done| |done|done]. rewrite H1. apply sealer_new_at.
  - split. exists p, chs. split_and!; [done|done|]. split; [done|done| |].
    + rewrite H2. apply opener_new_for.
    + intros j pt ct _ Hs. rewrite H2. by eapply opener_new_accepts.
Qed.

(** C7: after the handshake, let a client make any calls one
    after the other (as many as the keys last for), let the network lose any of
    their requests and responses, and let others send to both ends whatever
    they can without the keys: to the server handshake messages, forged records
    and replays, also with the client's address as source, to the client any
    datagrams its channel refuses.  Every call ends as the specification says:
    with the service's response to the first transmission that makes the round
    trip, or with [Timeout] when none of the eleven does; and the service has run
    exactly once for every transmission that reached it, in that order.  So a
    request is executed at least once when the call returns a response, more
    often when responses were lost, and possibly when the call times out. *)
Theorem udp_calls_at_least_once seed chc chs sv p crng calls :
  derive_record_keys seed = (c2s, s2c) ->
  channels_agree (sealer_at := sealer_at) (sealed := sealed) (opener_for := opener_for)
    (accepts := accepts) m seed chc chs ->
  peers sv !! caddr = Some p -> chans sv !! channel p = Some chs ->
  Forall call_ok calls -> 1 + 11 * length calls <= limit ->
  calls_forged calls (mkWorld (udp_connected chc crng) sv) ->
  let w' := calls_run calls (mkWorld (udp_connected chc crng) sv) in
  let '(results, svc') := calls_spec calls (service sv) in
  outcomes (w_client w') = results /\ service (w_server w') = svc'.
Proof.
  intros Hk Ha Hp Hc Hall Hlim Hfg.
  pose proof (calls_run_ok 0 1 calls _ (handshake_links seed chc chs sv p crng Hk Ha Hp Hc) Hall
                Hfg ltac:(lia) Hlim) as H.
  cbv zeta in H. cbn [w_server] in H. destruct (calls_spec calls (service sv)) as [rs svc'].
  by destruct H as (H1 & H2 & _).
Qed.

End UdpSession.

(** ** Concrete runs *)

Module UdpSessionRuns.
Import Ref EndToEndRuns.

Definition c2s : bytes := (derive_record_keys seed).1.
Definition s2c : bytes := (derive_record_keys seed).2.

(** Both channels after the ready record. *)
Definition chc : DataChannel := data_channel_new (mkRSealer c2s 0) (mkROpener s2c [x00]) marked.
Definition chs : DataChannel := data_channel_new (mkRSealer s2c 1) (mkROpener c2s []) marked.

Definition peer : PeerState := mkPeer 0 0 0.
Definition ready_server : Server :=
  set_chans [chs] (set_peers {[caddr := peer]} (serve_obfs_udp (str "k") 0 svc)).

(** A transmission undisturbed by others, and one during which someone sends
    garbage to both ends, to the server with the client's address, and the
    server a first message from elsewhere. *)
Definition garbage : bytes := [xc0; x05; x7a].
Definition plain (f : Fate) : Attempt := mkAttempt f am [] [].
Definition noisy (f : Fate) : Attempt :=
  mkAttempt f am [(am, (garbage, caddr)); (am, ([xc0; x01; x00], saddr))] [[]; garbage].

(** The first call is answered at its third attempt, after its second reached
    the service; the second call gets through but is never answered. *)
Definition two_calls : list (Request * list Attempt) :=
  [ (str "r1", [noisy RequestLost; noisy ResponseLost; plain Answered] ++ repeat (plain RequestLost) 8);
    (str "r2", plain ResponseLost :: repeat (plain RequestLost) 10) ].

Lemma answers_all req :
  answers (sealer_at := DataPlaneRuns.r_sealer_at) 256 (req : core.(Request)).
Proof.
  assert (forall pt s key n, n < 256 -> DataPlaneRuns.r_sealer_at s key n ->
    exists ct s', seal (s : RecordSealer) pt [] = (Ok ct, s')) as Hseal.
  { intros pt s key n Hn [_ Hc]. simpl. unfold r_seal. rewrite decide_True by lia. by eauto. }
  split; [eexists; split; [reflexivity|apply Hseal]|].
  intros sv. split; [eexists; split; [reflexivity|apply Hseal]|done].
Qed.

Lemma two_calls_ok :
  Forall (call_ok (sealer_at := DataPlaneRuns.r_sealer_at) 256) two_calls.
Proof.
  repeat constructor; simpl; try apply answers_all; unfold timely; simpl;
    vm_compute; try discriminate.
Qed.

Lemma garbage_refused (ch : DataChannel) key :
  mimic ch = marked -> ro_key (opener ch : wire.(RecordOpener)) = key -> take (length key) [x7a] <> key -> refuses ch garbage.
Proof.
  intros Hm <- Hk. unfold refuses, open_datagram. rewrite Hm. simpl. unfold r_open.
  rewrite decide_False by done. by destruct ch.
Qed.

(** Evaluation of what a concrete server makes of a datagram. *)
Lemma forged_eval a d src sv :
  (match unshape_hs d marked with Some (Hs3, _) => false | _ => true end) = true ->
  (src = saddr /\ peers sv !! saddr = None \/
   src = caddr /\ d = garbage /\ peers sv !! caddr = Some peer /\
   mimic <$> chans sv !! 0 = Some marked /\
   (fun ch => ro_key (opener ch : wire.(RecordOpener))) <$> chans sv !! 0 = Some c2s) ->
  am_cleanup a = 0%Z -> peers sv !! caddr = Some peer -> forged allow_all marked caddr a d src sv.
Proof.
  intros Hu Hs Ha Hp. split_and!.
  - intros key (body & ph & ch & hs' & Hu' & _). by rewrite Hu' in Hu.
  - intros p ch H1 H2. destruct Hs as [[-> Hs]|(-> & -> & H3 & Hm & Hk)]; [congruence|].
    rewrite H3 in H1. injection H1 as <-. simpl in H2. rewrite H2 in Hm, Hk. simpl in Hm, Hk.
    injection Hm as Hm. injection Hk as Hk. by apply (garbage_refused ch c2s).
  - intros p H1. rewrite Hp in H1. injection H1 as <-. by rewrite Ha.
Qed.

Ltac forged_here := apply forged_eval; [reflexivity| |reflexivity|vm_compute; reflexivity];
  [first [left; split; [reflexivity|vm_compute; reflexivity]
         |right; split_and!; [reflexivity|reflexivity|vm_compute; reflexivity|reflexivity|vm_compute; reflexivity]]].

Lemma two_calls_forged :
  calls_forged spriv allow_all always_open marked caddr saddr two_calls
    (mkWorld (udp_connected chc 0) ready_server).
Proof.
  split; [|split; [|exact I]].
  - split; [|cbn [at_fate noisy]; split; [|split; [split; [exact I|constructor]|exact I]]].
    + split; [split; [|split; [|exact I]]; forged_here|by repeat constructor].
    + split; [split; [|split; [|exact I]]; forged_here|by repeat constructor].
  - repeat (split; [split; [exact I|constructor]|cbn [at_fate plain]]). exact I.
Qed.

Lemma agreed :
  channels_agree (sealer_at := DataPlaneRuns.r_sealer_at) (sealed := DataPlaneRuns.r_sealed)
    (opener_for := DataPlaneRuns.r_opener_for) (accepts := DataPlaneRuns.r_accepts)
    marked seed chc chs.
Proof.
  unfold channels_agree. rewrite (surjective_pairing (derive_record_keys seed)).
  split_and!; [done|done|done|done| | |done|done].
  - intros [_ Hin]. apply Hin. by left.
  - intros n pt ct Hn [Hlt _]. split; [done|]. simpl. rewrite list_elem_of_singleton.
    change x00 with (as_u8 (Z.of_nat 0)). intros E%DataPlaneRuns.ctr_inj; lia.
Qed.

Lemma udp_calls_at_least_once_witness :
  let w' := calls_run spriv allow_all always_open marked caddr saddr two_calls
              (mkWorld (udp_connected chc 0) ready_server) in
  outcomes (w_client w')
    = [ (str "r1", UcFinished (Ok (str "r1", x01))); (str "r2", UcFinished (Err RTimeout)) ] /\
  service (w_server w') = mkRService 3 [] x2a.
Proof.
  refine (udp_calls_at_least_once (RL := DataPlaneRuns.r_record_laws) spriv allow_all always_open
            marked caddr saddr c2s s2c 256 seed chc chs ready_server peer 0 two_calls _ _ _ _ _ _ _).
  - apply surjective_pairing.
  - apply agreed.
  - reflexivity.
  - reflexivity.
  - apply two_calls_ok.
  - vm_compute. lia.
  - apply two_calls_forged.
Defined.

End UdpSessionRuns.
