(* ===== verification/TcpEndToEnd.v ===== *)
(** * A TCP client and a TCP server, connected to each other

    [src/client.rs] and [src/server.rs] together: [connect] against
    [handle_connection], then requests one after the other through the
    client's pump, the connection's loop and the service.  The two ends are
    run on streams that deliver what the other end writes, in reads of any
    size. *)

From S2P Require Import Prelude RustStd Externals Envelope Stream Framing Duplex HandshakeIo.
From S2P Require Import Verifier ProxyDial Server PendingMap Client Instances.

Section TcpEndToEnd.
Context {WA : WireApi} {CA : CoreApi} {SA : SerdeApi} {S : Type} {IA : AsyncIo S}.
Context {AV : AsyncView S} {AL : AsyncIoLaws S}.
Context (p : MimicryProfile) {PL : ProfileLaws p}.
Context (half : Session -> Session -> Prop) {DX : DuplexLaws half} {JL : SerdeLaws}.

(** ** One frame, as both ends see it *)

(** Sending [env] from [session] after the jitter draw puts [w] on the wire. *)
Definition puts (env : Envelope) (session : Session) (rng : Rng) (w : bytes)
    (session' : Session) (rng' : Rng) : Prop :=
  exists d rng1 pt ct,
    jitter p rng = (d, rng1) /\ to_vec env = Ok pt /\ encrypt session pt = (Ok ct, session') /\
    frame_out p ct rng1 = (Ok w, rng').

(** Receiving [w] on [session] yields [env], however [w] is cut into reads,
    and leaves exactly what follows it. *)
Definition takes (env : Envelope) (session : Session) (w : bytes) (session' : Session) : Prop :=
  forall (io : S) buf rest fuel,
    buf ++ v_in (view io) = w ++ rest -> length (v_in (view io)) < fuel ->
    exists n io' buf',
      recv_frame fuel p (io, session, buf) = (Ready (Ok env), (io', session', buf')) /\
      view io' = consume n (view io) /\ buf' ++ v_in (view io') = rest.

Lemma sendable_puts env session rng :
  Duplex.sendable p env -> exists w session' rng', puts env session rng w session' rng'.
Proof.
  intros (pt & Hpt & Hs). destruct (jitter p rng) as [d rng1] eqn:Ej.
  destruct (Hs session rng1) as (ct & s' & w & rng' & He & Hf).
  exists w, s', rng', d, rng1, pt, ct. by split_and!.
Qed.

(** The peer takes what is put, and the two sessions are in step after it. *)
Lemma puts_takes env a rng w a' rng' b :
  puts env a rng w a' rng' -> half a b -> half b a ->
  exists b', takes env b w b' /\ half a' b' /\ half b' a'.
Proof.
  intros (d & rng1 & pt & ct & _ & Hpt & He & Hw) Hab Hba.
  destruct (session_roundtrip _ _ _ _ _ Hab He) as (b' & Hd & Hp').
  exists b'. split_and!; [|done|].
  - intros io buf rest fuel Hb Hf.
    destruct (recv_raw_frame p _ _ _ _ _ _ _ _ Hw Hb Hf) as (n & io' & buf' & Hr & Hk & Hrest).
    exists n, io', buf'. split_and!; [|done|done].
    rewrite recv_frame_raw, Hr. simpl. by rewrite Hd, (serde_roundtrip _ _ Hpt).
  - eapply encrypt_keeps_rx; [exact He|]. by eapply decrypt_keeps_tx.
Qed.

Lemma puts_send env (io : S) session rng w session' rng' :
  puts env session rng w session' rng' -> v_wr (view io) = true ->
  exists d rng1 io', jitter p rng = (d, rng1) /\
    send_frame env p (io, session, rng1) = (Ready (Ok tt), (io', session', rng')) /\
    view io' = emit w (view io).
Proof.
  intros (d & rng1 & pt & ct & Ej & Hpt & He & Hf) Hw.
  destruct (write_all_ok w io Hw) as (io' & Hwr & Hv).
  exists d, rng1, io'. split_and!; [done| |done]. unfold send_frame. by rewrite Hpt, He, Hf, Hwr.
Qed.

(** ** One request, at each end *)

(** A client between two calls, with the bytes [input] still to arrive. *)
Record client_idle (session : Session) (rng : Rng) (input : bytes) (c : Client S) : Prop := {
  ci_wf : cl_wf c;
  ci_handle : cl_handle c = true;
  ci_phase : cl_phase c = Looping;
  ci_state : cl_state c = Connected;
  ci_outbound : cl_outbound c = [];
  ci_writable : v_wr (view (cl_stream c)) = true;
  ci_session : cl_session c = session;
  ci_rng : cl_rng c = rng;
  ci_input : cl_buf c ++ v_in (view (cl_stream c)) = input;
}.

(** The steps of one call of [request], the [i]-th, with the pump running:
    the request is written, the response is read. *)
Definition call_steps (fuel i : nat) (req : Request) : list ClStep :=
  [ClNew req; ClSend i; ClPump fuel; ClPump fuel; ClPoll i].

Lemma cl_run_wf ss (c : Client S) : cl_wf c -> cl_wf (cl_run p ss c).
Proof.
  revert c. induction ss as [|s ss IH]; intros c HW; [done|]. apply (IH (cl_step p s c)).
  by apply cl_step_wf.
Qed.

Lemma client_call fuel c req resp cs crng wq cs1 crng1 wr cs2 rest :
  client_idle cs crng (wr ++ rest) c -> length (v_in (view (cl_stream c))) < fuel ->
  puts (ERequest req) cs crng wq cs1 crng1 -> takes (EResponse resp) cs1 wr cs2 ->
  response_id resp = request_id req ->
  exists n k mx io buf,
    cl_run p (call_steps fuel (length (cl_calls c)) req) c
      = mkClient io cs2 buf crng1 [] Looping Connected mx (cl_events c)
          (cl_calls c ++ [mkCall req n (Finished (Ok resp))]) true /\
    view io = consume k (emit wq (view (cl_stream c))) /\ buf ++ v_in (view io) = rest.
Proof.
  intros [HW Hh Hph Hst Hq Hw <- <- Hin] Hf Hput Htake Hid.
  unfold cl_run, call_steps. cbn [fold_left cl_step]. rewrite Hh. unfold call_new.
  pose proof (mux_insert_wf (request_id req) _ (cw_mux c HW)) as HM.
  pose proof (mux_insert_slot (request_id req) (cl_mux c)) as Hn.
  destruct (mux_insert (request_id req) (cl_mux c)) as [n mx]. simpl in HM, Hn.
  unfold call_send. simpl. rewrite list_lookup_middle by done. unfold tx_send. simpl.
  rewrite Hph. simpl. unfold set_stage at 1, cl_set_outbound, cl_set_calls, cl_set_mux. simpl. rewrite Hq, Hst, Hh, ?Hph.
  unfold pump_step at 2. simpl. unfold pump_turn at 1. simpl. unfold client_send at 1. simpl.
  destruct (puts_send _ (cl_stream c) _ _ _ _ _ Hput Hw) as (d & rng1 & io1 & -> & -> & V1).
  unfold pump_step. simpl. unfold pump_turn. simpl.
  destruct (Htake io1 (cl_buf c) rest fuel) as (k & io2 & buf2 & -> & V2 & Hrest);
    [by rewrite V1|by rewrite V1|].
  simpl. unfold mux_resolve. rewrite Hid, (mw_waiting _ HM _ _ Hn).
  unfold call_poll. simpl.
  rewrite list_lookup_alter_eq, list_lookup_middle by done. simpl.
  rewrite list_lookup_alter_eq, Hn. simpl.
  eexists n, k, _, io2, buf2. split_and!; [|by rewrite V2, V1|done].
  unfold set_stage. simpl. f_equal. by rewrite !alter_app_r_alt, Nat.sub_diag by lia.
Qed.

(** What the calls of a client stand at: the requests with their results. *)
Definition outcomes (c : Client S) : list (Request * CallStage) :=
  (fun ca => (ca_req ca, ca_stage ca)) <$> cl_calls c.

Lemma client_round fuel c req resp cs crng wq cs1 crng1 wr cs2 rest :
  client_idle cs crng (wr ++ rest) c -> length (v_in (view (cl_stream c))) < fuel ->
  puts (ERequest req) cs crng wq cs1 crng1 -> takes (EResponse resp) cs1 wr cs2 ->
  response_id resp = request_id req ->
  let c' := cl_run p (call_steps fuel (length (cl_calls c)) req) c in
  client_idle cs2 crng1 rest c' /\
  outcomes c' = outcomes c ++ [(req, Finished (Ok resp))] /\
  v_out (view (cl_stream c')) = v_out (view (cl_stream c)) ++ wq /\
  length (v_in (view (cl_stream c'))) <= length (v_in (view (cl_stream c))).
Proof.
  intros HI Hf Hput Htake Hid. cbv zeta.
  pose proof (cl_run_wf (call_steps fuel (length (cl_calls c)) req) c (ci_wf _ _ _ _ HI)) as HW.
  destruct (client_call _ _ _ _ _ _ _ _ _ _ _ _ HI Hf Hput Htake Hid)
    as (n & k & mx & io & buf & E & V & Hrest).
  rewrite E in *. unfold outcomes. simpl. rewrite fmap_app, V in *. simpl in *. split_and!; try done.
  - split; simpl; try done; rewrite V; [apply HI|done].
  - rewrite length_drop. lia.
Qed.

(** A connection between two requests. *)
Record conn_idle (session : Session) (rng : Rng) (input : bytes) (svc : Service) (c : Conn S)
    : Prop := {
  ni_status : cn_status c = Running;
  ni_events : cn_events c = [];
  ni_writable : v_wr (view (cn_stream c)) = true;
  ni_session : cn_session c = session;
  ni_rng : cn_rng c = rng;
  ni_input : cn_buf c ++ v_in (view (cn_stream c)) = input;
  ni_service : cn_service c = svc;
}.

Lemma server_round fuel c req resp svc svc' ss srng wq ss1 wr ss2 srng2 rest :
  conn_idle ss srng (wq ++ rest) svc c -> length (v_in (view (cn_stream c))) < fuel ->
  takes (ERequest req) ss wq ss1 -> puts (EResponse resp) ss1 srng wr ss2 srng2 ->
  handle svc req = (resp, svc') ->
  let c' := conn_turn fuel p c in
  conn_idle ss2 srng2 rest svc' c' /\
  v_out (view (cn_stream c')) = v_out (view (cn_stream c)) ++ wr /\
  length (v_in (view (cn_stream c'))) <= length (v_in (view (cn_stream c))).
Proof.
  intros [Hr Hq Hw <- <- Hin <-] Hf Htake Hput Hh. cbv zeta. unfold conn_turn. rewrite Hr, Hq.
  destruct (Htake (cn_stream c) (cn_buf c) rest fuel Hin Hf) as (k & io1 & buf1 & -> & V1 & Hrest).
  simpl. rewrite Hh. unfold conn_send. simpl.
  destruct (puts_send _ io1 _ _ _ _ _ Hput) as (d & rng1 & io2 & -> & -> & V2); [by rewrite V1|].
  simpl. rewrite V1 in *. split_and!; simpl; rewrite ?V2; simpl; rewrite ?length_drop; [|done|lia].
  by split; simpl; rewrite ?V2.
Qed.

(** ** Requests one after the other *)

(** The service run on the requests: its responses and its final state. *)
Fixpoint handle_all (svc : Service) (reqs : list Request) : list Response * Service :=
  match reqs with
  | [] => ([], svc)
  | req :: reqs =>
      let '(resp, svc1) := handle svc req in
      let '(resps, svc2) := handle_all svc1 reqs in
      (resp :: resps, svc2)
  end.

(** The client's calls, each made when the one before has returned. *)
Fixpoint calls_run (fuel : nat) (reqs : list Request) (c : Client S) : Client S :=
  match reqs with
  | [] => c
  | req :: reqs => calls_run fuel reqs (cl_run p (call_steps fuel (length (cl_calls c)) req) c)
  end.

(** The requests and the responses can be framed, and the service answers
    under the id of the request. *)
Definition answerable (req : Request) (resp : Response) : Prop :=
  Duplex.sendable p (ERequest req) /\ Duplex.sendable p (EResponse resp) /\
  response_id resp = request_id req.

Definition returned (req : Request) (resp : Response) : Request * CallStage :=
  (req, Finished (Ok resp)).

Lemma rounds reqs resps svc svc' cs crng ss srng :
  half cs ss -> half ss cs ->
  handle_all svc reqs = (resps, svc') -> Forall2 answerable reqs resps ->
  exists wq wr cs' crng' ss' srng',
    (forall fuel c rest, client_idle cs crng (wr ++ rest) c ->
       length (v_in (view (cl_stream c))) < fuel ->
       let c' := calls_run fuel reqs c in
       client_idle cs' crng' rest c' /\
       outcomes c' = outcomes c ++ zip_with returned reqs resps /\
       v_out (view (cl_stream c')) = v_out (view (cl_stream c)) ++ wq) /\
    (forall fuel c rest, conn_idle ss srng (wq ++ rest) svc c ->
       length (v_in (view (cn_stream c))) < fuel ->
       let c' := conn_run p (repeat (CTurn fuel) (length reqs)) c in
       conn_idle ss' srng' rest svc' c' /\
       v_out (view (cn_stream c')) = v_out (view (cn_stream c)) ++ wr).
Proof.
  intros Hcs Hsc Hh Hall. revert svc cs crng ss srng Hcs Hsc Hh.
  induction Hall as [|req resp reqs resps (Hq & Hr & Hid) _ IH];
    intros svc cs crng ss srng Hcs Hsc Hh; simpl in Hh.
  - injection Hh as <-. exists [], [], cs, crng, ss, srng.
    split; intros fuel c rest HI _; simpl; rewrite ?app_nil_r; by split_and!.
  - destruct (handle svc req) as [resp1 svc1] eqn:Eh.
    destruct (handle_all svc1 reqs) as [resps1 svc2] eqn:E. injection Hh as -> -> ->.
    destruct (sendable_puts _ cs crng Hq) as (w1 & cs1 & crng1 & Hp1).
    destruct (puts_takes _ _ _ _ _ _ ss Hp1 Hcs Hsc) as (ss1 & Ht1 & Hcs1 & Hsc1).
    destruct (sendable_puts _ ss1 srng Hr) as (w2 & ss2 & srng2 & Hp2).
    destruct (puts_takes _ _ _ _ _ _ cs1 Hp2 Hsc1 Hcs1) as (cs2 & Ht2 & Hsc2 & Hcs2).
    destruct (IH svc1 cs2 crng1 ss2 srng2 Hcs2 Hsc2 E)
      as (wq & wr & cs' & crng' & ss' & srng' & IHc & IHs).
    exists (w1 ++ wq), (w2 ++ wr), cs', crng', ss', srng'. split; intros fuel c rest HI Hf; cbv zeta.
    + rewrite <-app_assoc in HI.
      destruct (client_round _ _ _ _ _ _ _ _ _ _ _ _ HI Hf Hp1 Ht2 Hid) as (HI1 & Ho1 & Hv1 & Hl1).
      destruct (IHc fuel _ rest HI1) as (HI2 & Ho2 & Hv2); [lia|]. cbn [calls_run zip_with].
      split; [done|]. rewrite Ho2, Ho1, Hv2, Hv1. by rewrite <-!app_assoc.
    + rewrite <-app_assoc in HI.
      destruct (server_round _ _ _ _ _ _ _ _ _ _ _ _ _ _ HI Hf Ht1 Hp2 Eh) as (HI1 & Hv1 & Hl1).
      destruct (IHs fuel _ rest HI1) as (HI2 & Hv2); [lia|].
      split; [done|]. cbv zeta in Hv2. etrans; [exact Hv2|]. rewrite Hv1. by rewrite <-app_assoc.
Qed.

(** ** From the dial to the last response *)

Context {G : Type} {TG : TransportGate G}.

(** C5: let a client and a server hold keys for which the Noise
    exchange completes, let the gate accept the client's key, and let the
    client call [request] on any list of requests, one after the other.  Then
    there are byte strings [c2s] and [s2c] such that, when each end's stream
    delivers what the other writes, in reads of any size, [connect] and
    [handle_connection] both succeed, the client writes exactly [c2s] and the
    server exactly [s2c], the service has handled exactly these requests, in
    order, and every call has returned the service's response to its request,
    with both ends still up. *)
Theorem tcp_session_serves (gate : G) addr crng0 srng0 crng srng cent sent
    cpriv spub spriv hi0 hr0 m1 m2 m3 hi3 hr3 cs ss key svc reqs resps svc' :
  PreambleLaw p ->
  initiator cent cpriv spub = Ok hi0 -> responder sent spriv = Ok hr0 ->
  xk_exchange hi0 hr0 [] m1 m2 m3 hi3 hr3 ->
  into_session hi3 = Ok cs -> into_session hr3 = Ok ss -> half cs ss -> half ss cs ->
  (forall m rng, m ∈ [m1; m2; m3] -> is_ok (frame_out p m rng).1 = true) ->
  remote_static hr3 = Some key -> authenticate gate key = Ok tt ->
  handle_all svc reqs = (resps, svc') -> Forall2 answerable reqs resps ->
  exists c2s s2c, forall fuel tcp_connect (c s : S),
    v_wr (view c) = true -> v_in (view c) = s2c -> length s2c < fuel ->
    v_wr (view s) = true -> v_in (view s) = c2s -> length c2s < fuel ->
    tcp_connect addr = Ready (Ok c) ->
    (exists cl, connect tcp_connect fuel crng0 cent crng addr cpriv spub p None = Ready (Ok cl) /\
      let cl' := calls_run fuel reqs cl in
      outcomes cl' = zip_with returned reqs resps /\ cl_state cl' = Connected /\
      v_out (view (cl_stream cl')) = v_out (view c) ++ c2s) /\
    (exists cn io, handle_connection fuel srng0 sent srng spriv svc gate p s
                     = (Ready (Some cn), io) /\
      let cn' := conn_run p (repeat (CTurn fuel) (length reqs)) cn in
      cn_service cn' = svc' /\ cn_status cn' = Running /\
      v_out (view (cn_stream cn')) = v_out (view s) ++ s2c).
Proof.
  intros Hpl Hi Hr Hx Hcs Hss Hcsh Hscs Hfit Hkey Hgate Hh Hall.
  destruct (handshake_in_place_agrees p crng0 srng0 cent sent cpriv spub spriv
              hi0 hr0 m1 m2 m3 hi3 hr3 cs ss Hpl Hi Hr Hx Hcs Hss Hfit) as (a & b & Hhs).
  destruct (rounds reqs resps svc svc' cs crng ss srng Hcsh Hscs Hh Hall)
    as (wq & wr & cs' & crng' & ss' & srng' & HC & HS).
  exists (a ++ wq), (b ++ wr). intros fuel tcp_connect c s Hwc Hic Hfc Hws His Hfs Hdial.
  destruct (Hhs wr wq fuel c s) as [(c1 & bufc & Ec & Oc & Bc & Wc) (s1 & bufs & Es & Os & Bs & Ws)];
    try done; [by rewrite Hic|by rewrite His|].
  split.
  - exists (connected c1 cs bufc crng). unfold connect. rewrite Hdial. simpl. rewrite Ec.
    split; [done|]. destruct (HC fuel (connected c1 cs bufc crng) []) as (HI & Ho & Hv).
    { split; simpl; rewrite ?app_nil_r; done. }
    { simpl. apply (f_equal length) in Bc. rewrite length_app in *. lia. }
    split_and!; [done|by apply HI|]. etrans; [exact Hv|]. simpl. by rewrite Oc, <-app_assoc.
  - exists (mkConn s1 ss bufs srng svc [] [] Running), s1. unfold handle_connection.
    rewrite Es, Hkey, Hgate. split; [done|].
    destruct (HS fuel (mkConn s1 ss bufs srng svc [] [] Running) []) as (HI & Hv).
    { by split; simpl; rewrite ?app_nil_r. }
    { simpl. apply (f_equal length) in Bs. rewrite length_app in *. lia. }
    split_and!; [by apply HI|by apply HI|]. etrans; [exact Hv|]. simpl. by rewrite Os, <-app_assoc.
Qed.

End TcpEndToEnd.

(** ** Concrete runs *)

Module TcpRuns.
Import Ref HandshakeRuns.

Definition svc : RService := mkRService 0 [str "news"] x2a.
Definition reqs : list core.(Request) := [str "r1"; str "r2"].
Definition resps : list core.(Response) := [(str "r1", x00); (str "r2", x01)].
Definition gate : KeyAllowList := key_allow_list_new [pub_of cpriv].
Definition addr : bytes := str "server:443".

(** Two requests of an allow-listed client, behind seventeen preamble bytes. *)
Lemma tcp_session_serves_witness :
  exists c2s s2c, forall fuel tcp_connect (c s : Script),
    v_wr (view c) = true -> v_in (view c) = s2c -> length s2c < fuel ->
    v_wr (view s) = true -> v_in (view s) = c2s -> length c2s < fuel ->
    tcp_connect addr = Ready (Ok c) ->
    (exists cl,
      connect tcp_connect fuel 5 0 1 addr cpriv (pub_of spriv) (junk_preamble 17) None
        = Ready (Ok cl) /\
      let cl' := calls_run (junk_preamble 17) fuel reqs cl in
      outcomes cl' = [(str "r1", Finished (Ok (str "r1", x00)));
                      (str "r2", Finished (Ok (str "r2", x01)))] /\
      cl_state cl' = Connected /\ v_out (view (cl_stream cl')) = v_out (view c) ++ c2s) /\
    (exists cn io,
      handle_connection fuel 6 0 2 spriv svc gate (junk_preamble 17) s = (Ready (Some cn), io) /\
      let cn' := conn_run (junk_preamble 17) (repeat (CTurn fuel) 2) cn in
      cn_service cn' = mkRService 2 [str "news"] x2a /\ cn_status cn' = Running /\
      v_out (view (cn_stream cn')) = v_out (view s) ++ s2c).
Proof.
  refine (tcp_session_serves (junk_preamble 17) half gate addr 5 6 1 2 0 0 cpriv (pub_of spriv) spriv
            (hi 0) hr0 m1 m2 m3 (hi 3) hr3 (mkRSession 0 0) (mkRSession 0 0) (pub_of cpriv)
            svc reqs resps (mkRService 2 [str "news"] x2a) _ _ _ _ _ _ _ _ _ _ _ _ _);
    try reflexivity.
  - exists (hi 1), (hi 2), (mkRHandshake RResp spriv None 1), (mkRHandshake RResp spriv None 2), [], [].
    repeat split.
  - intros m rng Hm. apply list_elem_of_In in Hm.
    destruct Hm as [<-|[<-|[<-|[]]]]; reflexivity.
  - repeat constructor; (eexists; split; [reflexivity|]; intros session rng;
      eexists _, _, _, _; split; reflexivity).
Defined.

End TcpRuns.
