(* ===== verification/Segmentation.v ===== *)
(** * Independence of the segmentation of a TCP stream

    TCP delivers bytes, not messages: the same bytes may reach the program in
    any reads.  Here the receive loops of [src/framing.rs] are compared with a
    reference that sees all the bytes at once, and the handshakes, the server's
    connection ([src/server.rs]) and the client's pump ([src/client.rs]) are
    compared on two streams that deliver the same bytes in different reads.
    The second comparison is a simulation, built from the relational rules of
    the monad [IO] below. *)

From S2P Require Import Prelude RustStd Externals Envelope Stream Framing HandshakeIo.
From S2P Require Import Verifier Socks5 HttpConnect ProxyDial PendingMap Server Client Instances.

(** ** The reference receiver *)

Section Reference.
Context {WA : WireApi} {CA : CoreApi} {SA : SerdeApi}.

(** One record out of [total], everything that is buffered and that the peer
    delivers before [f] happens, and what is left of it. *)
Definition ref_recv (p : MimicryProfile) (total : bytes) (f : Fin)
    : Poll (Res ObfsError bytes) * bytes :=
  match frame_in p total with
  | (FrameRecord r, rest) => (Ready (Ok r), rest)
  | (Invalid _, _) => (Ready (Err (Io invalid_framing)), [])
  | (NeedMore, _) =>
      (match f with
       | FinEof => Ready (Err (match total with [] => Closed | _ => Io eof_mid_frame end))
       | FinErr e => Ready (Err (Io e))
       | FinWait => Pending
       end, total)
  end.

(** The record, decrypted and parsed. *)
Definition ref_recv_frame (p : MimicryProfile) (session : Session) (total : bytes) (f : Fin)
    : Poll (Res ObfsError Envelope) * Session * bytes :=
  match ref_recv p total f with
  | (Ready (Ok ciphertext), rest) =>
      match decrypt session ciphertext with
      | (Err e, session') => (Ready (Err (Wire e)), session', rest)
      | (Ok plaintext, session') =>
          (Ready (res_map_err Serde (from_slice plaintext)), session', rest)
      end
  | (Ready (Err e), rest) => (Ready (Err e), session, rest)
  | (Pending, rest) => (Pending, session, rest)
  end.

(** The connection goes on after this result: it was not an error. *)
Definition settled {E A} (r : Poll (Res E A)) : Prop :=
  match r with Ready (Err _) => False | _ => True end.

Context {S : Type} {IA : AsyncIo S} {AV : AsyncView S} {AL : AsyncIoLaws S}.
Context (p : MimicryProfile) {PL : ProfileLaws p} {FL : FrontLaws p}.

Lemma recv_raw_ref fuel (io : S) buf :
  length (v_in (view io)) < fuel ->
  let '(r, rest) := ref_recv p (buf ++ v_in (view io)) (v_fin (view io)) in
  exists io' buf' k,
    recv_raw fuel p (io, buf) = (r, (io', buf')) /\ view io' = consume k (view io) /\
    (settled r -> buf' ++ v_in (view io') = rest).
Proof.
  revert io buf. induction fuel as [|fuel IH]; intros io buf Hf; [lia|].
  unfold ref_recv. simpl. destruct (frame_in p buf) as [[r| |msg] buf1] eqn:E.
  - rewrite (front_record _ _ _ _ E). exists io, buf1, 0. by rewrite consume_0.
  - pose proof (frame_need_more _ _ E) as ->.
    destruct (decide (v_in (view io) = [])) as [Hnil|Hne].
    + destruct (read_none 4096 io ltac:(lia) Hnil) as (io1 & -> & Hv).
      rewrite Hnil, app_nil_r, E. exists io1, buf, 0. rewrite consume_0, Hv, Hnil, app_nil_r.
      by destruct (v_fin (view io)), buf.
    + destruct (read_chunk io Hne) as (n & x & tmp & io1 & -> & Et & Hn & Hv). rewrite Et.
      assert (length (v_in (view io1)) < fuel) as Hl by (rewrite Hv; simpl; rewrite length_drop; lia).
      specialize (IH io1 (buf ++ take n (v_in (view io))) Hl). rewrite Hv in IH. simpl in IH.
      rewrite <-app_assoc, take_drop in IH. fold (ref_recv p (buf ++ v_in (view io)) (v_fin (view io))).
      destruct (ref_recv p _ _) as [r rest]. destruct IH as (io2 & buf2 & k & -> & H2 & H3).
      exists io2, buf2, (n + k). split_and!; [done|by rewrite H2, consume_consume|done].
  - destruct (front_invalid _ _ _ (v_in (view io)) E) as (msg' & rest' & ->).
    exists io, buf1, 0. by rewrite consume_0.
Qed.

Lemma recv_frame_ref fuel (io : S) session buf :
  length (v_in (view io)) < fuel ->
  let '(r, session', rest) :=
    ref_recv_frame p session (buf ++ v_in (view io)) (v_fin (view io)) in
  exists io' buf' k,
    recv_frame fuel p (io, session, buf) = (r, (io', session', buf')) /\
    view io' = consume k (view io) /\ (settled r -> buf' ++ v_in (view io') = rest).
Proof.
  intros Hf. pose proof (recv_raw_ref fuel io buf Hf) as H. unfold ref_recv_frame.
  destruct (ref_recv p _ _) as [[[ct|e]|] rest]; destruct H as (io' & buf' & k & Hr & Hv & Hs);
    rewrite recv_frame_raw, Hr; simpl; [|by eexists _, _, _..].
  destruct (decrypt session ct) as [[pt|e] session']; eexists _, _, _; split_and!; try done.
  intros _. by apply Hs.
Qed.

(** The results of successive calls of [recv_frame], to the first error or
    wait, and the reference for them. *)
Fixpoint recv_calls (fuel n : nat) (st : S * Session * bytes)
    : list (Poll (Res ObfsError Envelope)) :=
  match n with
  | 0 => []
  | Datatypes.S n =>
      match recv_frame fuel p st with
      | (Ready (Ok env), st') => Ready (Ok env) :: recv_calls fuel n st'
      | (r, _) => [r]
      end
  end.

Fixpoint ref_calls (n : nat) (session : Session) (total : bytes) (f : Fin)
    : list (Poll (Res ObfsError Envelope)) :=
  match n with
  | 0 => []
  | Datatypes.S n =>
      match ref_recv_frame p session total f with
      | (Ready (Ok env), session', rest) => Ready (Ok env) :: ref_calls n session' rest f
      | (r, _, _) => [r]
      end
  end.

(** C23: the accumulation-buffer loop of [recv_frame] is
    equivalent to a receiver that has all the bytes at once.  For any bytes,
    well-formed or not, however they are cut into reads and split between the
    buffer and the stream, and whatever ends the stream (end of file, an error,
    silence), successive calls return the envelopes, the errors and the waiting
    that the reference computes from the whole text. *)
Theorem recv_frame_reference fuel n (io : S) session buf :
  length (v_in (view io)) < fuel ->
  recv_calls fuel n (io, session, buf)
    = ref_calls n session (buf ++ v_in (view io)) (v_fin (view io)).
Proof.
  revert io session buf. induction n as [|n IH]; intros io session buf Hf; [done|]. simpl.
  pose proof (recv_frame_ref fuel io session buf Hf) as H.
  destruct (ref_recv_frame p session _ _) as [[[[env|e]|] session'] rest];
    destruct H as (io' & buf' & k & -> & Hv & Hs); [|done|done].
  f_equal. rewrite IH; [|rewrite Hv; simpl; rewrite length_drop; lia].
  rewrite Hs by done. by rewrite Hv.
Qed.

End Reference.

(** ** Two streams *)

Section Segmentation.
Context {WA : WireApi} {CA : CoreApi} {SA : SerdeApi}.
Context {S1 : Type} {IA1 : AsyncIo S1} {AV1 : AsyncView S1} {AL1 : AsyncIoLaws S1}.
Context {S2 : Type} {IA2 : AsyncIo S2} {AV2 : AsyncView S2} {AL2 : AsyncIoLaws S2}.

(** Two ends in the same situation up to segmentation: what is buffered and
    what is still delivered make up the same bytes.  [F] bounds the bytes the
    streams still deliver. *)
Record seg (F : nat) (a : S1) (abuf : bytes) (b : S2) (bbuf : bytes) : Prop := {
  sg_text : abuf ++ v_in (view a) = bbuf ++ v_in (view b);
  sg_fin : v_fin (view a) = v_fin (view b);
  sg_out : v_out (view a) = v_out (view b);
  sg_wr1 : v_wr (view a) = true;
  sg_wr2 : v_wr (view b) = true;
  sg_len1 : length (v_in (view a)) < F;
  sg_len2 : length (v_in (view b)) < F;
}.

Lemma seg_start F a b :
  view a = view b -> v_wr (view a) = true -> length (v_in (view a)) < F -> seg F a [] b [].
Proof. intros Hv Hw Hl. by split; rewrite <-?Hv. Qed.

(** *** Relational rules for [IO] *)

(** The computations [m] and [n], run on [a] and [b], both wait, fail with the
    same error, or succeed in a way that satisfies [R]; they have written the
    same bytes. *)
Definition io_rel {E A B} (R : A -> B -> S1 -> S2 -> Prop) (m : IO S1 E A) (n : IO S2 E B)
    (a : S1) (b : S2) : Prop :=
  match m a, n b with
  | (Ready (Ok x), a'), (Ready (Ok y), b') => R x y a' b'
  | (Ready (Err e), a'), (Ready (Err e'), b') => e = e' /\ v_out (view a') = v_out (view b')
  | (Pending, a'), (Pending, b') => v_out (view a') = v_out (view b')
  | _, _ => False
  end.

Lemma io_rel_bind {E A B A' B'} (R : A -> B -> S1 -> S2 -> Prop) (Q : A' -> B' -> S1 -> S2 -> Prop)
    (m : IO S1 E A) (n : IO S2 E B) k l a b :
  io_rel R m n a b -> (forall x y a' b', R x y a' b' -> io_rel Q (k x) (l y) a' b') ->
  io_rel Q (io_bind m k) (io_bind n l) a b.
Proof.
  unfold io_rel at 1 3, io_bind. intros H Hk.
  destruct (m a) as [[[x|e]|] a'], (n b) as [[[y|e']|] b']; try done. by apply Hk.
Qed.

Lemma io_rel_ret {E A B} (R : A -> B -> S1 -> S2 -> Prop) x y a b :
  R x y a b -> io_rel (E := E) R (io_ret x) (io_ret y) a b.
Proof. done. Qed.

Lemma io_rel_of_res {E A} (R : A -> A -> S1 -> S2 -> Prop) (r : Res E A) a b :
  v_out (view a) = v_out (view b) -> (forall x, r = Ok x -> R x x a b) ->
  io_rel R (io_of_res r) (io_of_res r) a b.
Proof. intros Ho HR. unfold io_rel, io_of_res. destruct r; [by apply HR|done]. Qed.

Lemma io_rel_call {E F L A} (R : A * L -> A * L -> S1 -> S2 -> Prop) (f : F -> E)
    (r : Res F A * L) a b :
  v_out (view a) = v_out (view b) -> (forall x, R x x a b) ->
  io_rel R (io_call f r) (io_call f r) a b.
Proof. intros Ho HR. unfold io_rel, io_call. by destruct r as [[x|e] l]. Qed.

Lemma io_rel_map_err {E F A B} (R : A -> B -> S1 -> S2 -> Prop) (f : E -> F)
    (m : IO S1 E A) (n : IO S2 E B) a b :
  io_rel R m n a b -> io_rel R (io_map_err f m) (io_map_err f n) a b.
Proof.
  unfold io_rel, io_map_err.
  destruct (m a) as [[[x|e]|] a'], (n b) as [[[y|e']|] b']; try done.
  intros [-> H]. done.
Qed.

Context (F : nat).

Lemma seg_emit w a abuf b bbuf a' b' :
  seg F a abuf b bbuf -> view a' = emit w (view a) -> view b' = emit w (view b) ->
  seg F a' abuf b' bbuf.
Proof. intros [] Ha Hb. split; rewrite ?Ha, ?Hb; simpl; congruence. Qed.

Lemma io_rel_write_all w a abuf b bbuf :
  seg F a abuf b bbuf ->
  io_rel (fun _ _ a b => seg F a abuf b bbuf) (write_all w) (write_all w) a b.
Proof.
  intros HS. destruct (write_all_ok w a) as (a' & Ha & Va); [apply HS|].
  destruct (write_all_ok w b) as (b' & Hb & Vb); [apply HS|].
  unfold io_rel. rewrite Ha, Hb. by eapply seg_emit.
Qed.

Lemma io_rel_flush a abuf b bbuf :
  seg F a abuf b bbuf ->
  io_rel (fun _ _ a b => seg F a abuf b bbuf) flush flush a b.
Proof.
  intros HS. destruct (flush_ok a) as (a' & Ha & Va); [apply HS|].
  destruct (flush_ok b) as (b' & Hb & Vb); [apply HS|].
  unfold io_rel. rewrite Ha, Hb. destruct HS. split; rewrite ?Va, ?Vb; done.
Qed.

(** An exact read is not affected by the segmentation at all. *)
Lemma io_rel_read_exact n a b :
  seg F a [] b [] ->
  io_rel (fun x y a b => x = y /\ seg F a [] b []) (read_exact n) (read_exact n) a b.
Proof.
  intros [Ht Hfin Ho Hw1 Hw2 Hl1 Hl2]. simpl in Ht. unfold io_rel.
  destruct (decide (n <= length (v_in (view a)))).
  - destruct (read_exact_enough n a) as (a' & -> & Va); [done|].
    destruct (read_exact_enough n b) as (b' & -> & Vb); [by rewrite <-Ht|].
    split; [by rewrite Ht|]. split; rewrite ?Va, ?Vb; simpl; rewrite ?length_drop, ?Ht; auto with lia.
  - destruct (read_exact_short n a) as (a' & -> & Va); [lia|].
    destruct (read_exact_short n b) as (b' & -> & Vb); [rewrite <-Ht; lia|].
    rewrite <-Hfin, Va, Vb. by destruct (v_fin (view a)).
Qed.

Context (p : MimicryProfile) {PL : ProfileLaws p} {FL : FrontLaws p}.

Lemma seg_consume rest a abuf b bbuf a' abuf' b' bbuf' j k :
  seg F a abuf b bbuf -> view a' = consume j (view a) -> view b' = consume k (view b) ->
  abuf' ++ v_in (view a') = rest -> bbuf' ++ v_in (view b') = rest ->
  seg F a' abuf' b' bbuf'.
Proof.
  intros [] Ha Hb H1 H2. split; [congruence|..]; rewrite ?Ha, ?Hb; simpl; rewrite ?length_drop; auto with lia.
Qed.

Lemma io_rel_send_raw m rng a abuf b bbuf :
  seg F a abuf b bbuf ->
  io_rel (fun x y a b => x = y /\ seg F a abuf b bbuf)
    (io_local (send_raw p m) rng) (io_local (send_raw p m) rng) a b.
Proof.
  intros HS. unfold io_rel, io_local, send_raw.
  destruct (frame_out p m rng) as [[w|e] rng']; [|by split; [|apply HS]].
  pose proof (io_rel_write_all w a abuf b bbuf HS) as H. unfold io_rel in H.
  destruct (write_all w a) as [[[[]|]|] a'], (write_all w b) as [[[[]|]|] b']; try done.
  destruct H as [-> H]. done.
Qed.

Lemma io_rel_recv_raw fuel a abuf b bbuf :
  F <= fuel -> seg F a abuf b bbuf ->
  io_rel (fun x y a b => x.1 = y.1 /\ seg F a x.2 b y.2)
    (io_local (recv_raw fuel p) abuf) (io_local (recv_raw fuel p) bbuf) a b.
Proof.
  intros Hf HS. pose proof HS as [Ht Hfin Ho _ _ Hl1 Hl2].
  pose proof (recv_raw_ref p fuel a abuf ltac:(lia)) as H1.
  pose proof (recv_raw_ref p fuel b bbuf ltac:(lia)) as H2.
  rewrite <-Ht, <-Hfin in H2. unfold io_rel, io_local.
  destruct (ref_recv p _ _) as [r rest].
  destruct H1 as (a' & abuf' & j & -> & Va & Ra), H2 as (b' & bbuf' & k & -> & Vb & Rb).
  destruct r as [[x|e]|]; simpl in *; [|by rewrite Va, Vb..].
  split; [done|]. by apply (seg_consume rest a abuf b bbuf a' abuf' b' bbuf' j k); auto.
Qed.

Lemma io_rel_skip_preamble n a b :
  seg F a [] b [] ->
  io_rel (fun _ _ a b => seg F a [] b [])
    (if decide (0 < n) then skip_preamble n else io_ret tt)
    (if decide (0 < n) then skip_preamble n else io_ret tt) a b.
Proof.
  intros HS. case_decide; [|done]. pose proof (io_rel_read_exact n a b HS) as H'.
  unfold io_rel, skip_preamble in *.
  destruct (read_exact n a) as [[[x|e]|] a'], (read_exact n b) as [[[y|e']|] b']; try done.
  - by destruct H'.
  - destruct H' as [-> Ho]. by case_decide.
Qed.

(** *** The handshakes *)

(** The rules again, for the first step of a bind. *)
Section Steps.
Context {A B : Type} (Q : A -> B -> S1 -> S2 -> Prop).

Lemma step_of_res {E X} (r : Res E X) k l a b :
  v_out (view a) = v_out (view b) -> (forall x, io_rel Q (k x) (l x) a b) ->
  io_rel Q (io_bind (io_of_res r) k) (io_bind (io_of_res r) l) a b.
Proof. intros Ho Hk. unfold io_rel, io_bind, io_of_res. destruct r; [apply Hk|done]. Qed.

Lemma step_call {E G L X} (f : G -> E) (r : Res G X * L) k l a b :
  v_out (view a) = v_out (view b) -> (forall x y, io_rel Q (k (x, y)) (l (x, y)) a b) ->
  io_rel Q (io_bind (io_call f r) k) (io_bind (io_call f r) l) a b.
Proof. intros Ho Hk. unfold io_rel, io_bind, io_call. destruct r as [[x|e] y]; [apply Hk|done]. Qed.

Lemma step_send m rng k l a abuf b bbuf :
  seg F a abuf b bbuf ->
  (forall rng a b, seg F a abuf b bbuf -> io_rel Q (k (tt, rng)) (l (tt, rng)) a b) ->
  io_rel Q (io_bind (io_local (send_raw p m) rng) k) (io_bind (io_local (send_raw p m) rng) l) a b.
Proof.
  intros HS Hk. eapply io_rel_bind; [by apply io_rel_send_raw|].
  intros [[] x] [[] y] a' b' [[= <-] HS']. by apply Hk.
Qed.

Lemma step_recv fuel k l a abuf b bbuf :
  F <= fuel -> seg F a abuf b bbuf ->
  (forall m abuf bbuf a b, seg F a abuf b bbuf -> io_rel Q (k (m, abuf)) (l (m, bbuf)) a b) ->
  io_rel Q (io_bind (io_local (recv_raw fuel p) abuf) k)
    (io_bind (io_local (recv_raw fuel p) bbuf) l) a b.
Proof.
  intros Hf HS Hk. eapply io_rel_bind; [by apply io_rel_recv_raw|].
  intros [x ab] [y bb] a' b' [Hx HS']. simpl in *. subst. by apply Hk.
Qed.

End Steps.

Ltac rel_call HS := apply step_call; [apply HS|]; intros ? ?.

Lemma server_handshake_seg fuel rng0 ent priv a b :
  F <= fuel -> seg F a [] b [] ->
  io_rel (fun x y a b => x.1 = y.1 /\ seg F a x.2 b y.2)
    (server_handshake_in_place fuel rng0 ent priv p)
    (server_handshake_in_place fuel rng0 ent priv p) a b.
Proof.
  intros Hf HS. unfold server_handshake_in_place. apply step_of_res; [apply HS|]. intros hs.
  eapply io_rel_bind; [by apply io_rel_skip_preamble|]. clear dependent a b. intros [] [] a b HS.
  apply step_recv; [done|done|]. clear dependent a b. intros m1 abuf bbuf a b HS. rel_call HS.
  rel_call HS. eapply step_send; [done|]. clear dependent a b. intros rng a b HS.
  apply step_recv; [done|done|]. clear dependent a abuf b bbuf. intros m3 abuf bbuf a b HS.
  rel_call HS. apply step_of_res; [apply HS|]. intros session. by apply io_rel_ret.
Qed.

Lemma client_handshake_seg fuel rng0 ent priv pub a b :
  F <= fuel -> seg F a [] b [] ->
  io_rel (fun x y a b => x.1 = y.1 /\ seg F a x.2 b y.2)
    (client_handshake_in_place fuel rng0 ent priv pub p)
    (client_handshake_in_place fuel rng0 ent priv pub p) a b.
Proof.
  intros Hf HS. unfold client_handshake_in_place. apply step_of_res; [apply HS|]. intros hs.
  destruct (preamble p rng0) as [pre rng].
  eapply io_rel_bind with (R := fun _ _ a b => seg F a [] b []).
  { destruct pre as [|x pre]; [by apply io_rel_ret|].
    eapply io_rel_bind; [by apply io_rel_map_err, io_rel_write_all|]. intros [] [] a' b' HS'.
    by apply io_rel_map_err, io_rel_flush. }
  clear dependent a b. intros [] [] a b HS. rel_call HS.
  eapply step_send; [done|]. clear dependent a b. intros rng' a b HS.
  apply step_recv; [done|done|]. clear dependent a b. intros m2 abuf bbuf a b HS.
  rel_call HS. rel_call HS. eapply step_send; [done|]. clear dependent a b. intros rng'' a b HS.
  apply step_of_res; [apply HS|]. intros session. by apply io_rel_ret.
Qed.

(** *** Frames *)

Lemma recv_frame_seg fuel session a abuf b bbuf :
  F <= fuel -> seg F a abuf b bbuf ->
  exists r session' a' abuf' b' bbuf',
    recv_frame fuel p (a, session, abuf) = (r, (a', session', abuf')) /\
    recv_frame fuel p (b, session, bbuf) = (r, (b', session', bbuf')) /\
    v_out (view a') = v_out (view b') /\ (settled r -> seg F a' abuf' b' bbuf').
Proof.
  intros Hf HS. pose proof HS as [Ht Hfin Ho _ _ Hl1 Hl2].
  pose proof (recv_frame_ref p fuel a session abuf ltac:(lia)) as H1.
  pose proof (recv_frame_ref p fuel b session bbuf ltac:(lia)) as H2.
  rewrite <-Ht, <-Hfin in H2. destruct (ref_recv_frame p session _ _) as [[r session'] rest].
  destruct H1 as (a' & abuf' & j & -> & Va & Ra), H2 as (b' & bbuf' & k & -> & Vb & Rb).
  exists r, session', a', abuf', b', bbuf'. split_and!; [done|done|by rewrite Va, Vb|].
  intros Hr. by apply (seg_consume rest a abuf b bbuf a' abuf' b' bbuf' j k); auto.
Qed.

Lemma send_frame_seg env session rng a abuf b bbuf :
  seg F a abuf b bbuf ->
  exists r session' rng' a' b',
    send_frame env p (a, session, rng) = (Ready r, (a', session', rng')) /\
    send_frame env p (b, session, rng) = (Ready r, (b', session', rng')) /\
    seg F a' abuf b' bbuf.
Proof.
  intros HS. unfold send_frame.
  destruct (to_vec env) as [pt|e]; [|by eexists _, _, _, _, _].
  destruct (encrypt session pt) as [[ct|e] session']; [|by eexists _, _, _, _, _].
  destruct (frame_out p ct rng) as [[w|e] rng']; [|by eexists _, _, _, _, _].
  destruct (write_all_ok w a) as (a' & -> & Va); [apply HS|].
  destruct (write_all_ok w b) as (b' & -> & Vb); [apply HS|].
  eexists _, _, _, _, _. split_and!; [done|done|]. by eapply seg_emit.
Qed.

(** *** The server's connection *)

(** Two connections that differ in the segmentation of their streams only.
    Once a connection has ended its stream is not used again. *)
Record conn_sim (c : Conn S1) (d : Conn S2) : Prop := {
  cs_session : cn_session c = cn_session d;
  cs_rng : cn_rng c = cn_rng d;
  cs_service : cn_service c = cn_service d;
  cs_events : cn_events c = cn_events d;
  cs_forwarders : cn_forwarders c = cn_forwarders d;
  cs_status : cn_status c = cn_status d;
  cs_out : v_out (view (cn_stream c)) = v_out (view (cn_stream d));
  cs_seg : cn_status c = Running ->
    seg F (cn_stream c) (cn_buf c) (cn_stream d) (cn_buf d);
}.

Lemma conn_sim_intro a abuf b bbuf session rng svc evs fws st :
  seg F a abuf b bbuf ->
  conn_sim (mkConn a session abuf rng svc evs fws st) (mkConn b session bbuf rng svc evs fws st).
Proof. intros HS. split; simpl; try done. apply HS. Qed.

Lemma conn_send_sim env c d :
  cn_status c = Running -> conn_sim c d -> conn_sim (conn_send p env c) (conn_send p env d).
Proof.
  intros Hr [E1 E2 E3 E4 E5 _ _ HS]. specialize (HS Hr). unfold conn_send. rewrite <-E1, <-E2.
  destruct (jitter p (cn_rng c)) as [delay rng].
  destruct (send_frame_seg env (cn_session c) rng _ _ _ _ HS) as (r & s' & rng' & a' & b' & -> & -> & HS').
  rewrite E3, E4, E5. by apply conn_sim_intro.
Qed.

(** A change of the fields the stream does not determine. *)
Lemma conn_sim_events q c d : conn_sim c d -> conn_sim (cn_set_events q c) (cn_set_events q d).
Proof. by intros []. Qed.
Lemma conn_sim_forwarders fs c d :
  conn_sim c d -> conn_sim (cn_set_forwarders fs c) (cn_set_forwarders fs d).
Proof. by intros []. Qed.
Lemma conn_sim_service s c d : conn_sim c d -> conn_sim (cn_set_service s c) (cn_set_service s d).
Proof. by intros []. Qed.

Lemma on_inbound_sim env c d :
  cn_status c = Running -> conn_sim c d -> conn_sim (on_inbound p env c) (on_inbound p env d).
Proof.
  intros Hr HC. pose proof HC as [E1 E2 E3 E4 E5 _ _ _].
  destruct env as [req| | |topic flt cap| | | |]; simpl; try done; rewrite <-?E3.
  - destruct (handle (cn_service c) req) as [resp svc']. by apply conn_send_sim, conn_sim_service.
  - destruct (verify_topic (cn_service c) cap topic) as [subject|err]; [|by apply conn_send_sim].
    unfold handle_subscribe. rewrite <-E3, <-E4, <-E5.
    destruct (event_source (cn_service c) topic);
      [by apply conn_sim_forwarders|by apply conn_sim_events].
  - by apply conn_send_sim.
Qed.

Lemma conn_turn_sim fuel c d :
  F <= fuel -> conn_sim c d -> conn_sim (conn_turn fuel p c) (conn_turn fuel p d).
Proof.
  intros Hf HC. pose proof HC as [E1 E2 E3 E4 E5 E6 E7 E8]. unfold conn_turn. rewrite <-E6, <-E4.
  destruct (cn_status c) eqn:Hr; [|done|done]. specialize (E8 eq_refl).
  destruct (cn_events c) as [|env q]; [|by apply conn_send_sim, conn_sim_events].
  destruct (recv_frame_seg fuel (cn_session c) _ _ _ _ Hf E8)
    as (r & s' & a' & abuf' & b' & bbuf' & -> & H2 & Ho & HS).
  rewrite <-E1, H2, <-E2, <-E3, <-E5. destruct r as [[env|e]|].
  - apply on_inbound_sim; [done|]. apply conn_sim_intro. by apply HS.
  - by split.
  - apply conn_sim_intro. by apply HS.
Qed.

Lemma conn_forward_sim j r c d :
  conn_sim c d -> conn_sim (conn_forward j r c) (conn_forward j r d).
Proof.
  intros HC. pose proof HC as [E1 E2 E3 E4 E5 E6 E7 E8]. unfold conn_forward. rewrite <-E5, <-E6, <-E4.
  destruct (cn_forwarders c !! j) as [f|]; [|done]. destruct (cf_done f); [done|].
  destruct r as [ev| |]; [|done|by apply conn_sim_forwarders].
  case_decide; [|done].
  destruct (cn_status c); [by apply conn_sim_events|by apply conn_sim_events|by apply conn_sim_forwarders].
Qed.

(** The turns of a schedule have enough fuel for what the streams deliver. *)
Definition conn_fuelled (s : ConnStep) : Prop :=
  match s with CTurn fuel => F <= fuel | CForward _ _ => True end.

Lemma conn_run_sim ss c d :
  Forall conn_fuelled ss -> conn_sim c d -> conn_sim (conn_run p ss c) (conn_run p ss d).
Proof.
  intros Hss. revert c d. induction Hss as [|s ss Hs _ IH]; intros c d HC; [done|].
  apply (IH (conn_step p s c) (conn_step p s d)).
  destruct s; [by apply conn_turn_sim|by apply conn_forward_sim].
Qed.

(** *** The client's pump *)

Record client_sim (c : Client S1) (d : Client S2) : Prop := {
  cm_session : cl_session c = cl_session d;
  cm_rng : cl_rng c = cl_rng d;
  cm_outbound : cl_outbound c = cl_outbound d;
  cm_phase : cl_phase c = cl_phase d;
  cm_state : cl_state c = cl_state d;
  cm_mux : cl_mux c = cl_mux d;
  cm_events : cl_events c = cl_events d;
  cm_calls : cl_calls c = cl_calls d;
  cm_handle : cl_handle c = cl_handle d;
  cm_out : v_out (view (cl_stream c)) = v_out (view (cl_stream d));
  cm_seg : cl_phase c = Looping ->
    seg F (cl_stream c) (cl_buf c) (cl_stream d) (cl_buf d);
}.

Lemma client_sim_intro a abuf b bbuf session rng q ph st mx evs calls h :
  seg F a abuf b bbuf ->
  client_sim (mkClient a session abuf rng q ph st mx evs calls h)
    (mkClient b session bbuf rng q ph st mx evs calls h).
Proof. intros HS. split; simpl; try done. apply HS. Qed.

Lemma client_send_sim env lost c d :
  cl_phase c = Looping -> client_sim c d ->
  client_sim (client_send p env lost c) (client_send p env lost d).
Proof.
  intros Hr [E1 E2 E3 _ E5 E6 E7 E8 E9 _ HS]. specialize (HS Hr). unfold client_send.
  rewrite <-E1, <-E2. destruct (jitter p (cl_rng c)) as [delay rng].
  destruct (send_frame_seg env (cl_session c) rng _ _ _ _ HS) as (r & s' & rng' & a' & b' & -> & -> & HS').
  rewrite E3, E5, E6, E7, E8, E9. by apply client_sim_intro.
Qed.

Lemma client_inbound_sim env c d :
  cl_phase c = Looping -> client_sim c d ->
  client_sim (client_inbound p env c) (client_inbound p env d).
Proof.
  intros Hr HC. pose proof HC as [E1 E2 E3 E4 E5 E6 E7 E8 E9 E10 E11].
  destruct env; simpl; try done; rewrite <-?E6, <-?E7; [by split|by split|by apply client_send_sim].
Qed.

Lemma pump_turn_sim fuel c d :
  F <= fuel -> cl_phase c = Looping -> client_sim c d ->
  client_sim (pump_turn fuel p c) (pump_turn fuel p d).
Proof.
  intros Hf Hr HC. pose proof HC as [E1 E2 E3 E4 E5 E6 E7 E8 E9 E10 E11]. unfold pump_turn.
  rewrite <-E3. destruct (cl_outbound c) as [|env q].
  - destruct (recv_frame_seg fuel (cl_session c) _ _ _ _ Hf (E11 Hr))
      as (r & s' & a' & abuf' & b' & bbuf' & -> & H2 & Ho & HS).
    rewrite <-E1, H2, <-E2, <-E4, <-E5, <-E6, <-E7, <-E8, <-E9. destruct r as [[env|e]|].
    + apply client_inbound_sim; [done|]. apply client_sim_intro. by apply HS.
    + by split.
    + apply client_sim_intro. by apply HS.
  - apply client_send_sim; [done|]. by split.
Qed.

Lemma pump_step_sim fuel c d :
  F <= fuel -> client_sim c d -> client_sim (pump_step fuel p c) (pump_step fuel p d).
Proof.
  intros Hf HC. pose proof HC as [E1 E2 E3 E4 E5 E6 E7 E8 E9 E10 E11]. unfold pump_step.
  rewrite <-E4. destruct (cl_phase c) eqn:Hp; try done; [by apply pump_turn_sim|..];
    by split; simpl; rewrite ?E6.
Qed.

(** The statements of the handle's calls do not touch the stream. *)
Lemma cl_step_sim s c d :
  (forall fuel, s = ClPump fuel -> F <= fuel) -> client_sim c d ->
  client_sim (cl_step p s c) (cl_step p s d).
Proof.
  intros Hf HC. pose proof HC as [E1 E2 E3 E4 E5 E6 E7 E8 E9 E10 E11].
  destruct s as [fuel|req|i|i|cap topic|]; simpl; [by apply pump_step_sim; auto|..].
  - rewrite <-E9. destruct (cl_handle c) eqn:Eh; [|done]. unfold call_new. rewrite <-E6.
    destruct (mux_insert _ _) as [n mx]. split; simpl; congruence || done.
  - unfold call_send, tx_send. rewrite <-E8, <-E4.
    destruct (cl_calls c !! i) as [[req n []]|]; try done.
    destruct (cl_phase c) eqn:Ep; simpl; split; simpl; congruence || auto.
  - unfold call_poll. rewrite <-E8, <-E6. destruct (cl_calls c !! i) as [[req n []]|]; try done.
    destruct (sl_state <$> _) as [[]|]; simpl; try done; split; simpl; congruence || auto.
  - rewrite <-E9. destruct (cl_handle c) eqn:Eh; [|done]. unfold subscribe, tx_send. rewrite <-E4.
    destruct (cl_phase c) eqn:Ep; simpl; split; simpl; congruence || auto.
  - unfold drop_handle. rewrite <-E8. destruct (forallb _ _); [|done].
    split; simpl; congruence || auto.
Qed.

Definition client_fuelled (s : ClStep) : Prop :=
  match s with ClPump fuel => F <= fuel | _ => True end.

Lemma cl_run_sim ss c d :
  Forall client_fuelled ss -> client_sim c d -> client_sim (cl_run p ss c) (cl_run p ss d).
Proof.
  intros Hss. revert c d. induction Hss as [|s ss Hs _ IH]; intros c d HC; [done|].
  apply (IH (cl_step p s c) (cl_step p s d)), cl_step_sim; [|done]. by intros fuel ->.
Qed.

(** *** The proxy tunnels *)

(** Computations that read exactly, so that nothing is buffered: from the same
    situation they get to the same situation with the same value. *)
Definition agree {E A} (m : IO S1 E A) (n : IO S2 E A) : Prop :=
  forall a b, seg F a [] b [] -> io_rel (fun x y a b => x = y /\ seg F a [] b []) m n a b.

Lemma agree_bind {E A B} (m : IO S1 E A) (n : IO S2 E A) (k : A -> IO S1 E B) (l : A -> IO S2 E B) :
  agree m n -> (forall x, agree (k x) (l x)) -> agree (io_bind m k) (io_bind n l).
Proof.
  intros Hm Hk a b HS. eapply io_rel_bind; [by apply Hm|].
  intros x ? a' b' [<- HS']. by apply Hk.
Qed.

Lemma agree_ret {E A} (x : A) : agree (E := E) (io_ret x) (io_ret x).
Proof. done. Qed.

Lemma agree_fail {E A} (e : E) : agree (A := A) (io_fail e) (io_fail e).
Proof. intros a b HS. by split; [|apply HS]. Qed.

Lemma agree_of_res {E A} (r : Res E A) : agree (io_of_res r) (io_of_res r).
Proof. intros a b HS. apply io_rel_of_res; [apply HS|done]. Qed.

Lemma agree_read n : agree (io_map_err Io (read_exact n)) (io_map_err Io (read_exact n)).
Proof. intros a b HS. by apply io_rel_map_err, io_rel_read_exact. Qed.

Lemma agree_write w : agree (io_map_err Io (write_all w)) (io_map_err Io (write_all w)).
Proof.
  intros a b HS. apply io_rel_map_err. pose proof (io_rel_write_all w a [] b [] HS) as H.
  unfold io_rel in *. by destruct (write_all w a) as [[[[]|]|] a'], (write_all w b) as [[[[]|]|] b'].
Qed.

Ltac agree_auto :=
  repeat first
    [ apply agree_bind; [|intros ?] | apply agree_ret | apply agree_fail | apply agree_read
    | apply agree_write | apply agree_of_res | case_decide | case_match ].

Lemma tunnel_socks5_agree host port auth :
  agree (tunnel_socks5 host port auth) (tunnel_socks5 host port auth).
Proof.
  unfold tunnel_socks5, authenticate_socks5, connect_socks5, consume_bnd_addr. agree_auto.
Qed.

Lemma read_head_agree fuel buf : agree (read_head fuel buf) (read_head fuel buf).
Proof.
  revert buf. induction fuel as [|fuel IH]; intros buf; [by intros a b HS; apply HS|].
  cbn [read_head]. agree_auto. apply IH.
Qed.

Lemma dial_loop_agree hops host port :
  agree (dial_loop hops host port) (dial_loop hops host port).
Proof.
  revert host port. induction hops as [|hop hops IH]; intros host port; [apply agree_ret|].
  cbn [dial_loop]. apply agree_bind; [apply agree_of_res|]. intros [nhost nport].
  apply agree_bind; [|intros _; apply IH]. unfold tunnel_hop.
  destruct (hop_kind hop); [apply tunnel_socks5_agree|]. unfold tunnel_http_connect.
  apply agree_bind; [apply agree_write|intros _].
  apply agree_bind; [apply read_head_agree|intros head]. agree_auto.
Qed.

(** *** The whole client and the whole server *)

Lemma handle_connection_sim {G : Type} {TG : TransportGate G} fuel rng0 ent rng priv svc (gate : G) a b :
  F <= fuel -> seg F a [] b [] ->
  match handle_connection fuel rng0 ent rng priv svc gate p a,
        handle_connection fuel rng0 ent rng priv svc gate p b with
  | (Ready (Some c), _), (Ready (Some d), _) => conn_sim c d
  | (Ready None, a'), (Ready None, b') | (Pending, a'), (Pending, b') =>
      v_out (view a') = v_out (view b')
  | _, _ => False
  end.
Proof.
  intros Hf HS. pose proof (server_handshake_seg fuel rng0 ent priv a b Hf HS) as H.
  unfold io_rel in H. unfold handle_connection.
  destruct (server_handshake_in_place fuel rng0 ent priv p a) as [[[[[s1 k1] l1]|e1]|] a'],
    (server_handshake_in_place fuel rng0 ent priv p b) as [[[[[s2 k2] l2]|e2]|] b']; try done.
  - destruct H as [[= <- <-] HS']. destruct k1 as [key|]; [|apply HS'].
    destruct (authenticate gate key); [by apply conn_sim_intro|apply HS'].
  - by destruct H.
Qed.

(** Two ways of opening connections that differ in segmentation only. *)
Definition same_dial (tc1 : bytes -> Poll (Res IoError S1)) (tc2 : bytes -> Poll (Res IoError S2))
    : Prop :=
  forall addr,
    match tc1 addr, tc2 addr with
    | Ready (Ok a), Ready (Ok b) => seg F a [] b []
    | Ready (Err e), Ready (Err e') => e = e'
    | Pending, Pending => True
    | _, _ => False
    end.

Lemma dial_sim tc1 tc2 proxy host port :
  same_dial tc1 tc2 ->
  match dial tc1 proxy host port, dial tc2 proxy host port with
  | Ready (Ok a), Ready (Ok b) => seg F a [] b []
  | Ready (Err e), Ready (Err e') => e = e'
  | Pending, Pending => True
  | _, _ => False
  end.
Proof.
  intros Hd. specialize (Hd (px_addr proxy)). unfold dial.
  destruct (tc1 (px_addr proxy)) as [[a|e]|], (tc2 (px_addr proxy)) as [[b|e']|]; try done; [|congruence].
  pose proof (dial_loop_agree (hop_list proxy) host port a b Hd) as H. unfold io_rel in H.
  destruct (dial_loop _ _ _ a) as [[[x|e]|] a'], (dial_loop _ _ _ b) as [[[y|e']|] b']; try done;
    by destruct H.
Qed.

Lemma connect_sim tc1 tc2 fuel rng0 ent rng addr priv pub proxy :
  F <= fuel -> same_dial tc1 tc2 ->
  match connect tc1 fuel rng0 ent rng addr priv pub p proxy,
        connect tc2 fuel rng0 ent rng addr priv pub p proxy with
  | Ready (Ok c), Ready (Ok d) => client_sim c d
  | Ready (Err e), Ready (Err e') => e = e'
  | Pending, Pending => True
  | _, _ => False
  end.
Proof.
  intros Hf Hd. unfold connect.
  set (d1 := match proxy with Some _ => _ | None => _ end).
  set (d2 := match proxy with Some _ => _ | None => _ end).
  assert (match d1, d2 with
          | Ready (Ok a), Ready (Ok b) => seg F a [] b []
          | Ready (Err e), Ready (Err e') => e = e'
          | Pending, Pending => True
          | _, _ => False
          end) as H.
  { unfold d1, d2. destruct proxy as [cfg|].
    - destruct (parse_addr addr) as [[host port]|]; [by apply dial_sim|done].
    - specialize (Hd addr). by destruct (tc1 addr) as [[]|], (tc2 addr) as [[]|]; simpl; subst. }
  clearbody d1 d2. destruct d1 as [[a|e]|], d2 as [[b|e']|]; try done.
  pose proof (client_handshake_seg fuel rng0 ent priv pub a b Hf H) as Hh. unfold io_rel in Hh.
  destruct (client_handshake_in_place fuel rng0 ent priv pub p a) as [[[[s1 l1]|e1]|] a'],
    (client_handshake_in_place fuel rng0 ent priv pub p b) as [[[[s2 l2]|e2]|] b']; try done;
    [|by destruct Hh].
  destruct Hh as [Hs HS]. simpl in *. subst s2. by apply client_sim_intro.
Qed.

(** C6: how TCP cuts the bytes into reads makes no
    difference.  Take two streams of any kind that deliver the same bytes and
    end in the same way, cut into different reads.  On the server, the
    handshake, the gate and then any schedule of turns and forwarders lead to
    the same outcome on both: the same bytes written, the same service, queued
    events, forwarders and status.  On the client, dialling through any proxies,
    the handshake and then any interleaving of the pump and the calls lead to
    the same results, pending entries, events, state and bytes written.  The
    bytes need not be well-formed. *)
Theorem tcp_segmentation_irrelevant {G : Type} {TG : TransportGate G} fuel srng0 sent srng spriv svc
    (gate : G) a b tc1 tc2 crng0 cent crng addr cpriv pub proxy :
  F <= fuel -> seg F a [] b [] -> same_dial tc1 tc2 ->
  match handle_connection fuel srng0 sent srng spriv svc gate p a,
        handle_connection fuel srng0 sent srng spriv svc gate p b with
  | (Ready (Some c), _), (Ready (Some d), _) =>
      forall ss, Forall conn_fuelled ss -> conn_sim (conn_run p ss c) (conn_run p ss d)
  | (Ready None, a'), (Ready None, b') | (Pending, a'), (Pending, b') =>
      v_out (view a') = v_out (view b')
  | _, _ => False
  end /\
  match connect tc1 fuel crng0 cent crng addr cpriv pub p proxy,
        connect tc2 fuel crng0 cent crng addr cpriv pub p proxy with
  | Ready (Ok c), Ready (Ok d) =>
      forall ss, Forall client_fuelled ss -> client_sim (cl_run p ss c) (cl_run p ss d)
  | Ready (Err e), Ready (Err e') => e = e'
  | Pending, Pending => True
  | _, _ => False
  end.
Proof.
  intros Hf HS Hd. split.
  - pose proof (handle_connection_sim fuel srng0 sent srng spriv svc gate a b Hf HS) as H.
    destruct (handle_connection _ _ _ _ _ _ _ _ a) as [[[c|]|] a'],
      (handle_connection _ _ _ _ _ _ _ _ b) as [[[d|]|] b']; try done.
    intros ss Hss. by apply conn_run_sim.
  - pose proof (connect_sim tc1 tc2 fuel crng0 cent crng addr cpriv pub proxy Hf Hd) as H.
    destruct (connect tc1 _ _ _ _ _ _ _ _ _) as [[c|]|], (connect tc2 _ _ _ _ _ _ _ _ _) as [[d|]|];
      try done. intros ss Hss. by apply cl_run_sim.
Qed.

End Segmentation.

(** ** Concrete runs *)

Module SegmentationRuns.
Import Ref HandshakeRuns.

(** The same bytes in one read, and a byte at a time. *)
Definition whole (bs : bytes) : Script := mkScript [bs] FinEof [] None.
Definition dribble (bs : bytes) : Script := mkScript ((fun x => [x]) <$> bs) FinEof [] None.

Lemma concat_singletons (bs : bytes) : concat ((fun x => [x]) <$> bs) = bs.
Proof. induction bs as [|x bs IH]; [done|]. simpl. by f_equal. Qed.

Lemma same_bytes bs F : length bs < F -> seg F (whole bs) [] (dribble bs) [].
Proof.
  intros Hl. apply seg_start; cbn; rewrite ?app_nil_r, ?concat_singletons; [|done|done].
  unfold view, script_view. cbn. by rewrite app_nil_r, concat_singletons.
Qed.

Definition frame (r : bytes) : bytes := to_be_u32 (Z.of_nat (length r)) ++ r.

(** A client's handshake and a ping, then garbage that is no frame. *)
Definition client_bytes : bytes :=
  frame m1 ++ frame m3 ++ frame [x00; x07] ++ repeat xff 9.
Definition gate : KeyAllowList := key_allow_list_new [pub_of cpriv].
Definition server_bytes : bytes := frame m2 ++ frame [x00; x08].

(** A ping, then garbage: an envelope, then the error. *)
Lemma recv_frame_reference_witness :
  recv_calls vanilla 100 5 (dribble (frame [x00; x07] ++ repeat xff 9), mkRSession 0 0, [])
    = [Ready (Ok EPing); Ready (Err (Io invalid_framing))].
Proof.
  rewrite (recv_frame_reference vanilla 100 5 (dribble (frame [x00; x07] ++ repeat xff 9))
             (mkRSession 0 0) []); [reflexivity|]. vm_compute. lia.
Defined.

Lemma tcp_segmentation_irrelevant_witness :
  match handle_connection 100 6 0 2 spriv (mkRService 0 [] x2a) gate vanilla (whole client_bytes),
        handle_connection 100 6 0 2 spriv (mkRService 0 [] x2a) gate vanilla (dribble client_bytes) with
  | (Ready (Some c), _), (Ready (Some d), _) =>
      forall ss, Forall (conn_fuelled 100) ss ->
        conn_sim 100 (conn_run vanilla ss c) (conn_run vanilla ss d)
  | (Ready None, a'), (Ready None, b') | (Pending, a'), (Pending, b') =>
      v_out (view a') = v_out (view b')
  | _, _ => False
  end /\
  match connect (fun _ => Ready (Ok (whole server_bytes))) 100 5 0 1 (str "s:1") cpriv (pub_of spriv)
          vanilla None,
        connect (fun _ => Ready (Ok (dribble server_bytes))) 100 5 0 1 (str "s:1") cpriv (pub_of spriv)
          vanilla None with
  | Ready (Ok c), Ready (Ok d) =>
      forall ss, Forall (client_fuelled 100) ss ->
        client_sim 100 (cl_run vanilla ss c) (cl_run vanilla ss d)
  | Ready (Err e), Ready (Err e') => e = e'
  | Pending, Pending => True
  | _, _ => False
  end.
Proof.
  refine (tcp_segmentation_irrelevant 100 vanilla 100 6 0 2 spriv (mkRService 0 [] x2a) gate
            (whole client_bytes) (dribble client_bytes)
            (fun _ => Ready (Ok (whole server_bytes))) (fun _ => Ready (Ok (dribble server_bytes)))
            5 0 1 (str "s:1") cpriv (pub_of spriv) None _ _ _).
  - lia.
  - apply same_bytes. vm_compute. lia.
  - intros addr. apply same_bytes. vm_compute. lia.
Defined.

(** Both ends of that run get past their handshakes. *)
Lemma runs_start :
  match handle_connection 100 6 0 2 spriv (mkRService 0 [] x2a) gate vanilla (dribble client_bytes),
        connect (fun _ => Ready (Ok (dribble server_bytes))) 100 5 0 1 (str "s:1") cpriv
          (pub_of spriv) vanilla None with
  | (Ready (Some _), _), Ready (Ok _) => True
  | _, _ => False
  end.
Proof. vm_compute. exact I. Qed.

End SegmentationRuns.
