(* ===== verification/EventDelivery.v ===== *)
(** * Events, from a source of the server to the streams of a client

    [src/server.rs] and [src/client.rs] together: the events that forwarders
    push for a connection, among the replies to its client's envelopes and the
    other connections' work, and the pump of that client, among its own calls.
    The two ends share the bytes the connection writes, read in chunks of any
    size. *)

From stdpp Require Import sorting.
From S2P Require Import Prelude RustStd Externals Envelope Stream Framing Duplex HandshakeIo Verifier.
From S2P Require Import Server TcpServer PendingMap EventStream TopicStream Client Instances.

Section EventDelivery.
Context {WA : WireApi} {CA : CoreApi} {SA : SerdeApi} {S : Type} {IA : AsyncIo S}.
Context {AV : AsyncView S} {AL : AsyncIoLaws S}.
Context (p : MimicryProfile) {PL : ProfileLaws p}.
Context (half : Session -> Session -> Prop) {DX : DuplexLaws half} {JL : SerdeLaws}.

(** ** What a server puts on a line *)

Definition events_of (envs : list Envelope) : list Event :=
  omap (fun env => match env with EEvent ev => Some ev | _ => None end) envs.

Lemma events_of_app l k : events_of (l ++ k) = events_of l ++ events_of k.
Proof. apply omap_app. Qed.

Definition not_ping (env : Envelope) : Prop := match env with EPing => False | _ => True end.

(** A reply is neither an event nor a ping. *)
Lemma respond_plain svc env : events_of (respond svc env).1 = [] /\ Forall not_ping (respond svc env).1.
Proof.
  destruct env; simpl; try by repeat constructor.
  - destruct (handle svc req). by repeat constructor.
  - destruct (verify_topic _ _ _); [destruct (event_source _ _)|]; by repeat constructor.
Qed.

(** The events on a connection's line are those pushed for it, in order. *)
Lemma line_events i svc h : events_of (line i svc h) = pushed i h /\ Forall not_ping (line i svc h).
Proof.
  revert svc. induction h as [|x h IH]; intros svc; [by repeat constructor|]. simpl.
  rewrite events_of_app, Forall_app. destruct (IH (item_service svc x)) as [-> H].
  destruct x as [j env|j ev]; simpl; case_decide; simpl; split_and!; try done; try by repeat constructor.
  - by destruct (respond_plain svc env) as [-> _].
  - apply respond_plain.
Qed.

(** ** What the client has still to read *)

(** The input of [c] is exactly the frames of [out], which the pump can open. *)
Definition hears (out : list Envelope) (c : Client S) : Prop :=
  exists s s', half s (cl_session c) /\
    spoken (S := S) p half out s s' (cl_buf c ++ v_in (view (cl_stream c))).

(** A step of a caller: all that the pump works on is left alone, but for one
    envelope queued by a send or a subscription. *)
Definition is_pump (s : ClStep) : bool := match s with ClPump _ => true | _ => false end.
Definition is_send (s : ClStep) : bool :=
  match s with ClSend _ | ClSubscribe _ _ => true | _ => false end.

Record same_pump (c c' : Client S) : Prop := {
  sp_stream : cl_stream c' = cl_stream c;
  sp_session : cl_session c' = cl_session c;
  sp_buf : cl_buf c' = cl_buf c;
  sp_phase : cl_phase c' = cl_phase c;
  sp_events : cl_events c' = cl_events c;
}.

Lemma caller_same_pump s c : is_pump s = false -> same_pump c (cl_step p s c).
Proof.
  destruct s as [fuel|req|i|i|cap topic|]; simpl; [done|intros _..].
  - destruct (cl_handle c); [|done]. unfold call_new. by destruct (mux_insert _ _).
  - unfold call_send. destruct (cl_calls c !! i) as [[req n []]|]; try done.
    unfold tx_send. by destruct (cl_phase c) eqn:E; split.
  - unfold call_poll. destruct (cl_calls c !! i) as [[req n []]|]; try done.
    by destruct (sl_state <$> _) as [[]|].
  - destruct (cl_handle c); [|done]. unfold subscribe, tx_send. by destruct (cl_phase c) eqn:E; split.
  - unfold drop_handle. by destruct (forallb _ _).
Qed.

Lemma same_pump_hears out c c' : same_pump c c' -> hears out c -> hears out c'.
Proof. intros [E1 E2 E3 _ _]. unfold hears. by rewrite E1, E2, E3. Qed.

(** A pump that has left its loop broadcasts nothing more. *)
Lemma stopped_silent s c :
  cl_phase c <> Looping ->
  cl_events (cl_step p s c) = cl_events c /\ cl_phase (cl_step p s c) <> Looping.
Proof.
  intros Hn. destruct (is_pump s) eqn:Es.
  - destruct s; try done. simpl. unfold pump_step. by destruct (cl_phase c) eqn:E; rewrite ?E.
  - destruct (caller_same_pump s c Es) as [_ _ _ -> ->]. done.
Qed.

(** ** One turn of the pump *)

(** An empty buffer asks the profile for more. *)
Context (quiet : frame_in p [] = (NeedMore, [])).

Lemma recv_frame_quiet fuel (io : S) session :
  v_in (view io) = [] ->
  exists r io', recv_frame fuel p (io, session, []) = (r, (io', session, [])) /\
    view io' = view io /\ (forall env, r <> Ready (Ok env)) /\
    (v_fin (view io) = FinWait -> r = Pending).
Proof.
  intros Hin. destruct fuel as [|fuel]; [by exists Pending, io|]. simpl. rewrite quiet.
  destruct (read_none 4096 io ltac:(lia) Hin) as (io' & -> & Hv).
  destruct (v_fin (view io)) eqn:Ef; simpl; eexists _, io'; by split_and!.
Qed.

(** A receive finds the next envelope, or nothing is left; it may also have to
    be polled again. *)
Lemma hears_recv fuel c out r io session buf :
  hears out c ->
  recv_frame fuel p (cl_stream c, cl_session c, cl_buf c) = (r, (io, session, buf)) ->
  (exists env out' s s', r = Ready (Ok env) /\ out = env :: out' /\
     half s session /\ spoken (S := S) p half out' s s' (buf ++ v_in (view io))) \/
  ((forall env, r <> Ready (Ok env)) /\
   (v_fin (view (cl_stream c)) = FinWait -> r = Pending) /\
   (length (v_in (view (cl_stream c))) < fuel -> out = []) /\
   (r = Pending -> session = cl_session c /\
      buf ++ v_in (view io) = cl_buf c ++ v_in (view (cl_stream c)))).
Proof.
  intros (s & s' & Hh & Hsp) Hr. remember (cl_buf c ++ v_in (view (cl_stream c))) as w eqn:Hw.
  destruct Hsp as [s s' Hn|env out s s1 s2 w1 w2 H1 H2].
  - right. symmetry in Hw. apply app_eq_nil in Hw as [Hb Hi]. rewrite Hb in Hr.
    destruct (recv_frame_quiet fuel (cl_stream c) (cl_session c) Hi) as (r1 & io1 & E & Hv & Hne & Hf).
    rewrite E in Hr. injection Hr as <- <- <- <-. split_and!; try done. intros _. by rewrite Hv, Hi.
  - destruct (said_recv p half _ _ _ _ _ _ _ _ _ _ _ _ _ H1 Hh (eq_sym Hw) Hr)
      as [(-> & Hh1 & Hrest)|[-> Hlt]].
    + left. exists env, out, s1, s2. by rewrite Hrest.
    + right. split_and!; try done. intros _.
      destruct (recv_frame_waits p _ _ _ _ _ _ _ Hr) as (-> & -> & _). by rewrite Hw.
Qed.

(** Sending leaves what is to be read alone. *)
Lemma client_send_hears env c out :
  hears out c -> cl_phase (client_send p env Broken c) = Looping ->
  hears out (client_send p env Broken c) /\
  v_in (view (cl_stream (client_send p env Broken c))) = v_in (view (cl_stream c)).
Proof.
  intros (s & s' & Hh & Hsp). unfold client_send. destruct (jitter p (cl_rng c)) as [d rng].
  destruct (send_frame env p _) as [[[[]|e]|] [[io' ses'] rng']] eqn:E; simpl; try done. intros _.
  destruct (send_frame_sent _ _ _ _ _ _ _ _ E) as (_ & _ & w & _ & _ & _ & Hv).
  unfold hears. simpl. rewrite Hv. simpl. split; [|done]. exists s, s'. split; [|done].
  by apply (send_frame_keeps_rx p half _ _ _ _ _ _ _ _ E).
Qed.

Lemma client_send_events env lost c : cl_events (client_send p env lost c) = cl_events c.
Proof. unfold client_send. destruct (jitter _ _). by destruct (send_frame _ _ _) as [? [[] ?]]. Qed.

(** What a received envelope does: an event is broadcast, and nothing else. *)
Lemma client_inbound_plain env (c : Client S) :
  not_ping env ->
  let c' := client_inbound p env c in
  cl_stream c' = cl_stream c /\ cl_session c' = cl_session c /\ cl_buf c' = cl_buf c /\
  cl_phase c' = cl_phase c /\ cl_outbound c' = cl_outbound c /\ cl_calls c' = cl_calls c /\
  cl_events c' = cl_events c ++ events_of [env].
Proof. by destruct env; simpl; intros; rewrite ?app_nil_r. Qed.

(** Any step broadcasts the events of a part of what is left to read. *)
Lemma cl_step_hears s c out :
  Forall not_ping out -> cl_phase c = Looping -> hears out c ->
  exists got out', out = got ++ out' /\
    cl_events (cl_step p s c) = cl_events c ++ events_of got /\
    (cl_phase (cl_step p s c) = Looping -> hears out' (cl_step p s c)).
Proof.
  intros Hnp Hph HH. destruct (is_pump s) eqn:Es; cycle 1.
  { exists [], out. rewrite app_nil_r. pose proof (caller_same_pump s c Es) as HS.
    split_and!; [done|apply HS|]. intros _. by eapply same_pump_hears. }
  destruct s as [fuel| | | | |]; try done. simpl. unfold pump_step, pump_turn. rewrite Hph.
  destruct (cl_outbound c) as [|env q].
  - destruct (recv_frame fuel p _) as [r [[io ses] buf]] eqn:Er.
    destruct (hears_recv _ _ _ _ _ _ _ HH Er) as [(env & out' & s & s' & -> & -> & Hh & Hsp)|(Hne & _ & _ & Hw)].
    + exists [env], out'. apply Forall_cons in Hnp as [Hn _]. cbv zeta.
      set (c1 := mkClient io ses buf _ _ _ _ _ _ _ _).
      destruct (client_inbound_plain env c1 Hn) as (E1 & E2 & E3 & E4 & _ & _ & E7).
      split_and!; [done|done|]. intros _. exists s, s'. by rewrite E1, E2, E3.
    + exists [], out. rewrite app_nil_r. destruct r as [[env|e]|]; [by destruct (Hne env)|done|].
      split_and!; [done|done|]. intros _. destruct (Hw eq_refl) as [E1 E2].
      unfold hears. simpl. by rewrite E1, E2.
  - exists [], out. rewrite client_send_events, app_nil_r. split_and!; [done|done|].
    intros H. by apply (client_send_hears env (cl_set_outbound q c)).
Qed.

(** Whatever the client does, it broadcasts a front part of the events. *)
Lemma cl_run_hears ss c out :
  Forall not_ping out -> cl_phase c = Looping -> hears out c ->
  exists evs, evs `prefix_of` events_of out /\ cl_events (cl_run p ss c) = cl_events c ++ evs.
Proof.
  assert (forall ss c, cl_phase c <> Looping -> cl_events (cl_run p ss c) = cl_events c) as Hstop.
  { clear. induction ss as [|s ss IH]; intros c H; [done|]. simpl.
    destruct (stopped_silent s c H) as [<- ?]. by apply IH. }
  revert c out. induction ss as [|s ss IH]; intros c out Hnp Hph HH.
  { exists []. rewrite app_nil_r. split; [apply prefix_nil|done]. }
  simpl. destruct (cl_step_hears s c out Hnp Hph HH) as (got & out' & -> & He & HH').
  apply Forall_app in Hnp as [_ Hnp]. rewrite events_of_app.
  destruct (decide (cl_phase (cl_step p s c) = Looping)) as [Hl|Hl].
  - destruct (IH _ _ Hnp Hl (HH' Hl)) as (evs & Hp & E). exists (events_of got ++ evs).
    rewrite E, He, app_assoc. split; [by apply prefix_app|done].
  - exists (events_of got). rewrite (Hstop _ _ Hl). split; [by apply prefix_app_r|done].
Qed.

(** ** Enough turns *)

(** A client in its loop on a connection that stays up, with nothing queued
    that cannot be framed. *)
Record ready (c : Client S) : Prop := {
  rd_phase : cl_phase c = Looping;
  rd_writable : v_wr (view (cl_stream c)) = true;
  rd_open : v_fin (view (cl_stream c)) = FinWait;
  rd_outbound : Forall (sendable p) (cl_outbound c);
  rd_calls : forall i req n, cl_calls c !! i = Some (mkCall req n Inserted) ->
    sendable p (ERequest req);
}.

(** A pump turn runs long enough for [len] bytes of input; what a caller asks
    for can be framed. *)
Definition attends (len : nat) (s : ClStep) : Prop :=
  match s with
  | ClPump fuel => len < fuel
  | ClNew req => sendable p (ERequest req)
  | ClSubscribe cap topic => sendable p (ESubscribe topic None cap)
  | _ => True
  end.

Definition pumps (ss : list ClStep) : nat := length (filter is_pump ss).
Definition sends (ss : list ClStep) : nat := length (filter is_send ss).

Lemma pumps_cons s ss : pumps (s :: ss) = (if is_pump s then 1 else 0) + pumps ss.
Proof. unfold pumps. rewrite filter_cons. by destruct s. Qed.

Lemma sends_cons s ss : sends (s :: ss) = (if is_send s then 1 else 0) + sends ss.
Proof. unfold sends. rewrite filter_cons. by destruct s. Qed.

(** The requests that callers have inserted and not yet sent can be framed. *)
Definition inserted_sendable (calls : list Call) : Prop :=
  forall i req n, calls !! i = Some (mkCall req n Inserted) -> sendable p (ERequest req).

Lemma stage_sendable i st (c : Client S) :
  st <> Inserted -> inserted_sendable (cl_calls c) -> inserted_sendable (cl_calls (set_stage i st c)).
Proof.
  intros Hst H j req n. simpl. rewrite list_lookup_alter. case_decide; [|by apply H].
  intros ([req' n' st'] & _ & [= -> -> <-])%fmap_Some. done.
Qed.

(** A caller queues at most one envelope, which can be framed. *)
Lemma caller_ready len s c :
  is_pump s = false -> attends len s -> ready c ->
  ready (cl_step p s c) /\
  length (cl_outbound (cl_step p s c)) <= length (cl_outbound c) + (if is_send s then 1 else 0).
Proof.
  intros Es Ha [R1 R2 R3 R4 R5]. pose proof (caller_same_pump s c Es) as [P1 _ _ P4 _].
  assert (Forall (sendable p) (cl_outbound (cl_step p s c)) /\
    inserted_sendable (cl_calls (cl_step p s c)) /\
    length (cl_outbound (cl_step p s c)) <= length (cl_outbound c) + (if is_send s then 1 else 0))
    as (Q1 & Q2 & Q3); [|by split; [split; rewrite ?P1, ?P4|]].
  clear P1 P4. destruct s as [fuel|req|i|i|cap topic|]; simpl in *; [done|..].
  - destruct (cl_handle c); [|split_and!; auto; lia]. unfold call_new.
    destruct (mux_insert _ _) as [n mx]. simpl. split_and!; [done| |lia].
    intros i req' n' [H|[_ H]]%lookup_app_Some; [by eapply R5|].
    apply list_lookup_singleton_Some in H as [_ [= <- _]]. done.
  - unfold call_send. destruct (cl_calls c !! i) as [[req n []]|] eqn:Ei; try (split_and!; auto; lia).
    unfold tx_send. rewrite R1. simpl. rewrite length_app. simpl.
    split_and!; [|by apply (stage_sendable i Awaiting c)|lia].
    apply Forall_app. split; [done|]. repeat constructor. by eapply R5.
  - unfold call_poll. destruct (cl_calls c !! i) as [[req n []]|]; try (split_and!; auto; lia).
    destruct (sl_state <$> _) as [[]|]; simpl; split_and!; auto; try lia;
      by apply (stage_sendable i (Finished _) c).
  - destruct (cl_handle c); [|split_and!; auto; lia]. unfold subscribe, tx_send. rewrite R1. simpl.
    rewrite length_app. simpl. split_and!; [|done|lia]. apply Forall_app. by repeat constructor.
  - unfold drop_handle. destruct (forallb _ _); simpl; split_and!; auto; lia.
Qed.

(** A turn of the pump sends the next queued envelope or reads the next one. *)
Lemma pump_ready fuel c out :
  Forall not_ping out -> ready c -> hears out c -> length (v_in (view (cl_stream c))) < fuel ->
  let c' := pump_step fuel p c in
  ready c' /\ length (v_in (view (cl_stream c'))) <= length (v_in (view (cl_stream c))) /\
  exists got out', out = got ++ out' /\ cl_events c' = cl_events c ++ events_of got /\ hears out' c' /\
    (out <> [] -> length (cl_outbound c') + length out' + 1 <= length (cl_outbound c) + length out).
Proof.
  intros Hnp [R1 R2 R3 R4 R5] HH Hf. cbv zeta. unfold pump_step, pump_turn. rewrite R1.
  destruct (cl_outbound c) as [|env q] eqn:Eq.
  - destruct (recv_frame fuel p _) as [r [[io ses] buf]] eqn:Er.
    destruct (recv_frame_consumes p _ _ _ _ _ _ _ _ Er) as [k Hk].
    assert (length (v_in (view io)) <= length (v_in (view (cl_stream c)))) as Hlen.
    { rewrite Hk. simpl. rewrite length_drop. lia. }
    destruct (hears_recv _ _ _ _ _ _ _ HH Er)
      as [(env & out' & s & s' & -> & -> & Hh & Hsp)|(_ & Hp & Ho & Hw)].
    + apply Forall_cons in Hnp as [Hn _]. cbv zeta. set (c1 := mkClient io ses buf _ _ _ _ _ _ _ _).
      destruct (client_inbound_plain env c1 Hn) as (E1 & E2 & E3 & E4 & E5 & E6 & E7).
      split; [by split; rewrite ?E1, ?E4, ?E5, ?E6; simpl; rewrite ?Hk|].
      split; [by rewrite E1|]. exists [env], out'. rewrite E5, E7. split_and!; [done|done| |simpl; lia].
      exists s, s'. by rewrite E1, E2, E3.
    + rewrite (Hp R3) in *. destruct (Hw eq_refl) as [E1 E2]. rewrite (Ho Hf) in *.
      split; [by split; simpl; rewrite ?Hk, ?R1|]. split; [done|]. exists [], []. simpl. rewrite app_nil_r.
      split_and!; [done|done| |done]. unfold hears. simpl. by rewrite E1, E2.
  - apply Forall_cons in R4 as [He Hq].
    destruct (send_frame_sendable p env (cl_stream c) (cl_session c) (jitter p (cl_rng c)).2 He R2)
      as (w & io & ses & rng & Hs & Hv).
    assert (cl_phase (client_send p env Broken (cl_set_outbound q c)) = Looping) as Hl.
    { unfold client_send. simpl. destruct (jitter p (cl_rng c)) as [d rng1]. simpl in Hs. by rewrite Hs. }
    destruct (client_send_hears env (cl_set_outbound q c) out HH Hl) as [HH' Hin].
    split; [|split; [by rewrite Hin|]].
    + revert Hl. unfold client_send. simpl. destruct (jitter p (cl_rng c)) as [d rng1]. simpl in Hs.
      rewrite Hs. intros _. by split; simpl; rewrite ?Hv.
    + exists [], out. rewrite client_send_events, app_nil_r. split_and!; [done|done|done|]. intros _.
      unfold client_send. simpl. destruct (jitter p (cl_rng c)) as [d rng1]. simpl in Hs. rewrite Hs.
      simpl. lia.
Qed.

Lemma cl_step_ready len s c out :
  Forall not_ping out -> ready c -> hears out c ->
  attends len s -> length (v_in (view (cl_stream c))) <= len ->
  let c' := cl_step p s c in
  ready c' /\ length (v_in (view (cl_stream c'))) <= len /\
  exists got out', out = got ++ out' /\ cl_events c' = cl_events c ++ events_of got /\ hears out' c' /\
    (out <> [] -> length (cl_outbound c') + length out' + (if is_pump s then 1 else 0)
       <= length (cl_outbound c) + length out + (if is_send s then 1 else 0)).
Proof.
  intros Hnp HR HH Ha Hlen. cbv zeta. destruct (is_pump s) eqn:Es.
  - destruct s as [fuel| | | | |]; try done. simpl in Ha |- *.
    destruct (pump_ready fuel c out Hnp HR HH ltac:(lia)) as (HR' & Hlen' & got & out' & E1 & E2 & HH' & Hm).
    split; [done|]. split; [lia|]. exists got, out'. split_and!; [done|done|done|]. intros H%Hm. lia.
  - pose proof (caller_same_pump s c Es) as HS. destruct (caller_ready len s c Es Ha HR) as [HR' Hq].
    rewrite (sp_stream _ _ HS). split_and!; [done|done|]. exists [], out. rewrite app_nil_r.
    split_and!; [done|apply HS|by eapply same_pump_hears|]. intros _. lia.
Qed.

(** With a turn for every envelope to be sent or read, everything is read. *)
Lemma cl_run_ready len ss c out :
  Forall not_ping out -> ready c -> hears out c -> Forall (attends len) ss ->
  length (v_in (view (cl_stream c))) <= len ->
  ready (cl_run p ss c) /\
  (length (cl_outbound c) + length out + sends ss <= pumps ss ->
   cl_events (cl_run p ss c) = cl_events c ++ events_of out).
Proof.
  intros Hnp HR HH Hss. revert c out Hnp HR HH. induction Hss as [|s ss Hs _ IH]; intros c out Hnp HR HH Hlen.
  { split; [done|]. unfold sends, pumps. simpl. intros Hle. destruct out; simpl in Hle; [|lia].
    by rewrite app_nil_r. }
  destruct (cl_step_ready len s c out Hnp HR HH Hs Hlen) as (HR' & Hlen' & got & out' & -> & He & HH' & Hm).
  apply Forall_app in Hnp as [_ Hnp']. destruct (IH _ _ Hnp' HR' HH' Hlen') as [HR2 Hev].
  split; [done|]. rewrite pumps_cons, sends_cons. intros Hle. simpl.
  rewrite events_of_app, app_assoc, <-He. destruct (decide (got ++ out' = [])) as [Ho|Ho].
  - apply app_eq_nil in Ho as [-> ->].
    destruct (cl_run_hears ss _ [] Hnp' (rd_phase _ HR') HH') as (evs & Hp & ->).
    by apply prefix_nil_inv in Hp as ->.
  - apply Hev. specialize (Hm Ho). lia.
Qed.

(** ** Who is sent events *)

(** In the history [h], connection [i] sent a subscription to [topic] which the
    service, as it was then, granted. *)
Definition granted_in (i : nat) (svc : Service) (h : list Item) (topic : Topic) : Prop :=
  exists g1 flt cap g2 subject, h = g1 ++ Took i (ESubscribe topic flt cap) :: g2 /\
    verify_topic (service_after svc g1) cap topic = Ok subject.

Lemma granted_in_app i svc h k topic : granted_in i svc h topic -> granted_in i svc (h ++ k) topic.
Proof.
  intros (g1 & flt & cap & g2 & subject & -> & H). exists g1, flt, cap, (g2 ++ k), subject.
  by rewrite <-app_assoc.
Qed.

(** A connection gets a forwarder only in a turn that takes a subscription. *)
Lemma conn_step_grants i s (c : Conn S) topic :
  conn_subscribed (conn_step p s c) topic ->
  conn_subscribed c topic \/
  exists flt cap subject, conn_item p i s c = [Took i (ESubscribe topic flt cap)] /\
    verify_topic (cn_service c) cap topic = Ok subject.
Proof.
  intros H. destruct (conn_step_events p s c) as [Hs _].
  destruct (Hs topic H) as [?|(fuel & -> & flt & cap & subject & st & Hr & Hv)]; [by left|].
  destruct (cn_status c) eqn:Est, (cn_events c) as [|env q] eqn:Eq.
  all: try (left; revert H; cbn [conn_step]; unfold conn_turn; rewrite Est; try done;
            rewrite Eq; unfold conn_subscribed; by rewrite (proj2 (conn_send_frame p env _))).
  right. exists flt, cap, subject. simpl. by rewrite Est, Eq, Hr.
Qed.

Lemma conn_item_pushed i s (c : Conn S) ev :
  Pushed i ev ∈ conn_item p i s c -> conn_subscribed c (event_topic ev).
Proof.
  destruct s as [fuel|j [ev'| |]]; simpl; intros H.
  - destruct (cn_status c), (cn_events c); try by apply not_elem_of_nil in H.
    destruct (recv_frame _ _ _) as [[[]|] ?]; [apply list_elem_of_singleton in H|..]; try done;
      by apply not_elem_of_nil in H.
  - destruct (cn_forwarders c !! j) as [f|] eqn:Ej; [|by apply not_elem_of_nil in H].
    destruct (cn_status c), (cf_done f); try by apply not_elem_of_nil in H.
    all: destruct (decide (event_topic ev' = cf_topic f)) as [Et|]; [|by apply not_elem_of_nil in H].
    all: apply list_elem_of_singleton in H as [= ->]; exists f; split; [|done];
      by eapply list_elem_of_lookup_2.
  - by apply not_elem_of_nil in H.
  - by apply not_elem_of_nil in H.
Qed.

(** ** From the source to the stream *)

Context {G : Type} {TG : TransportGate G} (server_private : bytes) (gate : G).
Context {BA : BroadcastApi} {BL : BroadcastLaws} {DA : DedupApi} {DL : DedupLaws}.

Abbreviation run := (ts_run server_private gate p).
Abbreviation history := (ts_history server_private gate p).
Abbreviation follow := (topic_run (cl_step p) cl_events cl_senders).
Abbreviation attached := (topic_attach (cl_events (S := S))).

(** While it runs and once its queue is empty, a connection has written frames
    for its line. *)
Lemma flushed_line ss sv0 i c0 c w :
  ts_tasks sv0 !! i = Some (Serving c0) -> cn_events c0 = [] ->
  ts_tasks (run ss sv0) !! i = Some (Serving c) -> cn_status c = Running -> cn_events c = [] ->
  v_out (view (cn_stream c)) = v_out (view (cn_stream c0)) ++ w ->
  spoken (S := S) p half (line i (ts_service sv0) (history ss sv0)) (cn_session c0) (cn_session c) w.
Proof.
  intros Hi Hq0 Hc Hr Hq Hw. destruct (ts_run_line p half server_private gate ss sv0 i c0 Hi) as (c' & Hc' & HR).
  rewrite Hc in Hc'. injection Hc' as <-. destruct (HR Hr) as (_ & out & [(w' & Hw' & Hsp) _ _] & Hl).
  rewrite Hq, Hq0, app_nil_r in Hl. simpl in Hl. subst out. rewrite Hw in Hw'.
  by apply app_inv_head in Hw' as <-.
Qed.

(** A forwarder of the connection, and an event pushed for it, follow a grant. *)
Lemma ts_run_granted ss sv0 i c0 :
  ts_tasks sv0 !! i = Some (Serving c0) -> cn_forwarders c0 = [] ->
  let svc := ts_service sv0 in
  (forall c topic, ts_tasks (run ss sv0) !! i = Some (Serving c) -> conn_subscribed c topic ->
     granted_in i svc (history ss sv0) topic) /\
  (forall h1 ev h2, history ss sv0 = h1 ++ Pushed i ev :: h2 -> granted_in i svc h1 (event_topic ev)).
Proof.
  intros Hi Hf. cbv zeta. induction ss as [|s ss [IH1 IH2]] using rev_ind.
  { simpl. split.
    - intros c topic Hc (f & Hx & _). rewrite Hi in Hc. injection Hc as <-. rewrite Hf in Hx.
      by apply not_elem_of_nil in Hx.
    - intros h1 ev h2 H. by apply app_cons_not_nil in H. }
  rewrite ts_history_snoc, ts_run_snoc.
  destruct (ts_run_line p half server_private gate ss sv0 i c0 Hi) as (c & Hc & _).
  destruct (ts_step_task p server_private gate s (run ss sv0) i c Hc)
    as [(s' & -> & Hitem & Hc')|(_ & Hc' & _ & Hp & _)].
  - rewrite Hitem. split.
    + intros c1 topic H1 Hsub. rewrite Hc' in H1. injection H1 as <-.
      destruct (conn_step_grants i s' _ topic Hsub) as [H|(flt & cap & subject & E & Hv)].
      { apply granted_in_app. by apply (IH1 c topic). }
      change (conn_item p i s' c = [Took i (ESubscribe topic flt cap)]) in E. rewrite E.
      exists (history ss sv0), flt, cap, [], subject. split; [done|]. by rewrite <-(ts_run_service p half server_private gate).
    + intros h1 ev h2 [(k & E)|(k & -> & E)]%app_split_at; [by eapply IH2|].
      apply granted_in_app, (IH1 c); [done|]. apply (conn_item_pushed i s'). rewrite E. set_solver.
  - split.
    + intros c1 topic H1 Hsub. rewrite Hc' in H1. injection H1 as <-.
      apply granted_in_app. by eapply IH1.
    + intros h1 ev h2 [(k & E)|(k & -> & E)]%app_split_at; [by eapply IH2|]. exfalso.
      assert (ev ∈ pushed i (ts_item p s (run ss sv0))) as H; [|rewrite Hp in H; by apply not_elem_of_nil in H].
      apply list_elem_of_omap. exists (Pushed i ev). rewrite E. split; [set_solver|]. simpl.
      by rewrite decide_True.
Qed.

(** C14: let the [i]-th connection of a server go from [c0] to [c] in a run in
    which everything interleaves, and let its client read what the connection
    writes in between, in chunks of any size, while calls, subscriptions and the
    pump interleave at the client too.  Then every event pushed for the
    connection follows a subscription of this client to its topic that the
    service granted, and the events the client broadcasts are always a front
    part of those pushed for the connection, in order, none added, altered or
    repeated.  On a connection that stays up, once the pump has had a turn for
    every envelope to be sent or received, a subscriber to a topic that was
    attached at the start and is polled as often as there are events has been
    given exactly the events of its topic, all of them and in order, provided
    at most 256 events were pushed and the topic's sequence numbers increase
    (what is repeated or out of order is [dedup_by_seq]'s to drop). *)
Theorem tcp_events_reach_subscribers ss sv0 i c0 c w topic cs (cl0 : Client S) :
  ts_tasks sv0 !! i = Some (Serving c0) -> cn_events c0 = [] -> cn_forwarders c0 = [] ->
  ts_tasks (run ss sv0) !! i = Some (Serving c) -> cn_status c = Running -> cn_events c = [] ->
  v_out (view (cn_stream c)) = v_out (view (cn_stream c0)) ++ w ->
  half (cn_session c0) (cl_session cl0) -> cl_buf cl0 ++ v_in (view (cl_stream cl0)) = w ->
  cl_phase cl0 = Looping ->
  let h := history ss sv0 in
  let evs := pushed i h in
  let wanted := filter (fun ev => event_topic ev = topic) evs in
  (forall h1 ev h2, h = h1 ++ Pushed i ev :: h2 ->
     granted_in i (ts_service sv0) h1 (event_topic ev)) /\
  (exists seen, seen `prefix_of` evs /\
     cl_events (tu_state (follow cs (attached topic cl0))) = cl_events cl0 ++ seen) /\
  (ready cl0 -> Forall (attends (length w)) (sub_moves cs) ->
   length (cl_outbound cl0) + length (line i (ts_service sv0) h) + sends (sub_moves cs)
     <= pumps (sub_moves cs) ->
   length evs <= 256 -> StronglySorted Z.lt (event_seq <$> wanted) ->
   tu_yielded (follow (cs ++ repeat SubPoll (length evs)) (attached topic cl0)) = Ok <$> wanted).
Proof.
  intros Hi Hq0 Hf0 Hc Hr Hq Hw Hh Hin Hph. cbv zeta.
  split; [by apply (ts_run_granted ss sv0 i c0)|].
  pose proof (flushed_line ss sv0 i c0 c w Hi Hq0 Hc Hr Hq Hw) as Hsp.
  destruct (line_events i (ts_service sv0) (history ss sv0)) as [<- Hnp].
  set (out := line i _ _) in *.
  assert (hears out cl0) as HH by (exists (cn_session c0), (cn_session c); by rewrite Hin).
  assert (tu_state (follow cs (attached topic cl0)) = cl_run p (sub_moves cs) cl0) as Hst
    by apply topic_run_state.
  split.
  - destruct (cl_run_hears (sub_moves cs) cl0 out Hnp Hph HH) as (seen & Hp & He).
    exists seen. split; [done|]. by rewrite Hst.
  - intros HR Hat Hturns Hcap Hseq.
    destruct (cl_run_ready (length w) (sub_moves cs) cl0 out Hnp HR HH Hat) as [HR' He].
    { rewrite <-Hin, length_app. lia. }
    specialize (He Hturns).
    assert (drop (length (cl_events cl0)) (cl_events (cl_run p (sub_moves cs) cl0)) = events_of out) as Hdrop
      by (by rewrite He, drop_app_length).
    etrans; [apply (topic_run_delivers (cl_step p) cl_events cl_senders (cl_step_events p) (cl_step_senders p))|].
    + rewrite Hst. unfold cl_senders. by rewrite (rd_phase _ HR'), orb_true_r.
    + rewrite Hst, He, length_app. unfold EVENT_CAPACITY. lia.
    + rewrite Hst, He, length_app. lia.
    + by rewrite Hst, Hdrop.
    + by rewrite Hst, Hdrop.
Qed.

(** ** A refused subscription *)

(** A client that is sent no events, and in particular one whose subscription
    is answered with an error, has a stream that waits: the error is not shown
    to the subscriber. *)
Lemma refused_subscriber_waits len cs (cl0 : Client S) topic error :
  ready cl0 -> hears [ESubscribeError topic error] cl0 -> length (v_in (view (cl_stream cl0))) <= len ->
  Forall (attends len) (sub_moves cs) ->
  let u := follow cs (attached topic cl0) in
  tu_yielded u = [] /\
  topic_poll (cl_events (tu_state u)) (cl_senders (tu_state u)) (tu_stream u) = (Pending, tu_stream u).
Proof.
  intros HR HH Hlen Hat. cbv zeta.
  assert (Forall not_ping [ESubscribeError topic error]) as Hnp by by repeat constructor.
  destruct (cl_run_ready _ _ _ _ Hnp HR HH Hat Hlen) as [HR' _].
  destruct (cl_run_hears (sub_moves cs) cl0 _ Hnp (rd_phase _ HR) HH) as (evs & ->%prefix_nil_inv & He).
  rewrite app_nil_r in He.
  destruct (topic_run_reads (cl_step p) cl_events cl_senders cs topic cl0) as (ss & [E1 E2 _ E4]).
  destruct (sub_run_faithful (cl_step p) cl_events cl_senders (cl_step_events p) (cl_step_senders p) ss cl0)
    as (kept & [_ Hrange Hnext (evs & Hevs & Hy) _ Hdone]).
  assert (tu_state (follow cs (attached topic cl0)) = cl_run p (sub_moves cs) cl0) as Hst
    by apply topic_run_state.
  set (u := follow cs (attached topic cl0)) in *. rewrite E1, E2, Hst, He in *.
  assert (cl_senders (cl_run p (sub_moves cs) cl0) = true) as Hs.
  { unfold cl_senders. by rewrite (rd_phase _ HR'), orb_true_r. }
  assert (rs_done (to_raw (tu_stream u)) = false) as Hd.
  { apply not_true_is_false. intros H%Hdone. congruence. }
  destruct kept as [|j kept]; [|specialize (Hrange j ltac:(by left)); lia].
  injection Hevs as <-. rewrite E4, Hy, Hd, Hs. split; [done|].
  unfold topic_poll. cbn [topic_loop]. unfold raw_poll. rewrite Hd, raw_loop_enough.
  unfold catch_up. rewrite Nat.max_l, lookup_ge_None_2 by lia.
  by destruct (tu_stream u) as [[] ?]; simpl in *; subst.
Qed.

End EventDelivery.

(** ** Concrete runs *)

Module EventRuns.
Import Ref RefBroadcast RefDedup ServerRuns.

Definition spriv : bytes := HandshakeRuns.spriv.
Definition gate : KeyAllowList := key_allow_list_new [pub_of HandshakeRuns.cpriv].
Definition later : core.(Event) := (str "news", x22).

(** A client subscribes with the right capability and calls [request]. *)
Definition token : core.(Capability) := x2a.
Definition calls : list ClStep := [ClSubscribe (Some token) (str "news"); ClNew r1; ClSend 0].

Definition client (chunks : list bytes) : Client Script :=
  cl_run vanilla calls (connected (mkScript chunks FinWait [] None) (mkRSession 0 0) [] 0).

(** What its pump writes; its connection, among another one. *)
Definition asked : bytes :=
  sc_out (cl_stream (cl_run vanilla [ClPump 50; ClPump 50] (client []))).
Definition c0 : Conn Script := conn [asked].
Definition sv0 : TcpServer Script := mkTcpServer true true [Serving (conn []); Serving c0] svc.

(** Two events are pushed, one before and one after the request is answered. *)
Definition pushes : list (TsStep Script) :=
  [TsConn 1 (CTurn 99); TsConn 1 (CForward 0 (SrcEvent news)); TsConn 0 (CTurn 99);
   TsConn 1 (CTurn 99); TsConn 1 (CTurn 99); TsConn 1 (CForward 0 (SrcEvent later));
   TsConn 1 (CTurn 99)].

Definition c1 : Conn Script :=
  match ts_tasks (ts_run spriv gate vanilla pushes sv0) !! 1 with Some (Serving c) => c | _ => c0 end.
Definition told : bytes := Eval vm_compute in sc_out (cn_stream c1).

(** The pump sends its two envelopes and reads three; a subscriber polls in
    between. *)
Definition pumped : list (SubStep (Step := ClStep)) :=
  [SubMove (ClPump 99); SubMove (ClPump 99); SubMove (ClPump 99); SubPoll; SubMove (ClPump 99);
   SubMove (ClPoll 0); SubMove (ClPump 99)].
Definition cl0 : Client Script := client [take 7 told; drop 7 told].

Example told_events : pushed 1 (ts_history spriv gate vanilla pushes sv0) = [news; later].
Proof. reflexivity. Qed.

Lemma told_written : v_out (view (cn_stream c1)) = v_out (view (cn_stream c0)) ++ told.
Proof. vm_compute. reflexivity. Qed.

Lemma sendable_small (env : Envelope) :
  env_ok env = true -> (Z.of_nat (length (env_out env)) <=? 65519)%Z = true ->
  sendable vanilla env.
Proof.
  intros Hok Hlen. exists (env_out env). cbn [to_vec serde]. rewrite Hok. split; [done|].
  intros session rng. cbn [encrypt wire frame_out vanilla]. unfold rs_encrypt. rewrite Hlen.
  eexists _, _, _, _. split; [done|]. unfold vanilla_out. rewrite (proj2 (Z.ltb_ge _ _)); [done|].
  apply Z.leb_le in Hlen. unfold MAX_RECORD. simpl length. lia.
Qed.

Lemma tcp_events_reach_subscribers_witness :
  (forall h1 ev h2, ts_history spriv gate vanilla pushes sv0 = h1 ++ Pushed 1 ev :: h2 ->
     granted_in 1 svc h1 (event_topic ev)) /\
  (exists seen, seen `prefix_of` [news; later] /\
     cl_events (tu_state (topic_run (cl_step vanilla) cl_events cl_senders pumped
                            (topic_attach cl_events (str "news") cl0))) = [] ++ seen) /\
  tu_yielded (topic_run (cl_step vanilla) cl_events cl_senders (pumped ++ [SubPoll; SubPoll])
                (topic_attach cl_events (str "news") cl0)) = [Ok news; Ok later].
Proof.
  pose proof (tcp_events_reach_subscribers vanilla half eq_refl spriv gate pushes sv0 1 c0 c1 told (str "news")
                pumped cl0 eq_refl eq_refl eq_refl eq_refl eq_refl eq_refl told_written eq_refl eq_refl eq_refl)
    as (H0 & H1 & H2).
  split_and!; [exact H0|exact H1|apply H2].
  - split; try reflexivity.
    + repeat constructor; apply sendable_small; reflexivity.
    + change (cl_calls cl0) with [mkCall r1 0 Awaiting]. intros [|i] req n Hc; discriminate Hc.
  - repeat constructor; vm_compute; lia.
  - vm_compute. lia.
  - vm_compute. lia.
  - change (StronglySorted Z.lt [byte_Z news.2; byte_Z later.2]). repeat constructor.
Defined.

End EventRuns.
