(* ===== verification/UdpEvents.v ===== *)
(** * Events over UDP, from a forwarder of the server to the client's subscribers

    [src/udp/server.rs] and [src/udp/client.rs]: what the client's pump makes
    of whatever datagrams arrive, over whole runs, and how an event of a
    subscription becomes a datagram that it broadcasts. *)

From S2P Require Import Prelude RustStd Externals Envelope Verifier UdpWire DataPlane UdpHandshake.
From S2P Require Import UdpConnect UdpServer UdpEndToEnd PendingMap Client UdpClient UdpService UdpSession Instances.

Section UdpEvents.
Context {WA : WireApi} {CA : CoreApi} {SA : SerdeApi} {JL : SerdeLaws}.
Context {window : nat} {sealer_at : RecordSealer -> RecordKey -> nat -> Prop}
  {sealed : RecordKey -> nat -> bytes -> bytes -> Prop}
  {opener_for : RecordOpener -> RecordKey -> Prop} {accepts : RecordOpener -> nat -> Prop}
  {RL : RecordLaws window sealer_at sealed opener_for accepts}
  {OA : OpenAuth sealed opener_for accepts}.
Context (m : DatagramMimicry) {DL : DatagramLaws m} (saddr : SocketAddr) (k : RecordKey).

(** ** What a run of the client has opened *)

(** A record of the server: its number and its plaintext. *)
Abbreviation Opened := (nat * bytes)%type.

Definition genuine (r : Opened) : Prop := exists ct, sealed k r.1 r.2 ct.

Definition event_in (r : Opened) : option Event :=
  match from_slice r.2 with Ok (EEvent ev) => Some ev | _ => None end.

(** Since [c0], the client has opened the records [rs], broadcast their events
    and nothing else; it takes none of them again, and still takes the others
    that they have not left behind. *)
Record opened_since (c0 c : UdpClient) (rs : list Opened) : Prop := {
  os_key : opener_for (opener (ul_chan c)) k;
  os_mimic : mimic (ul_chan c) = m;
  os_genuine : Forall genuine rs;
  os_once : NoDup rs.*1;
  os_events : ul_events c = ul_events c0 ++ omap event_in rs;
  os_used : forall n, n ∈ rs.*1 -> ~ accepts (opener (ul_chan c)) n;
  os_kept : forall n, accepts (opener (ul_chan c0)) n -> n ∉ rs.*1 ->
    (forall n', n' ∈ rs.*1 -> n' < n + window) -> accepts (opener (ul_chan c)) n;
}.

Lemma opened_since_start c0 :
  opener_for (opener (ul_chan c0)) k -> mimic (ul_chan c0) = m -> opened_since c0 c0 [].
Proof.
  intros Ho Hm. split; try done; [constructor|by rewrite app_nil_r|].
  by intros n ?%not_elem_of_nil.
Qed.

(** A step that leaves the opener and the events alone. *)
Record same_ears (c c' : UdpClient) : Prop := {
  se_opener : opener (ul_chan c') = opener (ul_chan c);
  se_mimic : mimic (ul_chan c') = mimic (ul_chan c);
  se_events : ul_events c' = ul_events c;
}.

Lemma same_ears_since c0 c c' rs : same_ears c c' -> opened_since c0 c rs -> opened_since c0 c' rs.
Proof. intros [E1 E2 E3] [H1 H2 H3 H4 H5 H6 H7]. by split; rewrite ?E1, ?E2, ?E3. Qed.

Lemma ul_send_ears env c : same_ears c (ul_send saddr env c).
Proof.
  unfold ul_send. pose proof (seal_envelope_keeps_opener (ul_chan c) env (ul_rng c)) as [Eo Em].
  by destruct (seal_envelope _ _ _) as [[[] ch] r].
Qed.

(** What opening a datagram does: nothing, or one more record. *)
Lemma open_datagram_since c0 c rs d r ch' :
  opened_since c0 c rs -> open_datagram (ul_chan c) d = (r, ch') ->
  (r = Ok None /\ ch' = ul_chan c) \/
  exists n pt, r = Ok (match from_slice pt with Ok env => Some env | Err _ => None end) /\
    genuine (n, pt) /\ n ∉ rs.*1 /\ opener_for (opener ch') k /\ mimic ch' = m /\
    ~ accepts (opener ch') n /\
    (forall j, ~ accepts (opener (ul_chan c)) j -> ~ accepts (opener ch') j) /\
    (forall j, j <> n -> n < j + window -> accepts (opener (ul_chan c)) j -> accepts (opener ch') j).
Proof.
  intros HO. unfold open_datagram. rewrite (os_mimic _ _ _ HO).
  destruct (shape_in m d) as [inner|]; [|intros [= <- <-]; by left].
  destruct (decode_inner inner) as [[ty record]|]; [|intros [= <- <-]; by left].
  case_decide; [intros [= <- <-]; by left|].
  destruct (open (opener (ul_chan c)) record []) as [[pt|e] o'] eqn:Eo.
  - destruct (open_authentic _ _ _ _ _ (os_key _ _ _ HO) Eo) as (n & Hs & Ha).
    destruct (open_fresh _ _ _ _ _ (os_key _ _ _ HO) Ha Hs) as (o1 & Eo1 & Hk & Hn & Hkeep & Hgone).
    rewrite Eo in Eo1. injection Eo1 as <-. intros Hr. right. exists n, pt.
    assert (n ∉ rs.*1) as Hfresh by (intros ?%(os_used _ _ _ HO); done).
    destruct (from_slice pt); injection Hr as <- <-; simpl; split_and!; try done;
      try (by exists record); apply (os_mimic _ _ _ HO).
  - pose proof (open_refused _ _ _ _ _ (os_key _ _ _ HO) Eo) as ->.
    intros [= <- <-]. left. by destruct (ul_chan c).
Qed.

(** The record that was opened joins the others. *)
Lemma opened_since_one c0 c rs n pt ch' c' :
  opened_since c0 c rs -> genuine (n, pt) -> n ∉ rs.*1 ->
  opener_for (opener ch') k -> mimic ch' = m -> ~ accepts (opener ch') n ->
  (forall j, ~ accepts (opener (ul_chan c)) j -> ~ accepts (opener ch') j) ->
  (forall j, j <> n -> n < j + window -> accepts (opener (ul_chan c)) j -> accepts (opener ch') j) ->
  opener (ul_chan c') = opener ch' -> mimic (ul_chan c') = mimic ch' ->
  ul_events c' = ul_events c ++ omap event_in [(n, pt)] -> opened_since c0 c' (rs ++ [(n, pt)]).
Proof.
  intros [H1 H2 H3 H4 H5 H6 H7] Hg Hn Hk Hm Hno Hgone Hkeep Eo Em Ee.
  split; rewrite ?Eo, ?Em, ?fmap_app; try done.
  - apply Forall_app. split; [done|]. by repeat constructor.
  - apply NoDup_app. split_and!; [done| |apply NoDup_singleton].
    intros x Hx ->%list_elem_of_singleton. done.
  - by rewrite Ee, H5, omap_app, app_assoc.
  - intros j [Hj|Hj]%elem_of_app; [by apply Hgone, H6|]. by apply list_elem_of_singleton in Hj as ->.
  - intros j Ha Hj Hw. apply not_elem_of_app in Hj as [Hj1 Hj2].
    apply Hkeep; [by intros ->; apply Hj2; left|apply Hw; set_solver|]. apply H7; [done..|].
    intros n' Hn'. apply Hw. set_solver.
Qed.

Lemma uc_step_since s c0 c rs :
  opened_since c0 c rs -> exists rs', opened_since c0 (uc_step saddr s c) (rs ++ rs').
Proof.
  intros HO. assert (forall c', same_ears c c' -> exists rs', opened_since c0 c' (rs ++ rs')) as Hsame.
  { intros c' HS. exists []. rewrite app_nil_r. by eapply same_ears_since. }
  destruct s as [inbound|req|i|cap topic]; simpl.
  - unfold udp_pump_step. destruct (ul_phase c); try (by apply Hsame). unfold udp_pump_turn.
    destruct (ul_outbound c) as [|env q].
    + destruct inbound as [d|e]; [|by apply Hsame].
      destruct (open_datagram (ul_chan c) d) as [r ch'] eqn:E.
      destruct (open_datagram_since _ _ _ _ _ _ HO E)
        as [[-> ->]|(n & pt & -> & Hg & Hn & Hk & Hm & Hno & Hgone & Hkeep)]; [by apply Hsame|].
      exists [(n, pt)].
      assert (forall c', same_ears (ul_set_chan ch' c) c' ->
        omap event_in [(n, pt)] = [] -> opened_since c0 c' (rs ++ [(n, pt)])) as Hquiet.
      { intros c' [E1 E2 E3] He. eapply opened_since_one; try done. by rewrite He, app_nil_r. }
      destruct (from_slice pt) as [env|] eqn:Ef; [|apply Hquiet; [done|]; simpl; unfold event_in; simpl; by rewrite Ef].
      destruct env; try (apply Hquiet; [first [apply ul_send_ears|done]|]; simpl; unfold event_in; simpl; by rewrite Ef).
      eapply opened_since_one; try done. simpl. unfold event_in. simpl. by rewrite Ef.
    + apply Hsame. destruct (ul_send_ears env (ul_set_outbound q c)) as [??]. by split.
  - by apply Hsame.
  - apply Hsame. unfold call_step. destruct (ul_calls c !! i) as [[req n retry []]|]; try done.
    + unfold ul_tx_send. by destruct (ul_phase c).
    + destruct (sl_state <$> _) as [[]|]; try done; by case_decide.
  - apply Hsame. unfold udp_subscribe, ul_tx_send. by destruct (ul_phase c).
Qed.

Lemma uc_run_since ss c0 :
  opener_for (opener (ul_chan c0)) k -> mimic (ul_chan c0) = m ->
  exists rs, opened_since c0 (uc_run saddr ss c0) rs.
Proof.
  intros Ho Hm. induction ss as [|s ss (rs & IH)] using rev_ind.
  { exists []. by apply opened_since_start. }
  unfold uc_run. rewrite fold_left_app. destruct (uc_step_since s _ _ _ IH) as (rs' & H).
  by exists (rs ++ rs').
Qed.

(** ** The server's end *)

Context {G L : Type} {TG : TransportGate G} {LG : LoadGate L}.
Context (server_priv : bytes) (gate : G) (load : L).

Abbreviation server_run := (UdpServer.run server_priv gate load m).

(** A forwarder of the server that is running, with an idle sealer task, whose
    channel seals record [n] of the key next. *)
Record can_forward (sv : Server) (j : nat) (ev : Event) (t : SealerTask) (i n : nat) (ch : DataChannel)
    : Prop := {
  cf_forwarder : exists src, forwarders sv !! j = Some (mkForwarder (event_topic ev) src i false);
  cf_task : tasks sv !! i = Some t;
  cf_running : st_done t = false;
  cf_idle : st_queue t = [];
  cf_flushed : out_queue sv = [];
  cf_channel : chans sv !! st_chan t = Some ch;
  cf_mimic : mimic ch = m;
  cf_sealer : sealer_at (sealer ch) k n;
}.

(** The event is queued, sealed and sent to the task's destination, as record
    [n]. *)
Lemma event_sent sv j ev t i n ch d ch' r :
  can_forward sv j ev t i n ch -> seal_envelope ch (EEvent ev) (st_rng t) = (Ok d, ch', r) ->
  sent (server_run [SForward j (RecvEvent ev); SSeal i; SSend] sv) = sent sv ++ [(st_dst t, d)] /\
  carries (sealed := sealed) m k n (EEvent ev) d.
Proof.
  intros [(src & Hf) Ht Hd Hq Ho Hc Hm Hs] He. split; [|by eapply seal_envelope_carries].
  simpl. unfold forward_step. rewrite Hf. simpl. rewrite decide_True by done.
  unfold ev_send, sealer_step. simpl. rewrite list_lookup_alter_eq, Ht. simpl. rewrite Hd, Hq, Hc. simpl.
  rewrite He. simpl. unfold send_loop_step. simpl. by rewrite Ho.
Qed.

(** ** From the forwarder to the client *)

(** A pump that waits for a datagram broadcasts the event of a record it still
    takes, and nothing for one it does not. *)
Lemma event_broadcast c n ev d :
  opener_for (opener (ul_chan c)) k -> mimic (ul_chan c) = m ->
  carries (sealed := sealed) m k n (EEvent ev) d -> ul_phase c = Looping -> ul_outbound c = [] ->
  (accepts (opener (ul_chan c)) n -> ul_events (uc_step saddr (UcPump (Ok d)) c) = ul_events c ++ [ev]) /\
  (~ accepts (opener (ul_chan c)) n -> uc_step saddr (UcPump (Ok d)) c = c).
Proof.
  intros Hk Hm Hc Hph Hq. simpl. unfold udp_pump_step, udp_pump_turn. rewrite Hph, Hq. split; intros Ha.
  - destruct (open_datagram_fresh (RL := RL) m (ul_chan c) k n (EEvent ev) d Hm Hk Ha Hc) as (o' & -> & _). done.
  - rewrite (open_datagram_stale (RL := RL) m (ul_chan c) k n (EEvent ev) d Hm Hk Ha Hc).
    by destruct c.
Qed.

(** C15: let [k] be the key a UDP client opens the server's records
    with.  Whatever datagrams arrive, from the server, forged, replayed or
    reordered, and whatever the client's calls do, the events it broadcasts are
    those of records sealed under [k], each of them once.  And an event that a
    running forwarder of the server receives is queued, sealed and sent to its
    peer as one datagram [d]; when [d] arrives at the client, at any point of any
    run, with the pump waiting for datagrams, and is not a whole window behind
    the records opened so far, the event is broadcast the first time, and [d]
    changes nothing after that. *)
Theorem udp_events_reach_clients c0 ss :
  opener_for (opener (ul_chan c0)) k -> mimic (ul_chan c0) = m ->
  let c := uc_run saddr ss c0 in
  exists rs,
    Forall genuine rs /\ NoDup rs.*1 /\ ul_events c = ul_events c0 ++ omap event_in rs /\
    forall sv j ev t i n ch d ch' r,
      can_forward sv j ev t i n ch -> seal_envelope ch (EEvent ev) (st_rng t) = (Ok d, ch', r) ->
      sent (server_run [SForward j (RecvEvent ev); SSeal i; SSend] sv) = sent sv ++ [(st_dst t, d)] /\
      (ul_phase c = Looping -> ul_outbound c = [] -> accepts (opener (ul_chan c0)) n ->
       (forall n', n' ∈ rs.*1 -> n' < n + window) ->
       let c' := uc_step saddr (UcPump (Ok d)) c in
       if decide (n ∈ rs.*1) then c' = c else ul_events c' = ul_events c ++ [ev]).
Proof.
  intros Ho Hm. cbv zeta. destruct (uc_run_since ss c0 Ho Hm) as (rs & [H1 H2 H3 H4 H5 H6 H7]).
  exists rs. split_and!; [done..|]. intros sv j ev t i n ch d ch' r HF He.
  destruct (event_sent _ _ _ _ _ _ _ _ _ _ HF He) as [Hsent Hc]. split; [done|].
  intros Hph Hq Ha Hw. destruct (event_broadcast _ n ev d H1 H2 Hc Hph Hq) as [Hyes Hno].
  case_decide as Hn; [by apply Hno, H6|]. by apply Hyes, H7.
Qed.

End UdpEvents.

(** ** Concrete runs *)

Module UdpEventRuns.
Import Ref EndToEndRuns UdpSessionRuns UdpServiceRuns.

Definition news : core.(Event) := (str "news", x21).

(** A client after its handshake, and a server with a subscription of it. *)
Definition client : UdpClient := udp_connected chc 0.
Definition task : SealerTask := mkTask caddr 0 [] 0 false.
Definition publishing : Server :=
  set_forwarders [mkForwarder (str "news") (str "news") 0 false] (set_tasks [task] ready_server).

(** The datagram of the event, and a run that begins with garbage and a copy of
    it. *)
Definition news_dgram : bytes := xc0 :: encode_inner Data (s2c ++ x01 :: env_out (EEvent news)).
Definition hostile : list UcStep :=
  [UcPump (Ok garbage); UcNew (str "r1"); UcPump (Ok news_dgram); UcPump (Ok news_dgram)].

Example news_once : ul_events (uc_run saddr hostile client) = [news].
Proof. reflexivity. Qed.

Lemma publishing_can :
  can_forward (sealer_at := DataPlaneRuns.r_sealer_at) marked s2c publishing 0 news task 0 1 chs.
Proof. split; try reflexivity; [by exists (str "news")|by split]. Qed.

Lemma udp_events_reach_clients_witness :
  exists rs,
    NoDup rs.*1 /\ ul_events (uc_run saddr hostile client) = ul_events client ++ omap event_in rs /\
    sent (run spriv allow_all always_open marked
            [SForward 0 (RecvEvent news); SSeal 0; SSend] publishing) = [(caddr, news_dgram)].
Proof.
  destruct (udp_events_reach_clients (RL := DataPlaneRuns.r_record_laws) marked saddr s2c
              spriv allow_all always_open client hostile) as (rs & _ & H1 & H2 & H3).
  - reflexivity.
  - reflexivity.
  - exists rs. split; [exact H1|]. split; [exact H2|].
    refine (proj1 (H3 publishing 0 news task 0 1 chs news_dgram _ _ publishing_can _)). reflexivity.
Defined.

End UdpEventRuns.
