(* ===== verification/UnitTests.v ===== *)
(** * The unit tests of the crate

    The test modules inside the source files, as programs over the definitions
    of the other files, and a run of all of them on the reference instance of
    the external crates.  A test is an option: [None] where it would panic, at
    a failed assertion or an [unwrap] of an error.  What a test takes from other
    crates (key pairs, profiles, requests, seeded generators) is an argument.

    Two tasks of a test that talk to each other ([tokio::join!] over
    [tokio::io::duplex], or a spawned task on a second socket) are run as a
    network of two deterministic processes: each is run on what the other has
    written so far, until both have finished or the rounds are used up. *)

From S2P Require Import Prelude RustStd Externals Envelope Stream Instances Framing HandshakeIo Verifier.
From S2P Require Import UdpWire DataPlane UdpHandshake UdpConnect UdpServer Socks5 HttpConnect ProxyPeers.

(** ** Tests *)

Abbreviation Test := (option unit).

Definition assert (b : bool) : Test := if b then Some tt else None.

(** [.unwrap()] of a result, and of a completed future's result. *)
Definition unwrap {E A} (r : Res E A) : option A := match r with Ok a => Some a | Err _ => None end.
Definition awaited {E A} (r : Poll (Res E A)) : option A :=
  match r with Ready (Ok a) => Some a | _ => None end.
Definition failed {E A} (r : Poll (Res E A)) : bool :=
  match r with Ready (Err _) => true | _ => false end.

(** ** src/udp/wire_dgram.rs *)

Definition roundtrip_all_types : Test :=
  assert (forallb (fun ty =>
    let body := str "test body data" in
    let encoded := encode_inner ty body in
    match decode_inner encoded with
    | Some (got_ty, got_body) => bool_decide (got_ty = ty) && bool_decide (got_body = body)
    | None => false
    end) [Hs1; Hs2; Hs3; Cookie; Data]).

Definition unknown_type_returns_none : Test :=
  assert (bool_decide (decode_inner [xff; x01; x02] = None)).

Definition empty_input_returns_none : Test := assert (bool_decide (decode_inner [] = None)).

Definition empty_body_roundtrips : Test :=
  let encoded := encode_inner Data [] in
  '(ty, body) ← decode_inner encoded;
  assert (bool_decide (ty = Data));; assert (bool_decide (body = [])).

(** ** src/udp/cookie_gate.rs *)

Definition always_open_not_under_load : Test := assert (negb (under_load always_open)).
Definition always_under_load_test : Test := assert (under_load always_under_load).

(** ** src/verifier.rs *)

Definition allow_all_accepts_any_key : Test :=
  assert (is_ok (authenticate allow_all (repeat xab 32))).

Definition key_allow_list_accepts_known_key : Test :=
  let key := repeat x01 32 in
  let gate := key_allow_list_new [key] in
  assert (is_ok (authenticate gate key)).

Definition key_allow_list_rejects_unknown_key : Test :=
  let allowed := repeat x01 32 in
  let unknown := repeat x02 32 in
  let gate := key_allow_list_new [allowed] in
  assert (negb (is_ok (authenticate gate unknown))).

Section Tests.
Context {WA : WireApi} {CA : CoreApi} {SA : SerdeApi}.

(** [vaiexia_wire::keypair::StaticKeypair]. *)
Record Keypair : Type := mkKeypair { kp_private : bytes; kp_public : bytes }.

(** ** src/envelope.rs *)

(** [serde_json::to_string] and [from_str]. *)
Definition through_json (env : Envelope) : option Envelope :=
  s ← unwrap (to_vec env); unwrap (from_slice s).

Definition request_roundtrips (req : Request) : Test :=
  let env := ERequest req in
  back ← through_json env;
  match back with
  | ERequest r => assert (bool_decide (request_id r = request_id req))
  | _ => None
  end.

Definition response_roundtrips (resp : Response) : Test :=
  let env := EResponse resp in
  back ← through_json env;
  match back with
  | EResponse r => assert (bool_decide (response_id r = response_id resp))
  | _ => None
  end.

Definition event_roundtrips (event_seq : Event -> Z) (ev : Event) : Test :=
  let env := EEvent ev in
  back ← through_json env;
  match back with
  | EEvent e =>
      assert (bool_decide (event_topic e = event_topic ev));;
      assert (event_seq e =? event_seq ev)%Z
  | _ => None
  end.

Definition subscribe_roundtrips (topic : Topic) : Test :=
  let env := ESubscribe topic None None in
  back ← through_json env;
  assert (match back with ESubscribe _ _ _ => true | _ => false end).

(** [scope] is [Capability::new("scope:server.logs")], [reveal] the method of
    [Capability]. *)
Definition subscribe_with_capability_roundtrips (topic : Topic) (scope : Capability)
    (reveal : Capability -> bytes) : Test :=
  let env := ESubscribe topic None (Some scope) in
  back ← through_json env;
  match back with
  | ESubscribe _ _ capability =>
      assert (bool_decide (is_Some capability));;
      c ← capability;
      assert (bool_decide (reveal c = str "scope:server.logs"))
  | _ => None
  end.

Definition subscribe_error_roundtrips (topic : Topic) : Test :=
  let env := ESubscribeError topic (diagnostic_error FORBIDDEN (str "not allowed")) in
  back ← through_json env;
  assert (match back with ESubscribeError _ _ => true | _ => false end).

Definition ping_pong_roundtrips : Test :=
  assert (forallb (fun env =>
    match through_json env with
    | Some back =>
        match env, back with EPing, EPing | EPong, EPong => true | _, _ => false end
    | None => false
    end) [EPing; EPong]).

(** ** src/udp/keys.rs *)

Definition seal_then_open (key key' : RecordKey) (probe : bytes) : option (Res WireError bytes) :=
  let s := sealer_new key in
  let o := opener_new key' in
  ct ← unwrap (seal s probe []).1;
  Some (open o ct []).1.

Definition opens_as (probe : bytes) (r : Res WireError bytes) : bool :=
  match r with Ok pt => bool_decide (pt = probe) | Err _ => false end.

Definition deterministic : Test :=
  let seed := repeat x42 32 in
  let '(c2s_a, s2c_a) := derive_record_keys seed in
  let '(c2s_c, s2c_c) := derive_record_keys seed in
  r ← seal_then_open c2s_a c2s_c (str "probe");
  assert (opens_as (str "probe") r);;
  r2 ← seal_then_open s2c_a s2c_c (str "probe2");
  assert (opens_as (str "probe2") r2).

Definition c2s_differs_from_s2c : Test :=
  let seed := repeat x11 32 in
  let '(c2s, s2c) := derive_record_keys seed in
  r ← seal_then_open c2s s2c (str "asymmetric");
  assert (negb (is_ok r)).

Definition same_seed_both_sides : Test :=
  let seed := repeat xab 32 in
  let '(client_c2s, _) := derive_record_keys seed in
  let '(server_c2s, _) := derive_record_keys seed in
  r ← seal_then_open client_c2s server_c2s (str "hello server");
  assert (opens_as (str "hello server") r).

(** ** src/udp/dataplane.rs *)

Section DataPlaneTests.
Context (passthrough : DatagramMimicry) (seed_from_u64 : Z -> Rng).

Definition make_channels (seed : bytes) : DataChannel * DataChannel :=
  let '(c2s_key, s2c_key) := derive_record_keys seed in
  let client := data_channel_new (sealer_new c2s_key) (opener_new s2c_key) passthrough in
  let server := data_channel_new (sealer_new s2c_key) (opener_new c2s_key) passthrough in
  (client, server).

Definition rng42 : Rng := seed_from_u64 42.

(** [channel.seal_envelope(&env, &mut rng).unwrap()] and
    [channel.open_datagram(&wire).unwrap()], with the channel and the generator
    they leave. *)
Definition sealed_with (env : Envelope) (st : DataChannel * Rng) : option (bytes * (DataChannel * Rng)) :=
  let '(r, ch, rng) := seal_envelope st.1 env st.2 in
  wire ← unwrap r; Some (wire, (ch, rng)).
Definition opened (wire : bytes) (ch : DataChannel) : option (option Envelope * DataChannel) :=
  let '(r, ch) := open_datagram ch wire in
  env ← unwrap r; Some (env, ch).

Definition is_some {A} (o : option A) : bool := match o with Some _ => true | None => false end.
Definition is_ping (e : Envelope) : bool := match e with EPing => true | _ => false end.
Definition is_pong (e : Envelope) : bool := match e with EPong => true | _ => false end.
Definition some_ping (o : option Envelope) : bool := match o with Some e => is_ping e | None => false end.
Definition some_pong (o : option Envelope) : bool := match o with Some e => is_pong e | None => false end.

Definition seal_open_roundtrip : Test :=
  let seed := repeat x55 32 in
  let '(client, server) := make_channels seed in
  '(wire, _) ← sealed_with EPing (client, rng42);
  '(recovered, _) ← opened wire server;
  assert (some_ping recovered).

Definition out_of_order_delivery : Test :=
  let seed := repeat x66 32 in
  let '(client, server) := make_channels seed in
  '(w0, st) ← sealed_with EPing (client, rng42);
  '(w1, st) ← sealed_with EPong st;
  '(w2, st) ← sealed_with EPing st;
  '(r2, server) ← opened w2 server; assert (is_some r2);;
  '(r0, server) ← opened w0 server; assert (is_some r0);;
  '(r1, server) ← opened w1 server; assert (is_some r1).

Definition replay_rejected : Test :=
  let seed := repeat x77 32 in
  let '(client, server) := make_channels seed in
  '(wire, _) ← sealed_with EPing (client, rng42);
  '(first, server) ← opened wire server; assert (is_some first);;
  '(second, server) ← opened wire server; assert (negb (is_some second)).

(** [*wire.last_mut().unwrap() ^= 0xFF]. *)
Definition flip_last (wire : bytes) : option bytes :=
  b ← last wire;
  Some (take (length wire - 1) wire ++ [as_u8 (Z.lxor (byte_Z b) 255)]).

Definition corrupted_datagram_returns_none : Test :=
  let seed := repeat x88 32 in
  let '(client, server) := make_channels seed in
  '(wire, _) ← sealed_with EPing (client, rng42);
  wire ← flip_last wire;
  '(r, _) ← opened wire server;
  assert (negb (is_some r)).

Definition junk_datagram_returns_none : Test :=
  let seed := repeat x99 32 in
  let '(_, server) := make_channels seed in
  '(r, server) ← opened [] server; assert (negb (is_some r));;
  '(r, server) ← opened (repeat x42 7) server; assert (negb (is_some r)).

End DataPlaneTests.

(** ** src/handshake_io.rs *)

(** One end of [tokio::io::duplex] that has been sent [inbox]; [fin] is what
    follows it. *)
Definition duplex_end (inbox : bytes) (fin : Fin) : Script := mkScript [inbox] fin [] None.

(** A finished task has dropped its end. *)
Definition fin_of {A} (r : Poll A) : Fin := match r with Ready _ => FinEof | Pending => FinWait end.

(** [tokio::join!] of two tasks at the ends of a duplex. *)
Fixpoint join {E A F B} (rounds : nat) (m : IO Script E A) (n : IO Script F B)
    (inbox : bytes) (fin : Fin) : Poll (Res E A) * Poll (Res F B) :=
  let '(r, c) := m (duplex_end inbox fin) in
  let '(r', s) := n (duplex_end (sc_out c) (fin_of r)) in
  match rounds with
  | 0 => (r, r')
  | S rounds => join rounds m n (sc_out s) (fin_of r')
  end.

(** [MimicryConfig]. *)
Record MimicryConfig : Type := mkMimicryConfig {
  magic_header : bytes; preamble_junk_len : nat; pad_bucket : nat; jitter_ms : Z * Z }.

Section StreamTests.
Context (vanilla : MimicryProfile) (amnezia : MimicryConfig -> MimicryProfile).
Context (server_kp client_kp attacker_kp : Keypair).
Context (ent : Entropy) (rng0 : Rng).

(** More fuel than the bytes of a handshake, and rounds for its messages. *)
Definition fuel : nat := 200.
Definition rounds : nat := 4.

Definition handshakes (server_public : bytes) : Poll (Res ObfsError Session) * Poll (Res ObfsError Session) :=
  join rounds
    (client_handshake vanilla fuel rng0 ent (kp_private client_kp) server_public)
    (server_handshake vanilla fuel rng0 ent (kp_private server_kp)) [] FinWait.

Definition handshake_completes : Test :=
  let '(client_res, server_res) := handshakes (kp_public server_kp) in
  assert (is_some (awaited client_res));; assert (is_some (awaited server_res)).

Definition encrypted (pt : bytes) (s : Session) : option (bytes * Session) :=
  let '(r, s) := encrypt s pt in ct ← unwrap r; Some (ct, s).
Definition decrypted (ct : bytes) (s : Session) : option (bytes * Session) :=
  let '(r, s) := decrypt s ct in pt ← unwrap r; Some (pt, s).

Definition sessions_interoperate_after_handshake : Test :=
  let '(cs, ss) := handshakes (kp_public server_kp) in
  cs ← awaited cs; ss ← awaited ss;
  '(ct, cs) ← encrypted (str "hello") cs;
  '(pt, ss) ← decrypted ct ss; assert (bool_decide (pt = str "hello"));;
  '(ct2, ss) ← encrypted (str "world") ss;
  '(pt2, cs) ← decrypted ct2 cs; assert (bool_decide (pt2 = str "world")).

Definition wrong_server_key_fails : Test :=
  let '(client_res, _) := handshakes (kp_public attacker_kp) in
  assert (failed client_res).

(** The common part of the two tests of the in-place variants. *)
Definition in_place (profile : MimicryProfile) (message : bytes) : Test :=
  let '(cs, ss_pair) :=
    join rounds
      (client_handshake_in_place fuel rng0 ent (kp_private client_kp) (kp_public server_kp) profile)
      (server_handshake_in_place fuel rng0 ent (kp_private server_kp) profile) [] FinWait in
  '(cs, _) ← awaited cs;
  '(ss, remote_key, _) ← awaited ss_pair;
  remote_key ← remote_key;
  assert (bool_decide (remote_key = kp_public client_kp));;
  '(ct, cs) ← encrypted message cs;
  '(pt, ss) ← decrypted ct ss; assert (bool_decide (pt = message)).

Definition in_place_variants_complete : Test := in_place vanilla (str "in-place test").

Definition amnezia_preamble_shaped_handshake : Test :=
  let profile := amnezia (mkMimicryConfig [xca; xfe; xba; xbe] 17 64 (0, 0)%Z) in
  in_place profile (str "preamble works").

(** ** src/framing.rs *)

Definition make_sessions : option (Session * Session) :=
  let '(cs, ss) := handshakes (kp_public server_kp) in
  cs ← awaited cs; ss ← awaited ss; Some (cs, ss).

(** What the first end has written reaches the second. *)
Definition deliver (a b : Script) : Script * Script :=
  (mkScript (sc_chunks a) (sc_fin a) [] (sc_werr a),
   mkScript (sc_chunks b ++ [sc_out a]) (sc_fin b) (sc_out b) (sc_werr b)).

Definition wrote_frame (env : Envelope) (io : Script) (s : Session) : option (Script * Session) :=
  let '(r, (io, s)) := write_frame vanilla rng0 env (io, s) in
  awaited r;; Some (io, s).
Definition got_frame (io : Script) (s : Session) : option (Envelope * Script * Session) :=
  let '(r, (io, s)) := read_frame fuel vanilla (io, s) in
  env ← awaited r; Some (env, io, s).

Definition ping_pong_roundtrip : Test :=
  '(cs, ss) ← make_sessions;
  let client_io := duplex_end [] FinWait in
  let server_io := duplex_end [] FinWait in
  '(client_io, cs) ← wrote_frame EPing client_io cs;
  let '(client_io, server_io) := deliver client_io server_io in
  '(received, server_io, ss) ← got_frame server_io ss;
  assert (is_ping received);;
  '(server_io, ss) ← wrote_frame EPong server_io ss;
  let '(server_io, client_io) := deliver server_io client_io in
  '(received2, client_io, cs) ← got_frame client_io cs;
  assert (is_pong received2).

Definition request_envelope_roundtrip (req : Request) : Test :=
  '(cs, ss) ← make_sessions;
  let client_io := duplex_end [] FinWait in
  let server_io := duplex_end [] FinWait in
  let env := ERequest req in
  '(client_io, cs) ← wrote_frame env client_io cs;
  let '(client_io, server_io) := deliver client_io server_io in
  '(back, server_io, ss) ← got_frame server_io ss;
  match back with
  | ERequest r => assert (bool_decide (request_id r = request_id req))
  | _ => None
  end.

Definition eof_returns_closed : Test :=
  '(_, ss) ← make_sessions;
  let empty := duplex_end [] FinEof in
  match (read_frame fuel vanilla (empty, ss)).1 with
  | Ready (Err Closed) => Some tt
  | _ => None
  end.

(** A writer and a reader at the ends of a duplex. *)
Definition fw_sent (env : Envelope) (fw : FramedWriter Script) (s : Session) : option (FramedWriter Script * Session) :=
  let '(r, (fw, s)) := framed_writer_send env (fw, s) in
  awaited r;; Some (fw, s).
Definition fr_received (fr : FramedReader Script) (s : Session) : option (Envelope * FramedReader Script * Session) :=
  let '(r, (fr, s)) := framed_reader_recv fuel (fr, s) in
  env ← awaited r; Some (env, fr, s).
Definition fw_deliver (fw : FramedWriter Script) (fr : FramedReader Script) : FramedWriter Script * FramedReader Script :=
  let '(a, b) := deliver (fw_w fw) (fr_r fr) in
  (mkFramedWriter a (fw_profile fw) (fw_rng fw), mkFramedReader b (fr_profile fr) (fr_buf fr)).

(** The common part of the two round trips of a ping. *)
Definition framed_ping (profile : MimicryProfile) : Test :=
  '(cs, ss) ← make_sessions;
  let fw := framed_writer_new (duplex_end [] FinWait) profile rng0 in
  let fr := framed_reader_new (duplex_end [] FinWait) profile in
  '(fw, cs) ← fw_sent EPing fw cs;
  let '(fw, fr) := fw_deliver fw fr in
  '(got, fr, ss) ← fr_received fr ss;
  assert (is_ping got).

Definition framed_writer_reader_vanilla_roundtrip : Test := framed_ping vanilla.

Definition framed_writer_reader_amnezia_roundtrip : Test :=
  framed_ping (amnezia (mkMimicryConfig [xde; xad; xbe; xef] 0 64 (0, 0)%Z)).

Definition partial_reads_reassemble_vanilla : Test :=
  '(cs, ss) ← make_sessions;
  let fw := framed_writer_new (duplex_end [] FinWait) vanilla rng0 in
  let fr := framed_reader_new (duplex_end [] FinWait) vanilla in
  '(fw, cs) ← fw_sent EPing fw cs;
  '(fw, cs) ← fw_sent EPong fw cs;
  let '(fw, fr) := fw_deliver fw fr in
  '(g1, fr, ss) ← fr_received fr ss;
  '(g2, fr, ss) ← fr_received fr ss;
  assert (is_ping g1);; assert (is_pong g2).

End StreamTests.

(** ** src/proxy/socks5.rs and src/proxy/http_connect.rs *)

Section ProxyTests.

(** The echo server of the tests behind the relay ([copy_bidirectional]) of the
    proxy: what arrives is sent back. *)
Fixpoint echo (fuel : nat) : IO Script IoError unit :=
  match fuel with
  | 0 => fun io => (Pending, io)
  | S fuel =>
      let* bs := read 4096 in
      match bs with
      | [] => io_ret tt
      | _ => let* _ := write_all bs in echo fuel
      end
  end.

(** The proxies, with the relay they end in; every target is the echo server. *)
Definition mock_socks5 (required_auth : option (bytes * bytes)) : IO Script IoError unit :=
  let* target := handle_socks5_conn (fun _ => Ready (Ok tt)) required_auth in
  match target with Some _ => echo 20 | None => io_ret tt end.

Definition mock_http_connect (required_auth : option (bytes * bytes)) (respond_with : bytes)
    : IO Script IoError unit :=
  let* target := handle_http_connect_conn (fun _ => Ready (Ok tt)) required_auth respond_with in
  match target with Some _ => echo 20 | None => io_ret tt end.

(** The client's half of the tests, on a stream connected to the proxy. *)
Definition echoes (tunnel : IO Script ObfsError unit) (msg : bytes) : IO Script ObfsError bool :=
  let* _ := tunnel in
  let* _ := io_map_err Io (write_all msg) in
  let* buf := io_map_err Io (read_exact (length msg)) in
  io_ret (bool_decide (buf = msg)).

Definition round_trip (tunnel : IO Script ObfsError unit) (proxy : IO Script IoError unit) (msg : bytes)
    : Test :=
  let '(r, _) := join 6 (echoes tunnel msg) proxy [] FinWait in
  ok ← awaited r; assert ok.

Definition socks5_tunnel_no_auth (echo_port : Z) : Test :=
  round_trip (tunnel_socks5 (str "127.0.0.1") echo_port None) (mock_socks5 None) (str "hello socks5").

Definition socks5_tunnel_auth_success (echo_port : Z) : Test :=
  let auth := mkProxyAuth (str "alice") (str "s3cr3t") in
  round_trip (tunnel_socks5 (str "127.0.0.1") echo_port (Some auth))
    (mock_socks5 (Some (str "alice", str "s3cr3t"))) (str "authenticated round-trip").

Definition socks5_tunnel_auth_wrong_password : Test :=
  let auth := mkProxyAuth (str "alice") (str "wrong") in
  let '(result, _) :=
    join 6 (tunnel_socks5 (str "127.0.0.1") 1234 (Some auth))
      (mock_socks5 (Some (str "alice", str "correct"))) [] FinWait in
  assert (failed result).

Definition http_connect_tunnel_no_auth (echo_port : Z) : Test :=
  round_trip (tunnel_http_connect (str "127.0.0.1") echo_port None)
    (mock_http_connect None (str "HTTP/1.1 200 Connection Established")) (str "http-connect round-trip").

Definition http_connect_tunnel_auth_success (echo_port : Z) : Test :=
  let auth := mkProxyAuth (str "bob") (str "passw0rd") in
  round_trip (tunnel_http_connect (str "127.0.0.1") echo_port (Some auth))
    (mock_http_connect (Some (str "bob", str "passw0rd")) (str "HTTP/1.1 200 Connection Established"))
    (str "authenticated http-connect").

Definition http_connect_non_200_response : Test :=
  let '(result, _) :=
    join 6 (tunnel_http_connect (str "127.0.0.1") 1234 None)
      (mock_http_connect None (str "HTTP/1.1 407 Proxy Auth Required")) [] FinWait in
  match result with
  | Ready (Err (Io e)) => assert (contains (str "407") (message e))
  | _ => None
  end.

End ProxyTests.

(** ** src/udp/handshake.rs *)

(** [sock.recv_from(&mut buf).await] and [sock.send_to(&wire, dst).await]. *)
Definition recv_from {E} : IO Net E (bytes * SocketAddr) := fun n =>
  match n_in n with
  | Got src data :: rest => (Ready (Ok (data, src)), mkNet rest (n_send n) (n_out n))
  | _ => (Pending, n)
  end.

(** Inside a task, a panic is an error. *)
Definition or_panic {A} (o : option A) : IO Net unit A :=
  match o with Some a => io_ret a | None => io_fail tt end.
Definition in_task {E A} (m : IO Net E A) : IO Net unit A := io_map_err (fun _ => tt) m.

(** The client and the spawned server task, each on a socket of its own: the
    datagrams of one reach the other, and the client's timer runs out when it
    waits and nothing new is on its way. *)
Fixpoint on_sockets {A B} (rounds : nat) (caddr saddr : SocketAddr)
    (client : IO Net unit A) (server : IO Net unit B) (evs : list NetEv) (got : nat)
    : Poll (Res unit A) * Poll (Res unit B) :=
  let '(r, c) := client (mkNet evs [] []) in
  let '(r', s) := server (mkNet ((fun d => Got caddr d.2) <$> n_out c) [] []) in
  match rounds, r with
  | S rounds, Pending =>
      match drop got (n_out s) with
      | [] => on_sockets rounds caddr saddr client server (evs ++ [Elapsed]) got
      | fresh =>
          on_sockets rounds caddr saddr client server
            (evs ++ ((fun d => Got saddr d.2) <$> fresh)) (length (n_out s))
      end
  | _, _ => (r, r')
  end.

Section UdpHandshakeTests.
Context (passthrough : DatagramMimicry) (seed_from_u64 : Z -> Rng).
Context (server_kp client_kp wrong_kp : Keypair) (ent : Entropy).
Context (caddr server_addr : SocketAddr).

Definition received : IO Net unit (DgramType * bytes * SocketAddr) :=
  let* (d, src) := recv_from in
  let* (ty, body) := or_panic (unshape_hs d passthrough) in
  io_ret (ty, body, src).

Definition processed {L} {LG : LoadGate L} (body : bytes) (src : SocketAddr) (secret : CookieSecret)
    (load_gate : L) (rng : Rng) : IO Net unit (AcceptResult * Rng) :=
  let '(result, rng) :=
    process_hs1 ent body src (kp_private server_kp) secret load_gate passthrough rng in
  let* result := or_panic (unwrap result) in
  let* result := or_panic result in
  io_ret (result, rng).

Definition sent_sealed (env : Envelope) (dst : SocketAddr) (st : DataChannel * Rng)
    : IO Net unit (DataChannel * Rng) :=
  let* (wire, st) := or_panic (sealed_with env st) in
  let* _ := in_task (net_send wire dst) in
  io_ret st.

(** The spawned task of the first test. *)
Definition interop_server : IO Net unit unit :=
  let rng := seed_from_u64 0 in
  let secret := cookie_secret_new (repeat xab 32) in
  let* (ty, body, src) := received in
  let* _ := or_panic (assert (bool_decide (ty = Hs1))) in
  let* (result, rng) := processed body src secret always_open rng in
  match result with
  | CookieReply _ => io_fail tt
  | PartialHandshake responder msg2 _ =>
      let* _ := in_task (net_send msg2 src) in
      let* (ty3, body3, _) := received in
      let* _ := or_panic (assert (bool_decide (ty3 = Hs3))) in
      let* (channel, _) := or_panic (unwrap (complete_handshake_msg3 responder body3 passthrough).1) in
      let* st := sent_sealed EPong src (channel, rng) in
      let* (d, src) := recv_from in
      let* (probe, channel) := or_panic (opened d st.1) in
      let* _ := or_panic (assert (some_ping probe)) in
      let* _ := sent_sealed EPong src (channel, st.2) in
      io_ret tt
  end.

Definition handshake_completes_and_channels_interop : Test :=
  let client :=
    let rng := seed_from_u64 1 in
    let* st := in_task (client_udp_handshake server_addr passthrough (fun _ => ent)
                          (kp_public server_kp) (kp_private client_kp) rng) in
    let* (channel, _) := sent_sealed EPing server_addr st in
    let* (d, _) := recv_from in
    let* (reply, _) := or_panic (opened d channel) in
    or_panic (assert (some_pong reply)) in
  let '(client_res, _) := on_sockets 10 caddr server_addr client interop_server [] 0 in
  awaited client_res.

(** The spawned task of the second: a cookie first, the handshake against it. *)
Definition cookie_server : IO Net unit unit :=
  let rng := seed_from_u64 0 in
  let secret := cookie_secret_new (repeat xcd 32) in
  let* (ty, body, src) := received in
  let* _ := or_panic (assert (bool_decide (ty = Hs1))) in
  let* (result, rng) := processed body src secret always_under_load rng in
  let* _ := match result with
            | CookieReply cookie_wire => in_task (net_send cookie_wire src)
            | _ => io_fail tt
            end in
  let* (ty, body, src) := received in
  let* _ := or_panic (assert (bool_decide (ty = Hs1))) in
  let* (result, rng) := processed body src secret always_under_load rng in
  match result with
  | PartialHandshake responder msg2 _ =>
      let* _ := in_task (net_send msg2 src) in
      let* (ty3, body3, _) := received in
      let* _ := or_panic (assert (bool_decide (ty3 = Hs3))) in
      let* (channel, _) := or_panic (unwrap (complete_handshake_msg3 responder body3 passthrough).1) in
      let* _ := sent_sealed EPong src (channel, rng) in
      io_ret tt
  | CookieReply _ => io_fail tt
  end.

Definition cookie_path_completes : Test :=
  let client :=
    let rng := seed_from_u64 2 in
    in_task (client_udp_handshake server_addr passthrough (fun _ => ent)
               (kp_public server_kp) (kp_private client_kp) rng) in
  let '(client_res, _) := on_sockets 10 caddr server_addr client cookie_server [] 0 in
  _ ← awaited client_res; Some tt.

(** The spawned task of the third, [n] turns of its loop; a [timeout] that runs
    out is the event [Elapsed]. *)
Fixpoint replying_server (n : nat) (secret : CookieSecret) (rng : Rng) : IO Net unit unit := fun net =>
  match n with
  | 0 => (Ready (Ok tt), net)
  | S n =>
      match n_in net with
      | [] => (Pending, net)
      | Got src d :: rest =>
          let net := mkNet rest (n_send net) (n_out net) in
          match unshape_hs d passthrough with
          | Some (Hs1, body) =>
              match process_hs1 ent body src (kp_private server_kp) secret always_open passthrough rng with
              | (Ok (Some (PartialHandshake _ reply _)), rng) | (Ok (Some (CookieReply reply)), rng) =>
                  replying_server n secret rng (net_send reply src net).2
              | (_, rng) => replying_server n secret rng net
              end
          | _ => replying_server n secret rng net
          end
      | _ :: rest => replying_server n secret rng (mkNet rest (n_send net) (n_out net))
      end
  end.

(** [MAX_HANDSHAKE_ATTEMPTS * MAX_HS_TRIES] timeouts are waited for. *)
Definition udp_wrong_server_key_fails : Test :=
  let server := replying_server 20 (cookie_secret_new (repeat xab 32)) (seed_from_u64 0) in
  let client :=
    let rng := seed_from_u64 1 in
    in_task (client_udp_handshake server_addr passthrough (fun _ => ent)
               (kp_public wrong_kp) (kp_private client_kp) rng) in
  let '(result, _) := on_sockets 40 caddr server_addr client server [] 0 in
  assert (failed result).

End UdpHandshakeTests.

(** ** src/udp/server.rs *)

Section UdpServerTests.
Context (svc : Service) (rng0 : Rng) (rotation_seed : nat -> bytes).

Definition SRC : bytes := str "203.0.113.7:51820".

(** The rotation task after [t] milliseconds of the (paused) clock, with ticks
    every 100: the [k]th tick draws [rotation_seed k]. *)
Definition ticks (from_ms to_ms : nat) : list Step :=
  (fun k => SRotate (rotation_seed k)) <$> seq (S (from_ms / 100)) (to_ms / 100 - from_ms / 100).

Context {G L : Type} {TG : TransportGate G} {LG : LoadGate L}.
Context (server_priv : bytes) (gate : G) (load : L) (profile : DatagramMimicry).

Definition after (ss : list Step) (sv : Server) : Server := run server_priv gate load profile ss sv.

Definition cookie_survives_one_rotation_but_not_two : Test :=
  let sv0 := serve_obfs_udp (repeat x11 32) rng0 svc in
  let cookie := cookie_make (cookie_secret sv0) SRC in
  let sv1 := after (ticks 0 150) sv0 in
  assert (cookie_verify (cookie_secret sv1) SRC cookie);;
  let fresh := cookie_make (cookie_secret sv1) SRC in
  assert (cookie_verify (cookie_secret sv1) SRC fresh);;
  let sv2 := after (ticks 150 250) sv1 in
  assert (negb (cookie_verify (cookie_secret sv2) SRC cookie)).

(** [task.abort()] leaves a server whose rotation task has ended. *)
Definition aborted_rotation_task_stops_rotating : Test :=
  let sv0 := serve_obfs_udp (repeat x22 32) rng0 svc in
  let sv0 := set_running (receiving sv0) false sv0 in
  let cookie := cookie_make (cookie_secret sv0) SRC in
  let sv1 := after (ticks 0 1000) sv0 in
  assert (cookie_verify (cookie_secret sv1) SRC cookie).

Definition shutdown_aborts_background_tasks : Test :=
  let handle := serve_obfs_udp (repeat x00 32) rng0 svc in
  let handle := shutdown handle in
  assert (negb (receiving handle) && negb (rotating handle)).

End UdpServerTests.

End Tests.

(** ** The run *)

Module UnitTestRuns.
Import Ref.

Definition kp (name : bytes) : Keypair := mkKeypair name (pub_of name).
Definition server_kp : Keypair := kp (str "server").
Definition client_kp : Keypair := kp (str "client").
Definition other_kp : Keypair := kp (str "other").
Definition amnezia (cfg : MimicryConfig) : MimicryProfile := junk_preamble (preamble_junk_len cfg).
Definition seeded (n : Z) : nat := Z.to_nat n.
Definition client_addr : SocketAddr := V4 x7f x00 x00 x01 40000.
Definition server_addr : SocketAddr := V4 x7f x00 x00 x01 40001.
Definition svc : RService := mkRService 0 [] x2a.
Definition rotation_seed (k : nat) : bytes := repeat (as_u8 (Z.of_nat (51 + k))) 32.
Definition ev : bytes * byte := (str "metrics.cpu", x2a).

(** The tokens of the capabilities in use: capabilities are handles here. *)
Definition reveal (c : core.(Capability)) : bytes :=
  if decide (c = x2a) then str "scope:server.logs" else [].

Definition all_tests : list Test :=
  [ roundtrip_all_types; unknown_type_returns_none; empty_input_returns_none; empty_body_roundtrips;
    always_open_not_under_load; always_under_load_test;
    allow_all_accepts_any_key; key_allow_list_accepts_known_key; key_allow_list_rejects_unknown_key;
    request_roundtrips (str "r1"); response_roundtrips ((str "r1", x01) : core.(Response));
    event_roundtrips (fun e => byte_Z e.2) (ev : core.(Event)); subscribe_roundtrips (str "server.logs");
    subscribe_with_capability_roundtrips (str "server.logs") x2a reveal;
    subscribe_error_roundtrips (str "server.logs"); ping_pong_roundtrips;
    deterministic; c2s_differs_from_s2c; same_seed_both_sides;
    seal_open_roundtrip marked seeded; out_of_order_delivery marked seeded; replay_rejected marked seeded;
    corrupted_datagram_returns_none marked seeded; junk_datagram_returns_none marked;
    handshake_completes vanilla server_kp client_kp 0 0;
    sessions_interoperate_after_handshake vanilla server_kp client_kp 0 0;
    wrong_server_key_fails vanilla server_kp client_kp other_kp 0 0;
    in_place_variants_complete vanilla server_kp client_kp 0 0;
    amnezia_preamble_shaped_handshake amnezia server_kp client_kp 0 0;
    ping_pong_roundtrip vanilla server_kp client_kp 0 0;
    request_envelope_roundtrip vanilla server_kp client_kp 0 0 (str "r1");
    eof_returns_closed vanilla server_kp client_kp 0 0;
    framed_writer_reader_vanilla_roundtrip vanilla server_kp client_kp 0 0;
    framed_writer_reader_amnezia_roundtrip vanilla amnezia server_kp client_kp 0 0;
    partial_reads_reassemble_vanilla vanilla server_kp client_kp 0 0;
    socks5_tunnel_no_auth 4242; socks5_tunnel_auth_success 4242; socks5_tunnel_auth_wrong_password;
    http_connect_tunnel_no_auth 4242; http_connect_tunnel_auth_success 4242; http_connect_non_200_response;
    handshake_completes_and_channels_interop marked seeded server_kp client_kp 0 client_addr server_addr;
    cookie_path_completes marked seeded server_kp client_kp 0 client_addr server_addr;
    udp_wrong_server_key_fails marked seeded server_kp client_kp other_kp 0 client_addr server_addr;
    cookie_survives_one_rotation_but_not_two svc 0 rotation_seed (str "k") allow_all always_open marked;
    aborted_rotation_task_stops_rotating svc 0 rotation_seed (str "k") allow_all always_open marked;
    shutdown_aborts_background_tasks svc 0 ].

(** None of them panics. *)
Lemma unit_tests_pass : Forall (fun t => t = Some tt) all_tests.
Proof. repeat (apply Forall_cons; split; [vm_compute; reflexivity|]). apply Forall_nil_2. Qed.

End UnitTestRuns.
