(* ===== verification/IntegrationTests.v ===== *)
(** * The integration tests of the repository

    The tests under [tests/], as programs over the definitions of the other
    files, in the manner of [UnitTests]: a client and a server of this crate,
    connected to each other, and a service of vaiexia-core behind the server.
    The loopback interface is run in rounds: what one end has written reaches
    the other, which then takes its turns.  A [sleep] of the test, and the time
    a [timeout] allows, are a number of such rounds.  Values made by other
    crates (key pairs, profiles, the service that [ServiceBuilder] builds,
    requests and events with the comparisons on their fields) are arguments. *)

From S2P Require Import Prelude RustStd Externals Envelope Stream Instances Framing HandshakeIo Verifier.
From S2P Require Import UdpWire DataPlane UdpHandshake UdpConnect UdpServer Socks5 HttpConnect ProxyDial.
From S2P Require Import ProxyPeers.
From S2P Require Import Server TcpServer PendingMap EventStream TopicStream Client UdpClient UnitTests.

Section IntegrationTests.
Context {WA : WireApi} {CA : CoreApi} {SA : SerdeApi} {BA : BroadcastApi} {DA : DedupApi}.

(** ** The proxies of the tests *)

Section Proxies.
Context {T : Type}.

(** [read_socks5_target] of [tests/proxy_chain.rs] and [tests/proxy_loopback.rs]. *)
Definition read_socks5_target (atyp : byte) : IO Script IoError (bytes * Z) :=
  let* host :=
    if decide (atyp = x01) then
      let* buf := read_exact 4 in
      io_ret (display_v4 (at_ buf 0) (at_ buf 1) (at_ buf 2) (at_ buf 3))
    else if decide (atyp = x03) then
      let* len_buf := read_exact 1 in
      let* name := read_exact (usize (at_ len_buf 0)) in
      if from_utf8 name then io_ret name else io_fail (io_other (str "bad hostname"))
    else if decide (atyp = x04) then
      let* buf := read_exact 16 in
      let segs := map (fun i => hex_byte (at_ buf (2 * i)) ++ hex_byte (at_ buf (2 * i + 1))) (seq 0 8) in
      io_ret (foldr (fun seg acc => match acc with [] => seg | _ => seg ++ x3a :: acc end) [] segs)
    else io_fail (io_other (str "unknown atyp")) in
  let* port_buf := read_exact 2 in
  io_ret (host, from_be_u16 (at_ port_buf 0) (at_ port_buf 1)).

(** [handle_socks5] up to its relay, with the connection to the target. *)
Definition handle_socks5 (tcp_connect : bytes -> Poll (Res IoError T)) : IO Script IoError T :=
  let* hdr := read_exact 2 in
  let* _ := read_exact (usize (at_ hdr 1)) in
  let* _ := write_all [x05; x00] in
  let* req_hdr := read_exact 4 in
  let* (target_host, target_port) := read_socks5_target (at_ req_hdr 3) in
  let* target := io_await (tcp_connect (host_port target_host target_port)) in
  let* _ := write_all [x05; x00; x00; x01; x00; x00; x00; x00; x00; x00] in
  io_ret target.

(** [handle_http_connect] of [tests/proxy_loopback.rs], up to its relay; its
    read loop is that of the proxy in the unit tests. *)
Definition handle_http_connect (tcp_connect : bytes -> Poll (Res IoError T)) : IO Script IoError T :=
  let* req_buf := read_request (Z.to_nat 8193) [] in
  let req_str := if from_utf8 req_buf then req_buf else [] in
  let first_line := default [] (lines_next req_str) in
  let target := default [] (split_whitespace first_line !! 1) in
  let* target_conn := io_await (tcp_connect target) in
  let* _ := write_all (str "HTTP/1.1 200 Connection Established" ++ CRLF ++ CRLF) in
  io_ret target_conn.

End Proxies.

Definition refused {A} : Poll (Res IoError A) := Ready (Err (io_other (str "connection refused"))).

(** ** tests/proxy_chain.rs *)

(** The hosts of a test: the echo server, and proxies that relay to a host. *)
Fixpoint host (hops : nat) (echo_addr : bytes) (proxies : list bytes) (addr : bytes)
    : Poll (Res IoError (IO Script IoError unit)) :=
  match hops with
  | 0 => refused
  | S hops =>
      if decide (addr = echo_addr) then Ready (Ok (echo 20))
      else if decide (addr ∈ proxies) then
        Ready (Ok (let* target := handle_socks5 (host hops echo_addr proxies) in target))
      else refused
  end.

(** [dial] to the first proxy, whose host is at the other end, and a message
    through the stream. *)
Definition dial_and_echo (proxy_cfg : ProxyConfig) (proxies : list bytes) (echo_port : Z) (msg : bytes)
    : Test :=
  proxy ← awaited (host 4 (host_port (str "127.0.0.1") echo_port) proxies (px_addr proxy_cfg));
  let '(r, _) := join 8 (echoes (dial_loop (hop_list proxy_cfg) (str "127.0.0.1") echo_port) msg)
                   proxy [] FinWait in
  ok ← awaited r; assert ok.

Definition single_hop_socks5_chain (proxy_addr : bytes) (echo_port : Z) : Test :=
  let proxy_cfg := mkProxyConfig Socks5 proxy_addr None [] in
  dial_and_echo proxy_cfg [proxy_addr] echo_port (str "single-hop socks5").

Definition two_hop_socks5_chain (proxy1_addr proxy2_addr : bytes) (echo_port : Z) : Test :=
  let proxy_cfg := mkProxyConfig Socks5 proxy1_addr None [mkProxyHop Socks5 proxy2_addr None] in
  dial_and_echo proxy_cfg [proxy1_addr; proxy2_addr] echo_port (str "two-hop socks5 chain").

(** ** A TCP client and server on the loopback interface *)

Section Loopback.
Context (profile : MimicryProfile) (svc : Service).
Context (server_kp client_kp : Keypair) (ent : Entropy) (rng0 : Rng).

(** Where the server listens, and what is in between: the proxy the client is
    configured with, and its part on the stream up to the relay. *)
Definition listening : bytes := str "127.0.0.1:4433".
Context (proxy : option ProxyConfig) (relay : IO Script IoError unit).

Definition dialled : IO Script ObfsError unit :=
  match proxy with
  | Some proxy_cfg => dial_loop (hop_list proxy_cfg) (str "127.0.0.1") 4433
  | None => io_ret tt
  end.

Record Loopback : Type := mkLoopback { lb_client : Client Script; lb_server : TcpServer Script }.

(** What both ends write up to the end of the handshake, and whether the
    server's end stays open. *)
Fixpoint transcripts (rounds : nat) (server_public inbox : bytes) (fin : Fin) : bytes * bytes * Fin :=
  let '(_, c) :=
    (let* _ := dialled in
     client_handshake_in_place fuel rng0 ent (kp_private client_kp) server_public profile)
      (duplex_end inbox fin) in
  let '(r, s) :=
    (let* _ := io_map_err Io relay in
     server_handshake_in_place fuel rng0 ent (kp_private server_kp) profile)
      (duplex_end (sc_out c) FinWait) in
  let fin := match r with Ready (Err _) => FinEof | _ => FinWait end in
  match rounds with
  | 0 => (sc_out c, sc_out s, fin)
  | S rounds => transcripts rounds server_public (sc_out s) fin
  end.

Definition set_stream (io : Script) (c : Client Script) : Client Script :=
  mkClient io (cl_session c) (cl_buf c) (cl_rng c) (cl_outbound c) (cl_phase c) (cl_state c)
    (cl_mux c) (cl_events c) (cl_calls c) (cl_handle c).
Definition set_conn_stream (io : Script) (c : Conn Script) : Conn Script :=
  mkConn io (cn_session c) (cn_buf c) (cn_rng c) (cn_service c) (cn_events c) (cn_forwarders c)
    (cn_status c).

(** The bytes written at each end reach the other. *)
Definition exchange (l : Loopback) : Loopback :=
  match ts_tasks (lb_server l) !! 0 with
  | Some (Serving c) =>
      let '(cio, sio) := deliver (cl_stream (lb_client l)) (cn_stream c) in
      let '(sio, cio) := deliver sio cio in
      mkLoopback (set_stream cio (lb_client l))
        (mkTcpServer (ts_handle (lb_server l)) (ts_accepting (lb_server l))
           (<[0 := Serving (set_conn_stream sio c)]> (ts_tasks (lb_server l))) (ts_service (lb_server l)))
  | _ => l
  end.

(** [serve_obfs] and [ObfsTransport::connect] to it. *)
Definition served : option (TcpServer Script) :=
  '(_, sv) ← unwrap (serve_obfs (Ok tt) (Ok (V4 x7f x00 x00 x01 4433)) svc); Some sv.

Definition connecting (server_public : bytes) : Poll (Res ObfsError (Client Script)) :=
  let '(_, s2c, fin) := transcripts rounds server_public [] FinWait in
  connect (fun _ => Ready (Ok (duplex_end s2c fin))) fuel rng0 ent rng0 listening
    (kp_private client_kp) server_public profile proxy.

(** The handshake's bytes have been read at the other end. *)
Definition drained (io : Script) : Script := mkScript (sc_chunks io) (sc_fin io) [] (sc_werr io).

Definition loopback : option Loopback :=
  sv ← served;
  client ← awaited (connecting (kp_public server_kp));
  let '(c2s, _, _) := transcripts rounds (kp_public server_kp) [] FinWait in
  let '(_, accepted) := relay (duplex_end c2s FinWait) in
  let sv := ts_run (kp_private server_kp) allow_all profile
              [TsAccept (Accepted accepted); TsHandshake 0 fuel rng0 ent rng0] sv in
  match ts_tasks sv !! 0 with
  | Some (Serving c) =>
      Some (mkLoopback (set_stream (drained (cl_stream client)) client)
              (mkTcpServer (ts_handle sv) (ts_accepting sv)
                 [Serving (set_conn_stream (drained (cn_stream c)) c)] (ts_service sv)))
  | _ => None
  end.

(** Turns of the pump and of the connection's loop, and the exchange. *)
Fixpoint settle (n : nat) (l : Loopback) : Loopback :=
  match n with
  | 0 => l
  | S n =>
      let client := cl_run profile (repeat (ClPump fuel) 4) (lb_client l) in
      let server := ts_run (kp_private server_kp) allow_all profile
                      (repeat (TsConn 0 (CTurn fuel)) 4) (lb_server l) in
      settle n (exchange (mkLoopback client server))
  end.

Definition calls (ss : list ClStep) (l : Loopback) : Loopback :=
  mkLoopback (cl_run profile ss (lb_client l)) (lb_server l).

(** [timeout(.., client.request(req)).await.expect(..).expect(..)]. *)
Definition requested (req : Request) (l : Loopback) : option (Response * Loopback) :=
  let i := length (cl_calls (lb_client l)) in
  let l := calls [ClNew req; ClSend i] l in
  let l := calls [ClPoll i] (settle 4 l) in
  match ca_stage <$> cl_calls (lb_client l) !! i with
  | Some (Finished (Ok resp)) => Some (resp, l)
  | _ => None
  end.

(** [client.subscribe(&topic)] and its stream. *)
Definition subscribed_to (capability : option Capability) (topic : Topic) (l : Loopback)
    : option (TopicStream * Loopback) :=
  let '(r, client) := subscribe capability topic (lb_client l) in
  unwrap r;; Some (topic_subscribe (cl_events client) topic, mkLoopback client (lb_server l)).

(** [event_tx.send(ev)]: the receivers are the connection's forwarders from
    this topic's source; [Err] when there is none. *)
Definition event_send (topic : Topic) (ev : Event) (l : Loopback) : bool * Loopback :=
  let fs := match ts_tasks (lb_server l) !! 0 with Some (Serving c) => cn_forwarders c | _ => [] end in
  let rxs := List.filter (fun j => match fs !! j with
                              | Some f => bool_decide (cf_topic f = topic) && negb (cf_done f)
                              | None => false
                              end) (seq 0 (length fs)) in
  (match rxs with [] => false | _ => true end,
   mkLoopback (lb_client l)
     (ts_run (kp_private server_kp) allow_all profile
        ((fun j => TsConn 0 (CForward j (SrcEvent ev))) <$> rxs) (lb_server l))).

(** [timeout(.., stream.next()).await], [None] where the time runs out. *)
Definition next (rs : TopicStream) (l : Loopback) : option (option (Res CoreError Event)) * TopicStream :=
  match topic_poll (cl_events (lb_client l)) (cl_senders (lb_client l)) rs with
  | (Ready r, rs) => (Some r, rs)
  | (Pending, rs) => (None, rs)
  end.

Definition next_event (rs : TopicStream) (l : Loopback) : option (Event * TopicStream) :=
  match next rs l with
  | (Some (Some (Ok ev)), rs) => Some (ev, rs)
  | _ => None
  end.

(** ** tests/loopback.rs *)

Definition is_connected (c : Client Script) : bool :=
  match state c with Connected => true | Down => false end.

(** [expected] is [resp.is_ok()] with [resp.value()] equal to what the handler
    returns. *)
Definition loopback_request_and_response (req : Request) (expected : Response -> bool) : Test :=
  l ← loopback;
  assert (is_connected (lb_client l));;
  '(resp, l) ← requested req l;
  assert (expected resp).

(** [same] compares the sequence numbers and the payloads. *)
Definition loopback_request_and_event (topic : Topic) (ev1 ev2 : Event) (same : Event -> Event -> bool)
    : Test :=
  l ← loopback;
  '(stream, l) ← subscribed_to None topic l;
  let l := settle 3 l in
  let '(received1, l) := event_send topic ev1 l in
  assert received1;;
  let '(received2, l) := event_send topic ev2 l in
  assert received2;;
  let l := settle 3 l in
  '(got1, stream) ← next_event stream l;
  '(got2, stream) ← next_event stream l;
  assert (same got1 ev1);; assert (same got2 ev2).

Definition connection_state_is_connected : Test :=
  l ← loopback; assert (is_connected (lb_client l)).

Definition wrong_server_key_connection_fails (wrong_kp : Keypair) : Test :=
  served;; assert (failed (connecting (kp_public wrong_kp))).

(** ** tests/loopback_mimicry.rs *)

Definition loopback_amnezia_ping_and_event (req : Request) (pong : Response -> bool) (topic : Topic)
    (ev : Event) (same : Event -> Event -> bool) : Test :=
  l ← loopback;
  '(resp, l) ← requested req l;
  assert (pong resp);;
  '(stream, l) ← subscribed_to None topic l;
  let l := settle 3 l in
  let '(received, l) := event_send topic ev l in
  assert received;;
  let l := settle 3 l in
  '(got, stream) ← next_event stream l;
  assert (same got ev).

(** ** tests/subscribe_authz.rs *)

Definition tcp_subscribe_denied_without_capability (topic : Topic) (ev : Event) : Test :=
  l ← loopback;
  '(stream, l) ← subscribed_to None topic l;
  let l := settle 3 l in
  let '(_, l) := event_send topic ev l in
  let l := settle 3 l in
  match next stream l with
  | (Some (Some (Ok _)), _) => None
  | _ => Some tt
  end.

Definition tcp_subscribe_allowed_with_capability (topic : Topic) (valid : Capability) (ev : Event)
    (same : Event -> Event -> bool) : Test :=
  l ← loopback;
  '(stream, l) ← subscribed_to (Some valid) topic l;
  let l := settle 3 l in
  let '(received, l) := event_send topic ev l in
  assert received;;
  let l := settle 3 l in
  '(got, stream) ← next_event stream l;
  assert (same got ev).

(** ** tests/proxy_loopback.rs *)

(** The two tests differ in the proxy. *)
Definition proxy_to_obfs_loopback (req : Request) (expected : Response -> bool) : Test :=
  l ← loopback;
  assert (is_connected (lb_client l));;
  '(resp, l) ← requested req l;
  assert (expected resp).

End Loopback.

Definition to_server (addr : bytes) : Poll (Res IoError unit) :=
  if decide (addr = listening) then Ready (Ok tt) else refused.

Definition proxy_socks5_to_obfs_loopback (profile : MimicryProfile) (svc : Service)
    (server_kp client_kp : Keypair) (ent : Entropy) (rng0 : Rng) (proxy_addr : bytes)
    (req : Request) (expected : Response -> bool) : Test :=
  let proxy_cfg := mkProxyConfig Socks5 proxy_addr None [] in
  proxy_to_obfs_loopback profile svc server_kp client_kp ent rng0 (Some proxy_cfg)
    (handle_socks5 to_server) req expected.

Definition proxy_http_connect_to_obfs_loopback (profile : MimicryProfile) (svc : Service)
    (server_kp client_kp : Keypair) (ent : Entropy) (rng0 : Rng) (proxy_addr : bytes)
    (req : Request) (expected : Response -> bool) : Test :=
  let proxy_cfg := mkProxyConfig HttpConnect proxy_addr None [] in
  proxy_to_obfs_loopback profile svc server_kp client_kp ent rng0 (Some proxy_cfg)
    (handle_http_connect to_server) req expected.

(** ** A UDP client and server on the loopback interface *)

Section UdpLoopback.
Context {L : Type} {LG : LoadGate L} (load : L) (profile : DatagramMimicry) (svc : Service).
Context (server_kp client_kp : Keypair) (ent : Entropy) (rng0 : Rng) (secret : bytes).
Context (caddr saddr : SocketAddr).

Record UdpLoopback : Type := mkUdpLoopback { ub_client : UdpClient; ub_server : Server }.

Definition server_run (ss : list Step) (sv : Server) : Server :=
  run (kp_private server_kp) allow_all load profile ss sv.

(** A test is over before anything it made becomes stale. *)
Definition arrival (d : bytes) (src : SocketAddr) : Step :=
  SRecv (mkAmbient ent rng0 0 0) (Some (d, src)).

(** [serve_obfs_udp] as a process on a socket. *)
Definition udp_served : IO Net unit Server := fun n =>
  let ds := omap (fun e => match e with Got src d => Some (arrival d src) | _ => None end) (n_in n) in
  let sv := server_run ds (serve_obfs_udp secret rng0 svc) in
  (Ready (Ok sv), mkNet [] (n_send n) (sent sv)).

Definition udp_connecting (server_public : bytes)
    : Poll (Res unit UdpClient) * Poll (Res unit Server) :=
  on_sockets 40 caddr saddr
    (in_task (connect_udp (Ok (Some saddr)) (Ok tt) (fun _ => ent) rng0 rng0 server_public
                (kp_private client_kp) profile))
    udp_served [] 0.

Definition udp_loopback : option UdpLoopback :=
  let '(client, server) := udp_connecting (kp_public server_kp) in
  client ← awaited client; server ← awaited server; Some (mkUdpLoopback client server).

(** The client sends what is queued; the server receives it, seals and sends
    its events; the client receives. *)
Definition udp_settle (l : UdpLoopback) : UdpLoopback :=
  let c0 := ub_client l in
  let c := uc_run saddr (repeat (UcPump (Ok [])) (length (ul_outbound c0))) c0 in
  let requests := drop (length (ul_sent c0)) (ul_sent c) in
  let sv := server_run ((fun d => arrival d.2 caddr) <$> requests) (ub_server l) in
  let sv := server_run [SSeal 0; SSeal 0; SSend; SSend] sv in
  let replies := drop (length (sent (ub_server l))) (sent sv) in
  mkUdpLoopback (uc_run saddr ((fun d => UcPump (Ok d.2)) <$> replies) c) sv.

Definition udp_calls (ss : list UcStep) (l : UdpLoopback) : UdpLoopback :=
  mkUdpLoopback (uc_run saddr ss (ub_client l)) (ub_server l).

Definition udp_requested (req : Request) (l : UdpLoopback) : option (Response * UdpLoopback) :=
  let i := length (ul_calls (ub_client l)) in
  let l := udp_calls [UcNew req; UcCall i; UcCall i] l in
  let l := udp_calls [UcCall i] (udp_settle l) in
  match uc_stage <$> ul_calls (ub_client l) !! i with
  | Some (UcFinished (Ok resp)) => Some (resp, l)
  | _ => None
  end.

Definition udp_subscribed_to (capability : option Capability) (topic : Topic) (l : UdpLoopback)
    : option (TopicStream * UdpLoopback) :=
  let '(r, client) := udp_subscribe capability topic (ub_client l) in
  unwrap r;; Some (topic_subscribe (ul_events client) topic, mkUdpLoopback client (ub_server l)).

Definition udp_event_send (topic : Topic) (ev : Event) (l : UdpLoopback) : bool * UdpLoopback :=
  let fs := forwarders (ub_server l) in
  let rxs := List.filter (fun j => match fs !! j with
                                   | Some f => bool_decide (fw_topic f = topic) && negb (fw_done f)
                                   | None => false
                                   end) (seq 0 (length fs)) in
  (match rxs with [] => false | _ => true end,
   mkUdpLoopback (ub_client l)
     (server_run ((fun j => SForward j (RecvEvent ev)) <$> rxs) (ub_server l))).

(** The handle is kept, and with it a sender. *)
Definition udp_next (rs : TopicStream) (l : UdpLoopback)
    : option (option (Res CoreError Event)) * TopicStream :=
  match topic_poll (ul_events (ub_client l)) true rs with
  | (Ready r, rs) => (Some r, rs)
  | (Pending, rs) => (None, rs)
  end.

Definition udp_next_event (rs : TopicStream) (l : UdpLoopback) : option (Event * TopicStream) :=
  match udp_next rs l with
  | (Some (Some (Ok ev)), rs) => Some (ev, rs)
  | _ => None
  end.

(** ** tests/udp_loopback.rs *)

Definition udp_loopback_passthrough_e2e (req : Request) (pong : Response -> bool) (topic : Topic)
    (ev : Event) (same : Event -> Event -> bool) : Test :=
  l ← udp_loopback;
  assert (match udp_state (ub_client l) with Connected => true | Down => false end);;
  '(resp, l) ← udp_requested req l;
  assert (pong resp);;
  '(stream, l) ← udp_subscribed_to None topic l;
  let l := udp_settle l in
  let '(received, l) := udp_event_send topic ev l in
  assert received;;
  let l := udp_settle l in
  '(got, stream) ← udp_next_event stream l;
  assert (same got ev).

(** The tests under another profile and under load. *)
Definition udp_loopback_quic_mimic_e2e (req : Request) (pong : Response -> bool) : Test :=
  l ← udp_loopback;
  '(resp, l) ← udp_requested req l;
  assert (pong resp).

Definition udp_loopback_cookie_under_load (req : Request) (is_ok : Response -> bool) : Test :=
  l ← udp_loopback;
  '(resp, l) ← udp_requested req l;
  assert (is_ok resp).

Definition udp_loopback_wrong_key_fails (wrong_kp : Keypair) : Test :=
  let '(result, _) := udp_connecting (kp_public wrong_kp) in
  assert (failed result).

(** ** tests/subscribe_authz.rs, over UDP *)

Definition udp_subscribe_denied_without_capability (topic : Topic) (ev : Event) : Test :=
  l ← udp_loopback;
  '(stream, l) ← udp_subscribed_to None topic l;
  let l := udp_settle l in
  let '(_, l) := udp_event_send topic ev l in
  let l := udp_settle l in
  match udp_next stream l with
  | (Some (Some (Ok _)), _) => None
  | _ => Some tt
  end.

Definition udp_subscribe_allowed_with_capability (topic : Topic) (valid : Capability) (ev : Event)
    (same : Event -> Event -> bool) : Test :=
  l ← udp_loopback;
  '(stream, l) ← udp_subscribed_to (Some valid) topic l;
  let l := udp_settle l in
  let '(received, l) := udp_event_send topic ev l in
  assert received;;
  let l := udp_settle l in
  '(got, stream) ← udp_next_event stream l;
  assert (same got ev).

End UdpLoopback.

End IntegrationTests.

(** ** The run *)

Module IntegrationRuns.
Import Ref RefBroadcast RefDedup UnitTestRuns.

(** Services whose verifier allows everything, and the gated one. *)
Definition open_svc : RService := mkRService 0 [str "metrics.cpu"] x00.
Definition gated_svc : RService := mkRService 0 [str "server.logs"] x2a.
Definition token : core.(Capability) := x2a.

Definition same (a b : core.(Event)) : bool := bool_decide (a = b).
Definition cpu (n : byte) : core.(Event) := (str "metrics.cpu", n).
Definition log (n : byte) : core.(Event) := (str "server.logs", n).
Definition replied (resp : core.(Response)) : bool := bool_decide (resp = (str "r1", x00)).

Definition amnezia23 : MimicryProfile :=
  amnezia (mkMimicryConfig [xde; xad; xbe; xef] 23 128 (0, 2)%Z).
Definition plain : DatagramMimicry := {|
  shape_out := fun inner rng => (inner, rng); shape_in := Some |}.

(** The tests of the two transports. *)
Definition tcp_tests : list Test :=
  [ loopback_request_and_response vanilla open_svc server_kp client_kp 0 0 None (io_ret tt) (str "r1") replied;
    loopback_request_and_event vanilla open_svc server_kp client_kp 0 0 None (io_ret tt) (str "metrics.cpu")
      (cpu x01) (cpu x02) same;
    connection_state_is_connected vanilla open_svc server_kp client_kp 0 0 None (io_ret tt);
    wrong_server_key_connection_fails vanilla open_svc server_kp client_kp 0 0 None (io_ret tt) other_kp;
    loopback_amnezia_ping_and_event amnezia23 open_svc server_kp client_kp 0 0 None (io_ret tt) (str "r1") replied
      (str "metrics.cpu") (cpu x01) same;
    tcp_subscribe_denied_without_capability vanilla gated_svc server_kp client_kp 0 0 None (io_ret tt)
      (str "server.logs") (log x01);
    tcp_subscribe_allowed_with_capability vanilla gated_svc server_kp client_kp 0 0 None (io_ret tt)
      (str "server.logs") token (log x2a) same;
    proxy_socks5_to_obfs_loopback vanilla open_svc server_kp client_kp 0 0 (str "127.0.0.1:1080")
      (str "r1") replied;
    proxy_http_connect_to_obfs_loopback vanilla open_svc server_kp client_kp 0 0 (str "127.0.0.1:8080")
      (str "r1") replied;
    single_hop_socks5_chain (str "127.0.0.1:1080") 4242;
    two_hop_socks5_chain (str "127.0.0.1:1080") (str "127.0.0.1:1081") 4242 ].

Definition key : bytes := repeat x5e 32.

Definition udp_tests : list Test :=
  [ udp_loopback_passthrough_e2e always_open plain open_svc server_kp client_kp 0 0 key client_addr
      server_addr (str "r1") replied (str "metrics.cpu") (cpu x01) same;
    udp_loopback_quic_mimic_e2e always_open marked open_svc server_kp client_kp 0 0 key client_addr
      server_addr (str "r1") replied;
    udp_loopback_cookie_under_load always_under_load plain open_svc server_kp client_kp 0 0 key
      client_addr server_addr (str "r1") replied;
    udp_loopback_wrong_key_fails always_open plain open_svc server_kp client_kp 0 0 key client_addr
      server_addr other_kp;
    udp_subscribe_denied_without_capability always_open plain gated_svc server_kp client_kp 0 0 key
      client_addr server_addr (str "server.logs") (log x01);
    udp_subscribe_allowed_with_capability always_open plain gated_svc server_kp client_kp 0 0 key
      client_addr server_addr (str "server.logs") token (log x63) same ].

(** The tests of the repository, the unit tests in its source
    files and the integration tests of a client and a server connected to each
    other over both transports, with and without proxies, all pass when they
    are run on the definitions of this development with the reference instance
    of the external crates: none panics. *)
Lemma tests_pass : Forall (fun t => t = Some tt) (all_tests ++ tcp_tests ++ udp_tests).
Proof.
  apply Forall_app. split; [apply unit_tests_pass|].
  repeat (apply Forall_cons; split; [vm_compute; reflexivity|]). apply Forall_nil_2.
Qed.

End IntegrationRuns.
